(* ===== verification/_CoqProject ===== *)
-Q . S2P
Prelude.v
GoFmt.v
Ldap.v
Sim.v
Acl.v
Client.v
Fixtures.v
Session.v
Retry.v
Search.v
Auth.v
Safety.v
Machine.v
Steps.v
Pool.v
Threads.v
Races.v
Conform.v
Handles.v
Readers.v
Provenance.v
Budget.v
Filter.v
Directory.v
Slices.v
Logging.v
Scoping.v
Load.v
Appends.v
