(* ===== verification/Prelude.v ===== *)
(** * A verified model of the go-ldap-client facade

    The program ([src/ldap-client.go], package [ldap]) is one struct,
    [LDAPClient], with six methods: [Connect], [Close], [SearchUser],
    [Authenticate], [GetGroupsOfUser] and [FindUsers].  It owns one lazily
    created session ([lc.Conn]) to a directory server and drives it through
    the collaborator library [gopkg.in/ldap.v2] ([Dial], [DialTLS],
    [StartTLS], [Bind], [Search], [Close]) and through [fmt.Sprintf],
    [log.Printf] and [time.Sleep].

    ** Files

    - [Prelude] (this file): 64-bit integers with their wrap-around, the
      monad [Go] in which method bodies are written (state passing, Go's
      early [return], and panics), its weakest-precondition calculus, the
      rewrite database [go] and the tactics the other files share.
    - [GoFmt]: the two uses the program makes of [fmt.Sprintf]: the constant
      format ["%s:%d"] of [Connect], and a caller-supplied template applied
      to one string.  The reference semantics [sprintf1] covers the
      directives [%s], [%v], [%%], a trailing [%], a missing and an extra
      operand, and answers [None] on any other directive; the class
      [Formatter] states that the formatter in use agrees with it.
    - [Ldap]: what the program sees of [crypto/tls] and [gopkg.in/ldap.v2]:
      [tls.Config], the search request and result records, [Entry] with
      [GetAttributeValue], error values, and the class [Backend] of
      directory sessions, with the laws of the library the client relies on
      (an upgraded or TLS-dialled session is encrypted and stays so; a
      closed session stays closed and refuses requests).
    - [Sim]: an executable directory server (accounts, entries stored per
      filter, scripted search failures, an optional limit on binds) that
      discharges the [Backend] laws; the concrete inputs of the development
      run on it.
    - [Acl]: the same server behind an access-control list that shows
      entries to sessions bound as a reader only; it keeps the laws too.
    - [Client]: the program itself.  [LDAPClient] is the struct, [state] is
      the receiver together with the world behind the collaborator and the
      trace of collaborator calls; each method is one definition in [Go],
      statement by statement, with the guards and early returns of the
      source; the three copies of the first search and its retry loop are
      one definition, [search_with_retry], over [retry_loop].
    - [Fixtures]: a directory, servers (healthy, busy, limiting binds,
      unreachable, without TLS) and client configurations on the simulated
      backend: the inputs the theorems are applied at.
    - [Session]: [Connect] and [Close]: every branch with the state and the
      trace it leaves, what a failed upgrade leaves behind, what [Close]
      leaves in [lc.Conn]; the preorder [evolves] (what any method may do
      to a state) and the contract [Connect_post] the other methods are
      verified against.
    - [Retry]: the loop: its equation, fuel adequacy, the number of
      searches and the sleeps it makes, on every branch.
    - [Search]: [SearchUser], [GetGroupsOfUser], [FindUsers]: the loops
      that build the results, the filter sent, the result on every branch,
      errors included; for each method a specification as a relation
      ([SearchUser_spec], ...) and the theorem that the method implements
      it; how [FindUsers] relates to [SearchUser]; a search on a closed
      session.
    - [Auth]: [Authenticate]: every branch, its specification
      [Authenticate_spec] and the refinement theorem, and what the
      returned boolean entitles a caller to conclude.
    - [Safety]: the exported methods as the steps of a transition system
      ([api_step]) and what holds along every sequence of calls: no call
      panics, the configuration is never written, a stored session is never
      replaced and nothing is dialled while one is stored, the stored
      session is encrypted.
    - [Machine]: the phases of a client (unconnected, connected, closed)
      and the state machine of the session the code implements, with the
      theorem that every call is one of its transitions.
    - [Steps]: the six method bodies once more, as programs ([prog]) that
      stop at every access to what callers share: a load ([AGetConn]) or a
      store ([ASetConn]) of [lc.Conn], and every call of a collaborator.
      [Connect_steps], [SearchUser_steps], ... follow the source statement
      by statement and load [lc.Conn] at every use, as the code does;
      [exec] runs a program without interruption, and
      [api_steps_sequential] shows that this is the method of [Client].
    - [Pool]: several callers on one client: a pool of threads, each a
      body of accesses, and a schedule that names the thread that makes
      its next access ([pool_step], [run_schedule]).  What threads keep
      under every schedule is proved once, for a [discipline]: what a
      thread knows where it stands, the accesses it may make then, and
      what it knows after each answer; [obeys] follows a body along every
      possible answer down to what it promises of its result.
      [Sequential] and [Concurrent] say when a discipline is sound for the
      shared state, [exec_obeys] and [run_schedule_obeys] are the two
      theorems of the logic, [both] keeps two disciplines at once, [flag]
      is the discipline of a thread that knows whether a session is
      stored, and [within] bounds the accesses of a thread.
    - [Threads]: the pool of the calls of a client ([api_pool]), the
      tactics that follow every branch of a body ([prog_cases]), and what
      the [flag] discipline gives under every schedule; callers that take
      turns ([serial]).
    - [Races]: the data race of two [Connect]s on [lc.Conn], its absence
      once a session is stored, and the race on the bind state of the
      shared session.
    - [Conform]: the type of the traces a client configured in a given way
      produces ([well_formed]), kept under every interleaving and along
      every sequence of calls.
    - [Handles]: two disciplines of threads that keep track of session
      handles, sound for every backend that keeps the laws of the
      library: [encrypting] (a thread stores only a session it knows to
      be encrypted), [holding] (a thread uses only the handles it loaded)
      and [refusing] (on a closed session every search and bind of a
      thread fails).
    - [Readers]: lookups on a directory that searches leave as it is: the
      states that differ in the trace only ([same_view], an equivalence
      the accesses respect), what a thread will return when every access
      is answered as at the start ([peek]), and the independence of
      concurrent lookups.
    - [Provenance]: a discipline of threads that keep the history of
      their own accesses ([witnessed]), and what that history vouches for
      in the result of each call ([vouched]).
    - [Budget]: what the events of a trace are charged on two meters, the
      time slept and the searches sent ([total]), and the budget the
      history of a call stays within ([thrifty]).
    - [Filter]: the syntax of search filters: the compiled form
      ([ldap_filter]), the library's [CompileFilter], [DecompileFilter]
      and [EscapeFilter], their round trip, and templates with a hole
      filled with a value or with a pattern ([template], [fill],
      [fill_pattern]); what the text the client builds with [fmt.Sprintf]
      compiles to.
    - [Directory]: the evaluation of a compiled filter on an entry
      ([matches]) and a server that answers a search with the entries its
      filter selects (module [dir], an instance of [Backend] that keeps
      the laws); [SearchUser], [Authenticate], [FindUsers] and
      [GetGroupsOfUser] against the content of the directory.
    - [Slices]: the memory behind the lists and maps of [Client]: arrays
      on a heap, a [slice] as array, offset, length and capacity,
      [go_append] with its two cases (a write in place when the slice has
      room, a copy to a new array when it has none), maps as cells of a
      store ([make_map], [map_assign]); over it the statements of the
      source that build slices and maps: [Authenticate_attributes]
      (line 126), [new_user] (lines 103-106, 150-153),
      [GetGroupsOfUser_groups] (lines 199-202) and [FindUsers_users]
      (lines 238-245).
    - [Logging]: [fmt.Sprintf] on the operands the program prints
      ([value]: strings, integers, booleans, slices, a pointer to a
      struct) under [%s], [%d] and [%v] ([fmt_value], [sprintf]), and the
      text of the line [log.Printf] writes before a retry sleeps
      ([log_line], [log_lines]).
    - [Scoping]: the type of the traces in which every session worked on
      was given before ([scoped]), and the discipline of threads that
      use the handles they loaded or dialled and no other ([scoping]).
    - [Load]: what the callers of a client spend together: the budget a
      body affords whatever it is answered ([affords]), with the rules
      that add the budgets of a body and of what follows it
      ([affords_bind]), and the account of a pool, in which the budgets
      of the threads and what the trace was charged add up to what the
      pool started with ([pool_step_affords]).
    - [Appends]: callers that run [append(lc.Attributes, "dn")] at
      once: the statement as a thread that stops at every access to
      memory other callers can reach ([append_step]: the store behind the
      slice, or the loads of the copy and the publication of the new
      array), and the pool of such threads under a schedule
      ([run_appends]).

    ** What the theorems show

    Branch theorems ([Connect_plain_ok], [SearchUser_found],
    [Authenticate_wrong_password], ...) give, under hypotheses that say
    what each primitive of the library answered, the value the method
    returns, the state it leaves and the events it added.  Refinement
    theorems ([SearchUser_refines], [Authenticate_refines], ...) state
    that the specification relation of a method is exactly the graph of
    the method; since the relations are total, the methods always return.
    Invariants ([session_kept], [session_encrypted]) are proved by
    induction on sequences of calls, and [api_run_phase] is a simulation
    of the calls by the session machine.  Theorems with hypotheses are
    applied, in lemmas named [..._witness], to the servers and clients of
    [Fixtures], where every definition evaluates.

    For callers that share a client, [api_steps_sequential] and
    [serial_is_sequential] tie the programs of [Steps] and the serial
    schedules of [Threads] to the sequential model, so that everything
    proved of the methods is true of callers that take turns.  Under
    every schedule, [interleaving_no_panic] shows that no call panics,
    [interleaving_session_kept] and [connected_race_free] that a stored
    session is only ever loaded, [interleaving_wait_free] that a call
    returns within twelve accesses of its own, and
    [interleaving_conforms] that the trace keeps its type.  Each is an
    instance of [run_schedule_obeys]: the body of every call obeys a
    discipline, by following its branches, and the discipline is sound
    for the state.  In the same way [interleaving_session_encrypted]
    shows that the stored session is encrypted under every schedule,
    [interleaving_closed_refused] that a call that starts after the
    session was closed, by whichever caller, is refused while [Connect]
    reports success (the calls under way change discipline when the
    session is closed: [holding_pool_refusing]), and
    [interleaving_Authenticate_sound] that [Authenticate] answers [true]
    only after a bind the directory accepted, as the entry a search of
    the same call found, with the password of the same call
    ([interleaving_vouched] says as much of the data every method
    returns).  [lookups_independent] is the converse of the races: calls
    that only search get, under every schedule, what they get alone.
    [Connect_race] and [bind_state_race] are the two ways in which
    sharing goes wrong: both are runs of the model, the first on every
    backend whose dials and upgrades succeed, the second on the server of
    [Acl].  [api_run_budget] bounds what one call spends: three seconds
    of sleep and two searches; [interleaving_thrifty] is the same bound
    on the accesses of each call among callers that interleave.

    [userSearchRequest_roundtrip] reads the filter text back: for a
    template that is a filter with a hole and a user name free of the
    characters of the filter syntax, the text sent compiles to the
    template filled with the name.  [template_escaped] is the same for
    every name once it went through [EscapeFilter], which the client does
    not call; [injection_star] and [injection_conjunct] show what a name
    with a star or a parenthesis compiles to instead.
    [SearchUser_directory] composes the client, the formatter, the
    compiler of filters and the server: on a directory that evaluates
    filters the result of a lookup is determined by the entries that
    match the template filled with the name.  [Authenticate_directory]
    does the same for authentication: the boolean returned is true
    exactly when one entry matches and the password given is that of
    the account of the entry.  [FindUsers_directory] does it for a search
    term with stars: the term is a pattern ([fill_pattern]), and the
    users returned are those of the entries the pattern selects.

    The theorems of [Slices] justify the lists and maps of [Client].
    [Authenticate_attributes_spec] says what every slice shows after
    [append(lc.Attributes, "dn")]: the result shows the attributes of
    the request of [authSearchRequest], the configured slice shows what
    it did, and a slice of the caller that reaches behind the configured
    one reads ["dn"] where the append wrote in place
    ([Authenticate_attributes_spec_witness] is a caller who configures
    the two first of three attributes and loses the third);
    [Authenticate_attributes_again] shows that the requests of later
    calls leave an earlier one intact, and [appends_interleaving] that
    callers who run the statement at once, interleaved access by access,
    each get a slice that shows the attributes and ["dn"]: their stores
    hit one cell that none of them loads, with one value
    ([append_race_room] is the data race they are all the same, and
    [append_alone] shows that a thread alone does what [go_append]
    does).  [FindUsers_users_refines] and
    [GetGroupsOfUser_groups_refines] show that the loops return slices
    that show [users_of_entries] and [groups_of_entries], that every
    user is a map of its own, and that no array and no map that was
    there is written.  In [Logging], [sprintf1_sprintf] and
    [sprintf_address] tie the general formatter to the two of [GoFmt],
    [log_line_retrying] computes the line of a retry, and [api_run_log]
    shows that every line a call logs is that line with the counter at
    three: the integers and the boolean of the request appear as reports
    of a bad verb, the filter with the name the caller gave as it is.
    [interleaving_scoped] shows that under every schedule the client
    upgrades, binds, searches and closes only sessions it found stored
    or dialled itself.  [interleaving_load] is the budget of a pool: the
    calls of [n] callers, interleaved in any way, sleep [3 n] seconds at
    most in all and send [2 n] searches at most; it follows from the
    budget of each body ([api_steps_affords], by the rules of [Load]
    from the budgets of [Connect_steps] and [search_steps]) and from the
    account of the pool ([run_schedule_affords]).

    ** How the model corresponds to the code

    A method body of type [Go St R Empty_set] is run by [run]; its result
    is what the Go method returns ([None] would be a panic, and [Safety]
    shows there is none).  [let* x := m in k] is sequencing, [Return r] is
    Go's [return r] and skips the rest of the body, [call f] is a method
    call, [deref] is the dereference of [lc.Conn] (a panic on [nil]).
    Pointers are [option]: [lc.Conn = nil] is [None], a [nil] map or slice
    result is [None], an allocated empty one is [Some ∅] or [Some []].
    A Go [error] is [option error], [nil] being [None].  Go maps are
    [gmap string string] and slices are lists in [Client]; [Slices] has
    the memory behind them, where a slice is a window on an array that
    other slices may share and a map is a reference, and shows that the
    lists and maps of [Client] are what the windows and the references
    show.  [int] is [Z]; where the code computes with it
    ([retry++], [time.Second * time.Duration(retry)]) the result is wrapped
    to 64 bits by [wrap64].

    A pair [(sr, err)] returned by [Search] is a sum [error + SearchResult]:
    the program never reads [sr] when [err] is not nil.

    The trace is ghost state: every collaborator call appends one event
    with its arguments and whether it succeeded, so that statements such as
    "exactly one dial" or "the sleeps were 3s" are statements about a list.
    The event of a [log.Printf] keeps the format, the request and the
    counter it is given; [log_line] of [Logging] is the text written for
    it, after the prefix of the logger, which is a parameter.

    The methods are generic in the formatter ([Formatter]) and in the
    backend ([ldap.Backend]): the theorems hold for every implementation
    of the two interfaces, and the invariants that speak of encryption and
    of closed sessions for every backend that keeps [ldap.BackendLaws].

    In [Steps] a method body is a tree of accesses: [act a] is one access,
    [x ← p; k] is sequencing, [Ret r] is [return r], [Panic] is a nil
    dereference, and [load_Conn] is the load of [lc.Conn] with its
    dereference.  The fields of the configuration are read without an
    access, since no method writes them.  A thread of [Pool] is such a
    tree; one step of a thread is one access, which is atomic, and a
    schedule is any list of thread indices (an index whose thread has
    returned is skipped), so the interleavings are those of a
    sequentially consistent memory.  In a pool of calls the thread at an
    index runs the call at that index, which is the tag that says what
    the thread promises of its result.

    ** Fuel and bounds

    [retry_loop] recurses on a fuel argument.  The methods pass
    [retry_fuel retry = Z.to_nat (4 - retry)], the number of values the
    counter can take before [retry <= 3] fails; [Retry] proves that this
    fuel is never exhausted while the loop condition holds, that more fuel
    changes nothing, and that the definition satisfies the equation of the
    [for] loop.  [retry_loop_steps] takes the same fuel.  The bound of
    twelve accesses per call ([within], [api_steps_within]) is that of the
    longest body, [Authenticate] on a fresh client: four accesses of
    [Connect] and a load and a call for each of two binds, the search and
    the rebind; [serial] schedules every thread twelve times for that
    reason.  The budget of a call ([api_steps_thrifty]) is three seconds
    and two searches: the first search and the one retry the loop makes
    from [retry := 3], with its one sleep; a server that refuses one
    search spends it to the last ([retried_spent]).  [parse] in [Filter] takes the length of the text as fuel for
    the nesting of filters and for the length of their lists; a filter is
    less deep than its text is long ([height_length]), so the fuel is
    enough for every text that is the text of a filter.  [go_append]
    takes the growth policy of the runtime as a parameter [grow] and
    allocates at least one cell more than the slice shows, whatever
    [grow] says, so the theorems of [Slices] hold for every policy; the
    concrete inputs use [double].

    ** Not modelled

    A call on a nil receiver (every method reads a field of [lc] first
    and panics there): the receiver of the model is a client.  The wire
    protocol, TLS, DNS and sockets (behind [Backend]); of the
    filter syntax the comparisons [>=], [<=], [~=] and extensible matches
    (they do not compile); the matching rules of attribute types
    ([matches] compares values byte by byte), the base and the scope of a
    search and the selection of attributes by the server (the server of
    [Directory] answers whole entries from one list); formatting
    directives with flags, width or precision and the verbs [%q], [%x],
    [%X] ([sprintf1] and [sprintf] answer [None]), operands with methods
    of their own ([String], [Error], [Format]) and pointers below the
    top of an operand; the date and the time the logger writes before a
    line (the prefix is a parameter of [log_line]) and the stream it
    writes to; the passage of time (a sleep is an event with its
    duration, and [Budget] adds the durations up); what the Go memory
    model allows a program with a data race beyond the interleaving of
    its accesses (torn or reordered loads and stores of [lc.Conn]), and
    concurrency inside the session library (each of its calls is one
    atomic step); the size classes of the allocator, which round the
    capacity [go_append] asks for, and the collection of arrays and maps
    nobody refers to any more; the write of [append(lc.Attributes, "dn")]
    as an access of the threads of [Steps]: there the configuration is
    read without an access, and the statement is interleaved on its own
    in [Appends], where a store or a load of a cell is atomic. *)

From stdpp Require Import base tactics option list strings.
From Stdlib Require Import ZArith Lia.

#[local] Open Scope Z_scope.

Declare Scope go_scope.
Delimit Scope go_scope with go.

(** ** 64-bit integers *)

Definition int64_lo : Z := -9223372036854775808.
Definition int64_hi : Z := 9223372036854775807.

(** The range of Go's [int64] (and of [int] on 64-bit platforms). *)
Definition in_int64 (z : Z) : Prop := int64_lo ≤ z ≤ int64_hi.

(** Two's-complement wrap-around of an arithmetic result. *)
Definition wrap64 (z : Z) : Z := (z - int64_lo) `mod` 2 ^ 64 + int64_lo.

#[export] Instance in_int64_dec z : Decision (in_int64 z).
Proof. unfold in_int64. apply _. Defined.

(** ** Outcomes and the monad of Go method bodies *)

(** A statement either falls through with a value, executes [return r],
    or panics. *)
Inductive outcome (R A : Type) : Type :=
| Normal (a : A)
| Returned (r : R)
| Panicked.
Arguments Normal {R A} a.
Arguments Returned {R A} r.
Arguments Panicked {R A}.

Definition Go (St R A : Type) : Type := St → outcome R A * St.

(** [p == nil] and [p != nil] on a pointer, an [error], a map or a slice. *)
Definition is_nil {A} (p : option A) : bool :=
  match p with None => true | Some _ => false end.
Definition not_nil {A} (p : option A) : bool := negb (is_nil p).

(** [err != nil] on the pair [(value, err)] a fallible call returns. *)
Definition failed {E A} (r : E + A) : bool :=
  match r with inl _ => true | inr _ => false end.

Section monad.
Context {St R : Type}.

Definition ret {A} (a : A) : Go St R A := λ s, (Normal a, s).

Definition bind {A B} (m : Go St R A) (k : A → Go St R B) : Go St R B :=
  λ s, match m s with
       | (Normal a, s') => k a s'
       | (Returned r, s') => (Returned r, s')
       | (Panicked, s') => (Panicked, s')
       end.

(** Go's [return r]. *)
Definition Return {A} (r : R) : Go St R A := λ s, (Returned r, s).

Definition panic {A} : Go St R A := λ s, (Panicked, s).

Definition get : Go St R St := λ s, (Normal s, s).
Definition gets {A} (f : St → A) : Go St R A := λ s, (Normal (f s), s).
Definition put (s' : St) : Go St R unit := λ _, (Normal tt, s').
Definition modify (f : St → St) : Go St R unit := λ s, (Normal tt, f s).

(** [if b { body }] with no [else]. *)
Definition when (b : bool) (body : Go St R unit) : Go St R unit :=
  if b then body else ret tt.

(** Dereference of a pointer: a panic on [nil]. *)
Definition deref {A} (p : option A) : Go St R A :=
  match p with Some a => ret a | None => panic end.

(** [l[i]]: a panic out of range. *)
Definition index {A} (l : list A) (i : nat) : Go St R A := deref (l !! i).
End monad.

(** A call [f(...)]: the callee runs to its [return]; what it returns is
    the value of the call.  A body that falls off its end cannot be
    written: its value type is empty. *)
Definition call {St R R'} (f : Go St R' Empty_set) : Go St R R' :=
  λ s, match f s with
       | (Returned r, s') => (Normal r, s')
       | (Normal e, _) => match e with end
       | (Panicked, s') => (Panicked, s')
       end.

(** Running a method from the outside: [None] is a panic. *)
Definition run {St R} (f : Go St R Empty_set) (s : St) : option R * St :=
  match f s with
  | (Returned r, s') => (Some r, s')
  | (Normal e, _) => match e with end
  | (Panicked, s') => (None, s')
  end.

Notation "'let*' x ':=' m 'in' k" := (bind m (λ x, k))
  (at level 10, x pattern, m at level 100, k at level 200,
   format "'[v' 'let*'  x  ':='  m  'in' '/' k ']'") : go_scope.
Notation "'do*' m 'in' k" := (bind m (λ _, k))
  (at level 10, m at level 100, k at level 200,
   format "'[v' 'do*'  m  'in' '/' k ']'") : go_scope.
Notation "'if*' b 'then' m 'in' k" := (bind (when b m) (λ _, k))
  (at level 10, b at level 100, m at level 100, k at level 200,
   format "'[v' 'if*'  b  'then'  m  'in' '/' k ']'") : go_scope.

(** Extensional equality of computations. *)
#[export] Instance go_equiv {St R A} : Equiv (Go St R A) :=
  λ m1 m2, ∀ s, m1 s = m2 s.

(** ** Weakest preconditions

    [wp m Q E s]: from [s], [m] does not panic; if it falls through with
    [a] in [s'] then [Q a s'], and if it returns [r] in [s'] then [E r s']. *)
Definition wp {St R A} (m : Go St R A)
    (Q : A → St → Prop) (E : R → St → Prop) (s : St) : Prop :=
  match m s with
  | (Normal a, s') => Q a s'
  | (Returned r, s') => E r s'
  | (Panicked, _) => False
  end.

(** The postcondition of a method: it returns, and [E] holds of what it
    returns. *)
Definition returns {St R} (f : Go St R Empty_set) (E : R → St → Prop) (s : St) : Prop :=
  wp f (λ _ _, False) E s.

(** ** Integers *)

Lemma wrap64_small z : in_int64 z → wrap64 z = z.
Proof.
  unfold in_int64, wrap64, int64_lo, int64_hi. intros Hz.
  rewrite Z.mod_small; lia.
Qed.

Lemma wrap64_range z : in_int64 (wrap64 z).
Proof.
  unfold in_int64, wrap64, int64_lo, int64_hi.
  pose proof (Z.mod_pos_bound (z - -9223372036854775808) (2 ^ 64)). lia.
Qed.

Lemma wrap64_idemp z : wrap64 (wrap64 z) = wrap64 z.
Proof. apply wrap64_small, wrap64_range. Qed.

(** ** Monad laws, up to extensional equality *)

#[export] Instance go_equivalence {St R A} : Equivalence (≡@{Go St R A}).
Proof.
  split.
  - by intros m s.
  - by intros m1 m2 H s.
  - intros m1 m2 m3 H1 H2 s. by rewrite H1.
Qed.

#[export] Instance bind_proper {St R A B} :
  Proper ((≡) ==> pointwise_relation A (≡) ==> (≡)) (@bind St R A B).
Proof.
  intros m1 m2 Hm k1 k2 Hk s. unfold bind. rewrite Hm.
  destruct (m2 s) as [[a|r|] s']; [apply Hk|done..].
Qed.

#[export] Instance call_proper {St R R'} : Proper ((≡) ==> (≡)) (@call St R R').
Proof. intros f1 f2 Hf s. unfold call. by rewrite Hf. Qed.

#[export] Instance wp_proper {St R A} :
  Proper ((≡) ==> (=) ==> (=) ==> (=) ==> iff) (@wp St R A).
Proof. intros m1 m2 Hm Q ? <- E ? <- s ? <-. unfold wp. by rewrite Hm. Qed.

Section laws.
Context {St R : Type}.
Implicit Types s : St.

Lemma bind_ret_l {A B} (a : A) (k : A → Go St R B) : bind (ret a) k ≡ k a.
Proof. done. Qed.

Lemma bind_ret_r {A} (m : Go St R A) : bind m ret ≡ m.
Proof. intros s. unfold bind. by destruct (m s) as [[]]. Qed.

Lemma bind_assoc {A B C} (m : Go St R A) (k : A → Go St R B) (h : B → Go St R C) :
  bind (bind m k) h ≡ bind m (λ a, bind (k a) h).
Proof. intros s. unfold bind. by destruct (m s) as [[]]. Qed.

(** Nothing runs after a [return] or a panic. *)
Lemma bind_Return {A B} (r : R) (k : A → Go St R B) : bind (Return r) k ≡ Return r.
Proof. done. Qed.

Lemma bind_panic {A B} (k : A → Go St R B) : bind panic k ≡ panic.
Proof. done. Qed.

Lemma when_true (body : Go St R unit) : when true body = body.
Proof. done. Qed.

Lemma when_false (body : Go St R unit) : when false body = ret tt.
Proof. done. Qed.

(** One-step evaluation of [bind], for rewriting at a known state. *)
Lemma bind_Normal {A B} (m : Go St R A) (k : A → Go St R B) s a s' :
  m s = (Normal a, s') → bind m k s = k a s'.
Proof. unfold bind. by intros ->. Qed.

Lemma bind_Returned {A B} (m : Go St R A) (k : A → Go St R B) s r s' :
  m s = (Returned r, s') → bind m k s = (Returned r, s').
Proof. unfold bind. by intros ->. Qed.

Lemma bind_Panicked {A B} (m : Go St R A) (k : A → Go St R B) s s' :
  m s = (Panicked, s') → bind m k s = (Panicked, s').
Proof. unfold bind. by intros ->. Qed.

Lemma call_Returned {R'} (f : Go St R' Empty_set) s r s' :
  f s = (Returned r, s') → @call St R R' f s = (Normal r, s').
Proof. unfold call. by intros ->. Qed.

Lemma run_Returned (f : Go St R Empty_set) s r s' :
  f s = (Returned r, s') ↔ run f s = (Some r, s').
Proof.
  unfold run. destruct (f s) as [[[]|r0|] s0]; split; intros; by simplify_eq.
Qed.

End laws.

Lemma call_run {St R R'} (f : Go St R' Empty_set) (s : St) r s' :
  run f s = (Some r, s') → @call St R R' f s = (Normal r, s').
Proof. intros H. apply call_Returned. by apply run_Returned. Qed.

(** ** Rules of the weakest-precondition calculus *)

Section wp_rules.
Context {St R : Type}.
Implicit Types s : St.

Lemma wp_ret {A} (a : A) (Q : A → St → Prop) (E : R → St → Prop) s :
  Q a s → wp (ret a) Q E s.
Proof. done. Qed.

Lemma wp_Return {A} (r : R) (Q : A → St → Prop) (E : R → St → Prop) s :
  E r s → wp (Return r) Q E s.
Proof. done. Qed.

Lemma wp_bind {A B} (m : Go St R A) (k : A → Go St R B) Q (E : R → St → Prop) s :
  wp m (λ a, wp (k a) Q E) E s ↔ wp (bind m k) Q E s.
Proof. unfold wp, bind. by destruct (m s) as [[]]. Qed.

Lemma wp_mono {A} (m : Go St R A) (Q Q' : A → St → Prop) (E E' : R → St → Prop) s :
  (∀ a s', Q a s' → Q' a s') → (∀ r s', E r s' → E' r s') →
  wp m Q E s → wp m Q' E' s.
Proof. unfold wp. intros HQ HE. destruct (m s) as [[]]; auto. Qed.

Lemma wp_get (Q : St → St → Prop) (E : R → St → Prop) s :
  Q s s → wp get Q E s.
Proof. done. Qed.

Lemma wp_gets {A} (f : St → A) (Q : A → St → Prop) (E : R → St → Prop) s :
  Q (f s) s → wp (gets f) Q E s.
Proof. done. Qed.

Lemma wp_put s' (Q : unit → St → Prop) (E : R → St → Prop) s :
  Q tt s' → wp (put s') Q E s.
Proof. done. Qed.

Lemma wp_modify (f : St → St) (Q : unit → St → Prop) (E : R → St → Prop) s :
  Q tt (f s) → wp (modify f) Q E s.
Proof. done. Qed.

Lemma wp_when (b : bool) (body : Go St R unit) Q (E : R → St → Prop) s :
  (b = true → wp body Q E s) → (b = false → Q tt s) → wp (when b body) Q E s.
Proof. intros H1 H2. destruct b; [by apply H1|by apply wp_ret, H2]. Qed.

Lemma wp_deref {A} (p : option A) (Q : A → St → Prop) (E : R → St → Prop) s :
  (∃ a, p = Some a ∧ Q a s) → wp (deref p) Q E s.
Proof. by intros (a & -> & ?). Qed.

(** A call: the callee's return is the caller's normal continuation. *)
Lemma wp_call {R'} (f : Go St R' Empty_set) (Q : R' → St → Prop) (E : R → St → Prop) s :
  returns f Q s ↔ wp (call f) Q E s.
Proof. unfold returns, wp, call. by destruct (f s) as [[[]| |]]. Qed.

(** [returns] says that the method returns, and what. *)
Lemma returns_run (f : Go St R Empty_set) (E : R → St → Prop) s :
  returns f E s ↔ ∃ r s', run f s = (Some r, s') ∧ E r s'.
Proof.
  unfold returns, wp, run. destruct (f s) as [[[]|r|] s0]; split.
  - eauto.
  - by intros (? & ? & ? & ?); simplify_eq.
  - done.
  - by intros (? & ? & ? & ?).
Qed.

Lemma returns_mono (f : Go St R Empty_set) (E E' : R → St → Prop) s :
  (∀ r s', E r s' → E' r s') → returns f E s → returns f E' s.
Proof. intros. by eapply wp_mono. Qed.

(** What a caller learns from the contract of a method it ran. *)
Lemma returns_inv (f : Go St R Empty_set) (E : R → St → Prop) s r s' :
  returns f E s → run f s = (Some r, s') → E r s'.
Proof.
  rewrite returns_run. intros (r0 & s0 & Hrun & HE) Hr.
  rewrite Hr in Hrun. by simplify_eq.
Qed.

(** A method returns when a relation it implements allows an outcome. *)
Lemma returns_spec (f : Go St R Empty_set) (spec : R → St → Prop) (E : St → Prop) s :
  (∀ r s', spec r s' → run f s = (Some r, s')) → (∃ r s', spec r s' ∧ E s') →
  returns f (λ _, E) s.
Proof. intros Hsound (r & s' & Hspec & HE). apply returns_run. eauto. Qed.

(** A relation that every run satisfies and that allows some run is the
    graph of the method at that state. *)
Lemma run_spec_iff (f : Go St R Empty_set) (spec : R → St → Prop) s :
  (∀ r s', spec r s' → run f s = (Some r, s')) → (∃ r s', spec r s') →
  ∀ r s', run f s = (Some r, s') ↔ spec r s'.
Proof.
  intros Hsound (r0 & s0 & H0) r s'. split; [|by apply Hsound].
  intros Hr. pose proof (Hsound _ _ H0) as Hr0. rewrite Hr in Hr0. by simplify_eq.
Qed.
End wp_rules.

(** ** Automation *)

Create HintDb go discriminated.
Create Rewrite HintDb go.

#[export] Hint Resolve wp_ret wp_Return wp_get wp_gets wp_put wp_modify : go.
#[export] Hint Rewrite @when_true @when_false : go.
#[export] Hint Rewrite wrap64_idemp : go.

(** Evaluate the head statement of a body at a concrete state. *)
Ltac go_eval :=
  repeat first
    [ progress cbn [bind ret Return panic get gets put modify when deref index
                    call run fst snd]
    | progress autorewrite with go ].

(** Decompose a [wp] goal along the structure of the body. *)
Ltac wp_step :=
  lazymatch goal with
  | |- wp (bind _ _) _ _ _ => apply wp_bind
  | |- wp (ret _) _ _ _ => apply wp_ret
  | |- wp (Return _) _ _ _ => apply wp_Return
  | |- wp get _ _ _ => apply wp_get
  | |- wp (gets _) _ _ _ => apply wp_gets
  | |- wp (put _) _ _ _ => apply wp_put
  | |- wp (modify _) _ _ _ => apply wp_modify
  | |- wp (call _) _ _ _ => apply wp_call
  | |- wp (when _ _) _ _ _ => apply wp_when; intros ?
  end.
Ltac wp_steps := repeat wp_step.
