(* ===== verification/GoFmt.v ===== *)
(** * Formatting: the program's uses of [fmt.Sprintf]

    The program formats with a constant format once (["%s:%d"], the
    address dialled by [Connect]) and with a configured template and one
    string operand three times (the search filters).  [sprintf1] is the
    reference semantics of the second use on the directives it models;
    [Formatter] is the interface the client is verified against. *)

From stdpp Require Import base tactics option list strings pretty.
From Stdlib Require Import ZArith Ascii.
From S2P Require Import Prelude.

(** [fmt.Sprintf("%s:%d", host, port)]: the host, a colon, the port in
    signed decimal. *)
Definition Sprintf_s_d (host : string) (port : Z) : string :=
  host +:+ ":" +:+ pretty port.

(** What [Sprintf] appends for an operand no directive consumed. *)
Definition extra_operand (arg : string) : string :=
  "%!(EXTRA string=" +:+ arg +:+ ")".

(** What [Sprintf] writes for a directive with no operand left. *)
Definition missing_operand (verb : ascii) : string :=
  "%!" +:+ String verb "(MISSING)".

(** The verbs that print a string operand as it is. *)
Definition plain_verb (c : ascii) : bool :=
  bool_decide (c = "s"%char) || bool_decide (c = "v"%char).

Definition is_percent (c : ascii) : bool := bool_decide (c = "%"%char).

(** [sprintf1_from f arg used]: the output of [fmt.Sprintf] on the rest
    [f] of a format with the one operand [arg], [used] telling whether a
    directive consumed it already.  [None]: the format has a directive
    outside the modelled ones. *)
Fixpoint sprintf1_from (f : string) (arg : string) (used : bool) : option string :=
  match f with
  | "" => Some (if used then "" else extra_operand arg)
  | String c rest =>
      if is_percent c then
        match rest with
        | "" => Some ("%!(NOVERB)" +:+ (if used then "" else extra_operand arg))
        | String v rest' =>
            if is_percent v then
              String "%"%char <$> sprintf1_from rest' arg used
            else if plain_verb v then
              (if used then String.app (missing_operand v) else String.app arg)
                <$> sprintf1_from rest' arg true
            else None
        end
      else String c <$> sprintf1_from rest arg used
  end.

(** [fmt.Sprintf(format, arg)] with [arg] a string. *)
Definition sprintf1 (format arg : string) : option string :=
  sprintf1_from format arg false.

(** No directive at all. *)
Fixpoint percent_free (s : string) : bool :=
  match s with
  | "" => true
  | String c rest => negb (is_percent c) && percent_free rest
  end.

(** The formatter the client calls.  It is [fmt.Sprintf] where the
    reference semantics speaks; elsewhere nothing is assumed of it. *)
Class Formatter := {
  Sprintf1 : string → string → string;
  Sprintf1_sound format arg out :
    sprintf1 format arg = Some out → Sprintf1 format arg = out
}.

(** An executable formatter: the reference semantics, and the empty string
    where it is silent. *)
Definition reference_Sprintf1 (format arg : string) : string :=
  default "" (sprintf1 format arg).

(** ** Strings *)

Lemma app_nil_l_s (b : string) : "" +:+ b = b.
Proof. done. Qed.

Lemma app_cons_s (c : ascii) (a b : string) : String c a +:+ b = String c (a +:+ b).
Proof. done. Qed.

Lemma app_nil_r_s (a : string) : a +:+ "" = a.
Proof. induction a as [|x a IH]; [done|]. by rewrite app_cons_s, IH. Qed.

Lemma app_assoc_s (a b c : string) : (a +:+ b) +:+ c = a +:+ (b +:+ c).
Proof. induction a as [|x a IH]; [done|]. by rewrite !app_cons_s, IH. Qed.

Create Rewrite HintDb gostr.
#[export] Hint Rewrite app_nil_l_s app_cons_s app_nil_r_s app_assoc_s : gostr.

Lemma percent_free_app (a b : string) :
  percent_free (a +:+ b) = percent_free a && percent_free b.
Proof.
  induction a as [|x a IH]; [done|].
  rewrite app_cons_s. simpl. by rewrite IH, andb_assoc.
Qed.

(** ** The reference semantics *)

Lemma reference_Sprintf1_sound format arg out :
  sprintf1 format arg = Some out → reference_Sprintf1 format arg = out.
Proof. unfold reference_Sprintf1. by intros ->. Qed.

#[export] Instance reference_formatter : Formatter :=
  {| Sprintf1 := reference_Sprintf1; Sprintf1_sound := reference_Sprintf1_sound |}.

(** Literal text is copied. *)
Lemma sprintf1_from_literal (pre f arg : string) used :
  percent_free pre = true →
  sprintf1_from (pre +:+ f) arg used = String.app pre <$> sprintf1_from f arg used.
Proof.
  induction pre as [|c pre IH]; simpl.
  - intros _. rewrite app_nil_l_s. by destruct (sprintf1_from f arg used).
  - intros [Hc Hpre]%andb_prop. apply negb_true_iff in Hc.
    rewrite app_cons_s. simpl. rewrite Hc, IH by done.
    by destruct (sprintf1_from f arg used).
Qed.

Lemma sprintf1_from_percent_free (f arg : string) used :
  percent_free f = true →
  sprintf1_from f arg used = Some (f +:+ (if used then "" else extra_operand arg)).
Proof.
  intros Hf. rewrite <-(app_nil_r_s f) at 1.
  by rewrite sprintf1_from_literal.
Qed.

(** A template with no directive: the operand is reported as extra. *)
Lemma sprintf1_no_placeholder (f arg : string) :
  percent_free f = true → sprintf1 f arg = Some (f +:+ extra_operand arg).
Proof. apply sprintf1_from_percent_free. Qed.

Lemma plain_verb_not_percent c : plain_verb c = true → is_percent c = false.
Proof.
  unfold plain_verb, is_percent.
  intros [->%bool_decide_eq_true | ->%bool_decide_eq_true]%orb_prop; done.
Qed.

(** A template with one placeholder: the operand takes its place, byte
    for byte. *)
Lemma sprintf1_placeholder (pre post arg : string) (c : ascii) :
  percent_free pre = true → percent_free post = true → plain_verb c = true →
  sprintf1 (pre +:+ String "%" (String c post)) arg = Some (pre +:+ arg +:+ post).
Proof.
  intros Hpre Hpost Hc. unfold sprintf1.
  rewrite sprintf1_from_literal by done. simpl.
  rewrite (plain_verb_not_percent c), Hc, sprintf1_from_percent_free by done.
  simpl. by rewrite app_nil_r_s.
Qed.

(** A second placeholder finds no operand. *)
Lemma sprintf1_second_placeholder (pre mid post arg : string) (c d : ascii) :
  percent_free pre = true → percent_free mid = true → percent_free post = true →
  plain_verb c = true → plain_verb d = true →
  sprintf1 (pre +:+ String "%" (String c (mid +:+ String "%" (String d post)))) arg
  = Some (pre +:+ arg +:+ mid +:+ missing_operand d +:+ post).
Proof.
  intros Hpre Hmid Hpost Hc Hd. unfold sprintf1.
  rewrite sprintf1_from_literal by done. simpl.
  rewrite (plain_verb_not_percent c), Hc by done.
  rewrite sprintf1_from_literal by done. simpl.
  rewrite (plain_verb_not_percent d), Hd by done.
  rewrite sprintf1_from_percent_free by done. simpl.
  by rewrite app_nil_r_s.
Qed.

(** The address determines the port, given the host. *)
Lemma Sprintf_s_d_inj (host : string) (p q : Z) :
  Sprintf_s_d host p = Sprintf_s_d host q → p = q.
Proof.
  unfold Sprintf_s_d. intros H%(inj (String.app host)).
  rewrite !app_cons_s, !app_nil_l_s in H. injection H as H.
  by apply (inj pretty).
Qed.
