(* ===== verification/Ldap.v ===== *)
(** * The collaborators: [crypto/tls] and [gopkg.in/ldap.v2]

    What the program sees of the libraries it calls: the configuration
    record of a TLS handshake, the request and result records of a search,
    error values, and the interface of a directory session.  The names are
    the libraries' ([tls.Config], [ldap.Entry.GetAttributeValue], ...).

    [ldap.Backend] is the interface: a world [W] behind the library (the
    network and the server) and one transition function per primitive.
    [ldap.BackendLaws] states the part of the library's contract the
    client's safety theorems use.  Every call is recorded as an [event]. *)

From stdpp Require Import base tactics option list strings relations.
From Stdlib Require Import ZArith.
From S2P Require Import Prelude.

(** A Go [error] value: built by [errors.New], or produced by the ldap
    library with an LDAP result code. *)
Inductive error : Type :=
| errors_New (text : string)
| ldap_Error (ResultCode : N) (text : string).

#[export] Instance error_eq_dec : EqDecision error.
Proof. solve_decision. Defined.

Module tls.
(** The two fields of [tls.Config] the program sets; the others keep
    their zero value. *)
Record Config := mkConfig {
  InsecureSkipVerify : bool;
  ServerName : string
}.

#[export] Instance Config_eq_dec : EqDecision Config.
Proof. solve_decision. Defined.
End tls.

Module ldap.

Definition ScopeWholeSubtree : Z := 2.
Definition NeverDerefAliases : Z := 0.

(** The result code the library gives to transport failures. *)
Definition ErrorNetwork : N := 200.

Module EntryAttribute.
Record t := mk { Name : string; Values : list string }.
End EntryAttribute.

Module Entry.
Record t := mk { DN : string; Attributes : list EntryAttribute.t }.

(** The values of the first attribute of that name, or none. *)
Fixpoint find_values (attrs : list EntryAttribute.t) (attribute : string) : list string :=
  match attrs with
  | [] => []
  | attr :: rest =>
      if bool_decide (EntryAttribute.Name attr = attribute)
      then EntryAttribute.Values attr
      else find_values rest attribute
  end.

Definition GetAttributeValues (e : t) (attribute : string) : list string :=
  find_values (Attributes e) attribute.

(** The first value of the attribute, the empty string when the entry
    has no such attribute or the attribute has no value. *)
Definition GetAttributeValue (e : t) (attribute : string) : string :=
  match GetAttributeValues e attribute with
  | [] => ""
  | v :: _ => v
  end.
End Entry.

Module SearchResult.
Record t := mk { Entries : list Entry.t }.
End SearchResult.

Module SearchRequest.
Record t := mk {
  BaseDN : string;
  Scope : Z;
  DerefAliases : Z;
  SizeLimit : Z;
  TimeLimit : Z;
  TypesOnly : bool;
  Filter : string;
  Attributes : list string;
  Controls : list string
}.
End SearchRequest.

Definition NewSearchRequest (BaseDN : string) (Scope DerefAliases SizeLimit TimeLimit : Z)
    (TypesOnly : bool) (Filter : string) (Attributes : list string)
    (Controls : list string) : SearchRequest.t :=
  SearchRequest.mk BaseDN Scope DerefAliases SizeLimit TimeLimit TypesOnly
    Filter Attributes Controls.

(** A [*ldap.Conn]: a handle on a session of the world. *)
Definition Conn : Type := nat.

(** The primitives of a directory session, as transitions of the world
    behind the library, and what can be observed of a session. *)
Class Backend (W : Type) := {
  Dial : string → string → W → (error + Conn) * W;
  DialTLS : string → string → tls.Config → W → (error + Conn) * W;
  StartTLS : Conn → tls.Config → W → option error * W;
  Bind : Conn → string → string → W → option error * W;
  Search : Conn → SearchRequest.t → W → (error + SearchResult.t) * W;
  Close : Conn → W → W;
  (** the transport of the session is encrypted *)
  encrypted : W → Conn → bool;
  (** the session was closed *)
  closed : W → Conn → bool
}.

(** One primitive ran. *)
Inductive step `{Backend W} : W → W → Prop :=
| step_Dial network address w :
    step w (Dial network address w).2
| step_DialTLS network address config w :
    step w (DialTLS network address config w).2
| step_StartTLS c config w :
    step w (StartTLS c config w).2
| step_Bind c username password w :
    step w (Bind c username password w).2
| step_Search c req w :
    step w (Search c req w).2
| step_Close c w :
    step w (Close c w).

(** The contract of the library the client relies on. *)
Class BackendLaws (W : Type) `{Backend W} := {
  StartTLS_encrypted c config w :
    (StartTLS c config w).1 = None → encrypted (StartTLS c config w).2 c = true;
  DialTLS_encrypted network address config w c :
    (DialTLS network address config w).1 = inr c →
    encrypted (DialTLS network address config w).2 c = true;
  encrypted_stable w w' c :
    step w w' → encrypted w c = true → encrypted w' c = true;
  Close_closed c w : closed (Close c w) c = true;
  closed_stable w w' c :
    step w w' → closed w c = true → closed w' c = true;
  closed_Search c req w :
    closed w c = true → failed (Search c req w).1 = true;
  closed_Bind c username password w :
    closed w c = true → not_nil (Bind c username password w).1 = true
}.

End ldap.

(** ** The trace of collaborator calls *)

Inductive event : Type :=
| EDial (network address : string) (r : error + ldap.Conn)
| EDialTLS (network address : string) (config : tls.Config) (r : error + ldap.Conn)
| EStartTLS (c : ldap.Conn) (config : tls.Config) (r : option error)
| EBind (c : ldap.Conn) (username password : string) (r : option error)
| ESearch (c : ldap.Conn) (req : ldap.SearchRequest.t) (r : error + ldap.SearchResult.t)
| EClose (c : ldap.Conn)
| ELog (format : string) (req : ldap.SearchRequest.t) (retry : Z)
| ESleep (d : Z).

Definition is_dial (e : event) : bool :=
  match e with EDial _ _ _ | EDialTLS _ _ _ _ => true | _ => false end.

Definition is_search (e : event) : bool :=
  match e with ESearch _ _ _ => true | _ => false end.

Definition is_bind (e : event) : bool :=
  match e with EBind _ _ _ _ => true | _ => false end.

Definition is_close (e : event) : bool :=
  match e with EClose _ => true | _ => false end.

(** The durations slept, in order, in nanoseconds. *)
Definition sleeps (tr : list event) : list Z :=
  omap (λ e, match e with ESleep d => Some d | _ => None end) tr.

(** How many events of a kind. *)
Definition count (p : event → bool) (tr : list event) : nat :=
  length (filter (λ e, p e = true) tr).

(** ** Lemmas *)

Lemma count_app p tr1 tr2 : count p (tr1 ++ tr2) = (count p tr1 + count p tr2)%nat.
Proof. unfold count. by rewrite filter_app, length_app. Qed.

Lemma count_nil p : count p [] = 0%nat.
Proof. done. Qed.

Lemma count_cons p e tr :
  count p (e :: tr) = ((if p e then 1 else 0) + count p tr)%nat.
Proof.
  unfold count. destruct (p e) eqn:He.
  - by rewrite filter_cons_True.
  - rewrite filter_cons_False; [done|]. by rewrite He.
Qed.

Lemma sleeps_app tr1 tr2 : sleeps (tr1 ++ tr2) = sleeps tr1 ++ sleeps tr2.
Proof. apply omap_app. Qed.

Create Rewrite HintDb trace.
#[export] Hint Rewrite count_app count_nil count_cons sleeps_app : trace.

(** The primitives are steps, stated on the equation a caller has. *)
Section steps.
Context `{ldap.Backend W}.
Implicit Types w : W.

Lemma step_Dial_eq network address w r w' :
  ldap.Dial network address w = (r, w') → ldap.step w w'.
Proof. intros Heq. change w' with (r, w').2. rewrite <-Heq. constructor. Qed.

Lemma step_DialTLS_eq network address config w r w' :
  ldap.DialTLS network address config w = (r, w') → ldap.step w w'.
Proof. intros Heq. change w' with (r, w').2. rewrite <-Heq. constructor. Qed.

Lemma step_StartTLS_eq c config w r w' :
  ldap.StartTLS c config w = (r, w') → ldap.step w w'.
Proof. intros Heq. change w' with (r, w').2. rewrite <-Heq. constructor. Qed.

Lemma step_Bind_eq c username password w r w' :
  ldap.Bind c username password w = (r, w') → ldap.step w w'.
Proof. intros Heq. change w' with (r, w').2. rewrite <-Heq. constructor. Qed.

Lemma step_Search_eq c req w r w' :
  ldap.Search c req w = (r, w') → ldap.step w w'.
Proof. intros Heq. change w' with (r, w').2. rewrite <-Heq. constructor. Qed.
End steps.

Create HintDb steps discriminated.
#[export] Hint Resolve step_Dial_eq step_DialTLS_eq step_StartTLS_eq step_Bind_eq
  step_Search_eq : steps.

(** A sequence of primitives, each given by an equation of the context,
    or one [Close]. *)
Ltac solve_steps :=
  first [ apply rtc_refl
        | apply rtc_once; apply ldap.step_Close
        | eapply rtc_l; [ solve [eauto 2 with steps nocore] | solve_steps ] ].

Section entry.
Import ldap.

(** An attribute the entry does not have reads as the empty string. *)
Lemma GetAttributeValue_absent (e : Entry.t) (attribute : string) :
  attribute ∉ EntryAttribute.Name <$> Entry.Attributes e →
  Entry.GetAttributeValue e attribute = "".
Proof.
  unfold Entry.GetAttributeValue, Entry.GetAttributeValues.
  induction (Entry.Attributes e) as [|attr attrs IH]; simpl; [done|].
  intros [Hne Hnin]%not_elem_of_cons. rewrite bool_decide_eq_false_2 by done.
  by apply IH.
Qed.

(** The first attribute of the name decides, and its first value. *)
Lemma GetAttributeValue_first (dn : string) (attrs : list EntryAttribute.t)
    (attribute v : string) (vs : list string) :
  Entry.GetAttributeValue
    (Entry.mk dn (EntryAttribute.mk attribute (v :: vs) :: attrs)) attribute = v.
Proof.
  unfold Entry.GetAttributeValue, Entry.GetAttributeValues. simpl.
  by rewrite bool_decide_eq_true_2.
Qed.
End entry.
