(* ===== verification/Sim.v ===== *)
(** * A simulated directory server

    An executable instance of [ldap.Backend]: a server that is reachable or
    not, offers TLS or not under a certificate name, knows accounts (DN and
    password), answers a search with the entries stored for the filter
    text, and fails the next [search_failures] searches.  It discharges
    [ldap.BackendLaws], so the client's theorems apply to it, and the
    concrete inputs of the development run on it. *)

From stdpp Require Import base tactics option list strings.
From Stdlib Require Import ZArith Lia.
From S2P Require Import Prelude Ldap.

Module sim.

(** A session of the server: whether its transport is encrypted, and the
    DN it is bound as. *)
Record session := mkSession {
  s_tls : bool;
  s_bound : option string
}.

Record world := mkWorld {
  reachable : bool;
  tls_available : bool;
  certificate_name : string;
  accounts : list (string * string);
  directory : list (string * list ldap.Entry.t);
  search_failures : nat;
  sessions : list session;
  closed_handles : list ldap.Conn;
  (** how many more binds the server accepts, when it limits them *)
  bind_limit : option nat
}.

Definition set_sessions (ss : list session) (w : world) : world :=
  mkWorld (reachable w) (tls_available w) (certificate_name w) (accounts w)
    (directory w) (search_failures w) ss (closed_handles w) (bind_limit w).

Definition set_search_failures (n : nat) (w : world) : world :=
  mkWorld (reachable w) (tls_available w) (certificate_name w) (accounts w)
    (directory w) n (sessions w) (closed_handles w) (bind_limit w).

Definition set_bind_limit (l : option nat) (w : world) : world :=
  mkWorld (reachable w) (tls_available w) (certificate_name w) (accounts w)
    (directory w) (search_failures w) (sessions w) (closed_handles w) l.

Definition network_error (text : string) : error :=
  ldap_Error ldap.ErrorNetwork text.

Definition encrypted (w : world) (c : ldap.Conn) : bool :=
  match sessions w !! c with Some s => s_tls s | None => false end.

Definition closed (w : world) (c : ldap.Conn) : bool :=
  bool_decide (c ∈ closed_handles w).

(** The session is there and was not closed. *)
Definition live (w : world) (c : ldap.Conn) : bool :=
  bool_decide (is_Some (sessions w !! c)) && negb (closed w c).

(** The handshake succeeds: the server offers TLS, and the client either
    does not verify or expects the name the certificate carries. *)
Definition handshake_ok (w : world) (config : tls.Config) : bool :=
  tls_available w &&
  (tls.InsecureSkipVerify config
   || bool_decide (tls.ServerName config = certificate_name w)).

Definition Dial (network address : string) (w : world) : (error + ldap.Conn) * world :=
  if reachable w
  then (inr (length (sessions w)),
        set_sessions (sessions w ++ [mkSession false None]) w)
  else (inl (network_error "dial tcp: connection refused"), w).

Definition DialTLS (network address : string) (config : tls.Config) (w : world)
    : (error + ldap.Conn) * world :=
  if reachable w && handshake_ok w config
  then (inr (length (sessions w)),
        set_sessions (sessions w ++ [mkSession true None]) w)
  else (inl (network_error "dial tcp: TLS handshake failed"), w).

Definition StartTLS (c : ldap.Conn) (config : tls.Config) (w : world)
    : option error * world :=
  match sessions w !! c with
  | Some s =>
      if closed w c then (Some (network_error "ldap: connection closed"), w)
      else if s_tls s then (Some (network_error "ldap: already encrypted"), w)
      else if handshake_ok w config
      then (None, set_sessions (<[c := mkSession true (s_bound s)]> (sessions w)) w)
      else (Some (network_error "ldap: cannot StartTLS"), w)
  | None => (Some (network_error "ldap: connection closed"), w)
  end.

(** Invalid credentials: LDAP result code 49; the session is anonymous
    after a rejected bind.  A server that limits the binds refuses every
    bind once the limit is spent. *)
Definition Bind (c : ldap.Conn) (username password : string) (w : world)
    : option error * world :=
  match sessions w !! c with
  | Some s =>
      if closed w c then (Some (network_error "ldap: connection closed"), w)
      else if bool_decide (bind_limit w = Some 0)
      then (Some (network_error "ldap: connection reset"), w)
      else if bool_decide ((username, password) ∈ accounts w)
      then (None,
            set_sessions (<[c := mkSession (s_tls s) (Some username)]> (sessions w))
              (set_bind_limit (pred <$> bind_limit w) w))
      else (Some (ldap_Error 49 "Invalid Credentials"),
            set_sessions (<[c := mkSession (s_tls s) None]> (sessions w)) w)
  | None => (Some (network_error "ldap: connection closed"), w)
  end.

(** The entries stored for a filter text. *)
Fixpoint lookup_filter (d : list (string * list ldap.Entry.t)) (filter : string)
    : list ldap.Entry.t :=
  match d with
  | [] => []
  | (f, es) :: rest => if bool_decide (f = filter) then es else lookup_filter rest filter
  end.

(** Server busy: LDAP result code 51. *)
Definition Search (c : ldap.Conn) (req : ldap.SearchRequest.t) (w : world)
    : (error + ldap.SearchResult.t) * world :=
  if live w c then
    match search_failures w with
    | S n => (inl (ldap_Error 51 "Busy"), set_search_failures n w)
    | O => (inr (ldap.SearchResult.mk
                   (lookup_filter (directory w) (ldap.SearchRequest.Filter req))), w)
    end
  else (inl (network_error "ldap: connection closed"), w).

Definition Close (c : ldap.Conn) (w : world) : world :=
  mkWorld (reachable w) (tls_available w) (certificate_name w) (accounts w)
    (directory w) (search_failures w) (sessions w) (c :: closed_handles w) (bind_limit w).

#[global] Instance backend : ldap.Backend world := {|
  ldap.Dial := Dial;
  ldap.DialTLS := DialTLS;
  ldap.StartTLS := StartTLS;
  ldap.Bind := Bind;
  ldap.Search := Search;
  ldap.Close := Close;
  ldap.encrypted := encrypted;
  ldap.closed := closed
|}.

(** ** The simulated server keeps the contract of the library *)

(** Unfold a primitive of the simulation and split on its tests. *)
Ltac sim_cases :=
  unfold StartTLS, Bind, Search, Dial, DialTLS, Close, live, closed, encrypted in *;
  repeat case_match; simplify_eq/=; try done.

Lemma encrypted_app w ss c :
  encrypted w c = true → encrypted (set_sessions (sessions w ++ ss) w) c = true.
Proof.
  unfold encrypted. simpl. destruct (sessions w !! c) as [s|] eqn:Hs; [|done].
  by rewrite (lookup_app_l_Some _ _ _ _ Hs).
Qed.

Lemma encrypted_insert w w' c c' s :
  sessions w' = <[c' := s]> (sessions w) →
  (encrypted w c' = true → s_tls s = true) →
  encrypted w c = true → encrypted w' c = true.
Proof.
  unfold encrypted. intros -> Htls. destruct (decide (c = c')) as [->|Hne].
  - destruct (sessions w !! c') as [s0|] eqn:Hs; [|done].
    rewrite list_lookup_insert_eq by (by eapply lookup_lt_Some). auto.
  - by rewrite list_lookup_insert_ne.
Qed.

Lemma step_encrypted w w' c :
  ldap.step w w' → encrypted w c = true → encrypted w' c = true.
Proof.
  destruct 1 as [? ? w|? ? ? w|c' ? w|c' ? ? w|c' ? w|c' w]; simpl.
  - unfold Dial. case_match; [apply encrypted_app|done].
  - unfold DialTLS. case_match; [apply encrypted_app|done].
  - unfold StartTLS. repeat case_match; try done. by eapply encrypted_insert.
  - unfold Bind. repeat case_match; try done;
      (eapply encrypted_insert; [done|]; unfold encrypted; by simplify_option_eq).
  - unfold Search. by repeat case_match.
  - done.
Qed.

Lemma step_closed w w' c :
  ldap.step w w' → closed w c = true → closed w' c = true.
Proof.
  destruct 1; simpl; try by sim_cases.
  unfold Close, closed. simpl. rewrite !bool_decide_eq_true, elem_of_cons. auto.
Qed.

Lemma StartTLS_encrypted c config w :
  (StartTLS c config w).1 = None → encrypted (StartTLS c config w).2 c = true.
Proof.
  unfold StartTLS, encrypted. destruct (sessions w !! c) as [s|] eqn:Hs; [|done].
  destruct (closed w c); [done|]. destruct (s_tls s); [done|].
  destruct (handshake_ok w config); [|done]. simpl.
  by rewrite list_lookup_insert_eq by (by eapply lookup_lt_Some).
Qed.

Lemma DialTLS_encrypted network address config w c :
  (DialTLS network address config w).1 = inr c →
  encrypted (DialTLS network address config w).2 c = true.
Proof.
  unfold DialTLS, encrypted. case_match; [|done]. intros [= <-]. simpl.
  by rewrite lookup_app_r, Nat.sub_diag by done.
Qed.

Lemma closed_Search c req w :
  closed w c = true → failed (Search c req w).1 = true.
Proof. unfold Search, live. intros ->. by rewrite andb_false_r. Qed.

Lemma closed_Bind c username password w :
  closed w c = true → not_nil (Bind c username password w).1 = true.
Proof. unfold Bind. intros ->. by case_match. Qed.

Lemma Close_closed c w : closed (Close c w) c = true.
Proof. unfold Close, closed. simpl. rewrite bool_decide_eq_true, elem_of_cons. auto. Qed.

#[global] Instance laws : ldap.BackendLaws world := {|
  ldap.StartTLS_encrypted := StartTLS_encrypted;
  ldap.DialTLS_encrypted := DialTLS_encrypted;
  ldap.encrypted_stable := step_encrypted;
  ldap.Close_closed := Close_closed;
  ldap.closed_stable := step_closed;
  ldap.closed_Search := closed_Search;
  ldap.closed_Bind := closed_Bind
|}.

End sim.
