(* ===== verification/Acl.v ===== *)
(** * A directory with access control

    The simulated server of [Sim] behind an access-control list: a search
    shows its entries to a session bound as one of the [readers], and an
    empty result to any other.  What the server does is otherwise that of
    [Sim], so it keeps the contract of the library as well.  On this
    server the identity a search runs under is observable, which is what
    the interleavings of [Races] need. *)

From stdpp Require Import base tactics option list strings.
From Stdlib Require Import ZArith.
From S2P Require Import Prelude Ldap Sim.

Module acl.

Record world := mkWorld {
  readers : list string;
  inner : sim.world
}.

(** The server moved; the list stays. *)
Definition lift {A} (w : world) (r : A * sim.world) : A * world :=
  (r.1, mkWorld (readers w) r.2).

(** The DN a session is bound as. *)
Definition bound (w : world) (c : ldap.Conn) : option string :=
  sim.sessions (inner w) !! c ≫= sim.s_bound.

Definition may_read (w : world) (c : ldap.Conn) : bool :=
  match bound w c with
  | Some dn => bool_decide (dn ∈ readers w)
  | None => false
  end.

(** What a session that may not read is shown. *)
Definition hide (r : error + ldap.SearchResult.t) : error + ldap.SearchResult.t :=
  match r with
  | inl e => inl e
  | inr _ => inr (ldap.SearchResult.mk [])
  end.

Definition Search (c : ldap.Conn) (req : ldap.SearchRequest.t) (w : world)
    : (error + ldap.SearchResult.t) * world :=
  let r := sim.Search c req (inner w) in
  (if may_read w c then r.1 else hide r.1, mkWorld (readers w) r.2).

#[global] Instance backend : ldap.Backend world := {|
  ldap.Dial network address w := lift w (sim.Dial network address (inner w));
  ldap.DialTLS network address config w :=
    lift w (sim.DialTLS network address config (inner w));
  ldap.StartTLS c config w := lift w (sim.StartTLS c config (inner w));
  ldap.Bind c username password w := lift w (sim.Bind c username password (inner w));
  ldap.Search := Search;
  ldap.Close c w := mkWorld (readers w) (sim.Close c (inner w));
  ldap.encrypted w := sim.encrypted (inner w);
  ldap.closed w := sim.closed (inner w)
|}.

(** A primitive on the guarded server is the primitive on the server. *)
Lemma step_inner w w' : ldap.step w w' → ldap.step (inner w) (inner w').
Proof. destruct 1; simpl; constructor. Qed.

Lemma failed_hide r : failed (hide r) = failed r.
Proof. by destruct r. Qed.

#[global] Instance laws : ldap.BackendLaws world.
Proof.
  split; simpl.
  - intros c config w. apply sim.StartTLS_encrypted.
  - intros network address config w c. apply sim.DialTLS_encrypted.
  - intros w w' c Hstep%step_inner. by apply sim.step_encrypted.
  - intros c w. apply sim.Close_closed.
  - intros w w' c Hstep%step_inner. by apply sim.step_closed.
  - intros c req w Hc. destruct (may_read w c); rewrite ?failed_hide;
      by apply sim.closed_Search.
  - intros c username password w. apply sim.closed_Bind.
Qed.

End acl.
