(* ===== verification/Client.v ===== *)
(** * The client: [src/ldap-client.go]

    [LDAPClient] is the struct; [state] is what a method call can read and
    write: the receiver [lc], the world behind the ldap library, and the
    trace of collaborator calls.  Each method is one definition in the
    monad [Go], statement by statement.  The definitions are generic in
    the formatter and in the backend. *)

From stdpp Require Import base tactics option list strings gmap.
From Stdlib Require Import ZArith Lia Ascii.
From S2P Require Import Prelude GoFmt Ldap.

#[local] Open Scope go_scope.

(** ** The struct *)

Record LDAPClient := mkLDAPClient {
  Conn : option ldap.Conn;
  Host : string;
  Port : Z;
  UseSSL : bool;
  BindDN : string;
  BindPassword : string;
  GroupFilter : string;
  UserFilter : string;
  Base : string;
  Attributes : list string;
  ServerName : string
}.

(** [lc.Conn = l] *)
Definition set_Conn (l : option ldap.Conn) (lc : LDAPClient) : LDAPClient :=
  mkLDAPClient l (Host lc) (Port lc) (UseSSL lc) (BindDN lc) (BindPassword lc)
    (GroupFilter lc) (UserFilter lc) (Base lc) (Attributes lc) (ServerName lc).

(** [time.Second], in nanoseconds. *)
Definition Second : Z := 1000000000.

(** The format of the line logged before a retry sleeps,
    ["Retrying: [%s:%d] \n"]: its last character is a newline. *)
Definition retrying_format : string := "Retrying: [%s:%d] " +:+ String "010"%char "".

(** [lc.BindDN != "" && lc.BindPassword != ""] *)
Definition has_bind_credentials (lc : LDAPClient) : bool :=
  negb (bool_decide (BindDN lc = "")) && negb (bool_decide (BindPassword lc = "")).

(** The loop that fills the user map:
    [for _, attr := range attrs { user[attr] = entry.GetAttributeValue(attr) }] *)
Definition user_of_entry (attrs : list string) (entry : ldap.Entry.t) : gmap string string :=
  foldl (λ user attr, <[attr := ldap.Entry.GetAttributeValue entry attr]> user) ∅ attrs.

(** [for _, entry := range entries { groups = append(groups, entry.GetAttributeValue("cn")) }] *)
Definition groups_of_entries (entries : list ldap.Entry.t) : list string :=
  foldl (λ groups entry, groups ++ [ldap.Entry.GetAttributeValue entry "cn"]) [] entries.

(** [for _, ldap_user := range entries { ...; users = append(users, user) }] *)
Definition users_of_entries (attrs : list string) (entries : list ldap.Entry.t)
    : list (gmap string string) :=
  foldl (λ users ldap_user, users ++ [user_of_entry attrs ldap_user]) [] entries.

(** The number of values the counter can take before [retry <= 3] fails. *)
Definition retry_fuel (retry : Z) : nat := Z.to_nat (4 - retry).

(** The two errors the client makes itself. *)
Definition ErrUserDoesNotExist : error := errors_New "User does not exist".
Definition ErrTooManyEntries : error := errors_New "Too many entries returned".

Section client.
Context `{Formatter} `{ldap.Backend W}.

(** ** The state of a call *)

Record state := mkState {
  lc : LDAPClient;
  world : W;
  trace : list event
}.

Definition set_lc (f : LDAPClient → LDAPClient) (s : state) : state :=
  mkState (f (lc s)) (world s) (trace s).

Context {R : Type}.

(** A collaborator call: the world moves, the call is recorded. *)
Definition perform {A} (op : W → A * W) (ev : A → event) : Go state R A :=
  λ s, let r := op (world s) in
       (Normal r.1, mkState (lc s) r.2 (trace s ++ [ev r.1])).

(** An effect the program does not read back: it is only recorded. *)
Definition emit (e : event) : Go state R unit :=
  modify (λ s, mkState (lc s) (world s) (trace s ++ [e])).

Definition ldap_Dial (network address : string) : Go state R (error + ldap.Conn) :=
  perform (ldap.Dial network address) (EDial network address).

Definition ldap_DialTLS (network address : string) (config : tls.Config)
    : Go state R (error + ldap.Conn) :=
  perform (ldap.DialTLS network address config) (EDialTLS network address config).

Definition Conn_StartTLS (l : ldap.Conn) (config : tls.Config) : Go state R (option error) :=
  perform (ldap.StartTLS l config) (EStartTLS l config).

Definition Conn_Bind (l : ldap.Conn) (username password : string) : Go state R (option error) :=
  perform (ldap.Bind l username password) (EBind l username password).

Definition Conn_Search (l : ldap.Conn) (req : ldap.SearchRequest.t)
    : Go state R (error + ldap.SearchResult.t) :=
  perform (ldap.Search l req) (ESearch l req).

Definition Conn_Close (l : ldap.Conn) : Go state R unit :=
  perform (λ w, (tt, ldap.Close l w)) (λ _, EClose l).

Definition log_Printf (format : string) (req : ldap.SearchRequest.t) (retry : Z)
    : Go state R unit :=
  emit (ELog format req retry).

Definition time_Sleep (d : Z) : Go state R unit := emit (ESleep d).

(** ** The retry loop

    [for err != nil && retry <= 3 { sr, err = lc.Conn.Search(searchRequest);
    log.Printf(...); time.Sleep(time.Second * time.Duration(retry)); retry++ }]
    with [r] the pair [(sr, err)]. *)
Fixpoint retry_loop (fuel : nat) (conn : ldap.Conn) (searchRequest : ldap.SearchRequest.t)
    (r : error + ldap.SearchResult.t) (retry : Z)
    : Go state R (error + ldap.SearchResult.t) :=
  match fuel with
  | O => ret r
  | S fuel' =>
      if failed r && bool_decide (retry ≤ 3)%Z then
        let* r' := Conn_Search conn searchRequest in
        do* log_Printf retrying_format searchRequest retry in
        do* time_Sleep (wrap64 (Second * retry)) in
        retry_loop fuel' conn searchRequest r' (wrap64 (retry + 1))
      else ret r
  end.

(** [sr, err := lc.Conn.Search(searchRequest); retry := 3; for ... { ... }] *)
Definition search_with_retry (searchRequest : ldap.SearchRequest.t)
    : Go state R (error + ldap.SearchResult.t) :=
  let* conn := bind (gets (Conn ∘ lc)) deref in
  let* r := Conn_Search conn searchRequest in
  let retry := 3%Z in
  retry_loop (retry_fuel retry) conn searchRequest r retry.

End client.

Arguments state W : clear implicits.

Section methods.
Context `{Formatter} `{ldap.Backend W}.

(** ** [Connect] *)
Definition Connect : Go (state W) (option error) Empty_set :=
  let* this := gets lc in
  if* is_nil (Conn this) then
    (let address := Sprintf_s_d (Host this) (Port this) in
     let* l :=
       (if negb (UseSSL this) then
          let* r := ldap_Dial "tcp" address in
          match r with
          | inl err => Return (Some err)
          | inr l =>
              (* Reconnect with TLS *)
              let* err := Conn_StartTLS l (tls.mkConfig true "") in
              if* not_nil err then Return err in
              ret l
          end
        else
          let* r := ldap_DialTLS "tcp" address (tls.mkConfig false (ServerName this)) in
          match r with
          | inl err => Return (Some err)
          | inr l => ret l
          end) in
     modify (set_lc (set_Conn (Some l)))) in
  Return None.

(** ** [Close] *)
Definition Close : Go (state W) unit Empty_set :=
  let* this := gets lc in
  if* not_nil (Conn this) then
    (let* conn := deref (Conn this) in
     Conn_Close conn) in
  Return tt.

(** The request of [SearchUser] and [FindUsers]. *)
Definition userSearchRequest (this : LDAPClient) (username : string) : ldap.SearchRequest.t :=
  ldap.NewSearchRequest
    (Base this)
    ldap.ScopeWholeSubtree ldap.NeverDerefAliases 0 0 false
    (Sprintf1 (UserFilter this) username)
    (Attributes this)
    [].

(** The request of [Authenticate]: [attributes := append(lc.Attributes, "dn")]. *)
Definition authSearchRequest (this : LDAPClient) (username : string) : ldap.SearchRequest.t :=
  let attributes := Attributes this ++ ["dn"] in
  ldap.NewSearchRequest
    (Base this)
    ldap.ScopeWholeSubtree ldap.NeverDerefAliases 0 0 false
    (Sprintf1 (UserFilter this) username)
    attributes
    [].

(** The request of [GetGroupsOfUser]. *)
Definition groupSearchRequest (this : LDAPClient) (username : string) : ldap.SearchRequest.t :=
  ldap.NewSearchRequest
    (Base this)
    ldap.ScopeWholeSubtree ldap.NeverDerefAliases 0 0 false
    (Sprintf1 (GroupFilter this) username)
    ["cn"]
    [].

(** ** [SearchUser] *)
Definition SearchUser (username : string)
    : Go (state W) (option (gmap string string) * option error) Empty_set :=
  let* err := call Connect in
  if* not_nil err then Return (None, err) in
  let* this := gets lc in
  let searchRequest := userSearchRequest this username in
  let* r := search_with_retry searchRequest in
  match r with
  | inl err => Return (None, Some err)
  | inr sr =>
      let entries := ldap.SearchResult.Entries sr in
      if* bool_decide (length entries < 1) then
        Return (None, Some ErrUserDoesNotExist) in
      if* bool_decide (1 < length entries) then
        Return (None, Some ErrTooManyEntries) in
      let* entry0 := index entries 0 in
      let user := user_of_entry (Attributes this) entry0 in
      Return (Some user, None)
  end.

(** ** [Authenticate] *)
Definition Authenticate (username password : string)
    : Go (state W) (bool * option (gmap string string) * option error) Empty_set :=
  let* err := call Connect in
  if* not_nil err then Return (false, None, err) in
  let* this := gets lc in
  (* First bind with a read only user *)
  if* has_bind_credentials this then
    (let* conn := deref (Conn this) in
     let* err := Conn_Bind conn (BindDN this) (BindPassword this) in
     if* not_nil err then Return (false, None, err) in
     ret tt) in
  (* Search for the given username *)
  let searchRequest := authSearchRequest this username in
  let* conn := deref (Conn this) in
  let* r := Conn_Search conn searchRequest in
  match r with
  | inl err => Return (false, None, Some err)
  | inr sr =>
      let entries := ldap.SearchResult.Entries sr in
      if* bool_decide (length entries < 1) then
        Return (false, None, Some ErrUserDoesNotExist) in
      if* bool_decide (1 < length entries) then
        Return (false, None, Some ErrTooManyEntries) in
      let* entry0 := index entries 0 in
      let userDN := ldap.Entry.DN entry0 in
      let user := user_of_entry (Attributes this) entry0 in
      (* Bind as the user to verify their password *)
      let* err := Conn_Bind conn userDN password in
      if* not_nil err then Return (false, Some user, err) in
      (* Rebind as the read only user for any further queries *)
      if* has_bind_credentials this then
        (let* err := Conn_Bind conn (BindDN this) (BindPassword this) in
         if* not_nil err then Return (true, Some user, err) in
         ret tt) in
      Return (true, Some user, None)
  end.

(** ** [GetGroupsOfUser] *)
Definition GetGroupsOfUser (username : string)
    : Go (state W) (option (list string) * option error) Empty_set :=
  let* err := call Connect in
  if* not_nil err then Return (None, err) in
  let* this := gets lc in
  let searchRequest := groupSearchRequest this username in
  let* r := search_with_retry searchRequest in
  match r with
  | inl err => Return (None, Some err)
  | inr sr =>
      let groups := groups_of_entries (ldap.SearchResult.Entries sr) in
      Return (Some groups, None)
  end.

(** ** [FindUsers] *)
Definition FindUsers (search : string)
    : Go (state W) (option (list (gmap string string)) * option error) Empty_set :=
  let* err := call Connect in
  if* not_nil err then Return (None, err) in
  let* this := gets lc in
  let searchRequest := userSearchRequest this search in
  let* r := search_with_retry searchRequest in
  match r with
  | inl err => Return (None, Some err)
  | inr sr =>
      let entries := ldap.SearchResult.Entries sr in
      if* bool_decide (length entries < 1) then
        Return (None, Some ErrUserDoesNotExist) in
      let users := users_of_entries (Attributes this) entries in
      Return (Some users, None)
  end.

End methods.

(** ** Symbolic execution

    [go_exec] runs a method body at a state: it unfolds the monad and the
    collaborator calls, and rewrites with the hypotheses that say what a
    collaborator answers. *)

Ltac go_unfold :=
  cbv beta iota zeta delta
    [run call bind ret Return panic get gets put modify when deref index
     perform emit ldap_Dial ldap_DialTLS Conn_StartTLS Conn_Bind Conn_Search
     Conn_Close log_Printf time_Sleep compose set_lc];
  cbn [lc world trace fst snd is_nil not_nil failed negb andb orb
       Conn Host Port UseSSL BindDN BindPassword GroupFilter UserFilter Base
       Attributes ServerName set_Conn lookup list_lookup length].

Ltac go_rewrite :=
  match goal with
  | H : ?x = _ |- context [?x] => rewrite !H
  end.

(** Decide the tests of the body that the context settles. *)
Ltac go_decide :=
  match goal with
  | |- context [bool_decide ?P] =>
      first [ rewrite (bool_decide_eq_true_2 P) by (done || lia)
            | rewrite (bool_decide_eq_false_2 P) by (done || lia) ]
  end.

Ltac go_exec :=
  repeat (go_unfold; try go_rewrite; repeat go_decide);
  rewrite <-?app_assoc; cbn [app].
