(* ===== verification/Fixtures.v ===== *)
(** * Concrete inputs

    A directory, a server and two client configurations on the simulated
    backend: the inputs at which the theorems of the development are
    applied.  The directory is the one of the scenarios: user alice, once,
    with a common name and a mail address; user bob, member of the groups
    admins and devs. *)

From stdpp Require Import base tactics option list strings gmap.
From Stdlib Require Import ZArith.
From S2P Require Import Prelude GoFmt Ldap Sim Client.

Module fixtures.

Definition admin_dn : string := "cn=admin,dc=example,dc=com".
Definition alice_dn : string := "uid=alice,dc=example,dc=com".

Definition alice : ldap.Entry.t :=
  ldap.Entry.mk alice_dn
    [ldap.EntryAttribute.mk "cn" ["Alice A"];
     ldap.EntryAttribute.mk "mail" ["alice@example.com"]].

Definition carol1 : ldap.Entry.t :=
  ldap.Entry.mk "uid=carol,ou=a,dc=example,dc=com" [ldap.EntryAttribute.mk "cn" ["Carol"]].
Definition carol2 : ldap.Entry.t :=
  ldap.Entry.mk "uid=carol,ou=b,dc=example,dc=com" [ldap.EntryAttribute.mk "cn" ["Carol"]].

Definition admins : ldap.Entry.t :=
  ldap.Entry.mk "cn=admins,ou=groups,dc=example,dc=com" [ldap.EntryAttribute.mk "cn" ["admins"]].
Definition devs : ldap.Entry.t :=
  ldap.Entry.mk "cn=devs,ou=groups,dc=example,dc=com" [ldap.EntryAttribute.mk "cn" ["devs"]].

Definition directory : list (string * list ldap.Entry.t) :=
  [("(uid=alice)", [alice]);
   ("(uid=carol)", [carol1; carol2]);
   ("(memberUid=bob)", [admins; devs])].

Definition accounts : list (string * string) :=
  [(admin_dn, "secret"); (alice_dn, "wonderland")].

(** A healthy server. *)
Definition server : sim.world :=
  sim.mkWorld true true "ldap.example.com" accounts directory 0 [] [] None.

(** The same server failing its next [n] searches. *)
Definition busy (n : nat) : sim.world := sim.set_search_failures n server.

(** The same server accepting [n] binds and no more. *)
Definition limited (n : nat) : sim.world := sim.set_bind_limit (Some n) server.

(** A server nobody answers for. *)
Definition down : sim.world :=
  sim.mkWorld false true "ldap.example.com" accounts directory 0 [] [] None.

(** A server that refuses the upgrade to TLS. *)
Definition plaintext_only : sim.world :=
  sim.mkWorld true false "ldap.example.com" accounts directory 0 [] [] None.

(** A client that dials in plaintext and upgrades, with privileged bind
    credentials. *)
Definition client : LDAPClient :=
  mkLDAPClient None "ldap.example.com" 389 false admin_dn "secret"
    "(memberUid=%s)" "(uid=%s)" "dc=example,dc=com" ["cn"; "mail"] "ldap.example.com".

(** The same client dialling with TLS. *)
Definition client_ssl : LDAPClient :=
  mkLDAPClient None "ldap.example.com" 636 true admin_dn "secret"
    "(memberUid=%s)" "(uid=%s)" "dc=example,dc=com" ["cn"; "mail"] "ldap.example.com".

(** The same client without privileged credentials. *)
Definition client_anonymous : LDAPClient :=
  mkLDAPClient None "ldap.example.com" 389 false "" ""
    "(memberUid=%s)" "(uid=%s)" "dc=example,dc=com" ["cn"; "mail"] "ldap.example.com".

(** The same client with a wrong privileged password. *)
Definition client_bad_credentials : LDAPClient :=
  mkLDAPClient None "ldap.example.com" 389 false admin_dn "wrong"
    "(memberUid=%s)" "(uid=%s)" "dc=example,dc=com" ["cn"; "mail"] "ldap.example.com".

(** A fresh call state. *)
Definition start (lc : LDAPClient) (w : sim.world) : state sim.world := mkState lc w [].

(** The state a [Connect] of [client] leaves on a server. *)
Definition connected_on (w : sim.world) : state sim.world :=
  (run Connect (start client w)).2.

Definition connected : state sim.world := connected_on server.

(** The state a [Close] leaves after that. *)
Definition disconnected : state sim.world := (run Close connected).2.

(** A client whose user filter names the user twice. *)
Definition client_two_placeholders : LDAPClient :=
  mkLDAPClient None "ldap.example.com" 389 false admin_dn "secret"
    "(memberUid=%s)" "(|(uid=%s)(mail=%s))" "dc=example,dc=com" ["cn"; "mail"]
    "ldap.example.com".

(** The request [SearchUser] and [FindUsers] send for a user. *)
Definition user_request (u : string) : ldap.SearchRequest.t := userSearchRequest client u.

End fixtures.
