(* ===== verification/Session.v ===== *)
(** * The session: [Connect] and [Close]

    Every branch of [Connect] (already connected; plaintext dial and
    upgrade; TLS dial; each failure) and of [Close], with the state and the
    trace each leaves, and the general contract of [Connect] the other
    methods are verified against. *)

From stdpp Require Import base tactics option list strings gmap.
From Stdlib Require Import ZArith.
From S2P Require Import Prelude GoFmt Ldap Sim Client Fixtures.

(** The address [Connect] dials. *)
Definition address (this : LDAPClient) : string :=
  Sprintf_s_d (Host this) (Port this).

(** The handshake configuration of the upgrade: the certificate is not
    verified. *)
Definition upgrade_config : tls.Config := tls.mkConfig true "".

(** The handshake configuration of the TLS dial: the certificate is
    verified against the configured server name. *)
Definition verify_config (this : LDAPClient) : tls.Config :=
  tls.mkConfig false (ServerName this).

(** What a method may do to the state it is called in: the configuration
    is not written, a stored session is never replaced, the world moves by
    primitives of the library, the trace grows, and nothing is dialled
    while a session is stored. *)
Record evolves `{ldap.Backend W} (s s' : state W) : Prop := mkEvolves {
  ev_config : set_Conn None (lc s') = set_Conn None (lc s);
  ev_session c : Conn (lc s) = Some c → Conn (lc s') = Some c;
  ev_world : rtc ldap.step (world s) (world s');
  ev_trace : trace s `prefix_of` trace s';
  ev_dials c : Conn (lc s) = Some c → count is_dial (trace s') = count is_dial (trace s)
}.

(** The world is what a successful [StartTLS] on the session, or the
    successful [DialTLS] that gave the session, left. *)
Definition secured `{ldap.Backend W} (w' : W) (l : ldap.Conn) : Prop :=
  (∃ config w, ldap.StartTLS l config w = (None, w'))
  ∨ (∃ network address config w, ldap.DialTLS network address config w = (inr l, w')).

(** The contract of [Connect]: it returns; on success a session is stored,
    the one that was or one just secured; on failure none is and the
    client is as before. *)
Definition Connect_post `{ldap.Backend W} (s : state W) (err : option error) (s' : state W) : Prop :=
  evolves s s' ∧
  match err with
  | None => ∃ l, Conn (lc s') = Some l ∧ (s' = s ∨ secured (world s') l)
  | Some _ => lc s' = lc s ∧ Conn (lc s) = None
  end.

(** Prove [evolves] of a state given by its components. *)
Ltac solve_evolves :=
  split; simpl;
  [ done || congruence
  | intros; done || congruence
  | solve_steps
  | done || by apply prefix_app_r
  | intros; first [congruence | autorewrite with trace; simpl; lia] ].

(** Run [Connect] where the context gives the outcome of each primitive
    it calls. *)
Ltac run_Connect :=
  unfold Connect, address, verify_config, upgrade_config in *; by go_exec.

Section session.
Context `{Formatter} `{ldap.Backend W}.
Implicit Types s : state W.

(** ** [evolves] is a preorder *)

#[export] Instance evolves_refl : Reflexive (evolves (W:=W)).
Proof. intros s. by split. Qed.

#[export] Instance evolves_trans : Transitive (evolves (W:=W)).
Proof.
  intros s1 s2 s3 [? Hs1 ? ? Hd1] [? ? ? ? Hd2].
  split; [congruence|auto|by etrans|by etrans|].
  intros c Hc. rewrite (Hd2 c), (Hd1 c); auto.
Qed.

(** Primitives that ran and events that dial nothing. *)
Lemma evolves_events s w' (t : list event) :
  rtc ldap.step (world s) w' → count is_dial t = 0 →
  evolves s (mkState (lc s) w' (trace s ++ t)).
Proof.
  intros Hw Ht. split; simpl; [done|done|done|by apply prefix_app_r|].
  intros. rewrite count_app. lia.
Qed.

(** After [Connect], a method leaves the client and the world as the rest
    of its body does: on a failed [Connect] it returns at once. *)
Definition method_post (s s' : state W) : Prop :=
  ∃ err s0, run Connect s = (Some err, s0) ∧ evolves s0 s' ∧ (is_Some err → s' = s0).

(** ** The branches of [Connect] *)

(** [Connect] on a client that holds a session does nothing: no
    dial, no write, and it reports success. *)
Theorem Connect_connected s c :
  Conn (lc s) = Some c → run Connect s = (Some None, s).
Proof. intros Hc. unfold Connect. by go_exec. Qed.

(** C11. Without [UseSSL], [Connect] dials in plaintext, upgrades the
    session with [StartTLS] without verifying the certificate, and stores
    the session once both succeeded. *)
Theorem Connect_plain_ok s l w1 w2 :
  Conn (lc s) = None → UseSSL (lc s) = false →
  ldap.Dial "tcp" (address (lc s)) (world s) = (inr l, w1) →
  ldap.StartTLS l upgrade_config w1 = (None, w2) →
  run Connect s =
    (Some None,
     mkState (set_Conn (Some l) (lc s)) w2
       (trace s ++ [EDial "tcp" (address (lc s)) (inr l);
                    EStartTLS l upgrade_config None])).
Proof.
  unfold address, upgrade_config. intros Hc Hssl Hd Ht. unfold Connect. by go_exec.
Qed.

(** A failed dial is returned as it is, and no session is stored. *)
Theorem Connect_dial_error s e w1 :
  Conn (lc s) = None → UseSSL (lc s) = false →
  ldap.Dial "tcp" (address (lc s)) (world s) = (inl e, w1) →
  run Connect s =
    (Some (Some e),
     mkState (lc s) w1 (trace s ++ [EDial "tcp" (address (lc s)) (inl e)])).
Proof. unfold address. intros Hc Hssl Hd. unfold Connect. by go_exec. Qed.

(** C14. When the upgrade fails after a successful dial, [Connect] returns
    the error and stores nothing: the dialled session is neither kept in
    [lc.Conn] nor closed. *)
Theorem Connect_starttls_error s l e w1 w2 :
  Conn (lc s) = None → UseSSL (lc s) = false →
  ldap.Dial "tcp" (address (lc s)) (world s) = (inr l, w1) →
  ldap.StartTLS l upgrade_config w1 = (Some e, w2) →
  run Connect s =
    (Some (Some e),
     mkState (lc s) w2
       (trace s ++ [EDial "tcp" (address (lc s)) (inr l);
                    EStartTLS l upgrade_config (Some e)])).
Proof.
  unfold address, upgrade_config. intros Hc Hssl Hd Ht. unfold Connect. by go_exec.
Qed.

(** With [UseSSL], [Connect] dials with TLS, verifying the
    certificate against [lc.ServerName], and stores the session. *)
Theorem Connect_tls_ok s l w1 :
  Conn (lc s) = None → UseSSL (lc s) = true →
  ldap.DialTLS "tcp" (address (lc s)) (verify_config (lc s)) (world s) = (inr l, w1) →
  run Connect s =
    (Some None,
     mkState (set_Conn (Some l) (lc s)) w1
       (trace s ++ [EDialTLS "tcp" (address (lc s)) (verify_config (lc s)) (inr l)])).
Proof.
  unfold address, verify_config. intros Hc Hssl Hd. unfold Connect. by go_exec.
Qed.

Lemma Connect_tls_error s e w1 :
  Conn (lc s) = None → UseSSL (lc s) = true →
  ldap.DialTLS "tcp" (address (lc s)) (verify_config (lc s)) (world s) = (inl e, w1) →
  run Connect s =
    (Some (Some e),
     mkState (lc s) w1
       (trace s ++ [EDialTLS "tcp" (address (lc s)) (verify_config (lc s)) (inl e)])).
Proof.
  unfold address, verify_config. intros Hc Hssl Hd. unfold Connect. by go_exec.
Qed.

(** ** The contract of [Connect] *)

Lemma Connect_returns s : returns Connect (Connect_post s) s.
Proof.
  apply returns_run. unfold Connect_post.
  destruct (Conn (lc s)) as [c|] eqn:Hc.
  { exists None, s. split; [run_Connect|]. split; [done|]. exists c. auto. }
  destruct (UseSSL (lc s)) eqn:Hssl.
  - destruct (ldap.DialTLS "tcp" (address (lc s)) (verify_config (lc s)) (world s))
      as [[e|l] w1] eqn:Hd; eexists _, _;
      (split; [run_Connect|]); (split; [solve_evolves|]); [done|].
    exists l. split; [done|]. right. right. eauto.
  - destruct (ldap.Dial "tcp" (address (lc s)) (world s)) as [[e|l] w1] eqn:Hd.
    { eexists _, _. split; [run_Connect|]. split; [solve_evolves|done]. }
    destruct (ldap.StartTLS l upgrade_config w1) as [[e|] w2] eqn:Ht; eexists _, _;
      (split; [run_Connect|]); (split; [solve_evolves|]); [done|].
    exists l. split; [done|]. right. left. eauto.
Qed.

(** The two outcomes of [Connect]. *)
Lemma Connect_cases s :
  (∃ e s0, run Connect s = (Some (Some e), s0) ∧ method_post s s0)
  ∨ (∃ c s0, run Connect s = (Some None, s0) ∧ Conn (lc s0) = Some c).
Proof.
  destruct (proj1 (returns_run _ _ _) (Connect_returns s)) as ([e|] & s0 & HC & Hev & Hpost).
  - left. exists e, s0. split; [done|]. by exists (Some e), s0.
  - right. destruct Hpost as (c & Hc & _). eauto.
Qed.

Lemma method_post_evolves s s' : method_post s s' → evolves s s'.
Proof.
  intros (err & s0 & HC & Hev & _).
  apply (returns_inv _ _ _ _ _ (Connect_returns s)) in HC as [Hev0 _]. by etrans.
Qed.

(** The rest of a method after a successful [Connect]. *)
Lemma method_post_connected s s0 s' :
  run Connect s = (Some None, s0) → evolves s0 s' → method_post s s'.
Proof. intros HC Hev. exists None, s0. split; [done|]. split; [done|]. by intros [? [=]]. Qed.

(** What a caller of [Connect] learns from its outcome. *)
Lemma Connect_inv s o s1 :
  Connect s = (o, s1) → ∃ err, o = Returned err ∧ Connect_post s err s1.
Proof.
  intros HC. pose proof (Connect_returns s) as Hr.
  unfold returns, wp in Hr. rewrite HC in Hr. destruct o; [done|eauto|done].
Qed.

(** ** [Close] *)

(** C16. [Close] closes the session and leaves it in [lc.Conn]: the client
    still holds the closed session afterwards. *)
Theorem Close_keeps_Conn s c :
  Conn (lc s) = Some c →
  run Close s = (Some tt, mkState (lc s) (ldap.Close c (world s)) (trace s ++ [EClose c])).
Proof. intros Hc. unfold Close. by go_exec. Qed.

Lemma Close_unconnected s :
  Conn (lc s) = None → run Close s = (Some tt, s).
Proof. intros Hc. unfold Close. by go_exec. Qed.

Lemma Close_returns s : returns Close (λ _ s', evolves s s' ∧ lc s' = lc s) s.
Proof.
  apply returns_run. destruct (Conn (lc s)) as [c|] eqn:Hc; eexists _, _.
  - split; [unfold Close; by go_exec|]. split; [solve_evolves|done].
  - split; [by eapply Close_unconnected|]. done.
Qed.

(** After [Close], [Connect] does not dial again: it finds the closed
    session in [lc.Conn] and reports success. *)
Lemma Connect_after_Close s c s1 :
  Conn (lc s) = Some c → run Close s = (Some tt, s1) →
  run Connect s1 = (Some None, s1) ∧ Conn (lc s1) = Some c.
Proof.
  intros Hc HClose. apply (returns_inv _ _ _ _ _ (Close_returns s)) in HClose as [_ Hlc].
  assert (Conn (lc s1) = Some c) by congruence. split; [run_Connect|done].
Qed.

(** A second [Close] is not a no-op: it finds the closed session in
    [lc.Conn] and closes it again, so [Close] is idempotent only as far as
    the [Close] of the library is. *)
Lemma Close_twice s c :
  Conn (lc s) = Some c →
  run Close (run Close s).2
  = (Some tt, mkState (lc s) (ldap.Close c (ldap.Close c (world s)))
                (trace s ++ [EClose c; EClose c])).
Proof.
  intros Hc.
  assert (run Close s
          = (Some tt, mkState (lc s) (ldap.Close c (world s)) (trace s ++ [EClose c]))) as ->
    by (unfold Close; by go_exec).
  unfold Close. by go_exec.
Qed.

End session.

(** ** At concrete inputs *)

Lemma Connect_connected_witness :
  run Connect fixtures.connected = (Some None, fixtures.connected).
Proof. apply (Connect_connected fixtures.connected 0). reflexivity. Defined.

Lemma Connect_plain_ok_witness :
  ∃ s', run Connect (fixtures.start fixtures.client fixtures.server) = (Some None, s')
        ∧ Conn (lc s') = Some 0
        ∧ count is_dial (trace s') = 1.
Proof.
  eexists. split.
  - eapply (Connect_plain_ok (fixtures.start fixtures.client fixtures.server) 0);
      reflexivity.
  - by vm_compute.
Defined.

Lemma Connect_dial_error_witness :
  ∃ e s', run Connect (fixtures.start fixtures.client fixtures.down) = (Some (Some e), s')
          ∧ Conn (lc s') = None.
Proof.
  eexists _, _. split.
  - eapply (Connect_dial_error (fixtures.start fixtures.client fixtures.down));
      reflexivity.
  - by vm_compute.
Defined.

Lemma Connect_starttls_error_witness :
  ∃ e s', run Connect (fixtures.start fixtures.client fixtures.plaintext_only)
            = (Some (Some e), s')
          ∧ Conn (lc s') = None
          ∧ sim.live (world s') 0 = true
          ∧ count is_close (trace s') = 0.
Proof.
  eexists _, _. split.
  - eapply (Connect_starttls_error
             (fixtures.start fixtures.client fixtures.plaintext_only) 0);
      reflexivity.
  - by vm_compute.
Defined.

Lemma Connect_tls_ok_witness :
  ∃ s', run Connect (fixtures.start fixtures.client_ssl fixtures.server) = (Some None, s')
        ∧ Conn (lc s') = Some 0
        ∧ sim.encrypted (world s') 0 = true.
Proof.
  eexists. split.
  - eapply (Connect_tls_ok (fixtures.start fixtures.client_ssl fixtures.server) 0);
      reflexivity.
  - by vm_compute.
Defined.

Lemma Close_keeps_Conn_witness :
  ∃ s', run Close fixtures.connected = (Some tt, s')
        ∧ Conn (lc s') = Some 0
        ∧ sim.closed (world s') 0 = true.
Proof.
  eexists. split.
  - apply (Close_keeps_Conn fixtures.connected 0). reflexivity.
  - by vm_compute.
Defined.
