(* ===== verification/Retry.v ===== *)
(** * The retry loop

    [retry_loop] is the loop that follows the first search in
    [SearchUser], [GetGroupsOfUser] and [FindUsers]; [search_with_retry]
    is the first search, [retry := 3] and the loop.  This file shows that
    the fuelled definition is the [for] loop of the source (its equation,
    and that the fuel passed is enough), how many searches and sleeps it
    makes, and what it returns on every branch. *)

From stdpp Require Import base tactics option list strings gmap.
From Stdlib Require Import ZArith Lia.
From S2P Require Import Prelude GoFmt Ldap Sim Client Fixtures Session.

#[local] Open Scope go_scope.
#[local] Open Scope Z_scope.

(** The events of one iteration of the loop body at counter value [retry]
    when nothing overflows: the search, the log line, the sleep of [retry]
    seconds. *)
Definition retry_events (c : ldap.Conn) (req : ldap.SearchRequest.t)
    (r : error + ldap.SearchResult.t) (retry : Z) : list event :=
  [ESearch c req r; ELog retrying_format req retry; ESleep (Second * retry)].

(** [search_with_retry] falls through with [r] in [s1], in whatever method
    it runs. *)
Definition searched `{ldap.Backend W} (req : ldap.SearchRequest.t) (s : state W)
    (r : error + ldap.SearchResult.t) (s1 : state W) : Prop :=
  ∀ R, search_with_retry (R:=R) req s = (Normal r, s1).

(** An iteration dials nothing. *)
Lemma retry_events_dials c req r retry : count is_dial (retry_events c req r retry) = 0%nat.
Proof. done. Qed.

#[export] Hint Rewrite retry_events_dials : trace.

Section retry.
Context `{Formatter} `{ldap.Backend W} {R : Type}.
Implicit Types (s : state W) (r : error + ldap.SearchResult.t).

(** ** The counter and the fuel *)

Lemma retry_fuel_succ retry : retry ≤ 3 → retry_fuel retry = S (retry_fuel (retry + 1)).
Proof. unfold retry_fuel. lia. Qed.

Lemma retry_fuel_done retry : 3 < retry → retry_fuel retry = 0%nat.
Proof. unfold retry_fuel. lia. Qed.

(** [retry++] does not wrap while the loop runs. *)
Lemma wrap64_counter retry : in_int64 retry → retry ≤ 3 → wrap64 (retry + 1) = retry + 1.
Proof.
  unfold in_int64, int64_lo, int64_hi. intros. apply wrap64_small.
  unfold in_int64, int64_lo, int64_hi. lia.
Qed.

Lemma in_int64_succ retry : in_int64 retry → retry ≤ 3 → in_int64 (retry + 1).
Proof. unfold in_int64, int64_lo, int64_hi. lia. Qed.

Lemma wrap64_sleep retry :
  -9223372036 ≤ retry ≤ 9223372036 → wrap64 (Second * retry) = Second * retry.
Proof.
  intros. apply wrap64_small. unfold in_int64, int64_lo, int64_hi, Second. lia.
Qed.


Lemma retry_loop_S fuel c req r retry :
  retry_loop (R:=R) (S fuel) c req r retry =
    if failed r && bool_decide (retry ≤ 3) then
      let* r' := Conn_Search c req in
      do* log_Printf retrying_format req retry in
      do* time_Sleep (wrap64 (Second * retry)) in
      retry_loop fuel c req r' (wrap64 (retry + 1))
    else ret r.
Proof. done. Qed.

(** ** The definition is the loop *)


(** C9. The fuel the methods pass is enough: any larger fuel gives the
    same run, so the loop never stops for lack of fuel. *)
Theorem retry_loop_fuel_enough fuel c req r retry s :
  in_int64 retry → (retry_fuel retry ≤ fuel)%nat →
  retry_loop (R:=R) fuel c req r retry s = retry_loop (retry_fuel retry) c req r retry s.
Proof.
  revert r retry s. induction fuel as [|fuel IH]; intros r retry s Hr Hfuel.
  { by replace (retry_fuel retry) with 0%nat by lia. }
  destruct (decide (retry ≤ 3)) as [Hle|Hgt].
  - rewrite (retry_fuel_succ retry Hle) in *. rewrite !retry_loop_S.
    destruct (failed r && bool_decide (retry ≤ 3)); [|done].
    go_unfold. rewrite wrap64_counter by done.
    apply IH; [by apply in_int64_succ|lia].
  - rewrite retry_fuel_done, retry_loop_S by lia.
    by rewrite bool_decide_eq_false_2, andb_false_r.
Qed.

(** From any counter value the loop terminates without panic, writes
    nothing to the client, and searches at most [4 - retry] times. *)
Theorem retry_loop_bound fuel c req r retry s :
  in_int64 retry →
  ∃ r' s', retry_loop (R:=R) fuel c req r retry s = (Normal r', s')
    ∧ evolves s s' ∧ lc s' = lc s
    ∧ (count is_search (trace s') ≤ count is_search (trace s) + retry_fuel retry)%nat.
Proof.
  revert r retry s. induction fuel as [|fuel IH]; intros r retry s Hr.
  { eexists _, _. split; [done|]. split; [done|]. split; [done|]. lia. }
  rewrite retry_loop_S. case_bool_decide as Hle; [destruct (failed r)|]; simpl.
  - go_unfold.
    destruct (ldap.Search c req (world s)) as [r1 w1] eqn:Hs. cbn [fst snd].
    rewrite wrap64_counter by done.
    edestruct (IH r1 (retry + 1)) as (r' & s' & -> & Hev & Hlc & Hcount);
      [by apply in_int64_succ|].
    eexists _, _. split; [done|]. split; [|split].
    + etrans; [|exact Hev]. rewrite <-!app_assoc. solve_evolves.
    + by rewrite Hlc.
    + rewrite (retry_fuel_succ retry) by done. etrans; [apply Hcount|].
      simpl. autorewrite with trace. simpl. lia.
  - eexists _, _. split; [done|]. split; [done|]. split; [done|]. lia.
  - rewrite andb_false_r. eexists _, _. split; [done|]. split; [done|]. split; [done|]. lia.
Qed.

(** ** The search with its retry *)

Lemma search_with_retry_first s c req sr w1 :
  Conn (lc s) = Some c →
  ldap.Search c req (world s) = (inr sr, w1) →
  search_with_retry (R:=R) req s =
    (Normal (inr sr), mkState (lc s) w1 (trace s ++ [ESearch c req (inr sr)])).
Proof. intros Hc Hs. unfold search_with_retry. by go_exec. Qed.

Lemma search_with_retry_retried s c req e1 w1 r2 w2 :
  Conn (lc s) = Some c →
  ldap.Search c req (world s) = (inl e1, w1) →
  ldap.Search c req w1 = (r2, w2) →
  search_with_retry (R:=R) req s =
    (Normal r2,
     mkState (lc s) w2
       (trace s ++ ESearch c req (inl e1) :: retry_events c req r2 3)).
Proof.
  intros Hc Hs1 Hs2. unfold search_with_retry. go_exec.
  change (retry_fuel 3) with 1%nat.
  rewrite retry_loop_S. go_exec. by rewrite wrap64_sleep.
Qed.

(** C7. When the first search fails, the request is sent once more, the
    line is logged and the call sleeps three seconds, whatever the second
    search answered; the second answer, result or error, is the outcome.
    There is no third search. *)
Theorem search_with_retry_once s c req e1 w1 r2 w2 :
  Conn (lc s) = Some c →
  ldap.Search c req (world s) = (inl e1, w1) →
  ldap.Search c req w1 = (r2, w2) →
  search_with_retry (R:=R) req s =
    (Normal r2,
     mkState (lc s) w2
       (trace s ++ [ESearch c req (inl e1); ESearch c req r2;
                    ELog retrying_format req 3; ESleep 3000000000])).
Proof. intros Hc Hs1 Hs2. by rewrite (search_with_retry_retried s c req e1 w1 r2 w2). Qed.

Lemma search_with_retry_nil s req :
  Conn (lc s) = None → search_with_retry (R:=R) req s = (Panicked, s).
Proof. intros Hc. unfold search_with_retry. by go_exec. Qed.

(** The two runs of [search_with_retry] on a stored session. *)
Lemma search_with_retry_cases s c req :
  Conn (lc s) = Some c →
  (∃ sr w1, ldap.Search c req (world s) = (inr sr, w1) ∧
     search_with_retry (R:=R) req s =
       (Normal (inr sr), mkState (lc s) w1 (trace s ++ [ESearch c req (inr sr)])))
  ∨ (∃ e1 w1 r2 w2,
       ldap.Search c req (world s) = (inl e1, w1) ∧ ldap.Search c req w1 = (r2, w2) ∧
       search_with_retry (R:=R) req s =
         (Normal r2,
          mkState (lc s) w2 (trace s ++ ESearch c req (inl e1) :: retry_events c req r2 3))).
Proof.
  intros Hc. destruct (ldap.Search c req (world s)) as [[e1|sr] w1] eqn:Hs1.
  - right. destruct (ldap.Search c req w1) as [r2 w2] eqn:Hs2.
    eexists _, _, _, _. eauto using search_with_retry_retried.
  - left. eexists _, _. eauto using search_with_retry_first.
Qed.

(** Had the counter started at 1, the loop would retry up to three
    times and sleep one, two and three seconds: the schedule the counter
    and the bound [retry <= 3] are written for. *)
Theorem retry_loop_from_one s c req e0 e1 w1 e2 w2 r3 w3 :
  ldap.Search c req (world s) = (inl e1, w1) →
  ldap.Search c req w1 = (inl e2, w2) →
  ldap.Search c req w2 = (r3, w3) →
  retry_loop (R:=R) (retry_fuel 1) c req (inl e0) 1 s =
    (Normal r3,
     mkState (lc s) w3
       (trace s ++ retry_events c req (inl e1) 1 ++ retry_events c req (inl e2) 2
                ++ retry_events c req r3 3)).
Proof.
  intros Hs1 Hs2 Hs3. change (retry_fuel 1) with 3%nat.
  rewrite retry_loop_S. go_exec. change (wrap64 (1 + 1)) with 2.
  rewrite retry_loop_S. go_exec. change (wrap64 (2 + 1)) with 3.
  rewrite retry_loop_S. go_exec. by rewrite !wrap64_sleep.
Qed.

End retry.

Section searched.
Context `{ldap.Backend W}.
Implicit Types (s : state W) (r : error + ldap.SearchResult.t).

Lemma searched_first s c req sr w1 :
  Conn (lc s) = Some c →
  ldap.Search c req (world s) = (inr sr, w1) →
  searched req s (inr sr) (mkState (lc s) w1 (trace s ++ [ESearch c req (inr sr)])).
Proof. intros ?? R. by eapply search_with_retry_first. Qed.

Lemma searched_once s c req e1 w1 r2 w2 :
  Conn (lc s) = Some c →
  ldap.Search c req (world s) = (inl e1, w1) →
  ldap.Search c req w1 = (r2, w2) →
  searched req s r2
    (mkState (lc s) w2 (trace s ++ ESearch c req (inl e1) :: retry_events c req r2 3)).
Proof. intros ??? R. by eapply search_with_retry_retried. Qed.

(** On a stored session the search with its retry falls through: it does
    not panic and does not return from the method. *)
Lemma searched_total s c req :
  Conn (lc s) = Some c →
  ∃ r s1, searched req s r s1 ∧ evolves s s1 ∧ lc s1 = lc s.
Proof.
  intros Hc. destruct (ldap.Search c req (world s)) as [[e1|sr] w1] eqn:Hs1.
  - destruct (ldap.Search c req w1) as [r2 w2] eqn:Hs2.
    eexists _, _. split; [by eapply searched_once|]. split; [solve_evolves|done].
  - eexists _, _. split; [by eapply searched_first|]. split; [solve_evolves|done].
Qed.

Lemma searched_inv {R} req s r s1 o s2 :
  searched req s r s1 → search_with_retry (R:=R) req s = (o, s2) → o = Normal r ∧ s2 = s1.
Proof. intros Hs. rewrite (Hs R). by intros [= <- <-]. Qed.
End searched.

(** ** At concrete inputs *)

(** A busy server, a connected client, and the request for alice. *)
Definition busy_state (n : nat) : state sim.world :=
  fixtures.connected_on (fixtures.busy n).


Lemma in_int64_3 : in_int64 3.
Proof. unfold in_int64, int64_lo, int64_hi. lia. Qed.


Lemma retry_loop_fuel_enough_witness :
  retry_loop (R:=unit) 7 0%nat (fixtures.user_request "alice")
    (inl ErrTooManyEntries) 3 (busy_state 2)
  = retry_loop (retry_fuel 3) 0%nat (fixtures.user_request "alice")
      (inl ErrTooManyEntries) 3 (busy_state 2).
Proof.
  apply (retry_loop_fuel_enough (W:=sim.world) 7 0%nat); [exact in_int64_3|].
  vm_compute. lia.
Defined.

Lemma retry_loop_bound_witness :
  ∃ r' s', retry_loop (R:=unit) 7 0%nat (fixtures.user_request "alice")
             (inl ErrTooManyEntries) 3 (busy_state 2) = (Normal r', s')
    ∧ evolves (busy_state 2) s' ∧ lc s' = lc (busy_state 2)
    ∧ (count is_search (trace s')
       ≤ count is_search (trace (busy_state 2)) + retry_fuel 3)%nat.
Proof. exact (retry_loop_bound (W:=sim.world) 7 0%nat _ _ 3 _ in_int64_3). Defined.

(** The server fails twice and would answer the third search: the client
    searches twice, sleeps three seconds once, and returns the second
    failure. *)
Lemma search_with_retry_once_witness :
  ∃ e s', search_with_retry (R:=unit) (fixtures.user_request "alice") (busy_state 2)
            = (Normal (inl e), s')
    ∧ count is_search (trace s') = 2%nat
    ∧ sleeps (trace s') = [3000000000]
    ∧ sim.search_failures (world s') = 0%nat.
Proof.
  eexists _, _. split.
  - eapply (search_with_retry_once (W:=sim.world) (busy_state 2) 0%nat); reflexivity.
  - by vm_compute.
Defined.

(** Started at 1, the loop rides out the two failures: one, two and three
    seconds of sleep, and the third retry is the answer for alice. *)
Lemma retry_loop_from_one_witness :
  ∃ s', retry_loop (R:=unit) (retry_fuel 1) 0%nat (fixtures.user_request "alice")
          (inl ErrTooManyEntries) 1 (busy_state 2)
        = (Normal (inr (ldap.SearchResult.mk [fixtures.alice])), s')
    ∧ sleeps (trace s') = [1000000000; 2000000000; 3000000000].
Proof.
  eexists. split.
  - eapply (retry_loop_from_one (W:=sim.world) (busy_state 2) 0%nat); reflexivity.
  - by vm_compute.
Defined.
