(* ===== verification/Search.v ===== *)
(** * The queries: [SearchUser], [GetGroupsOfUser], [FindUsers]

    The loops that build the results, the request each method sends, the
    result of each method on every branch, and for each method its
    specification as a relation with the theorem that the method
    implements it and that the relation is total. *)

From stdpp Require Import base tactics option list strings gmap.
From Stdlib Require Import ZArith Lia Ascii.
From S2P Require Import Prelude GoFmt Ldap Sim Client Fixtures Session Retry.

(** The common name of an entry. *)
Definition cn_of (entry : ldap.Entry.t) : string :=
  ldap.Entry.GetAttributeValue entry "cn".

(** What [SearchUser] promises: a connection failure or the failure of the
    search with its retry is returned as it is; no entry and several
    entries are errors; one entry gives its attributes. *)
Inductive SearchUser_spec `{Formatter} `{ldap.Backend W} (s : state W) (u : string)
    : option (gmap string string) * option error → state W → Prop :=
| SearchUser_connect e s0 :
    run Connect s = (Some (Some e), s0) →
    SearchUser_spec s u (None, Some e) s0
| SearchUser_failed e s0 s1 :
    run Connect s = (Some None, s0) →
    searched (userSearchRequest (lc s0) u) s0 (inl e) s1 →
    SearchUser_spec s u (None, Some e) s1
| SearchUser_none sr s0 s1 :
    run Connect s = (Some None, s0) →
    searched (userSearchRequest (lc s0) u) s0 (inr sr) s1 →
    ldap.SearchResult.Entries sr = [] →
    SearchUser_spec s u (None, Some ErrUserDoesNotExist) s1
| SearchUser_many sr s0 s1 :
    run Connect s = (Some None, s0) →
    searched (userSearchRequest (lc s0) u) s0 (inr sr) s1 →
    1 < length (ldap.SearchResult.Entries sr) →
    SearchUser_spec s u (None, Some ErrTooManyEntries) s1
| SearchUser_one sr entry s0 s1 :
    run Connect s = (Some None, s0) →
    searched (userSearchRequest (lc s0) u) s0 (inr sr) s1 →
    ldap.SearchResult.Entries sr = [entry] →
    SearchUser_spec s u (Some (user_of_entry (Attributes (lc s0)) entry), None) s1.

(** What [FindUsers] promises: as [SearchUser], but every entry found is
    returned, and only no entry is an error. *)
Inductive FindUsers_spec `{Formatter} `{ldap.Backend W} (s : state W) (u : string)
    : option (list (gmap string string)) * option error → state W → Prop :=
| FindUsers_connect e s0 :
    run Connect s = (Some (Some e), s0) →
    FindUsers_spec s u (None, Some e) s0
| FindUsers_failed e s0 s1 :
    run Connect s = (Some None, s0) →
    searched (userSearchRequest (lc s0) u) s0 (inl e) s1 →
    FindUsers_spec s u (None, Some e) s1
| FindUsers_no_entry sr s0 s1 :
    run Connect s = (Some None, s0) →
    searched (userSearchRequest (lc s0) u) s0 (inr sr) s1 →
    ldap.SearchResult.Entries sr = [] →
    FindUsers_spec s u (None, Some ErrUserDoesNotExist) s1
| FindUsers_entries sr s0 s1 :
    run Connect s = (Some None, s0) →
    searched (userSearchRequest (lc s0) u) s0 (inr sr) s1 →
    ldap.SearchResult.Entries sr ≠ [] →
    FindUsers_spec s u
      (Some (user_of_entry (Attributes (lc s0)) <$> ldap.SearchResult.Entries sr), None) s1.

(** What [GetGroupsOfUser] promises: the common names of the entries
    found, in the order of the answer; no entry is not an error. *)
Inductive GetGroupsOfUser_spec `{Formatter} `{ldap.Backend W} (s : state W) (u : string)
    : option (list string) * option error → state W → Prop :=
| GetGroupsOfUser_connect e s0 :
    run Connect s = (Some (Some e), s0) →
    GetGroupsOfUser_spec s u (None, Some e) s0
| GetGroupsOfUser_failed e s0 s1 :
    run Connect s = (Some None, s0) →
    searched (groupSearchRequest (lc s0) u) s0 (inl e) s1 →
    GetGroupsOfUser_spec s u (None, Some e) s1
| GetGroupsOfUser_groups sr s0 s1 :
    run Connect s = (Some None, s0) →
    searched (groupSearchRequest (lc s0) u) s0 (inr sr) s1 →
    GetGroupsOfUser_spec s u (Some (cn_of <$> ldap.SearchResult.Entries sr), None) s1.

(** Run a method body whose [Connect] and search outcomes the context
    gives. *)
Ltac go_method :=
  repeat match goal with
  | H : run Connect _ = _ |- _ => apply run_Returned in H
  end;
  repeat first
    [ progress go_exec
    | match goal with
      | H : searched ?req ?s _ _ |- context [search_with_retry ?req ?s] => rewrite (H _)
      end ].

(** ** The loops *)

Section loops.
Implicit Types (attrs : list string) (entry : ldap.Entry.t) (user : gmap string string).

Lemma user_fold_lookup attrs entry user a :
  foldl (λ user attr, <[attr := ldap.Entry.GetAttributeValue entry attr]> user) user attrs !! a
  = if decide (a ∈ attrs) then Some (ldap.Entry.GetAttributeValue entry a) else user !! a.
Proof.
  revert user. induction attrs as [|x attrs IH]; intros user; cbn [foldl].
  { by rewrite decide_False by set_solver. }
  rewrite IH. destruct (decide (a ∈ attrs)) as [Hin|Hnin].
  - by rewrite decide_True by set_solver.
  - destruct (decide (a = x)) as [->|Hne].
    + by rewrite lookup_insert_eq, decide_True by set_solver.
    + by rewrite lookup_insert_ne, decide_False by set_solver.
Qed.

(** The user map has exactly the configured attributes as keys, each
    with the first value the entry has for it, the empty string when the
    entry has none. *)
Theorem user_of_entry_lookup attrs entry a :
  user_of_entry attrs entry !! a
  = if decide (a ∈ attrs) then Some (ldap.Entry.GetAttributeValue entry a) else None.
Proof. unfold user_of_entry. by rewrite user_fold_lookup, lookup_empty. Qed.

Lemma user_of_entry_dom attrs entry : dom (user_of_entry attrs entry) = list_to_set attrs.
Proof.
  apply set_eq. intros a. unfold user_of_entry.
  rewrite elem_of_dom, user_fold_lookup, lookup_empty, elem_of_list_to_set.
  case_decide; [by split; eauto|]. split; [by intros []|done].
Qed.

Lemma foldl_snoc_fmap {A B} (f : A → B) (l : list A) (acc : list B) :
  foldl (λ acc x, acc ++ [f x]) acc l = acc ++ (f <$> l).
Proof.
  revert acc. induction l as [|x l IH]; intros acc; simpl.
  - by rewrite app_nil_r.
  - by rewrite IH, <-app_assoc.
Qed.

(** The guard [len(sr.Entries) < 1] is false on entries. *)
Lemma length_nonempty {A} (l : list A) : l ≠ [] → ¬ length l < 1.
Proof. destruct l; simpl; [done|lia]. Qed.

(** The loop of [GetGroupsOfUser] computes the common name of every
    entry, in order. *)
Lemma groups_of_entries_fmap (entries : list ldap.Entry.t) :
  groups_of_entries entries = cn_of <$> entries.
Proof. unfold groups_of_entries. by rewrite (foldl_snoc_fmap cn_of). Qed.

Lemma users_of_entries_fmap attrs (entries : list ldap.Entry.t) :
  users_of_entries attrs entries = user_of_entry attrs <$> entries.
Proof. unfold users_of_entries. by rewrite (foldl_snoc_fmap (user_of_entry attrs)). Qed.
End loops.

(** ** The filter *)

Section filter.
Context `{Formatter}.

(** C31. With a template holding one placeholder, the filter sent is the
    template with the username in the placeholder's place, byte for byte:
    nothing of the username is escaped. *)
Theorem userSearchRequest_filter (this : LDAPClient) (u pre post : string) :
  UserFilter this = pre +:+ "%s" +:+ post →
  percent_free pre = true → percent_free post = true →
  ldap.SearchRequest.Filter (userSearchRequest this u) = pre +:+ u +:+ post.
Proof.
  intros Hf Hpre Hpost. unfold userSearchRequest. simpl.
  apply Sprintf1_sound. rewrite Hf. by apply (sprintf1_placeholder pre post u "s"%char).
Qed.

(** With a template holding two placeholders, the second one finds no
    operand: the filter sent carries the formatter's complaint in its
    place. *)
Theorem userSearchRequest_two_placeholders (this : LDAPClient) (u pre mid post : string) :
  UserFilter this = pre +:+ "%s" +:+ mid +:+ "%s" +:+ post →
  percent_free pre = true → percent_free mid = true → percent_free post = true →
  ldap.SearchRequest.Filter (userSearchRequest this u)
  = pre +:+ u +:+ mid +:+ "%!s(MISSING)" +:+ post.
Proof.
  intros Hf Hpre Hmid Hpost. unfold userSearchRequest. simpl.
  apply Sprintf1_sound. rewrite Hf.
  by apply (sprintf1_second_placeholder pre mid post u "s"%char "s"%char).
Qed.
End filter.

(** ** The branches of the methods *)

Section search.
Context `{Formatter} `{ldap.Backend W}.
Implicit Types (s : state W).

(** C4. When the search finds exactly one entry, [SearchUser] returns the
    user map of that entry and no error. *)
Theorem SearchUser_found s s0 u sr s1 entry :
  run Connect s = (Some None, s0) →
  searched (userSearchRequest (lc s0) u) s0 (inr sr) s1 →
  ldap.SearchResult.Entries sr = [entry] →
  run (SearchUser u) s =
    (Some (Some (user_of_entry (Attributes (lc s0)) entry), None), s1).
Proof. intros HC Hs He. unfold SearchUser. by go_method. Qed.

(** When the search finds no entry, [SearchUser] returns a nil map and
    the error "User does not exist". *)
Theorem SearchUser_not_found s s0 u sr s1 :
  run Connect s = (Some None, s0) →
  searched (userSearchRequest (lc s0) u) s0 (inr sr) s1 →
  ldap.SearchResult.Entries sr = [] →
  run (SearchUser u) s = (Some (None, Some ErrUserDoesNotExist), s1).
Proof. intros HC Hs He. unfold SearchUser. by go_method. Qed.

(** When the search finds more than one entry, [SearchUser] returns a
    nil map and the error "Too many entries returned". *)
Theorem SearchUser_too_many s s0 u sr s1 :
  run Connect s = (Some None, s0) →
  searched (userSearchRequest (lc s0) u) s0 (inr sr) s1 →
  1 < length (ldap.SearchResult.Entries sr) →
  run (SearchUser u) s = (Some (None, Some ErrTooManyEntries), s1).
Proof. intros HC Hs He. unfold SearchUser. by go_method. Qed.

(** When the search with its retry fails, [SearchUser] returns the
    error of the last search. *)
Theorem SearchUser_search_error s s0 u e s1 :
  run Connect s = (Some None, s0) →
  searched (userSearchRequest (lc s0) u) s0 (inl e) s1 →
  run (SearchUser u) s = (Some (None, Some e), s1).
Proof. intros HC Hs. unfold SearchUser. by go_method. Qed.

Lemma SearchUser_connect_error s e s0 u :
  run Connect s = (Some (Some e), s0) →
  run (SearchUser u) s = (Some (None, Some e), s0).
Proof. intros HC. unfold SearchUser. by go_method. Qed.

(** C21. [GetGroupsOfUser] returns the common names of the entries found,
    in the order of the answer; with no entry it returns an empty list and
    no error. *)
Theorem GetGroupsOfUser_ok s s0 u sr s1 :
  run Connect s = (Some None, s0) →
  searched (groupSearchRequest (lc s0) u) s0 (inr sr) s1 →
  run (GetGroupsOfUser u) s =
    (Some (Some (cn_of <$> ldap.SearchResult.Entries sr), None), s1).
Proof.
  intros HC Hs. unfold GetGroupsOfUser. go_method. by rewrite groups_of_entries_fmap.
Qed.

Lemma GetGroupsOfUser_search_error s s0 u e s1 :
  run Connect s = (Some None, s0) →
  searched (groupSearchRequest (lc s0) u) s0 (inl e) s1 →
  run (GetGroupsOfUser u) s = (Some (None, Some e), s1).
Proof. intros HC Hs. unfold GetGroupsOfUser. by go_method. Qed.

Lemma GetGroupsOfUser_connect_error s e s0 u :
  run Connect s = (Some (Some e), s0) →
  run (GetGroupsOfUser u) s = (Some (None, Some e), s0).
Proof. intros HC. unfold GetGroupsOfUser. by go_method. Qed.

(** When the search finds entries, [FindUsers] returns the user map
    of each, in the order of the answer. *)
Theorem FindUsers_ok s s0 u sr s1 :
  run Connect s = (Some None, s0) →
  searched (userSearchRequest (lc s0) u) s0 (inr sr) s1 →
  ldap.SearchResult.Entries sr ≠ [] →
  run (FindUsers u) s =
    (Some (Some (user_of_entry (Attributes (lc s0)) <$> ldap.SearchResult.Entries sr), None),
     s1).
Proof.
  intros HC Hs He%length_nonempty. unfold FindUsers.
  go_method. by rewrite users_of_entries_fmap.
Qed.

(** When the search finds no entry, [FindUsers] returns a nil list
    and the error "User does not exist". *)
Theorem FindUsers_none s s0 u sr s1 :
  run Connect s = (Some None, s0) →
  searched (userSearchRequest (lc s0) u) s0 (inr sr) s1 →
  ldap.SearchResult.Entries sr = [] →
  run (FindUsers u) s = (Some (None, Some ErrUserDoesNotExist), s1).
Proof. intros HC Hs He. unfold FindUsers. by go_method. Qed.

Lemma FindUsers_search_error s s0 u e s1 :
  run Connect s = (Some None, s0) →
  searched (userSearchRequest (lc s0) u) s0 (inl e) s1 →
  run (FindUsers u) s = (Some (None, Some e), s1).
Proof. intros HC Hs. unfold FindUsers. by go_method. Qed.

Lemma FindUsers_connect_error s e s0 u :
  run Connect s = (Some (Some e), s0) →
  run (FindUsers u) s = (Some (None, Some e), s0).
Proof. intros HC. unfold FindUsers. by go_method. Qed.

(** ** The methods implement their specifications *)

Lemma SearchUser_spec_sound s u r s' :
  SearchUser_spec s u r s' → run (SearchUser u) s = (Some r, s').
Proof. destruct 1; unfold SearchUser; by go_method. Qed.

Lemma FindUsers_spec_sound s u r s' :
  FindUsers_spec s u r s' → run (FindUsers u) s = (Some r, s').
Proof.
  destruct 1 as [| | |sr s0 s1 HC Hs He]; unfold FindUsers; try by go_method.
  apply length_nonempty in He. go_method. by rewrite users_of_entries_fmap.
Qed.

Lemma GetGroupsOfUser_spec_sound s u r s' :
  GetGroupsOfUser_spec s u r s' → run (GetGroupsOfUser u) s = (Some r, s').
Proof.
  destruct 1; unfold GetGroupsOfUser; go_method; by rewrite ?groups_of_entries_fmap.
Qed.

(** After [Connect], the search with its retry has an outcome. *)
Lemma Connect_searched s (req : LDAPClient → ldap.SearchRequest.t) :
  (∃ e s0, run Connect s = (Some (Some e), s0) ∧ method_post s s0)
  ∨ (∃ s0 r s1, run Connect s = (Some None, s0) ∧ searched (req (lc s0)) s0 r s1
                ∧ method_post s s1).
Proof.
  destruct (Connect_cases s) as [?|(c & s0 & HC & Hc)]; [by left|right].
  destruct (searched_total s0 c (req (lc s0)) Hc) as (r & s1 & Hs & Hev1 & _).
  exists s0, r, s1. eauto using method_post_connected.
Qed.

Lemma SearchUser_spec_total s u : ∃ r s', SearchUser_spec s u r s' ∧ method_post s s'.
Proof.
  destruct (Connect_searched s (λ this, userSearchRequest this u))
    as [(e & s0 & HC & Hev)|(s0 & [e|sr] & s1 & HC & Hs & Hev)].
  { eexists _, _. split; [by eapply SearchUser_connect|done]. }
  { eexists _, _. split; [by eapply SearchUser_failed|done]. }
  destruct (ldap.SearchResult.Entries sr) as [|entry [|entry' rest]] eqn:He;
    eexists _, _; (split; [|done]).
  - by eapply SearchUser_none.
  - by eapply SearchUser_one.
  - eapply SearchUser_many; [done..|]. rewrite He. simpl. lia.
Qed.

Lemma FindUsers_spec_total s u : ∃ r s', FindUsers_spec s u r s' ∧ method_post s s'.
Proof.
  destruct (Connect_searched s (λ this, userSearchRequest this u))
    as [(e & s0 & HC & Hev)|(s0 & [e|sr] & s1 & HC & Hs & Hev)].
  { eexists _, _. split; [by eapply FindUsers_connect|done]. }
  { eexists _, _. split; [by eapply FindUsers_failed|done]. }
  destruct (ldap.SearchResult.Entries sr) as [|entry rest] eqn:He;
    eexists _, _; (split; [|done]).
  - by eapply FindUsers_no_entry.
  - eapply FindUsers_entries; [done..|]. by rewrite He.
Qed.

Lemma GetGroupsOfUser_spec_total s u :
  ∃ r s', GetGroupsOfUser_spec s u r s' ∧ method_post s s'.
Proof.
  destruct (Connect_searched s (λ this, groupSearchRequest this u))
    as [(e & s0 & HC & Hev)|(s0 & [e|sr] & s1 & HC & Hs & Hev)];
    eexists _, _; (split; [|done]).
  - by eapply GetGroupsOfUser_connect.
  - by eapply GetGroupsOfUser_failed.
  - by eapply GetGroupsOfUser_groups.
Qed.

(** C18. [SearchUser] implements its specification: at every state it
    returns, and what it returns and the state it leaves are those the
    specification gives, on every branch. *)
Theorem SearchUser_refines s u r s' :
  run (SearchUser u) s = (Some r, s') ↔ SearchUser_spec s u r s'.
Proof.
  apply run_spec_iff; [apply SearchUser_spec_sound|].
  destruct (SearchUser_spec_total s u) as (r0 & s0 & Hspec & _). eauto.
Qed.

(** [FindUsers] implements its specification. *)
Theorem FindUsers_refines s u r s' :
  run (FindUsers u) s = (Some r, s') ↔ FindUsers_spec s u r s'.
Proof.
  apply run_spec_iff; [apply FindUsers_spec_sound|].
  destruct (FindUsers_spec_total s u) as (r0 & s0 & Hspec & _). eauto.
Qed.

(** [GetGroupsOfUser] implements its specification. *)
Theorem GetGroupsOfUser_refines s u r s' :
  run (GetGroupsOfUser u) s = (Some r, s') ↔ GetGroupsOfUser_spec s u r s'.
Proof.
  apply run_spec_iff; [apply GetGroupsOfUser_spec_sound|].
  destruct (GetGroupsOfUser_spec_total s u) as (r0 & s0 & Hspec & _). eauto.
Qed.

Lemma SearchUser_spec_complete s u r s' :
  run (SearchUser u) s = (Some r, s') → SearchUser_spec s u r s'.
Proof.
  apply run_spec_iff; [apply SearchUser_spec_sound|].
  destruct (SearchUser_spec_total s u) as (r0 & s0 & Hspec & _). eauto.
Qed.

(** Where [SearchUser] finds its user, [FindUsers] on the same state
    returns a list of that one user and leaves the same state. *)
Theorem FindUsers_SearchUser s u user s' :
  run (SearchUser u) s = (Some (Some user, None), s') →
  run (FindUsers u) s = (Some (Some [user], None), s').
Proof.
  intros Hspec%SearchUser_spec_complete. inversion Hspec as [| | | |sr entry s0 ? HC Hs He].
  apply FindUsers_spec_sound.
  replace [user_of_entry (Attributes (lc s0)) entry]
    with (user_of_entry (Attributes (lc s0)) <$> ldap.SearchResult.Entries sr)
    by (by rewrite He).
  eapply FindUsers_entries; [done..|]. by rewrite He.
Qed.

End search.

(** ** A closed session *)

Section closed.
Context `{Formatter} `{ldap.BackendLaws W}.
Implicit Types (s : state W).

(** C17. On a client that holds a closed session, [SearchUser] does not
    dial again: it searches on the closed session, twice, and returns the
    error of the second search. *)
Theorem SearchUser_after_Close s c u :
  Conn (lc s) = Some c → ldap.closed (world s) c = true →
  ∃ e s', run (SearchUser u) s = (Some (None, Some e), s')
          ∧ Conn (lc s') = Some c
          ∧ ldap.closed (world s') c = true
          ∧ count is_dial (trace s') = count is_dial (trace s)
          ∧ count is_search (trace s') = (count is_search (trace s) + 2)%nat.
Proof.
  intros Hc Hclosed. set (req := userSearchRequest (lc s) u).
  destruct (ldap.Search c req (world s)) as [r1 w1] eqn:Hs1.
  destruct (ldap.Search c req w1) as [r2 w2] eqn:Hs2.
  pose proof (ldap.closed_stable _ _ c (step_Search_eq _ _ _ _ _ Hs1) Hclosed) as Hclosed1.
  pose proof (ldap.closed_stable _ _ c (step_Search_eq _ _ _ _ _ Hs2) Hclosed1) as Hclosed2.
  pose proof (ldap.closed_Search c req _ Hclosed) as Hf1. rewrite Hs1 in Hf1.
  pose proof (ldap.closed_Search c req _ Hclosed1) as Hf2. rewrite Hs2 in Hf2.
  destruct r1 as [e1|]; [|done]. destruct r2 as [e2|]; [|done].
  exists e2. eexists. split.
  - apply SearchUser_spec_sound. eapply (SearchUser_failed _ _ e2 s); [run_Connect|].
    by apply (searched_once s c req e1 w1 (inl e2) w2).
  - unfold retry_events. simpl. autorewrite with trace. simpl. repeat split; [done..|lia].
Qed.

End closed.

(** ** At concrete inputs *)

Lemma SearchUser_found_witness :
  ∃ user s', run (SearchUser "alice") (fixtures.start fixtures.client fixtures.server)
        = (Some (Some user, None), s')
      ∧ user !! "cn" = Some "Alice A"
      ∧ user !! "mail" = Some "alice@example.com"
      ∧ user !! "dn" = None.
Proof.
  eexists _, _. split.
  - eapply (SearchUser_found (fixtures.start fixtures.client fixtures.server));
      [reflexivity|eapply (searched_first _ 0); reflexivity|reflexivity].
  - by vm_compute.
Defined.

Lemma SearchUser_not_found_witness :
  ∃ s', run (SearchUser "nobody") (fixtures.start fixtures.client fixtures.server)
        = (Some (None, Some (errors_New "User does not exist")), s')
      ∧ count is_search (trace s') = 1.
Proof.
  eexists. split.
  - eapply (SearchUser_not_found (fixtures.start fixtures.client fixtures.server));
      [reflexivity|eapply (searched_first _ 0); reflexivity|reflexivity].
  - by vm_compute.
Defined.

Lemma SearchUser_too_many_witness :
  ∃ s', run (SearchUser "carol") (fixtures.start fixtures.client fixtures.server)
        = (Some (None, Some (errors_New "Too many entries returned")), s').
Proof.
  eexists.
  eapply (SearchUser_too_many (fixtures.start fixtures.client fixtures.server));
    [reflexivity|eapply (searched_first _ 0); reflexivity|vm_compute; lia].
Defined.

(** The server fails two searches: the second failure is what
    [SearchUser] returns, though a third search would have answered. *)
Lemma SearchUser_search_error_witness :
  ∃ e s', run (SearchUser "alice") (fixtures.start fixtures.client (fixtures.busy 2))
        = (Some (None, Some e), s')
      ∧ e = ldap_Error 51 "Busy"
      ∧ count is_search (trace s') = 2
      ∧ sim.search_failures (world s') = 0.
Proof.
  eexists _, _. split.
  - eapply (SearchUser_search_error (fixtures.start fixtures.client (fixtures.busy 2)));
      [reflexivity|eapply (searched_once _ 0); reflexivity].
  - by vm_compute.
Defined.

Lemma GetGroupsOfUser_ok_witness :
  ∃ groups s', run (GetGroupsOfUser "bob") (fixtures.start fixtures.client fixtures.server)
        = (Some (Some groups, None), s')
      ∧ groups = ["admins"; "devs"].
Proof.
  eexists _, _. split.
  - eapply (GetGroupsOfUser_ok (fixtures.start fixtures.client fixtures.server));
      [reflexivity|eapply (searched_first _ 0); reflexivity].
  - by vm_compute.
Defined.

Lemma FindUsers_ok_witness :
  ∃ users s', run (FindUsers "carol") (fixtures.start fixtures.client fixtures.server)
        = (Some (Some users, None), s')
      ∧ length users = 2
      ∧ (λ user : gmap string string, user !! "cn") <$> users = [Some "Carol"; Some "Carol"].
Proof.
  eexists _, _. split.
  - eapply (FindUsers_ok (fixtures.start fixtures.client fixtures.server));
      [reflexivity|eapply (searched_first _ 0); reflexivity|vm_compute; discriminate].
  - by vm_compute.
Defined.

Lemma FindUsers_none_witness :
  ∃ s', run (FindUsers "nobody") (fixtures.start fixtures.client fixtures.server)
        = (Some (None, Some (errors_New "User does not exist")), s').
Proof.
  eexists.
  eapply (FindUsers_none (fixtures.start fixtures.client fixtures.server));
    [reflexivity|eapply (searched_first _ 0); reflexivity|reflexivity].
Defined.

(** A username that closes the filter's clause and opens one of its own
    reaches the server as part of the filter. *)
Lemma userSearchRequest_filter_witness :
  ldap.SearchRequest.Filter (userSearchRequest fixtures.client "*)(uid=*") = "(uid=*)(uid=*)".
Proof.
  apply (userSearchRequest_filter fixtures.client "*)(uid=*" "(uid=" ")"); reflexivity.
Defined.

Lemma userSearchRequest_two_placeholders_witness :
  ldap.SearchRequest.Filter (userSearchRequest fixtures.client_two_placeholders "alice")
  = "(|(uid=alice)(mail=%!s(MISSING)))".
Proof.
  apply (userSearchRequest_two_placeholders fixtures.client_two_placeholders "alice"
           "(|(uid=" ")(mail=" "))"); reflexivity.
Defined.

Lemma FindUsers_SearchUser_witness :
  ∃ user s', run (FindUsers "alice") (fixtures.start fixtures.client fixtures.server)
             = (Some (Some [user], None), s')
           ∧ user !! "cn" = Some "Alice A".
Proof.
  eexists _, _. split.
  - apply (FindUsers_SearchUser (fixtures.start fixtures.client fixtures.server)).
    reflexivity.
  - by vm_compute.
Defined.

(** After [Close], the client searches on the session it closed. *)
Lemma SearchUser_after_Close_witness :
  ∃ e s', run (SearchUser "alice") fixtures.disconnected = (Some (None, Some e), s')
          ∧ Conn (lc s') = Some 0
          ∧ ldap.closed (world s') 0 = true
          ∧ count is_dial (trace s') = count is_dial (trace fixtures.disconnected)
          ∧ count is_search (trace s')
            = (count is_search (trace fixtures.disconnected) + 2)%nat.
Proof.
  apply (SearchUser_after_Close fixtures.disconnected 0 "alice"); reflexivity.
Defined.
