(* ===== verification/Auth.v ===== *)
(** * [Authenticate]

    The result of [Authenticate] on every branch, its specification as a
    relation with the theorem that the method implements it, and what a
    caller may conclude from the boolean it returns. *)

From stdpp Require Import base tactics option list strings gmap.
From Stdlib Require Import ZArith Lia.
From S2P Require Import Prelude GoFmt Ldap Sim Client Fixtures Session Retry Search.

(** The bind with the configured credentials that [Authenticate] performs
    before the search and again after the user's bind: its error, the
    world it leaves and the events it adds; nothing when the client has
    no credentials. *)
Definition privileged_bind `{ldap.Backend W} (this : LDAPClient) (c : ldap.Conn) (w : W)
    : option error * W * list event :=
  if has_bind_credentials this
  then let r := ldap.Bind c (BindDN this) (BindPassword this) w in
       (r.1, r.2, [EBind c (BindDN this) (BindPassword this) r.1])
  else (None, w, []).

(** What [Authenticate] promises, branch by branch.  [s0] is the state
    [Connect] leaves, [c] the session, [w1] the world after the first
    privileged bind, [w2] after the search, [w3] after the user's bind,
    [w4] after the second privileged bind. *)
Inductive Authenticate_spec `{Formatter} `{ldap.Backend W} (s : state W) (u p : string)
    : bool * option (gmap string string) * option error → state W → Prop :=
| Authenticate_connect e s0 :
    run Connect s = (Some (Some e), s0) →
    Authenticate_spec s u p (false, None, Some e) s0
| Authenticate_unbound s0 c e w1 t1 :
    run Connect s = (Some None, s0) → Conn (lc s0) = Some c →
    privileged_bind (lc s0) c (world s0) = (Some e, w1, t1) →
    Authenticate_spec s u p (false, None, Some e) (mkState (lc s0) w1 (trace s0 ++ t1))
| Authenticate_failed s0 c w1 t1 e w2 :
    run Connect s = (Some None, s0) → Conn (lc s0) = Some c →
    privileged_bind (lc s0) c (world s0) = (None, w1, t1) →
    ldap.Search c (authSearchRequest (lc s0) u) w1 = (inl e, w2) →
    Authenticate_spec s u p (false, None, Some e)
      (mkState (lc s0) w2
         (trace s0 ++ t1 ++ [ESearch c (authSearchRequest (lc s0) u) (inl e)]))
| Authenticate_none s0 c w1 t1 sr w2 :
    run Connect s = (Some None, s0) → Conn (lc s0) = Some c →
    privileged_bind (lc s0) c (world s0) = (None, w1, t1) →
    ldap.Search c (authSearchRequest (lc s0) u) w1 = (inr sr, w2) →
    ldap.SearchResult.Entries sr = [] →
    Authenticate_spec s u p (false, None, Some ErrUserDoesNotExist)
      (mkState (lc s0) w2
         (trace s0 ++ t1 ++ [ESearch c (authSearchRequest (lc s0) u) (inr sr)]))
| Authenticate_many s0 c w1 t1 sr w2 :
    run Connect s = (Some None, s0) → Conn (lc s0) = Some c →
    privileged_bind (lc s0) c (world s0) = (None, w1, t1) →
    ldap.Search c (authSearchRequest (lc s0) u) w1 = (inr sr, w2) →
    1 < length (ldap.SearchResult.Entries sr) →
    Authenticate_spec s u p (false, None, Some ErrTooManyEntries)
      (mkState (lc s0) w2
         (trace s0 ++ t1 ++ [ESearch c (authSearchRequest (lc s0) u) (inr sr)]))
| Authenticate_rejected s0 c w1 t1 sr w2 entry e w3 :
    run Connect s = (Some None, s0) → Conn (lc s0) = Some c →
    privileged_bind (lc s0) c (world s0) = (None, w1, t1) →
    ldap.Search c (authSearchRequest (lc s0) u) w1 = (inr sr, w2) →
    ldap.SearchResult.Entries sr = [entry] →
    ldap.Bind c (ldap.Entry.DN entry) p w2 = (Some e, w3) →
    Authenticate_spec s u p
      (false, Some (user_of_entry (Attributes (lc s0)) entry), Some e)
      (mkState (lc s0) w3
         (trace s0 ++ t1 ++ [ESearch c (authSearchRequest (lc s0) u) (inr sr);
                             EBind c (ldap.Entry.DN entry) p (Some e)]))
| Authenticate_accepted s0 c w1 t1 sr w2 entry w3 err w4 t4 :
    run Connect s = (Some None, s0) → Conn (lc s0) = Some c →
    privileged_bind (lc s0) c (world s0) = (None, w1, t1) →
    ldap.Search c (authSearchRequest (lc s0) u) w1 = (inr sr, w2) →
    ldap.SearchResult.Entries sr = [entry] →
    ldap.Bind c (ldap.Entry.DN entry) p w2 = (None, w3) →
    privileged_bind (lc s0) c w3 = (err, w4, t4) →
    Authenticate_spec s u p
      (true, Some (user_of_entry (Attributes (lc s0)) entry), err)
      (mkState (lc s0) w4
         (trace s0 ++ t1 ++ [ESearch c (authSearchRequest (lc s0) u) (inr sr);
                             EBind c (ldap.Entry.DN entry) p None] ++ t4)).

(** Split on whether the client has credentials, and name the outcome of
    each privileged bind. *)
Ltac privileged_cases :=
  unfold privileged_bind in *;
  repeat match goal with
  | H : context [has_bind_credentials ?this] |- _ =>
      lazymatch type of H with
      | has_bind_credentials this = _ => fail
      | _ => destruct (has_bind_credentials this) eqn:?
      end
  | H : context [ldap.Bind ?c ?dn ?pw ?w] |- _ =>
      lazymatch type of H with
      | ldap.Bind c dn pw w = _ => fail
      | _ => destruct (ldap.Bind c dn pw w) as [? ?] eqn:?
      end
  end;
  simplify_eq/=.

(** A path of the world along the primitives and the paths the context
    gives. *)
Ltac solve_rtc :=
  first [ eassumption
        | apply rtc_refl
        | eapply rtc_r; [|solve [eauto 2 with steps nocore]]; solve_rtc
        | etrans; [|eassumption]; solve_rtc ].

(** Run [Authenticate] where the context gives the outcome of each
    primitive it calls. *)
Ltac run_Authenticate :=
  privileged_cases;
  repeat match goal with err : option error |- _ => destruct err end;
  unfold Authenticate; by go_method.

(** The state a branch of [Authenticate] leaves is one a method may
    leave. *)
Ltac auth_post :=
  eapply method_post_connected; [done|];
  apply evolves_events;
  [ solve_rtc | autorewrite with trace; simpl; lia ].

Section authenticate.
Context `{Formatter} `{ldap.Backend W}.

Lemma Authenticate_spec_sound (s : state W) u p r s' :
  Authenticate_spec s u p r s' → run (Authenticate u p) s = (Some r, s').
Proof. destruct 1; run_Authenticate. Qed.

(** ** The branches *)

(** In this section [Connect] succeeded and left [s0], with the session
    [c] stored. *)
Section connected.
Context (s s0 : state W) (c : ldap.Conn) (u p : string).
Context (HC : run Connect s = (Some None, s0)) (Hc : Conn (lc s0) = Some c).

(** When the bind with the configured credentials fails, the method
    returns its error and [false] with a nil map, and does not search. *)
Theorem Authenticate_first_bind_error e w1 t1 :
  privileged_bind (lc s0) c (world s0) = (Some e, w1, t1) →
  run (Authenticate u p) s =
    (Some (false, None, Some e), mkState (lc s0) w1 (trace s0 ++ t1)).
Proof. intros Hb. run_Authenticate. Qed.

(** In this section the first bind with the configured credentials
    succeeded (or there are none) and the search answered [sr]. *)
Section located.
Context (w1 : W) (t1 : list event) (sr : ldap.SearchResult.t) (w2 : W).
Context (Hb : privileged_bind (lc s0) c (world s0) = (None, w1, t1)).
Context (Hs : ldap.Search c (authSearchRequest (lc s0) u) w1 = (inr sr, w2)).

(** When the search finds no entry, the method returns [false], a
    nil map and the error "User does not exist", and binds as nobody. *)
Theorem Authenticate_not_found :
  ldap.SearchResult.Entries sr = [] →
  run (Authenticate u p) s =
    (Some (false, None, Some ErrUserDoesNotExist),
     mkState (lc s0) w2
       (trace s0 ++ t1 ++ [ESearch c (authSearchRequest (lc s0) u) (inr sr)])).
Proof. intros He. run_Authenticate. Qed.

(** In this section the search answered exactly [entry]. *)
Section found.
Context (entry : ldap.Entry.t) (He : ldap.SearchResult.Entries sr = [entry]).

(** C3. When the directory rejects the bind as the entry found with the
    password given, the method returns [false], the user map of the entry
    and the error of the bind; the session is left bound as whoever the
    failed bind left it. *)
Theorem Authenticate_wrong_password e w3 :
  ldap.Bind c (ldap.Entry.DN entry) p w2 = (Some e, w3) →
  run (Authenticate u p) s =
    (Some (false, Some (user_of_entry (Attributes (lc s0)) entry), Some e),
     mkState (lc s0) w3
       (trace s0 ++ t1 ++ [ESearch c (authSearchRequest (lc s0) u) (inr sr);
                           EBind c (ldap.Entry.DN entry) p (Some e)])).
Proof. intros Hu. run_Authenticate. Qed.

(** C2. When the search finds one entry, the directory accepts the bind
    as that entry with the password given, and the second bind with the
    configured credentials succeeds (or there are none), the method
    returns [true], the user map of the entry and no error. *)
Theorem Authenticate_success w3 w4 t4 :
  ldap.Bind c (ldap.Entry.DN entry) p w2 = (None, w3) →
  privileged_bind (lc s0) c w3 = (None, w4, t4) →
  run (Authenticate u p) s =
    (Some (true, Some (user_of_entry (Attributes (lc s0)) entry), None),
     mkState (lc s0) w4
       (trace s0 ++ t1 ++ [ESearch c (authSearchRequest (lc s0) u) (inr sr);
                           EBind c (ldap.Entry.DN entry) p None] ++ t4)).
Proof. intros Hu Hr. run_Authenticate. Qed.

(** When the user's bind succeeded and the second bind with the
    configured credentials fails, the method returns [true] together with
    that error: the verdict and an error at once. *)
Theorem Authenticate_rebind_error w3 e w4 t4 :
  ldap.Bind c (ldap.Entry.DN entry) p w2 = (None, w3) →
  privileged_bind (lc s0) c w3 = (Some e, w4, t4) →
  run (Authenticate u p) s =
    (Some (true, Some (user_of_entry (Attributes (lc s0)) entry), Some e),
     mkState (lc s0) w4
       (trace s0 ++ t1 ++ [ESearch c (authSearchRequest (lc s0) u) (inr sr);
                           EBind c (ldap.Entry.DN entry) p None] ++ t4)).
Proof. intros Hu Hr. run_Authenticate. Qed.

End found.
End located.
End connected.

(** ** The method implements its specification *)

Implicit Types (s : state W).

Lemma privileged_bind_post this c (w : W) err w' t :
  privileged_bind this c w = (err, w', t) →
  rtc ldap.step w w' ∧ count is_dial t = 0 ∧ count is_search t = 0 ∧ sleeps t = [].
Proof. intros Hb. privileged_cases; (split; [solve_steps|done]). Qed.

(** The bind with the configured credentials is skipped when either
    [BindDN] or [BindPassword] is empty. *)
Lemma privileged_bind_skipped (this : LDAPClient) c (w : W) :
  has_bind_credentials this = false → privileged_bind this c w = (None, w, []).
Proof. unfold privileged_bind. by intros ->. Qed.

(** The guard reads the configuration only. *)
Lemma has_bind_credentials_config (this this' : LDAPClient) :
  set_Conn None this' = set_Conn None this →
  BindDN this = "" ∨ BindPassword this = "" → has_bind_credentials this' = false.
Proof.
  unfold set_Conn, has_bind_credentials. intros [= _ _ _ -> -> _ _ _ _ _].
  intros [-> | ->]; rewrite ?bool_decide_eq_true_2, ?andb_false_r by done; done.
Qed.

Lemma Authenticate_spec_total s u p :
  ∃ r s', Authenticate_spec s u p r s' ∧ method_post s s'.
Proof.
  destruct (Connect_cases s) as [(e & s0 & HC & Hpost)|(c & s0 & HC & Hc)].
  { eexists _, _. split; [by eapply Authenticate_connect|done]. }
  destruct (privileged_bind (lc s0) c (world s0)) as [[[e|] w1] t1] eqn:Hb1;
    pose proof (privileged_bind_post _ _ _ _ _ _ Hb1) as (Hw1 & Hd1 & _).
  { eexists _, _. split; [by eapply Authenticate_unbound|]. auth_post. }
  destruct (ldap.Search c (authSearchRequest (lc s0) u) w1) as [[e|sr] w2] eqn:Hs.
  { eexists _, _. split; [by eapply Authenticate_failed|]. auth_post. }
  destruct (ldap.SearchResult.Entries sr) as [|entry [|entry' rest]] eqn:He.
  { eexists _, _. split; [by eapply Authenticate_none|]. auth_post. }
  2: { eexists _, _. split; [eapply Authenticate_many; [done..|]|auth_post].
       rewrite He. simpl. lia. }
  destruct (ldap.Bind c (ldap.Entry.DN entry) p w2) as [[e|] w3] eqn:Hu.
  { eexists _, _. split; [by eapply Authenticate_rejected|]. auth_post. }
  destruct (privileged_bind (lc s0) c w3) as [[err w4] t4] eqn:Hb4;
    pose proof (privileged_bind_post _ _ _ _ _ _ Hb4) as (Hw4 & Hd4 & _).
  eexists _, _. split; [by eapply Authenticate_accepted|]. auth_post.
Qed.

(** C25. [Authenticate] implements its specification: at every state it
    returns, and what it returns and the state it leaves are those the
    specification gives, on every branch. *)
Theorem Authenticate_refines s u p r s' :
  run (Authenticate u p) s = (Some r, s') ↔ Authenticate_spec s u p r s'.
Proof.
  apply run_spec_iff; [apply Authenticate_spec_sound|].
  destruct (Authenticate_spec_total s u p) as (r0 & s0 & Hspec & _). eauto.
Qed.

Lemma Authenticate_spec_complete s u p r s' :
  run (Authenticate u p) s = (Some r, s') → Authenticate_spec s u p r s'.
Proof.
  apply run_spec_iff; [apply Authenticate_spec_sound|].
  destruct (Authenticate_spec_total s u p) as (r0 & s0 & Hspec & _). eauto.
Qed.

(** C1. [Authenticate] returns [true] only when, during the call, the
    search for the username answered exactly one entry and the directory
    then accepted a bind on the stored session as the DN of that entry
    with the password given; the map returned is that entry's. *)
Theorem Authenticate_true_sound s u p user err s' :
  run (Authenticate u p) s = (Some (true, user, err), s') →
  ∃ c entry sr t0 t1,
    Conn (lc s') = Some c
    ∧ trace s' = t0 ++ [ESearch c (authSearchRequest (lc s') u) (inr sr);
                        EBind c (ldap.Entry.DN entry) p None] ++ t1
    ∧ trace s `prefix_of` t0
    ∧ ldap.SearchResult.Entries sr = [entry]
    ∧ user = Some (user_of_entry (Attributes (lc s')) entry).
Proof.
  intros Hspec%Authenticate_spec_complete.
  inversion Hspec as [| | | | | |s0 c w1 t1 sr w2 entry w3 ? w4 t4 HC Hc]; subst.
  apply (returns_inv _ _ _ _ _ (Connect_returns s)) in HC as [[_ _ _ Hpre _] _].
  exists c, entry, sr, (trace s0 ++ t1), t4. simpl.
  split; [done|]. split; [by rewrite <-app_assoc|].
  split; [by apply prefix_app_r|done].
Qed.

(** [Authenticate] searches at most once and never sleeps: its search
    has no retry, whatever the search answered. *)
Theorem Authenticate_single_search s err s0 u p r s' :
  run Connect s = (Some err, s0) →
  run (Authenticate u p) s = (Some r, s') →
  count is_search (trace s') ≤ count is_search (trace s0) + 1
  ∧ sleeps (trace s') = sleeps (trace s0).
Proof.
  intros HC Hspec%Authenticate_spec_complete.
  destruct Hspec;
    repeat match goal with
    | H : privileged_bind _ _ _ = _ |- _ => apply privileged_bind_post in H as (_ & _ & ? & ?)
    | H : run Connect s = _ |- _ => rewrite HC in H; injection H as ??; subst
    end;
    simpl; autorewrite with trace list; simpl; (split; [lia|]);
    repeat match goal with H : sleeps _ = [] |- _ => rewrite H; clear H end;
    by rewrite ?app_nil_r.
Qed.

(** C28. When either [BindDN] or [BindPassword] is empty, [Authenticate]
    sends no bind with the configured credentials: it binds at most once,
    and every bind it sends carries the password given. *)
Theorem Authenticate_no_credentials s s0 u p r s' :
  BindDN (lc s) = "" ∨ BindPassword (lc s) = "" →
  run Connect s = (Some None, s0) →
  run (Authenticate u p) s = (Some r, s') →
  (count is_bind (trace s') ≤ count is_bind (trace s0) + 1)%nat
  ∧ ∀ c dn pw res, EBind c dn pw res ∈ trace s' →
      EBind c dn pw res ∈ trace s0 ∨ pw = p.
Proof.
  intros Hcred HC Hspec%Authenticate_spec_complete.
  pose proof (returns_inv _ _ _ _ _ (Connect_returns s) HC) as [[Hcfg _ _ _ _] _].
  apply (has_bind_credentials_config _ _ Hcfg) in Hcred.
  destruct Hspec;
    repeat match goal with
    | H : privileged_bind _ _ _ = _ |- _ =>
        rewrite privileged_bind_skipped in H by done; simplify_eq
    | H : run Connect s = _ |- _ => rewrite HC in H; simplify_eq
    end;
    simpl; autorewrite with trace; simpl; (split; [lia|]);
    intros c' dn pw res Hin;
    rewrite ?elem_of_app, ?elem_of_cons, ?elem_of_nil in Hin;
    destruct_or!; simplify_eq; auto.
Qed.

End authenticate.

(** ** At concrete inputs *)

Lemma Authenticate_success_witness :
  ∃ user s', run (Authenticate "alice" "wonderland")
               (fixtures.start fixtures.client fixtures.server)
             = (Some (true, Some user, None), s')
    ∧ user !! "cn" = Some "Alice A"
    ∧ count is_bind (trace s') = 3
    ∧ sim.s_bound <$> sim.sessions (world s') !! 0 = Some (Some fixtures.admin_dn).
Proof.
  eexists _, _. split.
  - eapply (Authenticate_success (fixtures.start fixtures.client fixtures.server)
              fixtures.connected 0 "alice" "wonderland"); reflexivity.
  - by vm_compute.
Defined.

(** A wrong password: the user's attributes come back with the error, and
    the session is left anonymous, not bound with the configured
    credentials. *)
Lemma Authenticate_wrong_password_witness :
  ∃ user e s', run (Authenticate "alice" "guess")
                 (fixtures.start fixtures.client fixtures.server)
               = (Some (false, Some user, Some e), s')
    ∧ e = ldap_Error 49 "Invalid Credentials"
    ∧ user !! "mail" = Some "alice@example.com"
    ∧ sim.s_bound <$> sim.sessions (world s') !! 0 = Some None.
Proof.
  eexists _, _, _. split.
  - eapply (Authenticate_wrong_password (fixtures.start fixtures.client fixtures.server)
              fixtures.connected 0 "alice" "guess"); reflexivity.
  - by vm_compute.
Defined.

Lemma Authenticate_rebind_error_witness :
  ∃ user e s', run (Authenticate "alice" "wonderland")
                 (fixtures.start fixtures.client (fixtures.limited 2))
               = (Some (true, Some user, Some e), s')
    ∧ sim.s_bound <$> sim.sessions (world s') !! 0 = Some (Some fixtures.alice_dn).
Proof.
  eexists _, _, _. split.
  - eapply (Authenticate_rebind_error
              (fixtures.start fixtures.client (fixtures.limited 2))
              (fixtures.connected_on (fixtures.limited 2)) 0 "alice" "wonderland");
      reflexivity.
  - by vm_compute.
Defined.

Lemma Authenticate_not_found_witness :
  ∃ s', run (Authenticate "nobody" "x") (fixtures.start fixtures.client fixtures.server)
        = (Some (false, None, Some (errors_New "User does not exist")), s')
    ∧ count is_bind (trace s') = 1.
Proof.
  eexists. split.
  - eapply (Authenticate_not_found (fixtures.start fixtures.client fixtures.server)
              fixtures.connected 0 "nobody" "x"); reflexivity.
  - by vm_compute.
Defined.

Lemma Authenticate_first_bind_error_witness :
  ∃ e s', run (Authenticate "alice" "wonderland")
            (fixtures.start fixtures.client_bad_credentials fixtures.server)
          = (Some (false, None, Some e), s')
    ∧ count is_search (trace s') = 0.
Proof.
  eexists _, _. split.
  - eapply (Authenticate_first_bind_error
              (fixtures.start fixtures.client_bad_credentials fixtures.server) _ 0);
      reflexivity.
  - by vm_compute.
Defined.

Lemma Authenticate_true_sound_witness :
  ∃ user err s',
    run (Authenticate "alice" "wonderland") (fixtures.start fixtures.client fixtures.server)
    = (Some (true, user, err), s')
    ∧ ∃ c entry sr t0 t1,
        Conn (lc s') = Some c
        ∧ trace s' = t0 ++ [ESearch c (authSearchRequest (lc s') "alice") (inr sr);
                            EBind c (ldap.Entry.DN entry) "wonderland" None] ++ t1
        ∧ trace (fixtures.start fixtures.client fixtures.server) `prefix_of` t0
        ∧ ldap.SearchResult.Entries sr = [entry]
        ∧ user = Some (user_of_entry (Attributes (lc s')) entry).
Proof.
  exists (Some (user_of_entry ["cn"; "mail"] fixtures.alice)), None,
    (run (Authenticate "alice" "wonderland")
       (fixtures.start fixtures.client fixtures.server)).2.
  split; [by vm_compute|].
  apply (Authenticate_true_sound (fixtures.start fixtures.client fixtures.server)
           "alice" "wonderland" _ None).
  by vm_compute.
Defined.

Lemma Authenticate_single_search_witness :
  ∃ r s', run (Authenticate "alice" "wonderland")
            (fixtures.start fixtures.client (fixtures.busy 1)) = (Some r, s')
    ∧ r.2 = Some (ldap_Error 51 "Busy")
    ∧ (count is_search (trace s') ≤ count is_search (trace (fixtures.connected_on (fixtures.busy 1))) + 1
       ∧ sleeps (trace s') = sleeps (trace (fixtures.connected_on (fixtures.busy 1)))).
Proof.
  exists (false, None, Some (ldap_Error 51 "Busy")),
    (run (Authenticate "alice" "wonderland")
       (fixtures.start fixtures.client (fixtures.busy 1))).2.
  split; [by vm_compute|]. split; [done|].
  apply (Authenticate_single_search (fixtures.start fixtures.client (fixtures.busy 1))
           None (fixtures.connected_on (fixtures.busy 1)) "alice" "wonderland"
           (false, None, Some (ldap_Error 51 "Busy"))); by vm_compute.
Defined.

Lemma Authenticate_no_credentials_witness :
  ∃ r s', run (Authenticate "alice" "wonderland")
            (fixtures.start fixtures.client_anonymous fixtures.server) = (Some r, s')
    ∧ r.1.1 = true
    ∧ ((count is_bind (trace s')
        ≤ count is_bind (trace (run Connect
                                  (fixtures.start fixtures.client_anonymous
                                     fixtures.server)).2) + 1)%nat
       ∧ ∀ c dn pw res, EBind c dn pw res ∈ trace s' →
           EBind c dn pw res
             ∈ trace (run Connect
                        (fixtures.start fixtures.client_anonymous fixtures.server)).2
           ∨ pw = "wonderland").
Proof.
  exists (true, Some (user_of_entry ["cn"; "mail"] fixtures.alice), None),
    (run (Authenticate "alice" "wonderland")
       (fixtures.start fixtures.client_anonymous fixtures.server)).2.
  split; [by vm_compute|]. split; [done|].
  apply (Authenticate_no_credentials
           (fixtures.start fixtures.client_anonymous fixtures.server) _
           "alice" "wonderland"
           (true, Some (user_of_entry ["cn"; "mail"] fixtures.alice), None));
    [by left|by vm_compute|by vm_compute].
Defined.
