(* ===== verification/Safety.v ===== *)
(** * The client across calls

    The exported methods as the steps of a transition system on the state
    of a client and the world behind it, and what holds along every
    sequence of calls: no call panics; the configuration is never
    written; a stored session is never replaced and nothing is dialled
    while one is stored; the stored session is encrypted; a closed session
    stays stored and closed. *)

From stdpp Require Import base tactics option list strings gmap relations.
From Stdlib Require Import ZArith Lia.
From S2P Require Import Prelude GoFmt Ldap Sim Client Fixtures Session Retry Search Auth.

(** A call of an exported method, with its arguments. *)
Inductive api_call : Type :=
| CallConnect
| CallClose
| CallSearchUser (username : string)
| CallAuthenticate (username password : string)
| CallGetGroupsOfUser (username : string)
| CallFindUsers (username : string).

#[export] Instance api_call_eq_dec : EqDecision api_call.
Proof. solve_decision. Defined.

(** The state a call leaves, when it returned. *)
Definition ran {St R : Type} (r : option R * St) : option St := (λ _, r.2) <$> r.1.

Definition api_run `{Formatter} `{ldap.Backend W} (a : api_call) (s : state W)
    : option (state W) :=
  match a with
  | CallConnect => ran (run Connect s)
  | CallClose => ran (run Close s)
  | CallSearchUser u => ran (run (SearchUser u) s)
  | CallAuthenticate u p => ran (run (Authenticate u p) s)
  | CallGetGroupsOfUser u => ran (run (GetGroupsOfUser u) s)
  | CallFindUsers u => ran (run (FindUsers u) s)
  end.

(** A sequence of calls, one after the other. *)
Fixpoint api_runs `{Formatter} `{ldap.Backend W} (l : list api_call) (s : state W)
    : option (state W) :=
  match l with
  | [] => Some s
  | a :: l => api_run a s ≫= api_runs l
  end.

(** One call ran and returned. *)
Inductive api_step `{Formatter} `{ldap.Backend W} : state W → state W → Prop :=
| api_step_call a s s' : api_run a s = Some s' → api_step s s'.

(** What one call does: what a method does after its [Connect], or what
    [Close] does. *)
Definition api_post `{ldap.Backend W} (s s' : state W) : Prop :=
  method_post s s' ∨ (evolves s s' ∧ lc s' = lc s).

(** The stored session, if any, is encrypted. *)
Definition secure `{ldap.Backend W} (s : state W) : Prop :=
  ∀ c, Conn (lc s) = Some c → ldap.encrypted (world s) c = true.

Section safety.
Context `{Formatter} `{ldap.Backend W}.
Implicit Types (s : state W) (a : api_call).

(** Two clients with the same configuration and the same session. *)
Lemma LDAPClient_eq (lc1 lc2 : LDAPClient) :
  set_Conn None lc1 = set_Conn None lc2 → Conn lc1 = Conn lc2 → lc1 = lc2.
Proof. destruct lc1, lc2. unfold set_Conn. simpl. congruence. Qed.

Lemma ran_returns {R} (f : Go (state W) R Empty_set) (E : state W → Prop) s :
  returns f (λ _, E) s → ∃ s', ran (run f s) = Some s' ∧ E s'.
Proof. intros (r & s' & Hr & HE)%returns_run. exists s'. unfold ran. by rewrite Hr. Qed.

Lemma Connect_method_post s : returns Connect (λ _, method_post s) s.
Proof.
  apply returns_run.
  destruct (proj1 (returns_run _ _ _) (Connect_returns s)) as (err & s0 & HC & _).
  exists err, s0. split; [done|]. by exists err, s0.
Qed.

Lemma method_returns {R} (f : Go (state W) R Empty_set) s :
  returns f (λ _, method_post s) s → returns f (λ _, api_post s) s.
Proof. apply returns_mono. by left. Qed.

(** Every call returns, and leaves a state a call may leave. *)
Lemma api_run_post a s : ∃ s', api_run a s = Some s' ∧ api_post s s'.
Proof.
  destruct a as [| |u|u p|u|u]; simpl; apply ran_returns.
  - apply method_returns, Connect_method_post.
  - apply (returns_mono _ (λ _ s', evolves s s' ∧ lc s' = lc s)); [by right|].
    apply Close_returns.
  - apply method_returns, (returns_spec _ (SearchUser_spec s u));
      [apply SearchUser_spec_sound|apply SearchUser_spec_total].
  - apply method_returns, (returns_spec _ (Authenticate_spec s u p));
      [apply Authenticate_spec_sound|apply Authenticate_spec_total].
  - apply method_returns, (returns_spec _ (GetGroupsOfUser_spec s u));
      [apply GetGroupsOfUser_spec_sound|apply GetGroupsOfUser_spec_total].
  - apply method_returns, (returns_spec _ (FindUsers_spec s u));
      [apply FindUsers_spec_sound|apply FindUsers_spec_total].
Qed.

Lemma api_step_post s s' : api_step s s' → api_post s s'.
Proof.
  intros [a s1 s2 Hrun]. destruct (api_run_post a s1) as (s3 & Hr & Hp).
  rewrite Hrun in Hr. by injection Hr as <-.
Qed.

Lemma api_post_evolves s s' : api_post s s' → evolves s s'.
Proof. intros [?|[? _]]; [by apply method_post_evolves|done]. Qed.

Lemma api_steps_evolve s s' : rtc api_step s s' → evolves s s'.
Proof.
  induction 1 as [|s s1 s' Hstep _ IH]; [done|].
  etrans; [|exact IH]. by apply api_post_evolves, api_step_post.
Qed.

(** A sequence of calls that ran is a path of steps. *)
Lemma api_runs_steps l s s' : api_runs l s = Some s' → rtc api_step s s'.
Proof.
  revert s. induction l as [|a l IH]; intros s; simpl.
  - by intros [= ->].
  - destruct (api_run a s) as [s1|] eqn:Ha; [|done]. simpl. intros Hl.
    eapply rtc_l; [by econstructor|by apply IH].
Qed.

(** No call panics: at every state of the client and of the world,
    every exported method returns.  In particular the session is never
    dereferenced while [lc.Conn] is nil. *)
Theorem api_total a s : is_Some (api_run a s).
Proof. destruct (api_run_post a s) as (s' & -> & _). eauto. Qed.

(** Once a session is stored, no sequence of calls, [Close] included,
    replaces it, clears it or dials again, and none writes a field of the
    configuration. *)
Theorem session_kept s s' c :
  Conn (lc s) = Some c → rtc api_step s s' →
  lc s' = lc s ∧ count is_dial (trace s') = count is_dial (trace s).
Proof.
  intros Hc [Hcfg Hs _ _ Hd]%api_steps_evolve. split; [|by eapply Hd].
  apply LDAPClient_eq; [done|]. rewrite Hc. by apply Hs.
Qed.

(** Every sequence of calls runs to the end, whatever the server
    answers. *)
Lemma api_runs_total l s : is_Some (api_runs l s).
Proof.
  revert s. induction l as [|a l IH]; intros s; simpl; [by eauto|].
  destruct (api_run_post a s) as (s1 & -> & _). apply IH.
Qed.

End safety.

Section secure.
Context `{Formatter} `{ldap.BackendLaws W}.
Implicit Types (s : state W).

Lemma secured_encrypted (w : W) l : secured w l → ldap.encrypted w l = true.
Proof.
  intros [(config & w0 & Ht)|(network & address & config & w0 & Hd)].
  - pose proof (ldap.StartTLS_encrypted l config w0) as Hl. rewrite Ht in Hl. by apply Hl.
  - pose proof (ldap.DialTLS_encrypted network address config w0 l) as Hl.
    rewrite Hd in Hl. by apply Hl.
Qed.

Lemma rtc_encrypted (w w' : W) c :
  rtc ldap.step w w' → ldap.encrypted w c = true → ldap.encrypted w' c = true.
Proof. induction 1; eauto using ldap.encrypted_stable. Qed.

Lemma rtc_closed (w w' : W) c :
  rtc ldap.step w w' → ldap.closed w c = true → ldap.closed w' c = true.
Proof. induction 1; eauto using ldap.closed_stable. Qed.

Lemma api_post_secure s s' : api_post s s' → secure s → secure s'.
Proof.
  intros [(err & s0 & HC & Hev & Herr)|[Hev Hlc]] Hsec c Hc.
  - apply (returns_inv _ _ _ _ _ (Connect_returns s)) in HC as [_ Hpost].
    destruct err as [e|].
    + rewrite (Herr (ltac:(eauto))) in Hc. destruct Hpost as [Hlc Hnil]. congruence.
    + destruct Hpost as (l & Hl & Hsecured).
      rewrite (ev_session _ _ Hev l Hl) in Hc. injection Hc as <-.
      apply (rtc_encrypted (world s0)); [by apply Hev|].
      destruct Hsecured as [->|?]; [by apply Hsec|by apply secured_encrypted].
  - apply (rtc_encrypted (world s)); [by apply Hev|]. apply Hsec. congruence.
Qed.

(** The stored session is always encrypted: from a client that has
    no session, every session a sequence of calls stores went through a
    successful [StartTLS] or was dialled with TLS, and it stays
    encrypted. *)
Theorem session_encrypted s s' :
  secure s → rtc api_step s s' → secure s'.
Proof.
  intros Hsec Hsteps. induction Hsteps as [|s s1 s' Hstep _ IH]; [done|].
  apply IH. by eapply api_post_secure, Hsec; apply api_step_post.
Qed.

End secure.

(** ** At concrete inputs *)

(** The calls of a session: a lookup, an authentication, a close, and a
    lookup after the close. *)
Definition session_calls : list api_call :=
  [CallSearchUser "alice"; CallAuthenticate "alice" "wonderland"; CallClose;
   CallGetGroupsOfUser "bob"].

Lemma session_kept_witness :
  ∃ s', api_runs session_calls fixtures.connected = Some s'
        ∧ lc s' = lc fixtures.connected
        ∧ count is_dial (trace s') = count is_dial (trace fixtures.connected).
Proof.
  eexists. split; [by vm_compute|].
  apply (session_kept fixtures.connected _ 0); [reflexivity|].
  apply (api_runs_steps session_calls). by vm_compute.
Defined.

Lemma session_encrypted_witness :
  ∃ s', api_runs session_calls (fixtures.start fixtures.client fixtures.server) = Some s'
        ∧ secure s'.
Proof.
  eexists. split; [by vm_compute|].
  apply (session_encrypted (fixtures.start fixtures.client fixtures.server)).
  - intros c [=].
  - apply (api_runs_steps session_calls). by vm_compute.
Defined.
