(* ===== verification/Machine.v ===== *)
(** * The session as a state machine

    The phase of a client (no session; a session in use; a session that
    was closed) and the machine the exported methods drive it through.
    The machine is the one the code implements: a session, once stored,
    is never given up, and a closed session is never replaced.  Every call
    is a transition of the machine ([api_run_phase]), so what the machine
    cannot do no sequence of calls does. *)

From stdpp Require Import base tactics option list strings gmap relations.
From Stdlib Require Import ZArith Lia.
From S2P Require Import Prelude GoFmt Ldap Sim Client Fixtures Session Retry Search Auth Safety.

Inductive phase : Type :=
| Unconnected
| Connected (c : ldap.Conn)
| Closed (c : ldap.Conn).

#[export] Instance phase_eq_dec : EqDecision phase.
Proof. solve_decision. Defined.

(** The phase a state is in: [lc.Conn] is nil, or holds a session that
    the library has or has not closed. *)
Definition phase_of `{ldap.Backend W} (s : state W) : phase :=
  match Conn (lc s) with
  | None => Unconnected
  | Some c => if ldap.closed (world s) c then Closed c else Connected c
  end.

(** The transitions of the session.  Without a session, [Close] does
    nothing and every other call may store one; with a session, [Close]
    closes it and every other call keeps it (the server may close it);
    a closed session stays. *)
Inductive phase_step : api_call → phase → phase → Prop :=
| phase_Close_unconnected :
    phase_step CallClose Unconnected Unconnected
| phase_connect a p :
    a ≠ CallClose → phase_step a Unconnected p
| phase_Close c :
    phase_step CallClose (Connected c) (Closed c)
| phase_use a c :
    a ≠ CallClose → phase_step a (Connected c) (Connected c)
| phase_lost a c :
    a ≠ CallClose → phase_step a (Connected c) (Closed c)
| phase_closed a c :
    phase_step a (Closed c) (Closed c).

(** The machine is executable: whether it has a transition. *)
Definition phase_stepb (a : api_call) (p p' : phase) : bool :=
  match p, p' with
  | Unconnected, Unconnected => true
  | Unconnected, _ => bool_decide (a ≠ CallClose)
  | Connected c, Closed c' => bool_decide (c = c')
  | Connected c, Connected c' => bool_decide (c = c') && bool_decide (a ≠ CallClose)
  | Closed c, Closed c' => bool_decide (c = c')
  | _, _ => false
  end.

Lemma phase_stepb_spec a p p' : phase_stepb a p p' = true ↔ phase_step a p p'.
Proof.
  split.
  - destruct p as [|c|c], p' as [|c'|c']; simpl; try done;
      rewrite ?andb_true_iff, ?bool_decide_eq_true; intros; destruct_and?; subst;
      try (destruct (decide (a = CallClose)) as [->|]); by constructor.
  - destruct 1 as [|a p Hne|c|a c Hne|a c Hne|a c]; simpl; try destruct p;
      rewrite ?andb_true_iff, ?bool_decide_eq_true; auto.
Qed.

Section machine.
Context `{Formatter} `{ldap.BackendLaws W}.
Implicit Types (s : state W) (a : api_call).

Lemma phase_of_Unconnected s : phase_of s = Unconnected ↔ Conn (lc s) = None.
Proof. unfold phase_of. destruct (Conn (lc s)); [by case_match|done]. Qed.

Lemma phase_of_Closed s c :
  phase_of s = Closed c ↔ Conn (lc s) = Some c ∧ ldap.closed (world s) c = true.
Proof.
  unfold phase_of. destruct (Conn (lc s)) as [c'|]; [|split; [done|by intros [? _]]].
  destruct (ldap.closed (world s) c') eqn:Hcl; split;
    [by intros [= ->]|by intros [[= ->] _]|done|intros [[= ->] ?]; congruence].
Qed.

Lemma phase_of_Connected s c :
  phase_of s = Connected c ↔ Conn (lc s) = Some c ∧ ldap.closed (world s) c = false.
Proof.
  unfold phase_of. destruct (Conn (lc s)) as [c'|]; [|split; [done|by intros [? _]]].
  destruct (ldap.closed (world s) c') eqn:Hcl; split;
    [done|intros [[= ->] ?]; congruence|by intros [= ->]|by intros [[= ->] _]].
Qed.

(** A call on a client that holds a session leaves it the session, and
    closed if it was. *)
Lemma api_run_stored a s s' c :
  api_run a s = Some s' → Conn (lc s) = Some c →
  Conn (lc s') = Some c
  ∧ (ldap.closed (world s) c = true → ldap.closed (world s') c = true).
Proof.
  intros Hrun Hc.
  assert (evolves s s') as [_ Hs Hw _ _]
    by (by apply api_post_evolves, api_step_post; econstructor).
  split; [by apply Hs|]. by apply rtc_closed.
Qed.

Lemma Close_phase s s' c :
  api_run CallClose s = Some s' → Conn (lc s) = Some c → phase_of s' = Closed c.
Proof.
  intros Hrun Hc. apply phase_of_Closed. simpl in Hrun. unfold ran in Hrun.
  assert (run Close s =
            (Some tt, mkState (lc s) (ldap.Close c (world s)) (trace s ++ [EClose c])))
    as Heq by (unfold Close; by go_exec).
  rewrite Heq in Hrun. injection Hrun as <-. simpl. split; [done|].
  apply ldap.Close_closed.
Qed.

(** C40. Every call is a transition of the session machine: the client
    never returns to the unconnected phase once a session is stored,
    [Close] leads to the closed phase and not back to the unconnected one,
    and the closed phase is never left. *)
Theorem api_run_phase a s s' :
  api_run a s = Some s' → phase_step a (phase_of s) (phase_of s').
Proof.
  intros Hrun. destruct (Conn (lc s)) as [c|] eqn:Hc.
  - destruct (api_run_stored a s s' c Hrun Hc) as [Hc' Hcl].
    destruct (ldap.closed (world s) c) eqn:Hclosed.
    + rewrite (proj2 (phase_of_Closed s c)), (proj2 (phase_of_Closed s' c)) by auto.
      constructor.
    + rewrite (proj2 (phase_of_Connected s c)) by done.
      destruct (decide (a = CallClose)) as [->|Hne].
      { rewrite (Close_phase s s' c) by done. constructor. }
      unfold phase_of. rewrite Hc'. case_match; by constructor.
  - rewrite (proj2 (phase_of_Unconnected s)) by done.
    destruct (decide (a = CallClose)) as [->|Hne]; [|by constructor].
    simpl in Hrun. rewrite (Close_unconnected s Hc) in Hrun. injection Hrun as <-.
    rewrite (proj2 (phase_of_Unconnected s)) by done. constructor.
Qed.

(** Along a sequence of calls the closed phase is never left. *)
Lemma api_runs_Closed l s s' c :
  api_runs l s = Some s' → phase_of s = Closed c → phase_of s' = Closed c.
Proof.
  revert s. induction l as [|a l IH]; intros s; simpl; [by intros [= ->]|].
  destruct (api_run a s) as [s1|] eqn:Ha; [|done]. simpl.
  intros Hl [Hc Hcl]%phase_of_Closed. apply (IH s1 Hl), phase_of_Closed.
  destruct (api_run_stored a s s1 c Ha Hc). auto.
Qed.

End machine.

(** ** At concrete inputs *)

(** Connect, then close, then look a user up: unconnected, connected,
    closed, closed. *)
Lemma api_run_phase_witness :
  ∃ s1 s2 s3,
    api_run CallConnect (fixtures.start fixtures.client fixtures.server) = Some s1
    ∧ api_run CallClose s1 = Some s2
    ∧ api_run (CallSearchUser "alice") s2 = Some s3
    ∧ phase_of (fixtures.start fixtures.client fixtures.server) = Unconnected
    ∧ phase_of s1 = Connected 0
    ∧ phase_of s2 = Closed 0
    ∧ phase_step (CallSearchUser "alice") (phase_of s2) (phase_of s3).
Proof.
  eexists _, _, _. split; [by vm_compute|]. split; [by vm_compute|].
  split; [by vm_compute|]. split; [by vm_compute|]. split; [by vm_compute|].
  split; [by vm_compute|]. apply api_run_phase. by vm_compute.
Defined.
