(* ===== verification/Steps.v ===== *)
(** * The methods, one access at a time

    The bodies of [src/ldap-client.go] once more, as programs that stop
    at every access to what callers share: a load or a store of
    [lc.Conn], and every call into the session library, the logger and the
    clock.  Between two such accesses a body only computes on its own
    locals.  A program is a tree: a result, a panic, or an access with
    the rest of the body for every answer to it.  Where the sequential
    model of [Client] reads [lc.Conn] once per block, these programs load
    it at every use, as the compiled code does.

    [exec] runs a program without interruption; [api_steps_sequential]
    shows that this is the sequential model of [Client], method by method,
    so what is proved there is true of the programs that the interleaving
    semantics of [Threads] schedules. *)

From stdpp Require Import base tactics option list strings gmap.
From Stdlib Require Import ZArith Lia.
From S2P Require Import Prelude GoFmt Ldap Sim Client Fixtures Session Retry Search Auth Safety.

(** An access to shared state. *)
Inductive action : Type :=
| AGetConn
| ASetConn (l : ldap.Conn)
| ADial (network address : string)
| ADialTLS (network address : string) (config : tls.Config)
| AStartTLS (l : ldap.Conn) (config : tls.Config)
| ABind (l : ldap.Conn) (username password : string)
| ASearch (l : ldap.Conn) (req : ldap.SearchRequest.t)
| AClose (l : ldap.Conn)
| ALog (format : string) (req : ldap.SearchRequest.t) (retry : Z)
| ASleep (d : Z).

(** What an access gives back to the body. *)
Definition answer (a : action) : Type :=
  match a with
  | AGetConn => option ldap.Conn
  | ADial _ _ | ADialTLS _ _ _ => (error + ldap.Conn)%type
  | AStartTLS _ _ | ABind _ _ _ => option error
  | ASearch _ _ => (error + ldap.SearchResult.t)%type
  | ASetConn _ | AClose _ | ALog _ _ _ | ASleep _ => unit
  end.

(** A body in progress. *)
Inductive prog (R : Type) : Type :=
| Ret (r : R)
| Panic
| Act (a : action) (k : answer a → prog R).

Arguments Ret {R} r.
Arguments Panic {R}.
Arguments Act {R} a k.

Fixpoint prog_bind {A B} (p : prog A) (f : A → prog B) : prog B :=
  match p with
  | Ret r => f r
  | Panic => Panic
  | Act a k => Act a (λ x, prog_bind (k x) f)
  end.

#[export] Instance prog_ret : MRet prog := @Ret.
#[export] Instance prog_mbind : MBind prog := λ A B f p, prog_bind p f.
#[export] Instance prog_fmap : FMap prog := λ A B f p, prog_bind p (λ x, Ret (f x)).

(** One access, and the dereference of a loaded [lc.Conn]. *)
Definition act (a : action) : prog (answer a) := Act a Ret.

Definition load_Conn : prog ldap.Conn :=
  conn ← act AGetConn;
  match conn with Some l => Ret l | None => Panic end.

(** What an access does to the state: the operation of the sequential
    model, with the same event. *)
Definition do_action `{ldap.Backend W} (a : action) (s : state W) : answer a * state W :=
  match a with
  | AGetConn => (Conn (lc s), s)
  | ASetConn l => (tt, set_lc (set_Conn (Some l)) s)
  | ADial network address =>
      let r := ldap.Dial network address (world s) in
      (r.1, mkState (lc s) r.2 (trace s ++ [EDial network address r.1]))
  | ADialTLS network address config =>
      let r := ldap.DialTLS network address config (world s) in
      (r.1, mkState (lc s) r.2 (trace s ++ [EDialTLS network address config r.1]))
  | AStartTLS l config =>
      let r := ldap.StartTLS l config (world s) in
      (r.1, mkState (lc s) r.2 (trace s ++ [EStartTLS l config r.1]))
  | ABind l username password =>
      let r := ldap.Bind l username password (world s) in
      (r.1, mkState (lc s) r.2 (trace s ++ [EBind l username password r.1]))
  | ASearch l req =>
      let r := ldap.Search l req (world s) in
      (r.1, mkState (lc s) r.2 (trace s ++ [ESearch l req r.1]))
  | AClose l =>
      (tt, mkState (lc s) (ldap.Close l (world s)) (trace s ++ [EClose l]))
  | ALog format req retry =>
      (tt, mkState (lc s) (world s) (trace s ++ [ELog format req retry]))
  | ASleep d =>
      (tt, mkState (lc s) (world s) (trace s ++ [ESleep d]))
  end.

(** A body run to its end without interruption: its result, or none when
    it panics. *)
Fixpoint exec `{ldap.Backend W} {R} (p : prog R) (s : state W) : option R * state W :=
  match p with
  | Ret r => (Some r, s)
  | Panic => (None, s)
  | Act a k => exec (k (do_action a s).1) (do_action a s).2
  end.

(** ** The bodies

    The configuration [cfg] stands for the fields of the client other
    than [Conn]: no method writes them, so a body reads them without an
    access. *)

Section bodies.
Context `{Formatter}.
Implicit Types (cfg : LDAPClient) (username password : string).

Definition Connect_steps cfg : prog (option error) :=
  conn ← act AGetConn;
  if is_nil conn then
    let address := Sprintf_s_d (Host cfg) (Port cfg) in
    if negb (UseSSL cfg) then
      r ← act (ADial "tcp" address);
      match r with
      | inl err => Ret (Some err)
      | inr l =>
          (* Reconnect with TLS *)
          err ← act (AStartTLS l (tls.mkConfig true ""));
          if not_nil err then Ret err else
          act (ASetConn l);; Ret None
      end
    else
      r ← act (ADialTLS "tcp" address (tls.mkConfig false (ServerName cfg)));
      match r with
      | inl err => Ret (Some err)
      | inr l => act (ASetConn l);; Ret None
      end
  else Ret None.

Definition Close_steps : prog unit :=
  conn ← act AGetConn;
  if not_nil conn then
    l ← load_Conn;
    act (AClose l)
  else Ret tt.

(** [for err != nil && retry <= 3 { sr, err = lc.Conn.Search(...); ... }] *)
Fixpoint retry_loop_steps (fuel : nat) (searchRequest : ldap.SearchRequest.t)
    (r : error + ldap.SearchResult.t) (retry : Z) : prog (error + ldap.SearchResult.t) :=
  match fuel with
  | O => Ret r
  | S fuel' =>
      if failed r && bool_decide (retry ≤ 3)%Z then
        l ← load_Conn;
        r' ← act (ASearch l searchRequest);
        act (ALog retrying_format searchRequest retry);;
        act (ASleep (wrap64 (Second * retry)));;
        retry_loop_steps fuel' searchRequest r' (wrap64 (retry + 1))
      else Ret r
  end.

Definition search_steps (searchRequest : ldap.SearchRequest.t)
    : prog (error + ldap.SearchResult.t) :=
  l ← load_Conn;
  r ← act (ASearch l searchRequest);
  let retry := 3%Z in
  retry_loop_steps (retry_fuel retry) searchRequest r retry.

Definition SearchUser_steps cfg username
    : prog (option (gmap string string) * option error) :=
  err ← Connect_steps cfg;
  if not_nil err then Ret (None, err) else
  r ← search_steps (userSearchRequest cfg username);
  match r with
  | inl err => Ret (None, Some err)
  | inr sr =>
      let entries := ldap.SearchResult.Entries sr in
      if bool_decide (length entries < 1) then Ret (None, Some ErrUserDoesNotExist) else
      if bool_decide (1 < length entries) then Ret (None, Some ErrTooManyEntries) else
      match entries !! 0 with
      | Some entry0 => Ret (Some (user_of_entry (Attributes cfg) entry0), None)
      | None => Panic
      end
  end.

Definition Authenticate_steps cfg username password
    : prog (bool * option (gmap string string) * option error) :=
  err ← Connect_steps cfg;
  if not_nil err then Ret (false, None, err) else
  (* First bind with a read only user *)
  err ← (if has_bind_credentials cfg then
           l ← load_Conn;
           act (ABind l (BindDN cfg) (BindPassword cfg))
         else Ret None);
  if not_nil err then Ret (false, None, err) else
  (* Search for the given username *)
  l ← load_Conn;
  r ← act (ASearch l (authSearchRequest cfg username));
  match r with
  | inl err => Ret (false, None, Some err)
  | inr sr =>
      let entries := ldap.SearchResult.Entries sr in
      if bool_decide (length entries < 1) then Ret (false, None, Some ErrUserDoesNotExist) else
      if bool_decide (1 < length entries) then Ret (false, None, Some ErrTooManyEntries) else
      match entries !! 0 with
      | None => Panic
      | Some entry0 =>
          let userDN := ldap.Entry.DN entry0 in
          let user := user_of_entry (Attributes cfg) entry0 in
          (* Bind as the user to verify their password *)
          l ← load_Conn;
          err ← act (ABind l userDN password);
          if not_nil err then Ret (false, Some user, err) else
          (* Rebind as the read only user for any further queries *)
          err ← (if has_bind_credentials cfg then
                   l ← load_Conn;
                   act (ABind l (BindDN cfg) (BindPassword cfg))
                 else Ret None);
          if not_nil err then Ret (true, Some user, err) else
          Ret (true, Some user, None)
      end
  end.

Definition GetGroupsOfUser_steps cfg username : prog (option (list string) * option error) :=
  err ← Connect_steps cfg;
  if not_nil err then Ret (None, err) else
  r ← search_steps (groupSearchRequest cfg username);
  match r with
  | inl err => Ret (None, Some err)
  | inr sr => Ret (Some (groups_of_entries (ldap.SearchResult.Entries sr)), None)
  end.

Definition FindUsers_steps cfg search
    : prog (option (list (gmap string string)) * option error) :=
  err ← Connect_steps cfg;
  if not_nil err then Ret (None, err) else
  r ← search_steps (userSearchRequest cfg search);
  match r with
  | inl err => Ret (None, Some err)
  | inr sr =>
      let entries := ldap.SearchResult.Entries sr in
      if bool_decide (length entries < 1) then Ret (None, Some ErrUserDoesNotExist) else
      Ret (Some (users_of_entries (Attributes cfg) entries), None)
  end.

End bodies.

(** What a call returns. *)
Inductive result : Type :=
| RConnect (err : option error)
| RClose
| RSearchUser (user : option (gmap string string)) (err : option error)
| RAuthenticate (ok : bool) (user : option (gmap string string)) (err : option error)
| RGetGroupsOfUser (groups : option (list string)) (err : option error)
| RFindUsers (users : option (list (gmap string string))) (err : option error).

#[export] Instance result_eq_dec : EqDecision result.
Proof. solve_decision. Defined.

(** The body of a call on a client configured as [cfg]. *)
Definition api_steps `{Formatter} (cfg : LDAPClient) (a : api_call) : prog result :=
  match a with
  | CallConnect => RConnect <$> Connect_steps cfg
  | CallClose => Close_steps;; Ret RClose
  | CallSearchUser u => (λ r, RSearchUser r.1 r.2) <$> SearchUser_steps cfg u
  | CallAuthenticate u p => (λ r, RAuthenticate r.1.1 r.1.2 r.2) <$> Authenticate_steps cfg u p
  | CallGetGroupsOfUser u => (λ r, RGetGroupsOfUser r.1 r.2) <$> GetGroupsOfUser_steps cfg u
  | CallFindUsers u => (λ r, RFindUsers r.1 r.2) <$> FindUsers_steps cfg u
  end.

(** What the sequential model returns for a call. *)
Definition api_result `{Formatter} `{ldap.Backend W} (a : api_call) (s : state W)
    : option result * state W :=
  match a with
  | CallConnect => prod_map (fmap RConnect) id (run Connect s)
  | CallClose => prod_map (fmap (λ _, RClose)) id (run Close s)
  | CallSearchUser u => prod_map (fmap (λ r, RSearchUser r.1 r.2)) id (run (SearchUser u) s)
  | CallAuthenticate u p =>
      prod_map (fmap (λ r, RAuthenticate r.1.1 r.1.2 r.2)) id (run (Authenticate u p) s)
  | CallGetGroupsOfUser u =>
      prod_map (fmap (λ r, RGetGroupsOfUser r.1 r.2)) id (run (GetGroupsOfUser u) s)
  | CallFindUsers u => prod_map (fmap (λ r, RFindUsers r.1 r.2)) id (run (FindUsers u) s)
  end.

(** ** Running the bodies *)

(** The outcome of a block of the sequential model that ran as a
    program did. *)
Definition as_outcome {St R A} (r : option A * St) : outcome R A * St :=
  match r with
  | (Some a, s) => (Normal a, s)
  | (None, s) => (Panicked, s)
  end.

(** Two clients with the same configuration. *)
Definition same_config (cfg this : LDAPClient) : Prop :=
  set_Conn None cfg = set_Conn None this.

Ltac steps_unfold :=
  cbn [exec do_action act load_Conn mbind mret fmap prog_mbind prog_ret prog_fmap prog_bind
       fst snd prod_map id as_outcome];
  cbn [lc world trace is_nil not_nil failed negb andb orb
       Conn Host Port UseSSL BindDN BindPassword GroupFilter UserFilter Base
       Attributes ServerName set_Conn set_lc ldap.SearchResult.Entries length].

(** Run a program and the block of the sequential model beside it. *)
Ltac steps_exec :=
  repeat (steps_unfold; go_unfold; try go_rewrite; repeat go_decide);
  rewrite <-?app_assoc; cbn [app].

Section exec.
Context `{Formatter} `{ldap.Backend W}.
Implicit Types (s : state W) (cfg : LDAPClient).

Lemma exec_bind {A B} (p : prog A) (f : A → prog B) s :
  exec (p ≫= f) s =
    match exec p s with
    | (Some r, s1) => exec (f r) s1
    | (None, s1) => (None, s1)
    end.
Proof. revert s. induction p as [r| |a k IH]; intros s; [done..|]. apply IH. Qed.

Lemma exec_fmap {A B} (f : A → B) (p : prog A) s :
  exec (f <$> p) s = prod_map (fmap f) id (exec p s).
Proof.
  change (f <$> p) with (p ≫= λ x, Ret (f x)). rewrite exec_bind.
  by destruct (exec p s) as [[r|] s1].
Qed.

Lemma same_config_inv cfg this : same_config cfg this → cfg = set_Conn (Conn cfg) this.
Proof.
  destruct cfg, this. unfold same_config, set_Conn. simpl.
  by intros [= -> -> -> -> -> -> -> -> -> ->].
Qed.

Lemma set_Conn_id this : set_Conn (Conn this) this = this.
Proof. by destruct this. Qed.

(** The requests and the test of the bind credentials read the
    configuration only. *)
Lemma userSearchRequest_set_Conn c this u :
  userSearchRequest (set_Conn c this) u = userSearchRequest this u.
Proof. done. Qed.

Lemma authSearchRequest_set_Conn c this u :
  authSearchRequest (set_Conn c this) u = authSearchRequest this u.
Proof. done. Qed.

Lemma groupSearchRequest_set_Conn c this u :
  groupSearchRequest (set_Conn c this) u = groupSearchRequest this u.
Proof. done. Qed.

Lemma has_bind_credentials_set_Conn c this :
  has_bind_credentials (set_Conn c this) = has_bind_credentials this.
Proof. done. Qed.

Lemma run_call {R R'} (f : Go (state W) R' Empty_set) (g : R' → Go (state W) R Empty_set) s :
  run (bind (call f) g) s =
    match run f s with
    | (Some r, s1) => run (g r) s1
    | (None, s1) => (None, s1)
    end.
Proof. unfold run, call, bind. by destruct (f s) as [[[]|r|] s1]. Qed.

Lemma exec_Connect_steps x s : exec (Connect_steps (set_Conn x (lc s))) s = run Connect s.
Proof.
  unfold Connect_steps, Connect.
  destruct (Conn (lc s)) as [c|] eqn:Hc; [by steps_exec|].
  destruct (UseSSL (lc s)) eqn:Hssl.
  - destruct (ldap.DialTLS "tcp" (Sprintf_s_d (Host (lc s)) (Port (lc s)))
                (tls.mkConfig false (ServerName (lc s))) (world s)) as [[e|l] w1] eqn:Hd;
      by steps_exec.
  - destruct (ldap.Dial "tcp" (Sprintf_s_d (Host (lc s)) (Port (lc s))) (world s))
      as [[e|l] w1] eqn:Hd; [by steps_exec|].
    destruct (ldap.StartTLS l (tls.mkConfig true "") w1) as [[e|] w2] eqn:Ht; by steps_exec.
Qed.

Lemma exec_Connect_config cfg s :
  same_config cfg (lc s) → exec (Connect_steps cfg) s = run Connect s.
Proof. intros ->%same_config_inv. apply exec_Connect_steps. Qed.

(** [Connect] leaves the configuration as it is. *)
Lemma Connect_config cfg s err s0 :
  same_config cfg (lc s) → run Connect s = (Some err, s0) →
  cfg = set_Conn (Conn cfg) (lc s0).
Proof.
  intros Hcfg [Hev _]%(returns_inv _ _ _ _ _ (Connect_returns s)).
  apply same_config_inv. unfold same_config. by rewrite (ev_config _ _ Hev).
Qed.

Lemma exec_Close_steps s : exec Close_steps s = run Close s.
Proof. unfold Close_steps, Close. destruct (Conn (lc s)) as [c|] eqn:Hc; by steps_exec. Qed.

Lemma search_with_retry_steps {R} req s :
  search_with_retry (R:=R) req s = as_outcome (exec (search_steps req) s).
Proof.
  unfold search_steps, search_with_retry. change (retry_fuel 3) with 1%nat.
  destruct (Conn (lc s)) as [c|] eqn:Hc; [|by steps_exec].
  destruct (ldap.Search c req (world s)) as [[e1|sr] w1] eqn:Hs1.
  - destruct (ldap.Search c req w1) as [r2 w2] eqn:Hs2.
    cbn [retry_loop_steps retry_loop]. by steps_exec.
  - cbn [retry_loop_steps retry_loop]. by steps_exec.
Qed.

Create Rewrite HintDb config.
#[local] Hint Rewrite @userSearchRequest_set_Conn @authSearchRequest_set_Conn
  @groupSearchRequest_set_Conn @has_bind_credentials_set_Conn : config.

(** Split on the answer of the next primitive of the session library. *)
Ltac steps_case :=
  let settled w := first [is_var w | match w with world ?s => is_var s end] in
  match goal with
  | |- context [ldap.Bind ?l ?u ?p ?w] =>
      settled w; destruct (ldap.Bind l u p w) as [[?|] ?] eqn:?
  | |- context [ldap.Search ?l ?req ?w] =>
      settled w; destruct (ldap.Search l req w) as [[?|[[|? [|? ?]]]] ?] eqn:?
  | |- context [Conn (lc ?s)] => is_var s; destruct (Conn (lc s)) eqn:?
  | |- context [has_bind_credentials (lc ?s)] =>
      is_var s; destruct (has_bind_credentials (lc s)) eqn:?
  end.

(** The start of every method but [Close]: [Connect], and the return of
    its error. *)
Ltac steps_Connect cfg s Hcfg :=
  rewrite exec_bind, run_call, (exec_Connect_config cfg s Hcfg);
  let err := fresh "err" in let s0 := fresh "s" in let HC := fresh "HC" in
  destruct (run Connect s) as [[err|] s0] eqn:HC; [|done];
  rewrite (Connect_config cfg s err s0 Hcfg HC); autorewrite with config;
  destruct err; [by steps_exec|]; cbn [not_nil is_nil negb].

(** The search of a method, after that. *)
Ltac steps_search :=
  rewrite exec_bind; go_unfold; rewrite search_with_retry_steps;
  match goal with
  | |- context [exec (search_steps ?req) ?s] =>
      destruct (exec (search_steps req) s) as [[[?|[[|? [|? ?]]]]|] ?]
  end; by steps_exec.

Lemma exec_SearchUser_steps cfg u s :
  same_config cfg (lc s) → exec (SearchUser_steps cfg u) s = run (SearchUser u) s.
Proof. intros Hcfg. unfold SearchUser_steps, SearchUser. steps_Connect cfg s Hcfg. steps_search. Qed.

Lemma exec_GetGroupsOfUser_steps cfg u s :
  same_config cfg (lc s) → exec (GetGroupsOfUser_steps cfg u) s = run (GetGroupsOfUser u) s.
Proof.
  intros Hcfg. unfold GetGroupsOfUser_steps, GetGroupsOfUser. steps_Connect cfg s Hcfg.
  steps_search.
Qed.

Lemma exec_FindUsers_steps cfg u s :
  same_config cfg (lc s) → exec (FindUsers_steps cfg u) s = run (FindUsers u) s.
Proof. intros Hcfg. unfold FindUsers_steps, FindUsers. steps_Connect cfg s Hcfg. steps_search. Qed.

Lemma exec_Authenticate_steps cfg u p s :
  same_config cfg (lc s) → exec (Authenticate_steps cfg u p) s = run (Authenticate u p) s.
Proof.
  intros Hcfg. unfold Authenticate_steps, Authenticate. steps_Connect cfg s Hcfg.
  repeat (steps_exec; try done; steps_case).
Qed.

(** A call by its method. *)
Ltac steps_methods Hcfg :=
  cbn [api_steps api_result]; rewrite ?exec_fmap;
  first
    [ by rewrite exec_Connect_config
    | by rewrite exec_SearchUser_steps
    | by rewrite exec_Authenticate_steps
    | by rewrite exec_GetGroupsOfUser_steps
    | by rewrite exec_FindUsers_steps
    | rewrite exec_bind, exec_Close_steps;
      match goal with |- context [run Close ?s] => by destruct (run Close s) as [[[]|] ?] end ].

Lemma exec_api_steps a s : exec (api_steps (lc s) a) s = api_result a s.
Proof. assert (same_config (lc s) (lc s)) as Hcfg by done. destruct a; steps_methods Hcfg. Qed.

(** C13. Run without interruption, the body of a call is the method of
    the sequential model: the same result, the same state of the client
    and of the server, the same trace; it panics where the method does.
    The body reads the configuration it is given, the method the fields of
    the client: the two agree whatever session either holds. *)
Theorem api_steps_sequential cfg a s :
  same_config cfg (lc s) → exec (api_steps cfg a) s = api_result a s.
Proof. intros Hcfg. destruct a; steps_methods Hcfg. Qed.

Lemma api_run_result a s : api_run a s = ran (api_result a s).
Proof.
  destruct a; simpl; unfold ran;
    match goal with |- context [run ?f s] => by destruct (run f s) as [[?|] ?] end.
Qed.

End exec.

(** ** At concrete inputs *)

Lemma api_steps_sequential_witness :
  exec (api_steps fixtures.client (CallAuthenticate "alice" "wonderland")) fixtures.connected
  = api_result (CallAuthenticate "alice" "wonderland") fixtures.connected.
Proof. apply api_steps_sequential. reflexivity. Defined.
