(* ===== verification/Pool.v ===== *)
(** * Pool: threads that share one client, and the disciplines they keep

    The callers of one client are threads: bodies of accesses ([prog]) over
    one shared state.  A step of the pool is one access of one thread
    ([pool_step]); a schedule, the list of the threads that move, decides
    the interleaving ([run_schedule]).

    What threads keep under every interleaving is proved once, for a
    [discipline]: what a thread knows where it stands (its [ghost]), the
    accesses it may make then ([allowed]) and what it knows after an answer
    ([next], none when what it knows excludes the answer).  [obeys]
    follows a body along every answer that is possible, down to what the
    thread promises of its result.  A discipline is sound for the state when
    what a thread knows holds of the state ([holds]), stays so when another
    thread moves, and the invariant all threads share ([shared]) is kept by
    every allowed access: [Sequential] for a thread that runs alone,
    [Concurrent] for a pool.  [exec_obeys] and [run_schedule_obeys] are
    the two theorems the properties of callers are instances of; in a
    pool every thread has a tag (its call) that says what it promises.

    [flag] is the discipline of a thread that knows whether a session is
    stored; [within] bounds the accesses of a thread. *)

From stdpp Require Import base tactics option list strings gmap relations.
From Stdlib Require Import ZArith Lia.
From S2P Require Import Prelude GoFmt Ldap Client Steps.

(** ** Disciplines *)

Record discipline := Discipline {
  ghost : Type;
  allowed : ghost → action → Prop;
  next : ghost → ∀ a : action, answer a → option ghost
}.

(** The thread knows whether a session is stored: a load of [lc.Conn]
    gives nil only when none is known to be, and a session is known to be
    stored after a load that gave one and after a store. *)
Definition flag (P : action → Prop) : discipline :=
  {| ghost := bool;
     allowed _ a := P a;
     next c a :=
       match a return answer a → option bool with
       | AGetConn => λ conn,
           match conn with
           | Some _ => Some true
           | None => if c then None else Some false
           end
       | ASetConn _ => λ _, Some true
       | _ => λ _, Some c
       end |}.

(** The thread may make every access; it only never dereferences nil. *)
Definition cautious : discipline := flag (λ _, True).

(** Two disciplines at once: the thread knows what either knows and makes
    the accesses both allow. *)
Definition both (D1 D2 : discipline) : discipline :=
  {| ghost := ghost D1 * ghost D2;
     allowed g a := allowed D1 g.1 a ∧ allowed D2 g.2 a;
     next g a ans :=
       match next D1 g.1 a ans, next D2 g.2 a ans with
       | Some g1, Some g2 => Some (g1, g2)
       | _, _ => None
       end |}.

(** ** Bodies *)

Section threads.
Context {R : Type}.
Implicit Types (p : prog R).

(** The thread has returned or panicked. *)
Definition finished p : bool := match p with Act _ _ => false | _ => true end.

(** What a finished thread holds: its result, or a panic. *)
Definition finish (r : option R) : prog R :=
  match r with Some r => Ret r | None => Panic end.

(** The thread returns within [n] accesses, whatever the answers. *)
Fixpoint within (n : nat) p {struct p} : Prop :=
  match p, n with
  | Act a k, S n => ∀ ans, within n (k ans)
  | Act _ _, O => False
  | _, _ => True
  end.

(** The thread makes only accesses its discipline allows, never panics
    and returns a result [Q] holds of, given what it knows then. *)
Fixpoint obeys (D : discipline) (Q : ghost D → R → Prop) (g : ghost D) p : Prop :=
  match p with
  | Ret r => Q g r
  | Panic => False
  | Act a k =>
      allowed D g a
      ∧ ∀ ans, match next D g a ans with
               | Some g' => obeys D Q g' (k ans)
               | None => True
               end
  end.

(** A thread promises whatever follows from what it promises. *)
Lemma obeys_impl D (Q Q' : ghost D → R → Prop) g p :
  (∀ g r, Q g r → Q' g r) → obeys D Q g p → obeys D Q' g p.
Proof.
  intros HQ. revert g. induction p as [r| |a k IH]; intros g; simpl; [by auto..|].
  intros [Ha Hk]. split; [done|]. intros ans. specialize (Hk ans).
  destruct (next D g a ans); by auto.
Qed.

Lemma obeys_finished D Q g p : obeys D Q g p → p ≠ Panic.
Proof. by destruct p. Qed.

Lemma within_finished p : finished p = true → ∀ n, within n p.
Proof. by destruct p, n. Qed.

Lemma within_0 p : within 0 p → finished p = true.
Proof. by destruct p. Qed.

Lemma within_le n m p : n ≤ m → within n p → within m p.
Proof.
  revert m p. induction n as [|n IH]; intros m [r| |a k] Hle; try by destruct m.
  destruct m as [|m]; [lia|]. simpl. intros Hk ans. apply (IH m); [lia|done].
Qed.

End threads.


(** ** The pool *)

Section pool.
Context `{ldap.Backend W} {R : Type}.
Implicit Types (p : prog R) (ps : list (prog R)) (s : state W) (i : nat) (sched : list nat).

(** One access of a thread; none when it has returned or panicked. *)
Definition thread_step p s : option (prog R * state W) :=
  match p with
  | Act a k => Some (k (do_action a s).1, (do_action a s).2)
  | _ => None
  end.

(** Thread [i] moves; nothing moves when it cannot. *)
Definition pool_step i (c : list (prog R) * state W) : list (prog R) * state W :=
  match c.1 !! i ≫= λ p, thread_step p c.2 with
  | Some (p', s') => (<[i := p']> c.1, s')
  | None => c
  end.

(** The threads move in the order the schedule gives. *)
Definition run_schedule sched (c : list (prog R) * state W) : list (prog R) * state W :=
  foldl (λ c i, pool_step i c) c sched.

(** A session is stored. *)
Definition stored s : bool := not_nil (Conn (lc s)).

Lemma pool_step_Act i ps s a k :
  ps !! i = Some (Act a k) →
  pool_step i (ps, s) = (<[i := k (do_action a s).1]> ps, (do_action a s).2).
Proof. intros Hp. unfold pool_step. simpl. by rewrite Hp. Qed.

Lemma pool_step_finished i ps s p :
  ps !! i = Some p → finished p = true → pool_step i (ps, s) = (ps, s).
Proof. intros Hp Hfin. unfold pool_step. simpl. rewrite Hp. by destruct p. Qed.

Lemma pool_step_None i ps s : ps !! i = None → pool_step i (ps, s) = (ps, s).
Proof. intros Hp. unfold pool_step. simpl. by rewrite Hp. Qed.

(** A step of the pool: nothing moves, or a thread makes an access. *)
Lemma pool_step_cases i ps s :
  pool_step i (ps, s) = (ps, s)
  ∨ ∃ a k, ps !! i = Some (Act a k)
           ∧ pool_step i (ps, s) = (<[i := k (do_action a s).1]> ps, (do_action a s).2).
Proof.
  destruct (ps !! i) as [[r| |a k]|] eqn:Hp.
  - left. by apply (pool_step_finished i ps s (Ret r)).
  - left. by apply (pool_step_finished i ps s Panic).
  - right. exists a, k. by rewrite (pool_step_Act i ps s a k).
  - left. by apply pool_step_None.
Qed.

Lemma run_schedule_cons i sched c :
  run_schedule (i :: sched) c = run_schedule sched (pool_step i c).
Proof. done. Qed.

Lemma run_schedule_app sched1 sched2 c :
  run_schedule (sched1 ++ sched2) c = run_schedule sched2 (run_schedule sched1 c).
Proof. apply foldl_app. Qed.

(** A thread that is not scheduled stays where it is. *)
Lemma pool_step_other i j c : i ≠ j → (pool_step j c).1 !! i = c.1 !! i.
Proof.
  destruct c as [ps s]. intros Hij.
  destruct (pool_step_cases j ps s) as [->|(a & k & _ & ->)]; [done|].
  by apply list_lookup_insert_ne.
Qed.

Lemma pool_step_length i c : length (pool_step i c).1 = length c.1.
Proof.
  destruct c as [ps s]. destruct (pool_step_cases i ps s) as [->|(a & k & _ & ->)]; [done|].
  apply length_insert.
Qed.

Lemma run_schedule_length sched c : length (run_schedule sched c).1 = length c.1.
Proof.
  revert c. induction sched as [|j sched IH]; intros c; [done|].
  by rewrite run_schedule_cons, IH, pool_step_length.
Qed.

Lemma run_schedule_untouched sched i c : i ∉ sched → (run_schedule sched c).1 !! i = c.1 !! i.
Proof.
  revert c. induction sched as [|j sched IH]; intros c Hi; [done|].
  apply not_elem_of_cons in Hi as [Hij Hi]. rewrite run_schedule_cons, IH by done.
  by apply pool_step_other.
Qed.

(** ** Sound disciplines *)

Section sound.
Context (D : discipline) (holds : ghost D → state W → Prop) (shared : state W → Prop).

(** An allowed access of a thread keeps what all threads share, its answer
    is one the thread holds possible, and the thread knows the state it
    leaves. *)
Class Sequential : Prop :=
  own g a s :
    holds g s → shared s → allowed D g a →
    shared (do_action a s).2
    ∧ ∃ g', next D g a (do_action a s).1 = Some g' ∧ holds g' (do_action a s).2.

(** What a thread knows also stays true when another thread moves. *)
Class Concurrent : Prop := {
  concurrent_sequential :: Sequential;
  other g g0 a s :
    holds g s → holds g0 s → shared s → allowed D g0 a → holds g (do_action a s).2
}.

(** The thread knows the state and keeps its discipline. *)
Definition thread_obeys (Q : ghost D → R → Prop) s p : Prop := ∃ g, holds g s ∧ obeys D Q g p.

(** The threads keep the discipline, each with the promise of its tag. *)
Definition pool_obeys {T} (Q : T → ghost D → R → Prop) (tags : list T)
    (c : list (prog R) * state W) : Prop :=
  shared c.2 ∧ Forall2 (λ t, thread_obeys (Q t) c.2) tags c.1.

(** A thread that runs alone returns, with a result it promised, in a
    state that has what the threads share. *)
Lemma exec_obeys Q g p s :
  Sequential → holds g s → shared s → obeys D Q g p →
  ∃ r g', (exec p s).1 = Some r ∧ Q g' r
          ∧ holds g' (exec p s).2 ∧ shared (exec p s).2.
Proof.
  intros HD. revert g s. induction p as [r| |a k IH]; intros g s Hg Hs Hp; [by exists r, g|done|].
  destruct Hp as [Ha Hk]. destruct (own g a s Hg Hs Ha) as (Hs' & g' & Hnext & Hg').
  specialize (Hk (do_action a s).1). rewrite Hnext in Hk. by apply (IH _ g').
Qed.

Section tagged.
Context {T : Type} (Q : T → ghost D → R → Prop).
Implicit Types (tags : list T).

Lemma pool_step_obeys tags i c :
  Concurrent → pool_obeys Q tags c → pool_obeys Q tags (pool_step i c).
Proof.
  destruct c as [ps s]. intros HD [Hs Hps].
  destruct (pool_step_cases i ps s) as [->|(a & k & Hi & ->)]; [done|].
  destruct (Forall2_lookup_r _ _ _ _ _ Hps Hi) as (t & Ht & g & Hg & Ha & Hk).
  destruct (own g a s Hg Hs Ha) as (Hs' & g' & Hnext & Hg').
  specialize (Hk (do_action a s).1). rewrite Hnext in Hk.
  split; [done|]. rewrite <-(list_insert_id tags i t Ht). apply Forall2_insert; [|by exists g'].
  eapply Forall2_impl; [done|]. intros t' q (gq & Hgq & Hq). exists gq. eauto using other.
Qed.

(** Every interleaving of threads that keep a sound discipline. *)
Lemma run_schedule_obeys tags sched c :
  Concurrent → pool_obeys Q tags c → pool_obeys Q tags (run_schedule sched c).
Proof.
  intros HD. revert c. induction sched as [|i sched IH]; intros c Hc; [done|].
  apply IH. by apply pool_step_obeys.
Qed.

Lemma run_schedule_shared tags sched c :
  Concurrent → pool_obeys Q tags c → shared (run_schedule sched c).2.
Proof. intros HD Hc. by destruct (run_schedule_obeys tags sched c HD Hc). Qed.

(** A pool keeps the discipline when each of its threads does. *)
Lemma pool_obeys_lookup tags c :
  shared c.2 → length tags = length c.1 →
  (∀ i t p, tags !! i = Some t → c.1 !! i = Some p → thread_obeys (Q t) c.2 p) →
  pool_obeys Q tags c.
Proof. intros Hs Hlen Hps. split; [done|]. by apply Forall2_same_length_lookup_2. Qed.

Lemma pool_obeys_length tags c : pool_obeys Q tags c → length tags = length c.1.
Proof. intros [_ Hps]. by eapply Forall2_length. Qed.

(** What a thread of a pool that keeps the discipline knows and does. *)
Lemma pool_obeys_at tags c i t p :
  pool_obeys Q tags c → tags !! i = Some t → c.1 !! i = Some p → thread_obeys (Q t) c.2 p.
Proof. intros [_ Hps] Ht Hp. by eapply Forall2_lookup_lr in Hps. Qed.

Lemma pool_obeys_thread tags c i p :
  pool_obeys Q tags c → c.1 !! i = Some p → ∃ t, tags !! i = Some t ∧ thread_obeys (Q t) c.2 p.
Proof. intros [_ Hps] Hp. by eapply Forall2_lookup_r in Hps. Qed.

(** A thread of the pool does not panic. *)
Lemma pool_obeys_finished tags c i p : pool_obeys Q tags c → c.1 !! i = Some p → p ≠ Panic.
Proof.
  intros Hc Hp. destruct (pool_obeys_thread tags c i p Hc Hp) as (t & _ & g & _ & Hobeys).
  by eapply obeys_finished.
Qed.

End tagged.

End sound.

(** ** Two sound disciplines at once *)

Section both.
Context (D1 D2 : discipline).
Context (holds1 : ghost D1 → state W → Prop) (holds2 : ghost D2 → state W → Prop).
Context (shared1 shared2 : state W → Prop).

Definition both_holds (g : ghost (both D1 D2)) s : Prop := holds1 g.1 s ∧ holds2 g.2 s.
Definition both_shared s : Prop := shared1 s ∧ shared2 s.

Lemma both_sequential :
  Sequential D1 holds1 shared1 → Sequential D2 holds2 shared2 →
  Sequential (both D1 D2) both_holds both_shared.
Proof.
  intros HD1 HD2 [g1 g2] a s [Hg1 Hg2] [Hs1 Hs2] [Ha1 Ha2].
  destruct (HD1 g1 a s Hg1 Hs1 Ha1) as (? & g1' & Hnext1 & ?).
  destruct (HD2 g2 a s Hg2 Hs2 Ha2) as (? & g2' & Hnext2 & ?).
  split; [done|]. exists (g1', g2'). simpl in *. by rewrite Hnext1, Hnext2.
Qed.

Lemma both_concurrent :
  Concurrent D1 holds1 shared1 → Concurrent D2 holds2 shared2 →
  Concurrent (both D1 D2) both_holds both_shared.
Proof.
  intros [Hown1 Hother1] [Hown2 Hother2]. split; [by apply both_sequential|].
  intros [g1 g2] [g1' g2'] a s [Hg1 Hg2] [Hg1' Hg2'] [Hs1 Hs2] [Ha1 Ha2].
  split; [by apply (Hother1 g1 g1')|by apply (Hother2 g2 g2')].
Qed.

End both.

(** ** A thread that knows whether a session is stored *)

Definition flag_holds (c : bool) s : Prop := c = true → stored s = true.

Lemma flag_concurrent (P : action → Prop) (I : state W → Prop) :
  (∀ a s, P a → I s → I (do_action a s).2) → Concurrent (flag P) flag_holds I.
Proof.
  intros HI. split.
  - intros c a s Hc Hs Ha. split; [by apply HI|]. unfold flag_holds, stored in *.
    destruct a; simpl; eauto. destruct (Conn (lc s)), c; simpl in *; eauto.
    by discriminate Hc.
  - intros c c0 a s Hc _ _ _. unfold flag_holds, stored in *. by destruct a.
Qed.

Lemma cautious_concurrent : Concurrent cautious flag_holds (λ _, True).
Proof. by apply flag_concurrent. Qed.

(** ** Progress *)

(** A step of the pool takes a step of thread [i] off its bound when it
    is [i] that steps, and leaves the thread alone when it is not. *)
Lemma pool_step_within i j n c p :
  c.1 !! i = Some p → within n p →
  ∃ p', (pool_step j c).1 !! i = Some p' ∧ within (if decide (i = j) then pred n else n) p'.
Proof.
  destruct c as [ps s]. simpl. intros Hp Hn. unfold pool_step. simpl.
  destruct (decide (i = j)) as [<-|Hne].
  - rewrite Hp. simpl. destruct p as [r| |a k]; simpl; [by eauto using within_finished..|].
    rewrite list_lookup_insert_eq by (by eapply lookup_lt_Some).
    destruct n as [|n]; [done|]. eauto.
  - destruct (ps !! j ≫= λ q, thread_step q s) as [[q' s']|]; simpl; [|by eauto].
    rewrite list_lookup_insert_ne by done. eauto.
Qed.

Lemma run_schedule_within sched i n c p :
  c.1 !! i = Some p → within n p →
  ∃ p', (run_schedule sched c).1 !! i = Some p'
        ∧ within (n - length (filter (i =.) sched)) p'.
Proof.
  revert n c p. induction sched as [|j sched IH]; intros n c p Hp Hn.
  { exists p. by rewrite Nat.sub_0_r. }
  destruct (pool_step_within i j n c p Hp Hn) as (p1 & Hp1 & Hn1).
  destruct (IH _ _ _ Hp1 Hn1) as (p' & Hp' & Hn'). exists p'. split; [done|].
  rewrite filter_cons. destruct (decide (i = j)); simpl; [|done].
  by replace (n - S (length (filter (i =.) sched))) with (pred n - length (filter (i =.) sched))
    by lia.
Qed.

(** A thread that runs alone runs as [exec] does. *)
Lemma run_alone n i ps s p :
  ps !! i = Some p → within n p →
  run_schedule (replicate n i) (ps, s) = (<[i := finish (exec p s).1]> ps, (exec p s).2).
Proof.
  revert ps s p. induction n as [|n IH]; intros ps s p Hp Hn.
  { destruct p as [r| |]; [..|done]; simpl; by rewrite list_insert_id. }
  cbn [replicate]. rewrite run_schedule_cons. destruct p as [r| |a k].
  - rewrite (pool_step_finished i ps s (Ret r)) by done. by apply IH.
  - rewrite (pool_step_finished i ps s Panic) by done. by apply IH.
  - rewrite (pool_step_Act i ps s a k Hp), (IH _ _ (k (do_action a s).1)).
    + by rewrite list_insert_insert_eq.
    + by rewrite list_lookup_insert_eq by (by eapply lookup_lt_Some).
    + apply Hn.
Qed.

End pool.
