(* ===== verification/Threads.v ===== *)
(** * Calls that interleave

    Several callers on one client.  Each call is a thread that runs the
    body of its method ([Steps]) in a pool ([Pool]); a schedule names,
    access by access, the thread that moves next.  The accesses of one
    thread keep their order and every access is atomic: the interleavings
    of a sequentially consistent memory at the granularity of loads and
    stores of [lc.Conn] and of calls into the session library.

    The body of every call keeps the discipline of a thread that knows
    whether a session is stored ([flag]), so under every schedule: no
    interleaving of calls panics; on a client that holds a session no
    interleaving stores, dials or changes the client; and every call
    returns after at most twelve accesses of its own, whatever the other
    callers do.  Callers that take turns get what the sequential model
    gives. *)

From stdpp Require Import base tactics option list strings gmap relations.
From Stdlib Require Import ZArith Lia.
From S2P Require Import Prelude GoFmt Ldap Sim Client Fixtures Session Retry Search Auth Safety Steps Pool.

(** ** The calls of the client *)

(** An access that neither stores a session nor dials one. *)
Definition quiet (a : action) : Prop :=
  match a with
  | ASetConn _ | ADial _ _ | ADialTLS _ _ _ => False
  | _ => True
  end.

(** The threads of callers that share a client configured as [cfg], one
    call each. *)
Definition api_pool `{Formatter} (cfg : LDAPClient) (calls : list api_call)
    : list (prog result) :=
  api_steps cfg <$> calls.

(** Unfold the body of a call down to its accesses. *)
Ltac prog_unfold :=
  unfold api_steps, Authenticate_steps, SearchUser_steps, GetGroupsOfUser_steps,
    FindUsers_steps, Close_steps, Connect_steps, search_steps, load_Conn, act;
  change (retry_fuel 3) with 1%nat;
  cbn [mbind mret fmap prog_mbind prog_ret prog_fmap prog_bind retry_loop_steps].

(** The index that follows the two tests on the number of entries is in
    range. *)
Ltac index_in_range :=
  match goal with
  | H : _ !! 0 = None |- False =>
      apply lookup_ge_None in H;
      repeat match goal with
      | Hb : bool_decide _ = false |- _ => apply bool_decide_eq_false in Hb
      end; lia
  end.

(** Split on the test or the answer a body branches on. *)
Ltac prog_case :=
  match goal with
  | |- context [is_nil ?x] => is_var x; destruct x eqn:?
  | |- context [not_nil ?x] => is_var x; destruct x eqn:?
  | |- context [failed ?x] => is_var x; destruct x eqn:?
  | |- context [match ?x with Some _ => _ | None => _ end] => is_var x; destruct x eqn:?
  | |- context [match ?x with inl _ => _ | inr _ => _ end] => is_var x; destruct x eqn:?
  | |- context [match ?x with Some _ => _ | None => _ end] => destruct x eqn:?
  | |- context [match ?x with inl _ => _ | inr _ => _ end] => destruct x eqn:?
  | |- context [if ?b then _ else _] => destruct b eqn:?
  end.

(** Follow every branch of a body; [tac] is tried on the goals a
    discipline leaves about what it knows. *)
Ltac prog_cases_with tac :=
  repeat first
    [ tac
    | done
    | index_in_range
    | progress cbn [obeys allowed next flag cautious both within mbind mret prog_mbind prog_ret prog_bind
                    retry_loop_steps is_nil not_nil failed andb negb quiet fst snd]
    | split
    | intro
    | prog_case ].

Ltac prog_cases := prog_cases_with fail.

Section calls.
Context `{Formatter}.
Implicit Types (cfg : LDAPClient) (a : api_call).

Lemma api_steps_safe cfg a : obeys cautious (λ _ _, True) false (api_steps cfg a).
Proof. destruct a; prog_unfold; prog_cases. Qed.

Lemma api_steps_quiet cfg a : obeys (flag quiet) (λ _ _, True) true (api_steps cfg a).
Proof. destruct a; prog_unfold; prog_cases. Qed.

Lemma api_steps_within cfg a : within 12 (api_steps cfg a).
Proof. destruct a; prog_unfold; prog_cases. Qed.

End calls.

Section interleavings.
Context `{Formatter} `{ldap.Backend W}.
Implicit Types (cfg : LDAPClient) (calls : list api_call) (s : state W) (sched : list nat).

(** The threads of a pool of calls, each tagged with its call, keep a
    discipline that the body of every call keeps from what is known at
    the start. *)
Lemma api_pool_obeys D holds shared (Q : api_call → ghost D → result → Prop) cfg calls s
    (g : api_call → ghost D) :
  (∀ a, obeys D (Q a) (g a) (api_steps cfg a)) → (∀ a, holds (g a) s) → shared s →
  pool_obeys D holds shared Q calls (api_pool cfg calls, s).
Proof.
  intros Hobeys Hg Hs. split; [done|]. apply Forall2_fmap_r, Forall_Forall2_diag, Forall_true.
  intros a. by exists (g a).
Qed.

(** Nothing is promised of the results. *)
Definition any_result {G} (_ : api_call) (_ : G) (_ : result) : Prop := True.

Lemma run_schedule_safe cfg calls s sched :
  pool_obeys cautious flag_holds (λ _, True) any_result calls
    (run_schedule sched (api_pool cfg calls, s)).
Proof.
  apply run_schedule_obeys; [apply cautious_concurrent|].
  by apply (api_pool_obeys cautious _ _ _ cfg calls s (λ _, false)); [apply api_steps_safe|..].
Qed.

Lemma interleaving_safe_at cfg calls s sched i p :
  (run_schedule sched (api_pool cfg calls, s)).1 !! i = Some p → p ≠ Panic.
Proof. eapply pool_obeys_finished, run_schedule_safe. Qed.

(** C15. However the calls of several callers on one client interleave,
    none of them panics: a session is stored before it is dereferenced,
    and no call takes it away. *)
Theorem interleaving_no_panic cfg calls s sched :
  Panic ∉ (run_schedule sched (api_pool cfg calls, s)).1.
Proof.
  intros [i Hi]%list_elem_of_lookup. by eapply interleaving_safe_at.
Qed.

(** What accesses that store and dial nothing keep. *)
Lemma quiet_kept s0 a s :
  quiet a →
  lc s = lc s0 ∧ count is_dial (trace s) = count is_dial (trace s0) →
  lc (do_action a s).2 = lc s0
  ∧ count is_dial (trace (do_action a s).2) = count is_dial (trace s0).
Proof. destruct a; simpl; try done; autorewrite with trace; simpl; by rewrite ?Nat.add_0_r. Qed.

(** On a client that holds a session every thread stays quiet. *)
Lemma run_schedule_quiet calls s sched c :
  Conn (lc s) = Some c →
  pool_obeys (flag quiet) flag_holds
    (λ s', lc s' = lc s ∧ count is_dial (trace s') = count is_dial (trace s))
    any_result calls (run_schedule sched (api_pool (lc s) calls, s)).
Proof.
  intros Hc. apply run_schedule_obeys; [apply flag_concurrent, quiet_kept|].
  apply (api_pool_obeys (flag quiet) _ _ _ _ calls s (λ _, true));
    [apply api_steps_quiet| |done].
  intros _ _. unfold stored. by rewrite Hc.
Qed.

(** C19. On a client that holds a session, however calls interleave, the
    session and the configuration stay as they are and nothing is
    dialled. *)
Theorem interleaving_session_kept calls s sched c :
  Conn (lc s) = Some c →
  lc (run_schedule sched (api_pool (lc s) calls, s)).2 = lc s
  ∧ count is_dial (trace (run_schedule sched (api_pool (lc s) calls, s)).2)
    = count is_dial (trace s).
Proof.
  intros Hc. by destruct (run_schedule_quiet calls s sched c Hc) as [? _].
Qed.

(** C20. Every call is wait-free: whatever the other callers do, a call
    that has been scheduled twelve times has returned. *)
Theorem interleaving_wait_free cfg calls s sched i a :
  calls !! i = Some a → 12 ≤ length (filter (i =.) sched) →
  ∃ r, (run_schedule sched (api_pool cfg calls, s)).1 !! i = Some (Ret r).
Proof.
  intros Ha Hn.
  destruct (run_schedule_within sched i 12 (api_pool cfg calls, s) (api_steps cfg a))
    as (p & Hp & Hfin); [by simpl; unfold api_pool; rewrite list_lookup_fmap, Ha|apply api_steps_within|].
  replace (12 - _) with 0 in Hfin by lia. apply within_0 in Hfin.
  pose proof (interleaving_safe_at cfg calls s sched i p Hp) as Hsafe.
  destruct p as [r| |]; [by eauto|done..].
Qed.

End interleavings.

(** ** One caller after the other *)

(** What the calls return one after the other in the sequential model,
    and the state they leave. *)
Fixpoint api_results `{Formatter} `{ldap.Backend W} (calls : list api_call) (s : state W)
    : list (option result) * state W :=
  match calls with
  | [] => ([], s)
  | a :: calls =>
      let r := api_result a s in
      let rs := api_results calls r.2 in
      (r.1 :: rs.1, rs.2)
  end.

(** The schedule that runs the threads [i], [i + 1], ... to their end, one
    after the other. *)
Definition serial (i n : nat) : list nat := flat_map (replicate 12) (seq i n).

Section serial.
Context `{Formatter} `{ldap.Backend W}.
Implicit Types (cfg : LDAPClient) (calls : list api_call) (s : state W).

(** A call leaves the configuration as it is, and bodies do not read the
    session of the configuration they are given. *)
Lemma api_result_config a s : same_config (lc (api_result a s).2) (lc s).
Proof.
  destruct (api_run_post a s) as (s' & Hrun & Hpost%api_post_evolves).
  rewrite api_run_result in Hrun. unfold ran in Hrun.
  destruct (api_result a s) as [[r|] s1]; simplify_eq/=. apply Hpost.
Qed.

Lemma api_steps_config cfg cfg' a : same_config cfg cfg' → api_steps cfg a = api_steps cfg' a.
Proof. by intros ->%same_config_inv. Qed.

Lemma api_pool_config cfg cfg' calls :
  same_config cfg cfg' → api_pool cfg calls = api_pool cfg' calls.
Proof. intros Hcfg. unfold api_pool. apply list_fmap_ext. intros _ a _. by apply api_steps_config. Qed.

Lemma run_serial (finished_ps : list (prog result)) calls s :
  run_schedule (serial (length finished_ps) (length calls))
    (finished_ps ++ api_pool (lc s) calls, s)
  = (finished_ps ++ (finish <$> (api_results calls s).1), (api_results calls s).2).
Proof.
  revert finished_ps s. induction calls as [|a calls IH]; intros ps s; [done|].
  change (api_pool (lc s) (a :: calls)) with (api_steps (lc s) a :: api_pool (lc s) calls).
  change (serial (length ps) (length (a :: calls)))
    with (replicate 12 (length ps) ++ serial (S (length ps)) (length calls)).
  cbn [api_results fst snd]. rewrite run_schedule_app.
  rewrite (run_alone 12 _ _ _ (api_steps (lc s) a)), exec_api_steps;
    [|by rewrite lookup_app_r, Nat.sub_diag|apply api_steps_within].
  rewrite insert_app_r_alt, Nat.sub_diag by done. cbn [list_insert insert].
  rewrite (api_pool_config (lc s) (lc (api_result a s).2)) by (symmetry; apply api_result_config).
  rewrite cons_middle, app_assoc.
  replace (S (length ps)) with (length (ps ++ [finish (api_result a s).1]))
    by (rewrite length_app; simpl; lia).
  by rewrite IH, <-app_assoc.
Qed.

(** C35. Callers that take turns, each call run to its end before the
    next starts, get what the sequential model gives: the results of the
    methods called one after the other, and the state they leave. *)
Theorem serial_is_sequential calls s :
  run_schedule (serial 0 (length calls)) (api_pool (lc s) calls, s)
  = (finish <$> (api_results calls s).1, (api_results calls s).2).
Proof. apply (run_serial [] calls s). Qed.

End serial.

(** ** At concrete inputs *)

(** An authentication and a lookup whose accesses alternate. *)
Definition two_callers : list api_call :=
  [CallAuthenticate "alice" "wonderland"; CallSearchUser "alice"].

Definition alternating : list nat :=
  [0; 1; 0; 1; 0; 1; 0; 1; 0; 1; 0; 1; 0; 1; 0; 1; 0; 1; 0; 1; 0; 1; 0; 1].

Lemma interleaving_session_kept_witness :
  lc (run_schedule alternating
        (api_pool (lc fixtures.connected) two_callers, fixtures.connected)).2
    = lc fixtures.connected
  ∧ count is_dial
      (trace (run_schedule alternating
                (api_pool (lc fixtures.connected) two_callers, fixtures.connected)).2)
    = count is_dial (trace fixtures.connected).
Proof. apply (interleaving_session_kept two_callers fixtures.connected alternating 0). reflexivity. Defined.

Lemma interleaving_wait_free_witness :
  ∃ r, (run_schedule alternating
          (api_pool fixtures.client two_callers,
           fixtures.start fixtures.client fixtures.server)).1 !! 1 = Some (Ret r).
Proof.
  apply (interleaving_wait_free fixtures.client two_callers _ alternating 1
           (CallSearchUser "alice")); [reflexivity|]. vm_compute. lia.
Defined.
