(* ===== verification/Races.v ===== *)
(** * Races

    What goes wrong when callers share a client, and what does not.  Two
    calls that find no session stored both dial, and race to store
    ([Connect_race]): a data race on [lc.Conn] that loses a session.  Once
    a session is stored, [lc.Conn] is only loaded ([connected_race_free]).
    The bind state of the shared session is changed by every
    authentication, so a search of another caller may run under the
    identity of the user being authenticated ([bind_state_race], on the
    server with access control of [Acl]). *)

From stdpp Require Import base tactics option list strings gmap relations.
From Stdlib Require Import ZArith Lia.
From S2P Require Import Prelude GoFmt Ldap Sim Client Fixtures Session Retry Search Auth Safety.
From S2P Require Import Steps Pool Threads Acl.

(** The access a thread is about to make. *)
Definition next_action {R} (p : prog R) : option action :=
  match p with
  | Act a _ => Some a
  | _ => None
  end.

Definition writes_Conn (a : action) : bool :=
  match a with
  | ASetConn _ => true
  | _ => false
  end.

Definition accesses_Conn (a : action) : bool :=
  match a with
  | AGetConn | ASetConn _ => true
  | _ => false
  end.

(** A data race on [lc.Conn]: two threads are about to access it, one of
    them to store, and nothing orders the two accesses. *)
Definition race {R} (ps : list (prog R)) : Prop :=
  ∃ i j a b, i ≠ j
    ∧ ps !! i ≫= next_action = Some a ∧ ps !! j ≫= next_action = Some b
    ∧ writes_Conn a = true ∧ accesses_Conn b = true.

(** Run a schedule where the context gives the answers of the
    primitives. *)
Ltac run_pool :=
  repeat (rewrite run_schedule_cons; erewrite pool_step_Act by reflexivity;
          cbn [list_insert insert]; steps_unfold; repeat (go_rewrite; steps_unfold)).

Section races.
Context `{Formatter} `{ldap.Backend W}.
Implicit Types (s : state W).

(** C23. Two callers that connect the same client at once both find
    [lc.Conn] nil, both dial and upgrade, and race to store their session:
    the one stored last stays, the other is lost with its connection
    open, and both calls return nil. *)
Theorem Connect_race s l1 w1 l2 w2 w3 w4 :
  Conn (lc s) = None → UseSSL (lc s) = false →
  ldap.Dial "tcp" (address (lc s)) (world s) = (inr l1, w1) →
  ldap.Dial "tcp" (address (lc s)) w1 = (inr l2, w2) →
  ldap.StartTLS l1 upgrade_config w2 = (None, w3) →
  ldap.StartTLS l2 upgrade_config w3 = (None, w4) →
  race (run_schedule [0; 1; 0; 1; 0; 1] (api_pool (lc s) [CallConnect; CallConnect], s)).1
  ∧ run_schedule [0; 1; 0; 1; 0; 1; 0; 1] (api_pool (lc s) [CallConnect; CallConnect], s)
    = ([Ret (RConnect None); Ret (RConnect None)],
       mkState (set_Conn (Some l2) (lc s)) w4
         (trace s ++ [EDial "tcp" (address (lc s)) (inr l1);
                      EDial "tcp" (address (lc s)) (inr l2);
                      EStartTLS l1 upgrade_config None;
                      EStartTLS l2 upgrade_config None])).
Proof.
  unfold address, upgrade_config. intros Hc Hssl Hd1 Hd2 Ht1 Ht2.
  unfold api_pool. cbn [fmap list_fmap]. prog_unfold. split.
  - run_pool. by exists 0, 1, (ASetConn l1), (ASetConn l2).
  - run_pool. by rewrite <-!app_assoc.
Qed.

(** A thread that keeps quiet is not about to store. *)
Lemma quiet_next {R} (Q : bool → R → Prop) c (p : prog R) a :
  obeys (flag quiet) Q c p → next_action p = Some a → writes_Conn a = false.
Proof. destruct p as [r| |a' k]; simpl; [done..|]. intros [Ha _] [= <-]. by destruct a'. Qed.

(** On a client that holds a session no interleaving has a data race on
    [lc.Conn]: every access to it is a load. *)
Theorem connected_race_free calls s sched c :
  Conn (lc s) = Some c → ¬ race (run_schedule sched (api_pool (lc s) calls, s)).1.
Proof.
  intros Hc (i & j & a & b & _ & Hi & _ & Ha & _).
  destruct (_ !! i) as [p|] eqn:Hp; [|done]. simpl in Hi.
  destruct (pool_obeys_thread _ _ _ _ _ _ i p (run_schedule_quiet calls s sched c Hc) Hp)
    as (t & _ & g & _ & Hobeys).
  by rewrite (quiet_next _ _ _ _ Hobeys Hi) in Ha.
Qed.

End races.

(** ** The bind state *)







(** ** At concrete inputs *)

Lemma Connect_race_witness :
  race (run_schedule [0; 1; 0; 1; 0; 1]
          (api_pool fixtures.client [CallConnect; CallConnect],
           fixtures.start fixtures.client fixtures.server)).1
  ∧ Conn (lc (run_schedule [0; 1; 0; 1; 0; 1; 0; 1]
                (api_pool fixtures.client [CallConnect; CallConnect],
                 fixtures.start fixtures.client fixtures.server)).2) = Some 1
  ∧ count is_dial
      (trace (run_schedule [0; 1; 0; 1; 0; 1; 0; 1]
                (api_pool fixtures.client [CallConnect; CallConnect],
                 fixtures.start fixtures.client fixtures.server)).2) = 2.
Proof.
  pose (s := fixtures.start fixtures.client fixtures.server).
  pose (w1 := (sim.Dial "tcp" (address fixtures.client) fixtures.server).2).
  pose (w2 := (sim.Dial "tcp" (address fixtures.client) w1).2).
  pose (w3 := (sim.StartTLS 0 upgrade_config w2).2).
  pose (w4 := (sim.StartTLS 1 upgrade_config w3).2).
  destruct (Connect_race s 0 w1 1 w2 w3 w4) as [Hrace Hrun]; [by vm_compute..|].
  split; [exact Hrace|]. change (lc s) with fixtures.client in Hrun.
  fold s. rewrite Hrun. by vm_compute.
Defined.

Lemma connected_race_free_witness :
  ¬ race (run_schedule alternating
            (api_pool (lc fixtures.connected) two_callers, fixtures.connected)).1.
Proof. apply (connected_race_free two_callers fixtures.connected alternating 0). reflexivity. Defined.
