(* ===== verification/Conform.v ===== *)
(** * Well-formed traces

    What a client configured as [cfg] may ask of its collaborators: it
    dials [tcp] at the configured address, verifies the certificate
    against the configured name on a TLS dial and not at all on an
    upgrade, searches the whole subtree under the configured base without
    limits, logs the retry it is about to sleep for, and sleeps three
    seconds.  [well_formed] is this type of traces.  Every access of every
    body has it ([api_steps_conform]), so every trace has it, under every
    interleaving and along every sequence of calls. *)

From stdpp Require Import base tactics option list strings gmap.
From Stdlib Require Import ZArith Lia.
From S2P Require Import Prelude GoFmt Ldap Sim Client Fixtures Session Retry Search Auth Safety.
From S2P Require Import Steps Pool Threads.

(** A search request of the client: what [ldap.NewSearchRequest] is given
    beside the filter and the attributes. *)
Definition request_ok (cfg : LDAPClient) (req : ldap.SearchRequest.t) : Prop :=
  ldap.SearchRequest.BaseDN req = Base cfg
  ∧ ldap.SearchRequest.Scope req = ldap.ScopeWholeSubtree
  ∧ ldap.SearchRequest.DerefAliases req = ldap.NeverDerefAliases
  ∧ ldap.SearchRequest.SizeLimit req = 0%Z
  ∧ ldap.SearchRequest.TimeLimit req = 0%Z
  ∧ ldap.SearchRequest.TypesOnly req = false
  ∧ ldap.SearchRequest.Controls req = [].

(** An event of the client. *)
Definition event_ok (cfg : LDAPClient) (e : event) : Prop :=
  match e with
  | EDial network addr _ => network = "tcp" ∧ addr = address cfg
  | EDialTLS network addr config _ =>
      network = "tcp" ∧ addr = address cfg ∧ config = verify_config cfg
  | EStartTLS _ config _ => config = upgrade_config
  | ESearch _ req _ => request_ok cfg req
  | ELog format req retry => format = retrying_format ∧ request_ok cfg req ∧ retry = 3%Z
  | ESleep d => d = (3 * Second)%Z
  | EBind _ _ _ _ | EClose _ => True
  end.

Definition well_formed (cfg : LDAPClient) (tr : list event) : Prop :=
  Forall (event_ok cfg) tr.

#[local] Existing Instance tls.Config_eq_dec.

#[export] Instance request_ok_dec cfg req : Decision (request_ok cfg req).
Proof. unfold request_ok. apply _. Defined.

#[export] Instance event_ok_dec cfg e : Decision (event_ok cfg e).
Proof. destruct e; simpl; apply _. Defined.

#[export] Instance well_formed_dec cfg tr : Decision (well_formed cfg tr).
Proof. unfold well_formed. apply _. Defined.

(** An access whose event, whatever the answer, is an event of the
    client. *)
Definition action_ok (cfg : LDAPClient) (a : action) : Prop :=
  match a with
  | ADial network addr => network = "tcp" ∧ addr = address cfg
  | ADialTLS network addr config =>
      network = "tcp" ∧ addr = address cfg ∧ config = verify_config cfg
  | AStartTLS _ config => config = upgrade_config
  | ASearch _ req => request_ok cfg req
  | ALog format req retry => format = retrying_format ∧ request_ok cfg req ∧ retry = 3%Z
  | ASleep d => d = (3 * Second)%Z
  | AGetConn | ASetConn _ | ABind _ _ _ | AClose _ => True
  end.

Section conform.
Context `{Formatter}.
Implicit Types (cfg : LDAPClient) (a : api_call).

Lemma api_steps_conform cfg a :
  obeys (flag (action_ok cfg)) (λ _ _, True) false (api_steps cfg a).
Proof. destruct a; prog_unfold; prog_cases. Qed.

Context `{ldap.Backend W}.
Implicit Types (s : state W).

Lemma do_action_conform cfg act s :
  action_ok cfg act → well_formed cfg (trace s) → well_formed cfg (trace (do_action act s).2).
Proof.
  unfold well_formed. destruct act; simpl; try done; intros;
    apply Forall_app; split; try done; by apply Forall_singleton.
Qed.

(** C37. Under every interleaving of calls the trace stays well formed:
    every dial, handshake, search, log line and sleep is one the
    configuration prescribes. *)
Theorem interleaving_conforms cfg calls s sched :
  well_formed cfg (trace s) →
  well_formed cfg (trace (run_schedule sched (api_pool cfg calls, s)).2).
Proof.
  intros Hwf.
  apply (run_schedule_shared (flag (action_ok cfg)) flag_holds
           (λ s, well_formed cfg (trace s)) any_result calls);
    [apply flag_concurrent, do_action_conform|].
  by apply (api_pool_obeys (flag _) _ _ _ cfg calls s (λ _, false));
    [apply api_steps_conform|..].
Qed.

(** A call of the sequential model keeps the trace well formed. *)
Lemma api_run_conforms a s s' :
  api_run a s = Some s' → well_formed (lc s) (trace s) → well_formed (lc s) (trace s').
Proof.
  rewrite api_run_result, <-exec_api_steps. unfold ran. intros Hrun Hwf.
  destruct (exec_obeys (flag (action_ok (lc s))) flag_holds
              (λ s0, well_formed (lc s) (trace s0)) (λ _ _, True) false (api_steps (lc s) a) s)
    as (r & g & Hr & _ & _ & Hs');
    [apply flag_concurrent, do_action_conform|done..|apply api_steps_conform|].
  destruct (exec (api_steps (lc s) a) s) as [r' s1]. by simplify_eq/=.
Qed.

End conform.

Lemma interleaving_conforms_witness :
  well_formed fixtures.client
    (trace (run_schedule alternating
              (api_pool fixtures.client two_callers,
               fixtures.connected_on (fixtures.busy 1))).2).
Proof. apply interleaving_conforms. by apply (bool_decide_unpack _). Defined.
