(* ===== verification/Handles.v ===== *)
(** * Handles: what callers know of the sessions they hold

    Two disciplines ([Pool]) of threads that keep track of session handles,
    proved sound from the contract of the session library
    ([ldap.BackendLaws]) alone.

    [encrypting]: a thread knows a handle to be encrypted after a
    [StartTLS] on it that gave no error and after a [DialTLS] that gave
    it, and stores only handles it knows.  Every call keeps it, so the
    stored session is encrypted under every interleaving of calls.

    [refusing]: on a client whose stored session was closed, a thread
    knows every handle it loads to be closed, searches and binds only on
    such handles, and every search and bind fails.  Every call keeps it
    from its start.  A call that is under way when the session is closed
    keeps [holding] until then (it uses only handles it loaded, and what
    it loaded is the stored session) and [refusing] from then on.  So a
    call that starts after the session was closed, by whichever caller,
    returns an error and no data under every interleaving, and [Connect]
    reports success without a session that can be used. *)

From stdpp Require Import base tactics option list strings gmap relations.
From Stdlib Require Import ZArith Lia.
From S2P Require Import Prelude GoFmt Ldap Sim Client Fixtures Session Retry Search Auth Safety.
From S2P Require Import Steps Pool Threads Races.

(** A call that was refused: no data and an error, and for [Connect] and
    [Close] their return. *)
Definition refused (r : result) : Prop :=
  match r with
  | RConnect None | RClose => True
  | RSearchUser None (Some _) | RAuthenticate false None (Some _)
  | RGetGroupsOfUser None (Some _) | RFindUsers None (Some _) => True
  | _ => False
  end.

Definition encrypting : discipline :=
  {| ghost := list ldap.Conn;
     allowed K a := match a with ASetConn l => l ∈ K | _ => True end;
     next K a :=
       match a return answer a → option (list ldap.Conn) with
       | AStartTLS l _ => λ err, Some (match err with None => l :: K | Some _ => K end)
       | ADialTLS _ _ _ => λ r, Some (match r with inr l => l :: K | inl _ => K end)
       | _ => λ _, Some K
       end |}.

(** The thread uses only handles it loaded from [lc.Conn], a load gives
    a session, and the thread stores none. *)
Definition holding : discipline :=
  {| ghost := list ldap.Conn;
     allowed K a :=
       match a with
       | ASetConn _ => False
       | ASearch l _ | ABind l _ _ => l ∈ K
       | _ => True
       end;
     next K a :=
       match a return answer a → option (list ldap.Conn) with
       | AGetConn => λ conn, match conn with Some l => Some (l :: K) | None => None end
       | _ => λ _, Some K
       end |}.

(** The same, and every search and bind fails. *)
Definition refusing : discipline :=
  {| ghost := list ldap.Conn;
     allowed K a :=
       match a with
       | ASetConn _ => False
       | ASearch l _ | ABind l _ _ => l ∈ K
       | _ => True
       end;
     next K a :=
       match a return answer a → option (list ldap.Conn) with
       | AGetConn => λ conn, match conn with Some l => Some (l :: K) | None => None end
       | ASearch _ _ => λ r, match r with inl _ => Some K | inr _ => None end
       | ABind _ _ _ => λ err, match err with Some _ => Some K | None => None end
       | _ => λ _, Some K
       end |}.

(** A thread that keeps [holding] keeps [refusing]: fewer answers are
    possible. *)
Lemma holding_refusing {R} (Q : list ldap.Conn → R → Prop) K (p : prog R) :
  obeys holding Q K p → obeys refusing Q K p.
Proof.
  revert K. induction p as [r| |a k IH]; intros K; [done..|].
  intros [Ha Hk]. split; [done|]. intros ans. specialize (Hk ans).
  destruct a; simpl in *; repeat case_match; simplify_eq; by auto.
Qed.

(** ** What is known of handles stays true *)

Section known.
Context `{ldap.Backend W}.
Implicit Types (s : state W) (K : list ldap.Conn).

(** Every handle of [K] has the property [obs]. *)
Definition known (obs : W → ldap.Conn → bool) K s : Prop :=
  ∀ l, l ∈ K → obs (world s) l = true.

(** An access leaves the world as it is or runs one primitive on it. *)
Lemma do_action_step a s :
  world (do_action a s).2 = world s ∨ ldap.step (world s) (world (do_action a s).2).
Proof. destruct a; simpl; eauto using ldap.step. Qed.

Lemma do_action_lc a s : writes_Conn a = false → lc (do_action a s).2 = lc s.
Proof. by destruct a. Qed.

Section stable.
Context (obs : W → ldap.Conn → bool).
Context (Hstable : ∀ w w' c, ldap.step w w' → obs w c = true → obs w' c = true).

Lemma obs_stable a s l : obs (world s) l = true → obs (world (do_action a s).2) l = true.
Proof. destruct (do_action_step a s) as [->|?]; eauto. Qed.

Lemma known_stable a s K : known obs K s → known obs K (do_action a s).2.
Proof. intros HK l Hl. by apply obs_stable, HK. Qed.

Lemma known_cons a s K l :
  obs (world (do_action a s).2) l = true → known obs K s → known obs (l :: K) (do_action a s).2.
Proof. intros Hl HK l' [->|Hl']%elem_of_cons; [done|]. by apply obs_stable, HK. Qed.

End stable.
End known.

(** ** Soundness *)

Section sound.
Context `{ldap.BackendLaws W}.
Implicit Types (s : state W) (K : list ldap.Conn).

(** The stored session is closed. *)
Definition stale s : Prop := ∃ c, Conn (lc s) = Some c ∧ ldap.closed (world s) c = true.

Lemma secure_stable a s : writes_Conn a = false → secure s → secure (do_action a s).2.
Proof.
  intros Ha Hs c. rewrite do_action_lc by done. intros Hc.
  by apply (obs_stable _ ldap.encrypted_stable), Hs.
Qed.

Lemma stale_stable a s : writes_Conn a = false → stale s → stale (do_action a s).2.
Proof.
  intros Ha (c & Hc & Hclosed). exists c. rewrite do_action_lc by done.
  split; [done|]. by apply (obs_stable _ ldap.closed_stable).
Qed.

Lemma encrypting_concurrent : Concurrent encrypting (known ldap.encrypted) secure.
Proof.
  split; [|intros K K0 a s HK _ _ _; by apply (known_stable _ ldap.encrypted_stable)].
  intros K a s HK Hs Ha. split.
  - destruct (writes_Conn a) eqn:Hw; [|by apply secure_stable].
    destruct a; try done. intros c [= <-]. by apply HK.
  - pose proof (known_stable _ ldap.encrypted_stable a s K HK) as Hstable.
    pose proof (λ l, known_cons _ ldap.encrypted_stable a s K l) as Hcons.
    destruct a; simpl in *; try (by eexists); (eexists; split; [done|]).
    + destruct (ldap.DialTLS _ _ _ _).1 as [e|l] eqn:Hd; [done|].
      apply Hcons; [|done]. by apply ldap.DialTLS_encrypted.
    + destruct (ldap.StartTLS _ _ _).1 as [e|] eqn:Ht; [done|].
      apply Hcons; [|done]. by apply ldap.StartTLS_encrypted.
Qed.

Lemma holding_concurrent c :
  Concurrent holding (λ K _, Forall (c =.) K) (λ s, Conn (lc s) = Some c).
Proof.
  split; [|by intros K K0 a s HK]. intros K a s HK Hs Ha. split; [by destruct a|].
  destruct a; simpl in *; try done; try (by eexists).
  rewrite Hs. eexists. split; [done|]. by constructor.
Qed.

Lemma refusing_concurrent : Concurrent refusing (known ldap.closed) stale.
Proof.
  split; [|intros K K0 a s HK _ _ _; by apply (known_stable _ ldap.closed_stable)].
  intros K a s HK Hs Ha. split; [apply stale_stable; [by destruct a|done]|].
  pose proof (known_stable _ ldap.closed_stable a s K HK) as Hstable.
  destruct a; simpl in *; try done; try (by eexists).
  - destruct Hs as (c & -> & Hc). eexists. split; [done|].
    intros l [->|Hl]%elem_of_cons; [done|by apply HK].
  - pose proof (ldap.closed_Bind l username password (world s) (HK l Ha)).
    destruct (ldap.Bind _ _ _ _).1; [by eexists|done].
  - pose proof (ldap.closed_Search l req (world s) (HK l Ha)).
    destruct (ldap.Search _ _ _).1; [by eexists|done].
Qed.

End sound.

(** ** The calls of the client *)

(** The goals of the two disciplines: a handle is one of those known. *)
Ltac handle_known :=
  first
    [ progress cbn [allowed next encrypting holding refusing refused]
    | match goal with |- _ ∈ _ => by repeat constructor end ].

Section calls.
Context `{Formatter}.
Implicit Types (cfg : LDAPClient) (a : api_call).

Lemma api_steps_encrypting cfg a :
  obeys (both cautious encrypting) (λ _ _, True) (false, []) (api_steps cfg a).
Proof. destruct a; prog_unfold; prog_cases_with handle_known. Qed.

Lemma api_steps_refusing cfg a : obeys refusing (λ _, refused) [] (api_steps cfg a).
Proof. destruct a; prog_unfold; prog_cases_with handle_known. Qed.

Lemma api_steps_holding cfg a : obeys holding (λ _ _, True) [] (api_steps cfg a).
Proof. destruct a; prog_unfold; prog_cases_with handle_known. Qed.

End calls.

Section interleavings.
Context `{Formatter} `{ldap.BackendLaws W}.
Implicit Types (cfg : LDAPClient) (calls : list api_call) (s : state W) (sched : list nat).

Lemma known_nil (obs : W → ldap.Conn → bool) s : known obs [] s.
Proof. by intros l ?%elem_of_nil. Qed.

(** C39. However the calls of several callers interleave, the stored
    session is encrypted: a caller stores only a session it upgraded with
    [StartTLS] or dialled with TLS itself, and sessions stay encrypted. *)
Theorem interleaving_session_encrypted cfg calls s sched :
  secure s → secure (run_schedule sched (api_pool cfg calls, s)).2.
Proof.
  intros Hs.
  apply (run_schedule_shared (both cautious encrypting)
           (both_holds cautious encrypting flag_holds (known ldap.encrypted))
           (both_shared (λ _, True) secure) any_result calls);
    [apply both_concurrent; [apply cautious_concurrent|apply encrypting_concurrent]|].
  apply (api_pool_obeys (both cautious encrypting) _ _ _ cfg calls s (λ _, (false, [])));
    [apply api_steps_encrypting|split; [done|apply known_nil]|done].
Qed.

(** When the session is closed, the threads that were holding are
    refusing, and a thread that has not started promises a refusal. *)
Lemma holding_pool_refusing cfg calls (ps : list (prog result)) s c i a :
  pool_obeys holding (λ K _, Forall (c =.) K) (λ s, Conn (lc s) = Some c) any_result calls
    (ps, s) →
  ldap.closed (world s) c = true → ps !! i = Some (api_steps cfg a) →
  pool_obeys refusing (known ldap.closed) stale
    (λ j _ r, j = i → refused r) (seq 0 (length ps)) (ps, s).
Proof.
  intros Hps Hclosed Hi. pose proof Hps as [Hc _].
  apply pool_obeys_lookup; simpl; [by exists c|by rewrite length_seq|].
  intros j t p [-> _]%lookup_seq Hp. destruct (decide (j = i)) as [->|Hj].
  - exists []. split; [apply known_nil|]. simplify_eq.
    eapply obeys_impl, api_steps_refusing. by intros K r Hr _.
  - destruct (pool_obeys_thread _ _ _ _ _ _ j p Hps Hp) as (a' & _ & K & HK & Hobeys).
    exists K. split; [|by eapply obeys_impl, holding_refusing].
    intros l Hl. by rewrite <-(proj1 (Forall_forall _ _) HK l Hl).
Qed.

(** C36. A call that starts after the stored session was closed, by
    whichever caller, is refused, however the calls interleave before and
    after: every lookup and authentication gives an error and no data;
    [Connect] reports success all the same. *)
Theorem interleaving_closed_refused cfg calls s sched1 sched2 c i r :
  Conn (lc s) = Some c → i ∉ sched1 →
  ldap.closed (world (run_schedule sched1 (api_pool cfg calls, s)).2) c = true →
  (run_schedule (sched1 ++ sched2) (api_pool cfg calls, s)).1 !! i = Some (Ret r) →
  refused r.
Proof.
  intros Hc Hi Hclosed Hr. rewrite run_schedule_app in Hr.
  assert (pool_obeys holding (λ K _, Forall (c =.) K) (λ s, Conn (lc s) = Some c) any_result
            calls (run_schedule sched1 (api_pool cfg calls, s))) as Hps.
  { apply run_schedule_obeys; [apply holding_concurrent|].
    by apply (api_pool_obeys holding _ _ _ cfg calls s (λ _, [])); [apply api_steps_holding|..]. }
  destruct (run_schedule sched1 (api_pool cfg calls, s)) as [ps1 s1] eqn:Hrun.
  assert (is_Some (ps1 !! i)) as [p Hp].
  { apply lookup_lt_is_Some. apply lookup_lt_Some in Hr.
    by rewrite run_schedule_length in Hr. }
  pose proof (run_schedule_untouched sched1 i (api_pool cfg calls, s) Hi) as Hsame.
  rewrite Hrun in Hsame. simpl in Hsame. rewrite Hp in Hsame. symmetry in Hsame.
  unfold api_pool in Hsame. apply list_lookup_fmap_Some in Hsame as (a & -> & Ha).
  destruct (pool_obeys_at refusing (known ldap.closed) stale (λ j _ r, j = i → refused r)
              (seq 0 (length ps1)) (run_schedule sched2 (ps1, s1)) i i (Ret r))
    as (K & _ & Hrefused); [|by apply lookup_seq; split; [|eapply lookup_lt_Some]|done|by apply Hrefused].
  apply run_schedule_obeys; [apply refusing_concurrent|].
  by eapply holding_pool_refusing.
Qed.

End interleavings.

(** ** At concrete inputs *)

Lemma interleaving_session_encrypted_witness :
  secure (run_schedule alternating
            (api_pool fixtures.client two_callers,
             fixtures.start fixtures.client fixtures.server)).2.
Proof. apply interleaving_session_encrypted. by intros c [=]. Defined.

(** A lookup and a call that closes the session. *)
Definition reader_and_closer : list api_call := [CallSearchUser "alice"; CallClose].

Lemma interleaving_closed_refused_witness :
  refused (RSearchUser None (Some (sim.network_error "ldap: connection closed"))).
Proof.
  apply (interleaving_closed_refused fixtures.client reader_and_closer fixtures.connected
           [1; 1; 1] (replicate 12 0) 0 0); [done|by apply (bool_decide_unpack _)|..];
    by vm_compute.
Defined.
