(* ===== verification/Readers.v ===== *)
(** * Readers: lookups do not interfere

    On a client that holds a session, over a directory that a search
    leaves as it is, callers that only look up ([SearchUser],
    [GetGroupsOfUser], [FindUsers], and [Connect], which has nothing to
    do) do not see each other: however their accesses interleave, each
    gets what its call alone gives in the sequential model.

    The accesses of such callers ([reading]) leave the client and the
    world as they are ([same_view]); the answer to an access depends on
    nothing else, so what a thread will return when every access is
    answered as at the start ([peek]) does not change while the pool
    runs, and is what the thread returns when it runs alone. *)

From stdpp Require Import base tactics option list strings gmap relations.
From Stdlib Require Import ZArith Lia.
From S2P Require Import Prelude GoFmt Ldap Sim Client Fixtures Session Retry Search Auth Safety.
From S2P Require Import Steps Pool Threads Races.

(** A call that only looks up. *)
Definition is_lookup (a : api_call) : bool :=
  match a with
  | CallConnect | CallSearchUser _ | CallGetGroupsOfUser _ | CallFindUsers _ => true
  | CallClose | CallAuthenticate _ _ => false
  end.

(** The thread loads the session and searches on what it loaded, and
    logs and sleeps; a load gives a session. *)
Definition reading : discipline :=
  {| ghost := list ldap.Conn;
     allowed K a :=
       match a with
       | AGetConn | ALog _ _ _ | ASleep _ => True
       | ASearch l _ => l ∈ K
       | _ => False
       end;
     next K a :=
       match a return answer a → option (list ldap.Conn) with
       | AGetConn => λ conn, match conn with Some l => Some (l :: K) | None => None end
       | _ => λ _, Some K
       end |}.

Section view.
Context `{ldap.Backend W}.
Implicit Types (s : state W).

(** Two states with the same client and the same world: they differ in
    the trace at most. *)
Definition same_view s1 s2 : Prop := lc s1 = lc s2 ∧ world s1 = world s2.

#[export] Instance same_view_equivalence : Equivalence same_view.
Proof.
  split; [done|by intros ?? []|]. intros s1 s2 s3 [] []. split; congruence.
Qed.

(** The answer to an access, and the client and the world it leaves,
    depend on the client and the world only. *)
#[export] Instance do_action_proper a :
  Proper (same_view ==> prod_relation eq same_view) (do_action a).
Proof.
  intros [lc1 w1 t1] [lc2 w2 t2] [Hlc Hw]. simpl in *. subst. by destruct a.
Qed.

Lemma do_action_answer a s1 s2 : same_view s1 s2 → (do_action a s1).1 = (do_action a s2).1.
Proof. intros Hs. by destruct (do_action_proper a s1 s2 Hs). Qed.

(** What the thread returns when every access is answered as in [s]. *)
Fixpoint peek {R} s (p : prog R) : option R :=
  match p with
  | Ret r => Some r
  | Panic => None
  | Act a k => peek s (k (do_action a s).1)
  end.

End view.

Section readers.
Context `{ldap.Backend W} {R : Type}.
Context (s0 : state W) (c : ldap.Conn).
Context (Hc : Conn (lc s0) = Some c).
Context (Hquiet : ∀ req, (ldap.Search c req (world s0)).2 = world s0).
Implicit Types (s : state W) (K : list ldap.Conn) (p : prog R).

Lemma reading_concurrent :
  Concurrent reading (λ K _, Forall (c =.) K) (λ s, same_view s s0).
Proof.
  split; [|by intros K K0 a s HK]. intros K a s HK [Hlc Hw] Ha.
  destruct a; simpl in *; try done; (split; [|try by eexists]); try done.
  - rewrite Hlc, Hc. eexists. split; [done|]. by constructor.
  - rewrite Forall_forall in HK. split; [done|]. simpl. by rewrite <-(HK l Ha), Hw, Hquiet.
Qed.

(** A step of a pool of readers changes what no thread will return. *)
Lemma pool_step_peek i (ps : list (prog R)) s :
  same_view s s0 → peek s0 <$> (pool_step i (ps, s)).1 = peek s0 <$> ps.
Proof.
  intros Hs. destruct (pool_step_cases i ps s) as [->|(a & k & Hi & ->)]; [done|].
  simpl. rewrite list_fmap_insert, (do_action_answer a s s0 Hs). apply list_insert_id.
  by rewrite list_lookup_fmap, Hi.
Qed.

Lemma run_schedule_peek {T} (Q : T → list ldap.Conn → R → Prop) tags sched
    (ps : list (prog R)) s :
  pool_obeys reading (λ K _, Forall (c =.) K) (λ s, same_view s s0) Q tags (ps, s) →
  peek s0 <$> (run_schedule sched (ps, s)).1 = peek s0 <$> ps.
Proof.
  revert ps s. induction sched as [|i sched IH]; intros ps s Hps; [done|].
  rewrite run_schedule_cons. destruct (pool_step i (ps, s)) as [ps' s'] eqn:Hstep.
  rewrite IH by (rewrite <-Hstep; by apply pool_step_obeys; [apply reading_concurrent|]).
  replace ps' with (pool_step i (ps, s)).1 by (by rewrite Hstep).
  apply pool_step_peek, Hps.
Qed.

(** A reader that runs alone returns what [peek] says. *)
Lemma exec_peek Q K p s :
  Forall (c =.) K → same_view s s0 → obeys reading Q K p → (exec p s).1 = peek s0 p.
Proof.
  revert K s. induction p as [r| |a k IH]; intros K s HK Hs Hp; [done..|].
  destruct Hp as [Ha Hk]. destruct reading_concurrent as [Hown _].
  destruct (Hown K a s HK Hs Ha) as (Hs' & K' & Hnext & HK').
  specialize (Hk (do_action a s).1). rewrite Hnext in Hk.
  simpl. rewrite <-(do_action_answer a s s0 Hs). by apply (IH _ K').
Qed.

End readers.

(** ** The lookups of the client *)

Lemma api_steps_reading `{Formatter} cfg a :
  is_lookup a = true → obeys reading (λ _ _, True) [] (api_steps cfg a).
Proof.
  destruct a; try done; intros _; prog_unfold;
    prog_cases_with ltac:(first [progress cbn [allowed next reading]
                                |match goal with |- _ ∈ _ => by repeat constructor end]).
Qed.

Section lookups.
Context `{Formatter} `{ldap.Backend W}.
Implicit Types (calls : list api_call) (s : state W) (sched : list nat).

(** C38. Lookups do not interfere: on a client that holds a session,
    over a directory that searches leave as it is, however the lookups of
    several callers interleave, a lookup that returns gives what the
    method gives when it is called alone. *)
Theorem lookups_independent calls s sched c i a r :
  Conn (lc s) = Some c →
  (∀ req, (ldap.Search c req (world s)).2 = world s) →
  Forall (λ a, is_lookup a = true) calls → calls !! i = Some a →
  (run_schedule sched (api_pool (lc s) calls, s)).1 !! i = Some (Ret r) →
  (api_result a s).1 = Some r.
Proof.
  intros Hc Hquiet Hcalls Ha Hi.
  assert (is_lookup a = true) as Hlookup by (by eapply Forall_lookup_1 in Hcalls).
  rewrite <-exec_api_steps, (exec_peek s c Hc Hquiet (λ _ _, True) [])
    by (by try apply api_steps_reading).
  apply (f_equal (fmap (peek s))) in Hi. rewrite <-list_lookup_fmap in Hi.
  rewrite (run_schedule_peek s c Hc Hquiet any_result calls) in Hi.
  - unfold api_pool in Hi. by rewrite !list_lookup_fmap, Ha in Hi; simplify_eq/=.
  - split; [done|]. apply Forall2_fmap_r, Forall_Forall2_diag.
    eapply Forall_impl; [done|]. intros a' Ha'. exists []. split; [done|].
    by apply api_steps_reading.
Qed.

End lookups.

(** ** At concrete inputs *)

Definition two_lookups : list api_call := [CallSearchUser "alice"; CallFindUsers "carol"].

Lemma lookups_independent_witness :
  (api_result (CallFindUsers "carol") fixtures.connected).1
  = Some (RFindUsers
            (Some [user_of_entry ["cn"; "mail"] fixtures.carol1;
                   user_of_entry ["cn"; "mail"] fixtures.carol2]) None).
Proof.
  apply (lookups_independent two_lookups fixtures.connected alternating 0 1);
    [done|done|by repeat constructor|done|by vm_compute].
Defined.
