(* ===== verification/Provenance.v ===== *)
(** * Provenance: what a call returns comes from its own accesses

    A discipline ([Pool]) of threads that keep the history of their own
    accesses ([witnessed]): the events a thread made are in the trace, in
    their order, whatever the other threads add.  The body of every call
    promises that the data it returns is vouched for by its history
    ([vouched]): a user or a list returned was computed from the answer
    to a search the call sent itself, with its own request; a verdict
    [true] of [Authenticate] follows a bind the directory accepted, as
    the entry its own search found, with the password it was given.

    So under every interleaving no caller gets what was answered to
    another, and [Authenticate] says [true] only for a password the
    directory accepted during the call: the races on the bind state of
    the shared session ([Races]) change who a search runs as, not what a
    verdict stands for. *)

From stdpp Require Import base tactics option list strings gmap relations.
From Stdlib Require Import ZArith Lia.
From S2P Require Import Prelude GoFmt Ldap Sim Client Fixtures Session Retry Search Auth Safety.
From S2P Require Import Steps Pool Threads.

(** The event of an access, given its answer. *)
Definition events_of (a : action) : answer a → list event :=
  match a with
  | AGetConn | ASetConn _ => λ _, []
  | ADial network address => λ r, [EDial network address r]
  | ADialTLS network address config => λ r, [EDialTLS network address config r]
  | AStartTLS l config => λ err, [EStartTLS l config err]
  | ABind l username password => λ err, [EBind l username password err]
  | ASearch l req => λ r, [ESearch l req r]
  | AClose l => λ _, [EClose l]
  | ALog format req retry => λ _, [ELog format req retry]
  | ASleep d => λ _, [ESleep d]
  end.

(** The thread keeps the history of its accesses. *)
Definition witnessed : discipline :=
  {| ghost := list event;
     allowed _ _ := True;
     next h a ans := Some (h ++ events_of a ans) |}.

(** What the history of a call vouches for in its result. *)
Definition vouched `{Formatter} (cfg : LDAPClient) (a : api_call) (h : list event) (r : result)
    : Prop :=
  match a, r with
  | CallSearchUser u, RSearchUser (Some user) _ =>
      ∃ l sr entry,
        ESearch l (userSearchRequest cfg u) (inr sr) ∈ h
        ∧ ldap.SearchResult.Entries sr = [entry]
        ∧ user = user_of_entry (Attributes cfg) entry
  | CallFindUsers u, RFindUsers (Some users) _ =>
      ∃ l sr,
        ESearch l (userSearchRequest cfg u) (inr sr) ∈ h
        ∧ users = users_of_entries (Attributes cfg) (ldap.SearchResult.Entries sr)
  | CallGetGroupsOfUser u, RGetGroupsOfUser (Some groups) _ =>
      ∃ l sr,
        ESearch l (groupSearchRequest cfg u) (inr sr) ∈ h
        ∧ groups = groups_of_entries (ldap.SearchResult.Entries sr)
  | CallAuthenticate u p, RAuthenticate true user _ =>
      ∃ l l' sr entry,
        [ESearch l (authSearchRequest cfg u) (inr sr);
         EBind l' (ldap.Entry.DN entry) p None] `sublist_of` h
        ∧ ldap.SearchResult.Entries sr = [entry]
        ∧ user = Some (user_of_entry (Attributes cfg) entry)
  | CallAuthenticate u p, RAuthenticate false (Some user) _ =>
      ∃ l sr entry,
        ESearch l (authSearchRequest cfg u) (inr sr) ∈ h
        ∧ ldap.SearchResult.Entries sr = [entry]
        ∧ user = user_of_entry (Attributes cfg) entry
  | _, _ => True
  end.

Section witnessed.
Context `{ldap.Backend W}.
Implicit Types (s : state W) (h : list event).

Lemma do_action_trace a s : trace (do_action a s).2 = trace s ++ events_of a (do_action a s).1.
Proof. destruct a; simpl; by rewrite ?app_nil_r. Qed.

(** The history of the thread is in what was added to the trace of
    [s0], in its order. *)
Definition since s0 h s : Prop := ∃ t, trace s = trace s0 ++ t ∧ h `sublist_of` t.

Lemma witnessed_concurrent s0 : Concurrent witnessed (since s0) (λ _, True).
Proof.
  split.
  - intros h a s (t & Ht & Hh) _ _. split; [done|]. eexists. split; [done|].
    exists (t ++ events_of a (do_action a s).1).
    rewrite do_action_trace, Ht, <-app_assoc. split; [done|]. by apply sublist_app.
  - intros h h0 a s (t & Ht & Hh) _ _ _. exists (t ++ events_of a (do_action a s).1).
    rewrite do_action_trace, Ht, <-app_assoc. split; [done|]. by apply sublist_inserts_r.
Qed.

End witnessed.

(** The entry of an answer that the two tests on the number of entries
    let through. *)
Lemma single_entry {A} (l : list A) x :
  bool_decide (length l < 1) = false → bool_decide (1 < length l) = false →
  l !! 0 = Some x → l = [x].
Proof.
  intros ?%bool_decide_eq_false ?%bool_decide_eq_false.
  destruct l as [|y [|z l]]; simpl in *; [done| |lia]. by intros [= ->].
Qed.

(** The goals about the history of a call. *)
Ltac history_cases :=
  first
    [ progress cbn [allowed next witnessed vouched events_of app]
    | match goal with
      | |- ∃ _, _ => eexists
      | |- _ ∈ _ => by repeat constructor
      | |- _ `sublist_of` _ => by repeat constructor
      | |- ldap.SearchResult.Entries _ = [_] => by eapply single_entry
      end ].

Lemma api_steps_witnessed `{Formatter} cfg a :
  obeys (both cautious witnessed) (λ g, vouched cfg a g.2) (false, []) (api_steps cfg a).
Proof. destruct a; prog_unfold; prog_cases_with history_cases. Qed.

Section interleavings.
Context `{Formatter} `{ldap.Backend W}.
Implicit Types (cfg : LDAPClient) (calls : list api_call) (s : state W) (sched : list nat).

Lemma run_schedule_witnessed cfg calls s sched :
  pool_obeys (both cautious witnessed) (both_holds cautious witnessed flag_holds (since s))
    (both_shared (λ _, True) (λ _, True)) (λ a g, vouched cfg a g.2) calls
    (run_schedule sched (api_pool cfg calls, s)).
Proof.
  apply run_schedule_obeys;
    [apply both_concurrent; [apply cautious_concurrent|apply witnessed_concurrent]|].
  apply (api_pool_obeys (both cautious witnessed) _ _ _ cfg calls s (λ _, (false, [])));
    [apply api_steps_witnessed| |done].
  intros _. split; [done|]. exists []. by rewrite app_nil_r.
Qed.

(** Under every interleaving, what a call returns is vouched for by
    accesses of its own that are in the trace: no caller is given what
    was answered to another. *)
Theorem interleaving_vouched cfg calls s sched i a r :
  calls !! i = Some a →
  (run_schedule sched (api_pool cfg calls, s)).1 !! i = Some (Ret r) →
  ∃ h t, trace (run_schedule sched (api_pool cfg calls, s)).2 = trace s ++ t
         ∧ h `sublist_of` t ∧ vouched cfg a h r.
Proof.
  intros Ha Hi.
  destruct (pool_obeys_at _ _ _ _ _ _ i a (Ret r) (run_schedule_witnessed cfg calls s sched)
              Ha Hi) as ([c h] & [_ (t & Ht & Hh)] & Hr).
  by exists h, t.
Qed.

(** C5. However the calls of several callers interleave, [Authenticate]
    returns [true] only when, during the run, a search of the call for
    the username answered exactly one entry and the directory then
    accepted a bind as the DN of that entry with the password given; the
    map returned is that entry's. *)
Theorem interleaving_Authenticate_sound cfg calls s sched i u p user err :
  calls !! i = Some (CallAuthenticate u p) →
  (run_schedule sched (api_pool cfg calls, s)).1 !! i = Some (Ret (RAuthenticate true user err)) →
  ∃ l l' sr entry t,
    trace (run_schedule sched (api_pool cfg calls, s)).2 = trace s ++ t
    ∧ [ESearch l (authSearchRequest cfg u) (inr sr);
       EBind l' (ldap.Entry.DN entry) p None] `sublist_of` t
    ∧ ldap.SearchResult.Entries sr = [entry]
    ∧ user = Some (user_of_entry (Attributes cfg) entry).
Proof.
  intros Ha Hi.
  destruct (pool_obeys_at _ _ _ _ _ _ i _ _ (run_schedule_witnessed cfg calls s sched) Ha Hi)
    as ([c h] & [_ (t & Ht & Hh)] & l & l' & sr & entry & Hsub & Hsr & Huser).
  exists l, l', sr, entry, t. split; [done|]. split; [by etrans|done].
Qed.

End interleavings.

(** ** At concrete inputs *)

Lemma interleaving_Authenticate_sound_witness :
  ∃ l l' sr entry t,
    trace (run_schedule alternating
             (api_pool fixtures.client two_callers, fixtures.connected)).2
      = trace fixtures.connected ++ t
    ∧ [ESearch l (authSearchRequest fixtures.client "alice") (inr sr);
       EBind l' (ldap.Entry.DN entry) "wonderland" None] `sublist_of` t
    ∧ ldap.SearchResult.Entries sr = [entry]
    ∧ Some (user_of_entry ["cn"; "mail"] fixtures.alice)
      = Some (user_of_entry (Attributes fixtures.client) entry).
Proof.
  apply (interleaving_Authenticate_sound fixtures.client two_callers fixtures.connected
           alternating 0 "alice" "wonderland" _ None); by vm_compute.
Defined.
