(* ===== verification/Budget.v ===== *)
(** * Budget: what a call spends

    What the events of a trace are charged in all ([total]), on two
    meters: the time slept and the searches sent.  The body of every call
    promises of its own history ([Provenance]) that it holds two searches
    at most and sleeps of three seconds in all at most ([thrifty]).

    A call of the sequential model adds its history to the trace and
    nothing else, so it sleeps three seconds at most and searches twice
    at most, whatever the server answers.  Among callers that interleave
    the same holds of the accesses of each call: what the others spend is
    not charged to it. *)

From stdpp Require Import base tactics option list strings gmap relations.
From Stdlib Require Import ZArith Lia.
From S2P Require Import Prelude GoFmt Ldap Sim Client Fixtures Session Retry Search Auth Safety.
From S2P Require Import Steps Pool Threads Provenance.

#[local] Open Scope Z_scope.

(** What the events of a trace are charged in all. *)
Definition total (charge : event → Z) (tr : list event) : Z :=
  foldr (λ e n, charge e + n) 0 tr.

(** The time slept, and the searches sent. *)
Definition sleep_charge (e : event) : Z := match e with ESleep d => d | _ => 0 end.
Definition search_charge (e : event) : Z := match e with ESearch _ _ _ => 1 | _ => 0 end.

(** The history of a call that spent no more than its budget. *)
Definition thrifty (h : list event) : bool :=
  bool_decide (0 ≤ total sleep_charge h ≤ 3 * Second ∧ 0 ≤ total search_charge h ≤ 2).

Lemma total_app charge tr1 tr2 : total charge (tr1 ++ tr2) = total charge tr1 + total charge tr2.
Proof. induction tr1 as [|e tr1 IH]; simpl; lia. Qed.

(** A thread that runs alone adds its history to the trace, and nothing
    else is added. *)
Lemma witnessed_sequential `{ldap.Backend W} (s0 : state W) :
  Sequential witnessed (λ h s, trace s = trace s0 ++ h) (λ _, True).
Proof.
  intros h a s Hh _ _. split; [done|]. eexists. split; [done|].
  by rewrite do_action_trace, Hh, <-app_assoc.
Qed.

Lemma api_steps_thrifty `{Formatter} cfg a :
  obeys (both cautious witnessed) (λ g _, thrifty g.2 = true) (false, []) (api_steps cfg a).
Proof.
  destruct a; prog_unfold;
    prog_cases_with ltac:(first [history_cases|match goal with |- thrifty _ = true => reflexivity end]).
Qed.

Section calls.
Context `{Formatter} `{ldap.Backend W}.
Implicit Types (cfg : LDAPClient) (calls : list api_call) (s : state W) (a : api_call).

(** C6. A call sleeps three seconds at most and sends two searches at
    most, whatever the server answers. *)
Theorem api_run_budget a s s' :
  api_run a s = Some s' →
  total sleep_charge (trace s) ≤ total sleep_charge (trace s')
    ≤ total sleep_charge (trace s) + 3 * Second
  ∧ total search_charge (trace s) ≤ total search_charge (trace s')
    ≤ total search_charge (trace s) + 2.
Proof.
  rewrite api_run_result, <-exec_api_steps. unfold ran. intros Hrun.
  destruct (exec_obeys (both cautious witnessed)
              (both_holds cautious witnessed flag_holds (λ h s1, trace s1 = trace s ++ h))
              (both_shared (λ _, True) (λ _, True))
              (λ g _, thrifty g.2 = true) (false, []) (api_steps (lc s) a) s)
    as (r & [c h] & Hr & [Hsleep Hsearch]%bool_decide_eq_true & [_ Hh] & _).
  - apply both_sequential; [apply cautious_concurrent|apply witnessed_sequential].
  - split; [done|]. simpl. by rewrite app_nil_r.
  - done.
  - apply api_steps_thrifty.
  - destruct (exec (api_steps (lc s) a) s) as [r' s1]. simplify_eq/=.
    rewrite Hh, !total_app. lia.
Qed.

(** However the calls of several callers interleave, the accesses of a
    call that returned are in the trace, and among them are two searches
    at most and sleeps of three seconds in all at most. *)
Theorem interleaving_thrifty cfg calls s sched i r :
  (run_schedule sched (api_pool cfg calls, s)).1 !! i = Some (Ret r) →
  ∃ h t, trace (run_schedule sched (api_pool cfg calls, s)).2 = trace s ++ t
         ∧ h `sublist_of` t ∧ thrifty h = true.
Proof.
  intros Hi.
  destruct (pool_obeys_thread (both cautious witnessed)
              (both_holds cautious witnessed flag_holds (since s))
              (both_shared (λ _, True) (λ _, True)) (λ _ g _, thrifty g.2 = true) calls
              (run_schedule sched (api_pool cfg calls, s)) i (Ret r))
    as (a & _ & [c h] & [_ (t & Ht & Hh)] & Hr); [|done|by exists h, t].
  apply run_schedule_obeys;
    [apply both_concurrent; [apply cautious_concurrent|apply witnessed_concurrent]|].
  apply (api_pool_obeys (both cautious witnessed) _ _ _ cfg calls s (λ _, (false, [])));
    [intros a; apply api_steps_thrifty| |done].
  intros _. split; [done|]. exists []. by rewrite app_nil_r.
Qed.

End calls.

(** ** At concrete inputs *)

(** A lookup on a server that refuses one search. *)
Definition retried : state sim.world :=
  (run (SearchUser "alice") (fixtures.connected_on (fixtures.busy 1))).2.

Lemma api_run_budget_witness :
  total sleep_charge (trace (fixtures.connected_on (fixtures.busy 1)))
    ≤ total sleep_charge (trace retried)
    ≤ total sleep_charge (trace (fixtures.connected_on (fixtures.busy 1))) + 3 * Second
  ∧ total search_charge (trace (fixtures.connected_on (fixtures.busy 1)))
    ≤ total search_charge (trace retried)
    ≤ total search_charge (trace (fixtures.connected_on (fixtures.busy 1))) + 2.
Proof. apply (api_run_budget (CallSearchUser "alice")). by vm_compute. Defined.

(** The budget is spent to the last on such a server. *)
Example retried_spent :
  total sleep_charge (trace retried) = 3 * Second ∧ total search_charge (trace retried) = 2.
Proof. by vm_compute. Qed.
