(* ===== verification/Filter.v ===== *)
(** * Search filters

    The filter of a search request is a string in the syntax of RFC 4515;
    the session library compiles it before it sends it, and the server
    evaluates what was compiled.  This file has the compiled form
    ([ldap_filter]), the library's [CompileFilter], [DecompileFilter] and
    [EscapeFilter] on the part of the syntax the client's templates use
    (conjunction, disjunction, negation, equality, presence, substrings,
    with the escapes [\xx] in values), and the round trip between the
    two.  With it, what the text built by [fmt.Sprintf] from the
    configured template and the user name means can be stated: the
    template with the user name as a value, when the name is free of the
    characters of the syntax or was escaped, and something else when it is
    not. *)

From stdpp Require Import base tactics option list strings.
From Stdlib Require Import Ascii ZArith Lia.
From S2P Require Import Prelude GoFmt Ldap Sim Client Fixtures.

(** A compiled filter. *)
#[local] Unset Elimination Schemes.
Inductive ldap_filter : Type :=
| FAnd (fs : list ldap_filter)
| FOr (fs : list ldap_filter)
| FNot (f : ldap_filter)
| FEqual (attr value : string)
| FPresent (attr : string)
| FSubstrings (attr : string) (parts : list string).
#[local] Set Elimination Schemes.

(** Induction on filters, with the hypothesis for every filter of a
    list. *)
Section ldap_filter_ind.
Context (P : ldap_filter → Prop).
Context (HAnd : ∀ fs, Forall P fs → P (FAnd fs)).
Context (HOr : ∀ fs, Forall P fs → P (FOr fs)).
Context (HNot : ∀ f, P f → P (FNot f)).
Context (HEqual : ∀ attr value, P (FEqual attr value)).
Context (HPresent : ∀ attr, P (FPresent attr)).
Context (HSubstrings : ∀ attr parts, P (FSubstrings attr parts)).

Fixpoint ldap_filter_ind (f : ldap_filter) : P f :=
  let all := fix all (fs : list ldap_filter) : Forall P fs :=
    match fs with
    | [] => @List.Forall_nil _ P
    | f :: fs => @List.Forall_cons _ P f fs (ldap_filter_ind f) (all fs)
    end in
  match f with
  | FAnd fs => HAnd fs (all fs)
  | FOr fs => HOr fs (all fs)
  | FNot f => HNot f (ldap_filter_ind f)
  | FEqual attr value => HEqual attr value
  | FPresent attr => HPresent attr
  | FSubstrings attr parts => HSubstrings attr parts
  end.
End ldap_filter_ind.

(** ** Values *)

Definition escape_char (c : ascii) : string :=
  if decide (c = "("%char) then "\28"
  else if decide (c = ")"%char) then "\29"
  else if decide (c = "*"%char) then "\2a"
  else if decide (c = "\"%char) then "\5c"
  else if decide (c = zero) then "\00"
  else String c "".

(** [ldap.EscapeFilter]: the characters of the syntax as [\xx]. *)
Fixpoint EscapeFilter (s : string) : string :=
  match s with
  | "" => ""
  | String c s => escape_char c +:+ EscapeFilter s
  end.

Definition hex_digit (c : ascii) : option nat :=
  let n := nat_of_ascii c in
  if (48 <=? n) && (n <=? 57) then Some (n - 48)
  else if (97 <=? n) && (n <=? 102) then Some (n - 87)
  else if (65 <=? n) && (n <=? 70) then Some (n - 55)
  else None.

Definition unhex (h1 h2 : ascii) : option ascii :=
  a ← hex_digit h1; b ← hex_digit h2; Some (ascii_of_nat (16 * a + b)).

(** A character in front of the first part. *)
Definition push (c : ascii) (r : list string * string) : list string * string :=
  match r.1 with
  | p :: ps => (String c p :: ps, r.2)
  | [] => ([String c ""], r.2)
  end.

(** A star: a new part starts. *)
Definition star (r : list string * string) : list string * string := ("" :: r.1, r.2).

(** The value of an item up to its closing parenthesis, in the parts
    its stars separate, and what follows the parenthesis. *)
Fixpoint parse_value (s : string) : option (list string * string) :=
  match s with
  | "" => None
  | String c rest =>
      if decide (c = ")"%char) then Some ([""], rest)
      else if decide (c = "*"%char) then star <$> parse_value rest
      else if decide (c = "("%char) then None
      else if decide (c = "\"%char) then
        match rest with
        | String h1 (String h2 rest') =>
            match unhex h1 h2 with
            | Some c' => push c' <$> parse_value rest'
            | None => None
            end
        | _ => None
        end
      else push c <$> parse_value rest
  end.

(** ** Attribute descriptions *)

Definition attr_char (c : ascii) : bool :=
  bool_decide (c ∉ ["("; ")"; "*"; "\"; "="; "&"; "|"; "!"; "<"; ">"; "~"; zero]%char).

Fixpoint attr_chars (s : string) : bool :=
  match s with
  | "" => true
  | String c s => attr_char c && attr_chars s
  end.

Definition attr_ok (attr : string) : bool :=
  bool_decide (attr ≠ "") && attr_chars attr.

Fixpoint parse_attr (s : string) : option (string * string) :=
  match s with
  | "" => None
  | String c rest =>
      if decide (c = "="%char) then Some ("", rest)
      else if attr_char c then prod_map (String c) id <$> parse_attr rest
      else None
  end.

(** The item an attribute and the parts of a value make. *)
Definition item (attr : string) (parts : list string) : option ldap_filter :=
  if decide (attr = "") then None else
  match parts with
  | [] => None
  | [v] => Some (FEqual attr v)
  | _ => if decide (parts = [""; ""]) then Some (FPresent attr) else Some (FSubstrings attr parts)
  end.

(** ** Filters *)

(** Filters up to the parenthesis that closes their list. *)
Fixpoint parse_list (parse : string → option (ldap_filter * string)) (n : nat) (s : string)
    : option (list ldap_filter * string) :=
  match s with
  | "" => None
  | String c rest =>
      if decide (c = ")"%char) then Some ([], rest)
      else match n with
           | O => None
           | S n =>
               '(f, s1) ← parse s;
               '(fs, s2) ← parse_list parse n s1;
               Some (f :: fs, s2)
           end
  end.

(** One filter, and what follows it.  The fuel bounds the nesting. *)
Fixpoint parse (fuel : nat) (s : string) : option (ldap_filter * string) :=
  match fuel, s with
  | S fuel, String c (String d rest as body) =>
      if decide (c = "("%char) then
        if decide (d = "&"%char) then
          prod_map FAnd id <$> parse_list (parse fuel) (String.length rest) rest
        else if decide (d = "|"%char) then
          prod_map FOr id <$> parse_list (parse fuel) (String.length rest) rest
        else if decide (d = "!"%char) then
          '(f, s1) ← parse fuel rest;
          match s1 with
          | String e s2 => if decide (e = ")"%char) then Some (FNot f, s2) else None
          | "" => None
          end
        else
          '(attr, s1) ← parse_attr body;
          '(parts, s2) ← parse_value s1;
          f ← item attr parts;
          Some (f, s2)
      else None
  | _, _ => None
  end.

(** [ldap.CompileFilter]: the whole text is one filter. *)
Definition CompileFilter (s : string) : option ldap_filter :=
  match parse (String.length s) s with
  | Some (f, "") => Some f
  | _ => None
  end.

Definition concat_s (l : list string) : string := foldr String.app "" l.

Fixpoint print_parts (parts : list string) : string :=
  match parts with
  | [] => ""
  | [p] => EscapeFilter p
  | p :: ps => EscapeFilter p +:+ "*" +:+ print_parts ps
  end.

(** [ldap.DecompileFilter]: the text of a compiled filter. *)
Fixpoint DecompileFilter (f : ldap_filter) : string :=
  match f with
  | FAnd fs => "(&" +:+ concat_s (DecompileFilter <$> fs) +:+ ")"
  | FOr fs => "(|" +:+ concat_s (DecompileFilter <$> fs) +:+ ")"
  | FNot f => "(!" +:+ DecompileFilter f +:+ ")"
  | FEqual attr value => "(" +:+ attr +:+ "=" +:+ EscapeFilter value +:+ ")"
  | FPresent attr => "(" +:+ attr +:+ "=*)"
  | FSubstrings attr parts => "(" +:+ attr +:+ "=" +:+ print_parts parts +:+ ")"
  end.

(** The filters that are compiled forms: attribute descriptions are not
    empty and free of the characters of the syntax, and substrings have a
    star. *)
Fixpoint wf (f : ldap_filter) : bool :=
  match f with
  | FAnd fs | FOr fs => forallb wf fs
  | FNot f => wf f
  | FEqual attr _ | FPresent attr => attr_ok attr
  | FSubstrings attr parts =>
      attr_ok attr && bool_decide (2 ≤ length parts) && bool_decide (parts ≠ [""; ""])
  end.

Fixpoint height (f : ldap_filter) : nat :=
  match f with
  | FAnd fs | FOr fs => S (foldr max 0 (height <$> fs))
  | FNot f => S (height f)
  | _ => 0
  end.

Example CompileFilter_sample :
  CompileFilter "(&(objectClass=person)(|(uid=al*ce)(mail=*))(!(cn=a\28b\29)))"
  = Some (FAnd [FEqual "objectClass" "person";
                FOr [FSubstrings "uid" ["al"; "ce"]; FPresent "mail"];
                FNot (FEqual "cn" "a(b)")]).
Proof. by vm_compute. Qed.

(** ** The round trip *)

Section roundtrip.
Implicit Types (s rest tail attr v : string) (c : ascii) (f : ldap_filter) (fs : list ldap_filter).
Implicit Types (parts : list string).

(** An escaped character reads back as the character. *)
Lemma parse_value_escape_char c s :
  parse_value (escape_char c +:+ s) = push c <$> parse_value s.
Proof.
  unfold escape_char. repeat case_decide; subst; [done..|].
  change (String c "" +:+ s)%string with (String c s). cbn [parse_value].
  by repeat case_decide.
Qed.

Lemma parse_value_last v rest :
  parse_value (EscapeFilter v +:+ String ")" rest) = Some ([v], rest).
Proof.
  induction v as [|c v IH]; [done|].
  cbn [EscapeFilter]. by rewrite app_assoc_s, parse_value_escape_char, IH.
Qed.

Lemma parse_value_part v tail :
  parse_value (EscapeFilter v +:+ String "*" tail)
  = (λ r, (v :: r.1, r.2)) <$> parse_value tail.
Proof.
  induction v as [|c v IH]; [done|].
  cbn [EscapeFilter]. rewrite app_assoc_s, parse_value_escape_char, IH.
  by destruct (parse_value tail) as [[ps r]|].
Qed.

Lemma print_parts_cons p q parts :
  print_parts (p :: q :: parts) = EscapeFilter p +:+ String "*" (print_parts (q :: parts)).
Proof. done. Qed.

Lemma parse_value_parts parts rest :
  parts ≠ [] → parse_value (print_parts parts +:+ String ")" rest) = Some (parts, rest).
Proof.
  induction parts as [|p [|q parts] IH]; [done|intros _..].
  - apply parse_value_last.
  - by rewrite print_parts_cons, app_assoc_s, app_cons_s, parse_value_part, IH.
Qed.

(** *** Items *)

Lemma attr_char_not c (d : ascii) :
  attr_char c = true → d ∈ ["("; ")"; "*"; "\"; "="; "&"; "|"; "!"; "<"; ">"; "~"; zero]%char → c ≠ d.
Proof. unfold attr_char. intros Hc%bool_decide_eq_true Hd ->. done. Qed.

Lemma parse_attr_print attr tail :
  attr_chars attr = true → parse_attr (attr +:+ String "=" tail) = Some (attr, tail).
Proof.
  induction attr as [|c attr IH]; [done|]. cbn [attr_chars].
  intros [Hc Hattr]%andb_prop. rewrite app_cons_s. cbn [parse_attr].
  rewrite decide_False by (apply (attr_char_not c); [done|by repeat constructor]).
  by rewrite Hc, IH.
Qed.

Lemma parse_item fuel attr body parts rest f :
  attr_ok attr = true → parse_value body = Some (parts, rest) → item attr parts = Some f →
  parse (S fuel) (String "(" (attr +:+ String "=" body)) = Some (f, rest).
Proof.
  unfold attr_ok. intros [Hne%bool_decide_eq_true Hattr]%andb_prop Hv Hi.
  pose proof (parse_attr_print attr body Hattr) as Ha.
  destruct attr as [|d attr]; [done|]. rewrite app_cons_s in Ha |- *.
  cbn [attr_chars] in Hattr. apply andb_prop in Hattr as [Hd _].
  cbn [parse]. rewrite decide_True by done.
  rewrite !decide_False by (apply (attr_char_not d); [done|by repeat constructor]).
  rewrite Ha. simpl. rewrite Hv. simpl. by rewrite Hi.
Qed.

(** *** Lists *)

Lemma length_app_s a b : String.length (a +:+ b) = String.length a + String.length b.
Proof. induction a as [|c a IH]; [done|]. rewrite app_cons_s. simpl. by rewrite IH. Qed.

Lemma DecompileFilter_paren f : ∃ s, DecompileFilter f = String "(" s.
Proof. destruct f; simpl; eauto. Qed.

Lemma length_concat_print fs :
  length fs ≤ String.length (concat_s (DecompileFilter <$> fs)).
Proof.
  induction fs as [|f fs IH]; [done|]. cbn [fmap list_fmap concat_s foldr length].
  fold (concat_s (DecompileFilter <$> fs)). rewrite length_app_s.
  destruct (DecompileFilter_paren f) as [s ->]. simpl. lia.
Qed.

Lemma parse_list_print (p : string → option (ldap_filter * string)) fs n rest :
  Forall (λ f, ∀ rest, p (DecompileFilter f +:+ rest) = Some (f, rest)) fs →
  length fs ≤ n →
  parse_list p n (concat_s (DecompileFilter <$> fs) +:+ String ")" rest) = Some (fs, rest).
Proof.
  intros Hfs. revert n. induction Hfs as [|f fs Hf _ IH]; intros n Hn.
  { cbn. by destruct n. }
  cbn [fmap list_fmap concat_s foldr length] in *. fold (concat_s (DecompileFilter <$> fs)).
  destruct n as [|n]; [lia|]. rewrite app_assoc_s.
  destruct (DecompileFilter_paren f) as [s Hs]. rewrite Hs, app_cons_s. cbn [parse_list].
  rewrite decide_False by done. rewrite <-app_cons_s, <-Hs, Hf. simpl.
  rewrite IH by lia. done.
Qed.

(** *** Filters *)

Lemma height_member f fs : f ∈ fs → height f ≤ foldr max 0 (height <$> fs).
Proof.
  induction 1 as [|g h fs _ IH]; cbn [fmap list_fmap foldr];
    [apply Nat.le_max_l|etrans; [apply IH|apply Nat.le_max_r]].
Qed.

(** The filters of a list read back, where each of them does. *)
Lemma parse_list_filters fuel fs rest :
  Forall (λ f, wf f = true → ∀ fuel rest, height f < fuel →
               parse fuel (DecompileFilter f +:+ rest) = Some (f, rest)) fs →
  forallb wf fs = true → foldr max 0 (height <$> fs) < fuel →
  parse_list (parse fuel)
    (String.length (concat_s (DecompileFilter <$> fs) +:+ String ")" rest))
    (concat_s (DecompileFilter <$> fs) +:+ String ")" rest) = Some (fs, rest).
Proof.
  intros IH Hwf Hfuel. apply parse_list_print.
  - rewrite Forall_forall in IH. apply Forall_forall. intros f Hf rest'.
    apply IH; [done|by apply (proj1 (forallb_forall _ _) Hwf), list_elem_of_In|].
    pose proof (height_member f fs Hf). lia.
  - rewrite length_app_s. pose proof (length_concat_print fs). lia.
Qed.

Lemma parse_print f :
  wf f = true → ∀ fuel rest, height f < fuel →
  parse fuel (DecompileFilter f +:+ rest) = Some (f, rest).
Proof.
  induction f as [fs IH|fs IH|f IH|attr value|attr|attr parts] using ldap_filter_ind;
    intros Hwf [|fuel] rest Hfuel; try lia; cbn [wf height] in *.
  - cbn [DecompileFilter]. autorewrite with gostr. cbn [parse].
    rewrite decide_True, decide_True by done.
    by rewrite parse_list_filters by (done || lia).
  - cbn [DecompileFilter]. autorewrite with gostr. cbn [parse].
    rewrite decide_True, decide_False, decide_True by done.
    by rewrite parse_list_filters by (done || lia).
  - cbn [DecompileFilter]. autorewrite with gostr. cbn [parse].
    rewrite decide_True, decide_False, decide_False, decide_True by done.
    rewrite IH by (done || lia). simpl. by rewrite ?decide_True.
  - cbn [DecompileFilter]. autorewrite with gostr.
    apply (parse_item fuel attr _ [value]); [done|apply parse_value_last|].
    unfold item. rewrite decide_False; [done|]. by destruct attr.
  - cbn [DecompileFilter]. autorewrite with gostr.
    apply (parse_item fuel attr _ [""; ""]); [done|done|].
    unfold item. rewrite decide_False; [done|]. by destruct attr.
  - apply andb_prop in Hwf as [[Hattr Hlen%bool_decide_eq_true]%andb_prop Hne%bool_decide_eq_true].
    cbn [DecompileFilter]. autorewrite with gostr.
    apply (parse_item fuel attr _ parts); [done|apply parse_value_parts; intros ->; simpl in Hlen; lia|].
    unfold item. rewrite decide_False by (by destruct attr).
    destruct parts as [|p [|q parts]]; simpl in Hlen; [lia..|]. by rewrite decide_False.
Qed.

Lemma height_length f : height f < String.length (DecompileFilter f).
Proof.
  assert (∀ fs, Forall (λ f, height f < String.length (DecompileFilter f)) fs →
            foldr max 0 (height <$> fs) ≤ String.length (concat_s (DecompileFilter <$> fs)))
    as Hlist.
  { induction 1 as [|g fs Hg _ IH]; [done|].
    cbn [fmap list_fmap concat_s foldr]. fold (concat_s (DecompileFilter <$> fs)).
    rewrite length_app_s. lia. }
  induction f as [fs IH|fs IH|f IH|attr value|attr|attr parts] using ldap_filter_ind;
    cbn [height DecompileFilter]; rewrite ?length_app_s; simpl; try lia.
  - apply Hlist in IH. lia.
  - apply Hlist in IH. lia.
Qed.

(** The text of a compiled filter compiles to the filter. *)
Lemma CompileFilter_DecompileFilter f :
  wf f = true → CompileFilter (DecompileFilter f) = Some f.
Proof.
  intros Hwf. unfold CompileFilter.
  rewrite <-(app_nil_r_s (DecompileFilter f)) at 2.
  by rewrite parse_print by (done || apply height_length).
Qed.

End roundtrip.

(** ** Templates

    The filters the client sends are made from a configured template with
    one [%s].  A template that is a filter with a hole in the value of
    one equality is the intended use. *)

Inductive template : Type :=
| THole (attr before after : string)
| TAnd (earlier : list ldap_filter) (t : template) (later : list ldap_filter)
| TOr (earlier : list ldap_filter) (t : template) (later : list ldap_filter)
| TNot (t : template).

(** The filter a template stands for, given the value of the hole. *)
Fixpoint fill (t : template) (value : string) : ldap_filter :=
  match t with
  | THole attr before after => FEqual attr (before +:+ value +:+ after)
  | TAnd earlier t later => FAnd (earlier ++ fill t value :: later)
  | TOr earlier t later => FOr (earlier ++ fill t value :: later)
  | TNot t => FNot (fill t value)
  end.

(** A pattern in the hole: the parts of a value between stars.  The text
    before the hole starts the first part and the text after it ends the
    last. *)
Definition prefix_first (before : string) (parts : list string) : list string :=
  match parts with
  | [] => []
  | p :: parts => (before +:+ p) :: parts
  end.

Fixpoint suffix_last (after : string) (parts : list string) : list string :=
  match parts with
  | [] => []
  | [p] => [p +:+ after]
  | p :: parts => p :: suffix_last after parts
  end.

(** The item of an attribute and the parts of a value, when there are
    parts. *)
Definition item_of (attr : string) (parts : list string) : ldap_filter :=
  match parts with
  | [v] => FEqual attr v
  | _ => if decide (parts = [""; ""]) then FPresent attr else FSubstrings attr parts
  end.

Fixpoint fill_pattern (t : template) (parts : list string) : ldap_filter :=
  match t with
  | THole attr before after => item_of attr (prefix_first before (suffix_last after parts))
  | TAnd earlier t later => FAnd (earlier ++ fill_pattern t parts :: later)
  | TOr earlier t later => FOr (earlier ++ fill_pattern t parts :: later)
  | TNot t => FNot (fill_pattern t parts)
  end.

(** The text of a template before and after its hole. *)
Fixpoint before_hole (t : template) : string :=
  match t with
  | THole attr before _ => "(" +:+ attr +:+ "=" +:+ EscapeFilter before
  | TAnd earlier t _ => "(&" +:+ concat_s (DecompileFilter <$> earlier) +:+ before_hole t
  | TOr earlier t _ => "(|" +:+ concat_s (DecompileFilter <$> earlier) +:+ before_hole t
  | TNot t => "(!" +:+ before_hole t
  end.

Fixpoint after_hole (t : template) : string :=
  match t with
  | THole _ _ after => EscapeFilter after +:+ ")"
  | TAnd _ t later | TOr _ t later =>
      after_hole t +:+ concat_s (DecompileFilter <$> later) +:+ ")"
  | TNot t => after_hole t +:+ ")"
  end.

(** The format string to configure for a template. *)
Definition template_text (t : template) : string :=
  before_hole t +:+ "%s" +:+ after_hole t.

(** A template whose text has no directive but the hole. *)
Definition template_ok (t : template) : bool :=
  percent_free (before_hole t) && percent_free (after_hole t).

Section templates.
Implicit Types (t : template) (v u : string).

Lemma EscapeFilter_app a b : EscapeFilter (a +:+ b) = EscapeFilter a +:+ EscapeFilter b.
Proof.
  induction a as [|c a IH]; [done|]. rewrite app_cons_s. cbn [EscapeFilter].
  by rewrite IH, app_assoc_s.
Qed.

Lemma concat_s_app (l r : list string) : concat_s (l ++ r) = concat_s l +:+ concat_s r.
Proof.
  induction l as [|x l IH]; [done|]. cbn [app concat_s foldr]. fold (concat_s (l ++ r)).
  fold (concat_s l). by rewrite IH, app_assoc_s.
Qed.

(** The text of a filled template is the text of the template with the
    escaped value in the hole. *)
Lemma DecompileFilter_fill t v :
  DecompileFilter (fill t v) = before_hole t +:+ EscapeFilter v +:+ after_hole t.
Proof.
  induction t as [attr before after|earlier t IH later|earlier t IH later|t IH];
    cbn [fill DecompileFilter before_hole after_hole];
    rewrite ?fmap_app, ?fmap_cons, ?concat_s_app, ?EscapeFilter_app, ?IH;
    cbn [concat_s foldr]; by autorewrite with gostr.
Qed.

Lemma fill_pattern_value t v : fill_pattern t [v] = fill t v.
Proof.
  induction t as [attr before after|earlier t IH later|earlier t IH later|t IH];
    cbn [fill fill_pattern]; by rewrite ?IH.
Qed.

Lemma suffix_last_nil after parts : parts ≠ [] → suffix_last after parts ≠ [].
Proof. by destruct parts as [|p [|q parts]]. Qed.

Lemma print_parts_suffix_last after parts :
  parts ≠ [] → print_parts (suffix_last after parts) = print_parts parts +:+ EscapeFilter after.
Proof.
  induction parts as [|p [|q parts] IH]; [done|intros _..].
  - cbn [suffix_last print_parts]. apply EscapeFilter_app.
  - change (suffix_last after (p :: q :: parts)) with (p :: suffix_last after (q :: parts)).
    destruct (suffix_last after (q :: parts)) as [|q' parts'] eqn:Hlast;
      [by apply suffix_last_nil in Hlast|].
    by rewrite !print_parts_cons, IH, app_assoc_s, app_cons_s.
Qed.

Lemma print_parts_prefix_first before parts :
  parts ≠ [] → print_parts (prefix_first before parts) = EscapeFilter before +:+ print_parts parts.
Proof.
  destruct parts as [|p [|q parts]]; [done|intros _..]; cbn [prefix_first].
  - apply EscapeFilter_app.
  - by rewrite !print_parts_cons, EscapeFilter_app, app_assoc_s.
Qed.

Lemma DecompileFilter_item_of attr parts :
  DecompileFilter (item_of attr parts) = "(" +:+ attr +:+ "=" +:+ print_parts parts +:+ ")".
Proof.
  destruct parts as [|p [|q parts]]; [done..|]. unfold item_of.
  case_decide; [|done]. simplify_eq. cbn [DecompileFilter print_parts EscapeFilter].
  by autorewrite with gostr.
Qed.

(** The text of a template filled with a pattern is the text of the
    template with the pattern in the hole, its parts escaped and its
    stars as they are. *)
Lemma DecompileFilter_fill_pattern t parts :
  parts ≠ [] →
  DecompileFilter (fill_pattern t parts) = before_hole t +:+ print_parts parts +:+ after_hole t.
Proof.
  intros Hparts.
  induction t as [attr before after|earlier t IH later|earlier t IH later|t IH];
    cbn [fill_pattern DecompileFilter before_hole after_hole];
    rewrite ?DecompileFilter_item_of, ?print_parts_prefix_first, ?print_parts_suffix_last,
      ?fmap_app, ?fmap_cons, ?concat_s_app, ?IH by (done || by apply suffix_last_nil);
    cbn [concat_s foldr]; by autorewrite with gostr.
Qed.

Context `{Formatter}.

(** What [fmt.Sprintf] makes of the text of a template. *)
Lemma Sprintf1_template t v :
  template_ok t = true → Sprintf1 (template_text t) v = before_hole t +:+ v +:+ after_hole t.
Proof.
  intros [Hb Ha]%andb_prop. apply Sprintf1_sound.
  by apply (sprintf1_placeholder _ _ v "s"%char).
Qed.

(** A value that was escaped compiles to the template filled with it,
    whatever it holds. *)
Lemma template_escaped t u :
  template_ok t = true → wf (fill t u) = true →
  CompileFilter (Sprintf1 (template_text t) (EscapeFilter u)) = Some (fill t u).
Proof.
  intros Ht Hwf. by rewrite Sprintf1_template, <-DecompileFilter_fill,
    CompileFilter_DecompileFilter.
Qed.

(** A pattern compiles to the template filled with it: the stars of a
    search term are the stars of the filter. *)
Lemma template_pattern t parts :
  template_ok t = true → parts ≠ [] → wf (fill_pattern t parts) = true →
  CompileFilter (Sprintf1 (template_text t) (print_parts parts)) = Some (fill_pattern t parts).
Proof.
  intros Ht Hparts Hwf. by rewrite Sprintf1_template, <-DecompileFilter_fill_pattern,
    CompileFilter_DecompileFilter.
Qed.

(** The filter of a lookup compiles to the template filled with the
    name, when the name holds none of the characters the syntax
    escapes. *)
Lemma userSearchRequest_compiles (cfg : LDAPClient) t u :
  UserFilter cfg = template_text t → template_ok t = true → wf (fill t u) = true →
  EscapeFilter u = u →
  CompileFilter (ldap.SearchRequest.Filter (userSearchRequest cfg u)) = Some (fill t u).
Proof.
  intros Hcfg Ht Hwf Hu. unfold userSearchRequest. cbn [ldap.SearchRequest.Filter ldap.NewSearchRequest].
  rewrite Hcfg, <-Hu at 1. by apply template_escaped.
Qed.

(** C33. The filter [SearchUser] and [FindUsers] send makes the round
    trip through the library: compiled, it is the configured template
    with the user name as the value of its hole, and that filter
    decompiled is the text sent, byte for byte, provided the name holds
    none of the characters the syntax of filters escapes. *)
Theorem userSearchRequest_roundtrip (cfg : LDAPClient) t u :
  UserFilter cfg = template_text t → template_ok t = true → wf (fill t u) = true →
  EscapeFilter u = u →
  DecompileFilter <$> CompileFilter (ldap.SearchRequest.Filter (userSearchRequest cfg u))
  = Some (ldap.SearchRequest.Filter (userSearchRequest cfg u))
  ∧ CompileFilter (ldap.SearchRequest.Filter (userSearchRequest cfg u)) = Some (fill t u).
Proof.
  intros Hcfg Ht Hwf Hu. rewrite (userSearchRequest_compiles cfg t u) by done. split; [|done].
  unfold userSearchRequest. cbn [ldap.SearchRequest.Filter ldap.NewSearchRequest fmap option_fmap option_map].
  by rewrite Hcfg, Sprintf1_template, DecompileFilter_fill, Hu.
Qed.

(** The same for the filters of [Authenticate] and [GetGroupsOfUser]. *)
Lemma authSearchRequest_roundtrip (cfg : LDAPClient) t u :
  UserFilter cfg = template_text t → template_ok t = true → wf (fill t u) = true →
  EscapeFilter u = u →
  CompileFilter (ldap.SearchRequest.Filter (authSearchRequest cfg u)) = Some (fill t u).
Proof.
  intros Hcfg Ht Hwf Hu. unfold authSearchRequest. cbn [ldap.SearchRequest.Filter ldap.NewSearchRequest].
  rewrite Hcfg, <-Hu at 1. by apply template_escaped.
Qed.

Lemma groupSearchRequest_roundtrip (cfg : LDAPClient) t u :
  GroupFilter cfg = template_text t → template_ok t = true → wf (fill t u) = true →
  EscapeFilter u = u →
  CompileFilter (ldap.SearchRequest.Filter (groupSearchRequest cfg u)) = Some (fill t u).
Proof.
  intros Hcfg Ht Hwf Hu. unfold groupSearchRequest. cbn [ldap.SearchRequest.Filter ldap.NewSearchRequest].
  rewrite Hcfg, <-Hu at 1. by apply template_escaped.
Qed.

(** The filter of a search for a term with stars, its parts free of the
    characters the syntax escapes. *)
Lemma userSearchRequest_pattern (cfg : LDAPClient) t parts u :
  UserFilter cfg = template_text t → template_ok t = true →
  parts ≠ [] → wf (fill_pattern t parts) = true → print_parts parts = u →
  CompileFilter (ldap.SearchRequest.Filter (userSearchRequest cfg u))
  = Some (fill_pattern t parts).
Proof.
  intros Hcfg Ht Hparts Hwf <-. unfold userSearchRequest.
  cbn [ldap.SearchRequest.Filter ldap.NewSearchRequest]. rewrite Hcfg. by apply template_pattern.
Qed.

End templates.

(** ** At concrete inputs *)

Lemma userSearchRequest_roundtrip_witness :
  DecompileFilter
    <$> CompileFilter (ldap.SearchRequest.Filter (userSearchRequest fixtures.client "alice"))
  = Some (ldap.SearchRequest.Filter (userSearchRequest fixtures.client "alice"))
  ∧ CompileFilter (ldap.SearchRequest.Filter (userSearchRequest fixtures.client "alice"))
    = Some (FEqual "uid" "alice").
Proof.
  apply (userSearchRequest_roundtrip fixtures.client (THole "uid" "" "") "alice");
    reflexivity.
Defined.

(** A name that holds characters of the syntax is not the value of the
    filter sent: a star asks for every entry that has the attribute, and
    a parenthesis closes the equality and opens another. *)
Example injection_star :
  CompileFilter (ldap.SearchRequest.Filter (userSearchRequest fixtures.client "*"))
  = Some (FPresent "uid").
Proof. by vm_compute. Qed.

Example injection_conjunct :
  CompileFilter
    (Sprintf1 (template_text (TAnd [FEqual "objectClass" "person"] (THole "uid" "" "") []))
       "*)(cn=admin")
  = Some (FAnd [FEqual "objectClass" "person"; FPresent "uid"; FEqual "cn" "admin"]).
Proof. by vm_compute. Qed.
