(* ===== verification/Directory.v ===== *)
(** * A directory that evaluates filters

    The server of [Sim] with a list of entries in place of answers stored
    per filter text: a search compiles the filter of the request, as the
    library does before it sends it, and answers the entries the compiled
    filter matches.  With it the methods are verified against the content
    of the directory: what [SearchUser] returns is determined by the
    entries that match the configured template filled with the user name
    ([SearchUser_directory]). *)

From stdpp Require Import base tactics option list strings gmap.
From Stdlib Require Import ZArith Lia.
From S2P Require Import Prelude GoFmt Ldap Sim Client Fixtures Session Retry Search Auth Filter.

(** ** Matching *)

(** What follows the first occurrence of [p] in [s]. *)
Definition after (p s : string) : option string :=
  i ← String.index 0 p s;
  Some (String.substring (i + String.length p) (String.length s) s).

Definition is_suffix (p s : string) : bool :=
  bool_decide (String.length p ≤ String.length s)
  && bool_decide (String.substring (String.length s - String.length p) (String.length p) s = p).

(** The parts after the first: each occurs after the one before, and the
    last one ends the value. *)
Fixpoint glob_rest (parts : list string) (s : string) : bool :=
  match parts with
  | [] => false
  | [p] => is_suffix p s
  | p :: parts => match after p s with Some s' => glob_rest parts s' | None => false end
  end.

(** A value matches the parts of a substring filter. *)
Definition glob (parts : list string) (s : string) : bool :=
  match parts with
  | [] => false
  | [p] => bool_decide (p = s)
  | p :: parts =>
      String.prefix p s
      && glob_rest parts (String.substring (String.length p) (String.length s) s)
  end.

(** The entry matches the filter.  Values are compared byte by byte. *)
Fixpoint matches (f : ldap_filter) (e : ldap.Entry.t) : bool :=
  match f with
  | FAnd fs => forallb (λ f, matches f e) fs
  | FOr fs => existsb (λ f, matches f e) fs
  | FNot f => negb (matches f e)
  | FEqual attr value => bool_decide (value ∈ ldap.Entry.GetAttributeValues e attr)
  | FPresent attr => bool_decide (ldap.Entry.GetAttributeValues e attr ≠ [])
  | FSubstrings attr parts => existsb (glob parts) (ldap.Entry.GetAttributeValues e attr)
  end.

(** ** The server *)

Module dir.

Record world := mkWorld {
  entries : list ldap.Entry.t;
  inner : sim.world
}.

Definition lift {A} (w : world) (r : A * sim.world) : A * world :=
  (r.1, mkWorld (entries w) r.2).

(** The entries a filter selects. *)
Definition select (f : ldap_filter) (w : world) : list ldap.Entry.t :=
  List.filter (matches f) (entries w).

(** Filter compile error of the library: result code 201. *)
Definition ErrorFilterCompile : N := 201.

(** A filter that does not compile is refused before anything is sent;
    one that compiles is answered by the entries it selects, when the
    server answers. *)
Definition Search (c : ldap.Conn) (req : ldap.SearchRequest.t) (w : world)
    : (error + ldap.SearchResult.t) * world :=
  match CompileFilter (ldap.SearchRequest.Filter req) with
  | None => (inl (ldap_Error ErrorFilterCompile "ldap: error parsing filter"), w)
  | Some f =>
      let r := sim.Search c req (inner w) in
      (match r.1 with
       | inl e => inl e
       | inr _ => inr (ldap.SearchResult.mk (select f w))
       end, mkWorld (entries w) r.2)
  end.

#[global] Instance backend : ldap.Backend world := {|
  ldap.Dial network address w := lift w (sim.Dial network address (inner w));
  ldap.DialTLS network address config w :=
    lift w (sim.DialTLS network address config (inner w));
  ldap.StartTLS c config w := lift w (sim.StartTLS c config (inner w));
  ldap.Bind c username password w := lift w (sim.Bind c username password (inner w));
  ldap.Search := Search;
  ldap.Close c w := mkWorld (entries w) (sim.Close c (inner w));
  ldap.encrypted w := sim.encrypted (inner w);
  ldap.closed w := sim.closed (inner w)
|}.

(** A primitive moves the server behind, or nothing. *)
Lemma step_server w w' : ldap.step w w' → inner w' = inner w ∨ ldap.step (inner w) (inner w').
Proof.
  destruct 1 as [| | | |c req w|]; simpl; try (right; constructor).
  unfold Search. destruct (CompileFilter _); [right; constructor|by left].
Qed.

Lemma failed_Search c req w :
  failed (sim.Search c req (inner w)).1 = true → failed (Search c req w).1 = true.
Proof.
  unfold Search. destruct (CompileFilter _); [|done]. simpl.
  by destruct (sim.Search c req (inner w)).1.
Qed.

#[global] Instance laws : ldap.BackendLaws world.
Proof.
  split; simpl.
  - intros c config w. apply sim.StartTLS_encrypted.
  - intros network address config w c. apply sim.DialTLS_encrypted.
  - intros w w' c [->|Hstep]%step_server; [done|by apply sim.step_encrypted].
  - intros c w. apply sim.Close_closed.
  - intros w w' c [->|Hstep]%step_server; [done|by apply sim.step_closed].
  - intros c req w Hc. by apply failed_Search, sim.closed_Search.
  - intros c username password w. apply sim.closed_Bind.
Qed.

End dir.

(** ** The methods on the content of the directory *)

Section directory.
Context `{Formatter}.
Implicit Types (s : state dir.world) (t : template) (u : string).

(** A search on a live session of a server that answers: the entries the
    compiled filter selects, and the server as it was. *)
Lemma dir_Search c req f (w : dir.world) :
  CompileFilter (ldap.SearchRequest.Filter req) = Some f →
  sim.live (dir.inner w) c = true → sim.search_failures (dir.inner w) = 0 →
  ldap.Search c req w = (inr (ldap.SearchResult.mk (dir.select f w)), w).
Proof.
  intros Hf Hlive Hfail. simpl. unfold dir.Search, sim.Search. rewrite Hf, Hlive, Hfail.
  by destruct w.
Qed.

(** C30. On a directory that evaluates filters, what [SearchUser] returns
    is determined by the entries that match the configured template
    filled with the user name: the attributes of the entry when there is
    one, "User does not exist" when there is none, "Too many entries
    returned" when there are several. *)
Theorem SearchUser_directory s c t u :
  Conn (lc s) = Some c →
  sim.live (dir.inner (world s)) c = true → sim.search_failures (dir.inner (world s)) = 0 →
  UserFilter (lc s) = template_text t → template_ok t = true → wf (fill t u) = true →
  EscapeFilter u = u →
  (run (SearchUser u) s).1 =
    Some (match dir.select (fill t u) (world s) with
          | [] => (None, Some ErrUserDoesNotExist)
          | [entry] => (Some (user_of_entry (Attributes (lc s)) entry), None)
          | _ => (None, Some ErrTooManyEntries)
          end).
Proof.
  intros Hc Hlive Hfail Hcfg Ht Hwf Hu.
  pose proof (Connect_connected s c Hc) as HC.
  pose proof (searched_first s c _ _ _ Hc
                (dir_Search c _ _ (world s) (userSearchRequest_compiles _ t u Hcfg Ht Hwf Hu)
                   Hlive Hfail)) as Hs.
  destruct (dir.select (fill t u) (world s)) as [|entry [|entry' l]];
    unfold SearchUser; by go_method.
Qed.

(** C22. On a directory that evaluates filters, [FindUsers] returns the
    attributes of every entry that matches the configured template with
    the search term in its hole, the stars of the term as wildcards, and
    "User does not exist" when no entry matches. *)
Theorem FindUsers_directory s c t parts u :
  Conn (lc s) = Some c →
  sim.live (dir.inner (world s)) c = true → sim.search_failures (dir.inner (world s)) = 0 →
  UserFilter (lc s) = template_text t → template_ok t = true →
  parts ≠ [] → wf (fill_pattern t parts) = true → print_parts parts = u →
  (run (FindUsers u) s).1 =
    Some (match dir.select (fill_pattern t parts) (world s) with
          | [] => (None, Some ErrUserDoesNotExist)
          | entries => (Some (users_of_entries (Attributes (lc s)) entries), None)
          end).
Proof.
  intros Hc Hlive Hfail Hcfg Ht Hparts Hwf Hu.
  pose proof (Connect_connected s c Hc) as HC.
  pose proof (searched_first s c _ _ _ Hc
                (dir_Search c _ _ (world s)
                   (userSearchRequest_pattern _ t parts u Hcfg Ht Hparts Hwf Hu) Hlive Hfail))
    as Hs.
  destruct (dir.select (fill_pattern t parts) (world s)) as [|entry l];
    unfold FindUsers; by go_method.
Qed.

(** [GetGroupsOfUser] returns the names of the groups that match the
    group template, none included. *)
Lemma GetGroupsOfUser_directory s c t u :
  Conn (lc s) = Some c →
  sim.live (dir.inner (world s)) c = true → sim.search_failures (dir.inner (world s)) = 0 →
  GroupFilter (lc s) = template_text t → template_ok t = true → wf (fill t u) = true →
  EscapeFilter u = u →
  (run (GetGroupsOfUser u) s).1
  = Some (Some (groups_of_entries (dir.select (fill t u) (world s))), None).
Proof.
  intros Hc Hlive Hfail Hcfg Ht Hwf Hu.
  pose proof (Connect_connected s c Hc) as HC.
  pose proof (searched_first s c _ _ _ Hc
                (dir_Search c _ _ (world s) (groupSearchRequest_roundtrip _ t u Hcfg Ht Hwf Hu)
                   Hlive Hfail)) as Hs.
  unfold GetGroupsOfUser. by go_method.
Qed.

End directory.

(** *** Authentication against the accounts of the server *)

(** The server answers on the session: the session is live, no search
    failure is scripted and binds are not limited. *)
Definition ready (w : dir.world) (c : ldap.Conn) : Prop :=
  sim.live (dir.inner w) c = true
  ∧ sim.search_failures (dir.inner w) = 0
  ∧ sim.bind_limit (dir.inner w) = None.

(** What the server answers to a bind. *)
Definition verdict (accounts : list (string * string)) (dn password : string) : option error :=
  if bool_decide ((dn, password) ∈ accounts) then None
  else Some (ldap_Error 49 "Invalid Credentials").

(** What a bind leaves as it was. *)
Definition same_directory (w w' : dir.world) (c : ldap.Conn) : Prop :=
  ready w' c ∧ dir.entries w' = dir.entries w
  ∧ sim.accounts (dir.inner w') = sim.accounts (dir.inner w).

Lemma live_insert (w : sim.world) c sess :
  sim.live w c = true → sim.live (sim.set_sessions (<[c := sess]> (sim.sessions w)) w) c = true.
Proof.
  unfold sim.live, sim.closed. simpl. intros [Hs Hc]%andb_prop. apply andb_true_intro.
  split; [|done]. apply bool_decide_eq_true in Hs as [s0 Hs]. apply bool_decide_eq_true.
  rewrite list_lookup_insert_eq by (by eapply lookup_lt_Some). eauto.
Qed.

Lemma dir_Bind c dn password (w : dir.world) :
  ready w c →
  ∃ w', ldap.Bind c dn password w = (verdict (sim.accounts (dir.inner w)) dn password, w')
        ∧ same_directory w w' c.
Proof.
  intros (Hlive & Hfail & Hlimit). simpl. unfold dir.lift, sim.Bind, verdict.
  pose proof Hlive as [[sess Hsess]%bool_decide_eq_true Hopen%negb_true_iff]%andb_prop.
  rewrite Hsess, Hopen, Hlimit. rewrite bool_decide_eq_false_2 by done.
  case_bool_decide; eexists; (split; [done|]); repeat split; simpl; try done;
    first [apply live_insert|apply (live_insert (sim.set_bind_limit _ _))]; exact Hlive.
Qed.

Section accounts.
Context `{Formatter}.
Implicit Types (s : state dir.world) (t : template) (u p : string).

(** The bind with the configured credentials succeeds when they are an
    account of the server. *)
Lemma dir_privileged_bind (this : LDAPClient) c (w : dir.world) :
  ready w c →
  (has_bind_credentials this = true →
   (BindDN this, BindPassword this) ∈ sim.accounts (dir.inner w)) →
  ∃ w' tr, privileged_bind this c w = (None, w', tr) ∧ same_directory w w' c.
Proof.
  intros Hready Hacc. unfold privileged_bind. destruct (has_bind_credentials this).
  - destruct (dir_Bind c (BindDN this) (BindPassword this) w Hready) as (w' & -> & Hw').
    unfold verdict. rewrite bool_decide_eq_true_2 by auto. by eexists _, _.
  - by eexists _, _.
Qed.

(** C26. On a directory that evaluates filters and knows accounts,
    [Authenticate] returns true exactly when one entry matches the
    configured template filled with the user name and the password given
    is the password of the account of that entry; it returns the
    attributes of the entry with either verdict, and an error without
    attributes when no entry or several match. *)
Theorem Authenticate_directory s c t u p :
  Conn (lc s) = Some c → ready (world s) c →
  (has_bind_credentials (lc s) = true →
   (BindDN (lc s), BindPassword (lc s)) ∈ sim.accounts (dir.inner (world s))) →
  UserFilter (lc s) = template_text t → template_ok t = true → wf (fill t u) = true →
  EscapeFilter u = u →
  (run (Authenticate u p) s).1 =
    Some (match dir.select (fill t u) (world s) with
          | [] => (false, None, Some ErrUserDoesNotExist)
          | [entry] =>
              (bool_decide ((ldap.Entry.DN entry, p) ∈ sim.accounts (dir.inner (world s))),
               Some (user_of_entry (Attributes (lc s)) entry),
               verdict (sim.accounts (dir.inner (world s))) (ldap.Entry.DN entry) p)
          | _ => (false, None, Some ErrTooManyEntries)
          end).
Proof.
  intros Hc Hready Hacc Hcfg Ht Hwf Hu.
  pose proof (Connect_connected s c Hc) as HC.
  destruct (dir_privileged_bind (lc s) c (world s) Hready Hacc)
    as (w1 & t1 & Hb1 & Hr1 & He1 & Ha1).
  pose proof (dir_Search c _ _ w1 (authSearchRequest_roundtrip _ t u Hcfg Ht Hwf Hu)
                (proj1 Hr1) (proj1 (proj2 Hr1))) as Hs.
  unfold dir.select in *. rewrite He1 in Hs.
  destruct (List.filter (matches (fill t u)) (dir.entries (world s))) as [|entry [|entry' l]].
  - by erewrite Authenticate_spec_sound by (by eapply Authenticate_none).
  - destruct (dir_Bind c (ldap.Entry.DN entry) p w1 Hr1) as (w3 & Hb3 & Hr3 & He3 & Ha3).
    rewrite Ha1 in Hb3. unfold verdict in *. case_bool_decide.
    + destruct (dir_privileged_bind (lc s) c w3 Hr3) as (w4 & t4 & Hb4 & _);
        [by rewrite Ha3, Ha1|].
      by erewrite Authenticate_spec_sound by (by eapply Authenticate_accepted).
    + by erewrite Authenticate_spec_sound by (by eapply Authenticate_rejected).
  - by erewrite Authenticate_spec_sound by (eapply Authenticate_many; [done..|simpl; lia]).
Qed.

End accounts.

(** ** At concrete inputs *)

Module people.

Definition alice : ldap.Entry.t :=
  ldap.Entry.mk fixtures.alice_dn
    [ldap.EntryAttribute.mk "uid" ["alice"];
     ldap.EntryAttribute.mk "cn" ["Alice A"];
     ldap.EntryAttribute.mk "mail" ["alice@example.com"]].

Definition bob : ldap.Entry.t :=
  ldap.Entry.mk "uid=bob,ou=people,dc=example,dc=com"
    [ldap.EntryAttribute.mk "uid" ["bob"];
     ldap.EntryAttribute.mk "cn" ["Bob B"];
     ldap.EntryAttribute.mk "mail" ["bob@example.com"]].

Definition server : dir.world := dir.mkWorld [alice; bob] fixtures.server.

(** The client of the fixtures, connected to it. *)
Definition connected : state dir.world :=
  (run Connect (mkState fixtures.client server [])).2.

End people.

Lemma SearchUser_directory_witness :
  (run (SearchUser "alice") people.connected).1
  = Some (Some (user_of_entry ["cn"; "mail"] people.alice), None).
Proof.
  apply (SearchUser_directory people.connected 0 (THole "uid" "" "") "alice"); reflexivity.
Defined.

Lemma Authenticate_directory_witness :
  (run (Authenticate "alice" "wonderland") people.connected).1
  = Some (true, Some (user_of_entry ["cn"; "mail"] people.alice), None)
  ∧ (run (Authenticate "alice" "guess") people.connected).1
    = Some (false, Some (user_of_entry ["cn"; "mail"] people.alice),
            Some (ldap_Error 49 "Invalid Credentials")).
Proof.
  split.
  - apply (Authenticate_directory people.connected 0 (THole "uid" "" "") "alice" "wonderland");
      try reflexivity; [by vm_compute|intros _; by apply (bool_decide_unpack _)].
  - apply (Authenticate_directory people.connected 0 (THole "uid" "" "") "alice" "guess");
      try reflexivity; [by vm_compute|intros _; by apply (bool_decide_unpack _)].
Defined.

Lemma FindUsers_directory_witness :
  (run (FindUsers "*o*") people.connected).1
  = Some (Some [user_of_entry ["cn"; "mail"] people.bob], None).
Proof.
  apply (FindUsers_directory people.connected 0 (THole "uid" "" "") [""; "o"; ""] "*o*");
    reflexivity || done.
Defined.

(** A star for a name selects every entry that has the attribute:
    [FindUsers] answers every user of the directory, and [SearchUser]
    that there are too many. *)
Example FindUsers_star :
  (run (FindUsers "*") people.connected).1
  = Some (Some [user_of_entry ["cn"; "mail"] people.alice;
                user_of_entry ["cn"; "mail"] people.bob], None).
Proof. by vm_compute. Qed.

Example SearchUser_star :
  (run (SearchUser "*") people.connected).1 = Some (None, Some ErrTooManyEntries).
Proof. by vm_compute. Qed.

(** A name that closes the equality does not compile: the search is
    refused by the library, and the retry sends the same text again. *)
Example SearchUser_parenthesis :
  (run (SearchUser "alice)(uid=bob") people.connected).1
  = Some (None, Some (ldap_Error dir.ErrorFilterCompile "ldap: error parsing filter")).
Proof. by vm_compute. Qed.
