(* ===== verification/Slices.v ===== *)
(** * Go memory: slices, [append] and maps

    [Client] reads [lc.Attributes], [groups] and [users] as lists and a
    user as a finite map.  In Go a slice is a window on an array that other
    slices may share, [append] writes into that array when the window has
    room behind it, and a map is a reference.  This file models that
    memory: arrays on a heap, slices as (array, offset, length, capacity),
    [go_append] with its two cases, maps as cells of a store.  The
    statements of [src/ldap-client.go] that build slices and maps are
    written over it, and shown to compute what the lists and maps of
    [Client] say, and to write nowhere else, except for
    [append(lc.Attributes, "dn")], which writes behind the configured
    slice when there is room ([Authenticate_attributes_spec]); every call
    writes the same value there ([Authenticate_attributes_again]). *)

From stdpp Require Import base tactics option list strings gmap.
From Stdlib Require Import Lia.
From S2P Require Import Prelude GoFmt Ldap Client Fixtures.

(** ** Slices *)

(** A slice value: the array it points into, where its window starts
    there, how many cells it shows and how many it may grow to. *)
Record slice := Slice { array : nat; off : nat; len : nat; cap : nat }.

#[export] Instance slice_eq_dec : EqDecision slice.
Proof. solve_decision. Defined.

(** The heap is the list of the arrays allocated so far: an array is named
    by its position there.  [backing h a] is the array named [a] (no
    cells when there is none). *)
Definition backing {A} (h : list (list A)) (a : nat) : list A := default [] (h !! a).

(** What a slice shows: [s[0], ..., s[len(s)-1]]. *)
Definition view {A} (h : list (list A)) (s : slice) : list A :=
  take (len s) (drop (off s) (backing h (array s))).

(** The window of a slice lies in its array. *)
Definition valid {A} (h : list (list A)) (s : slice) : Prop :=
  len s ≤ cap s ∧ off s + cap s ≤ length (backing h (array s)).

#[export] Instance valid_dec {A} (h : list (list A)) s : Decision (valid h s).
Proof. unfold valid. apply _. Defined.

(** [[]T{}]: a slice with no cell. *)
Definition empty_slice : slice := Slice 0 0 0 0.

(** The cell the next [append] in place writes is in the window of [t]. *)
Definition behind (s t : slice) : Prop :=
  len s < cap s ∧ array t = array s ∧ off t ≤ off s + len s < off t + len t.

#[export] Instance behind_dec s t : Decision (behind s t).
Proof. unfold behind. apply _. Defined.

(** [append(s, x)]: with room behind the window the cell after it is
    written in place and the result shares the array of [s]; without, the
    cells are copied to a new array of capacity at least [len(s)+1]
    ([grow] is the growth policy of the runtime, [zero] what it fills the
    spare cells with). *)
Definition go_append {A} (zero : A) (grow : nat → nat)
    (h : list (list A)) (s : slice) (x : A) : list (list A) * slice :=
  if decide (len s < cap s) then
    (alter (<[off s + len s := x]>) (array s) h,
     Slice (array s) (off s) (S (len s)) (cap s))
  else
    let newcap := S (len s) `max` grow (cap s) in
    (h ++ [view h s ++ x :: replicate (newcap - S (len s)) zero],
     Slice (length h) 0 (S (len s)) newcap).

(** The growth of the runtime on small slices: double, and one cell for
    none. *)
Definition double (n : nat) : nat := 1 `max` (2 * n).

(** ** Maps *)

(** The memory of the statements modelled here: the arrays of strings,
    the arrays of map references ([None] is the nil map), and the maps. *)
Record memory := Memory {
  string_arrays : list (list string);
  map_arrays : list (list (option nat));
  maps : list (gmap string string)
}.

(** [make(map[string]string)] and [map[string]string{}]: a new empty
    map. *)
Definition make_map (m : memory) : nat * memory :=
  (length (maps m), Memory (string_arrays m) (map_arrays m) (maps m ++ [∅])).

(** [user[k] = v] *)
Definition map_assign (user : nat) (k v : string) (m : memory) : memory :=
  Memory (string_arrays m) (map_arrays m) (alter (<[k := v]>) user (maps m)).

(** The map a reference points to; reading the nil map finds nothing. *)
Definition deref (m : memory) (user : option nat) : gmap string string :=
  default ∅ (user ≫= (maps m !!.)).

(** ** The statements of the program *)

Section statements.
Context (grow : nat → nat).

(** [attributes := append(lc.Attributes, "dn")] *)
Definition Authenticate_attributes (h : list (list string)) (Attributes : slice)
    : list (list string) * slice :=
  go_append "" grow h Attributes "dn".

(** [for _, attr := range lc.Attributes { user[attr] = entry.GetAttributeValue(attr) }] *)
Definition fill_user (user : nat) (Attributes : slice) (entry : ldap.Entry.t) (m : memory)
    : memory :=
  foldl (λ m attr, map_assign user attr (ldap.Entry.GetAttributeValue entry attr) m)
    m (view (string_arrays m) Attributes).

(** [user := map[string]string{}] and the loop that fills it. *)
Definition new_user (Attributes : slice) (entry : ldap.Entry.t) (m : memory) : nat * memory :=
  let '(user, m) := make_map m in
  (user, fill_user user Attributes entry m).

(** [groups := []string{}
     for _, entry := range sr.Entries { groups = append(groups, entry.GetAttributeValue("cn")) }] *)
Definition GetGroupsOfUser_groups (entries : list ldap.Entry.t) (h : list (list string))
    : list (list string) * slice :=
  foldl (λ '(h, groups) entry,
           go_append "" grow h groups (ldap.Entry.GetAttributeValue entry "cn"))
    (h, empty_slice) entries.

(** [users := []map[string]string{}
     for _, ldap_user := range sr.Entries {
       user := make(map[string]string); ...; users = append(users, user) }] *)
Definition FindUsers_users (Attributes : slice) (entries : list ldap.Entry.t) (m : memory)
    : slice * memory :=
  foldl (λ '(users, m) ldap_user,
           let '(user, m) := new_user Attributes ldap_user m in
           let '(h, users) := go_append None grow (map_arrays m) users (Some user) in
           (users, Memory (string_arrays m) h (maps m)))
    (empty_slice, m) entries.

End statements.

(** The users a slice of references shows. *)
Definition users_view (m : memory) (users : slice) : list (gmap string string) :=
  deref m <$> view (map_arrays m) users.

(** ** Windows on a list *)

Section window.
Context {A : Type}.
Implicit Types (l : list A) (x : A).

(** Writing a cell changes a window when the cell is in it. *)
Lemma window_insert l o n j x :
  take n (drop o (<[j := x]> l))
  = if decide (o ≤ j < o + n) then <[j - o := x]> (take n (drop o l)) else take n (drop o l).
Proof.
  case_decide as Hj.
  - rewrite drop_insert_ge, take_insert_lt by lia. done.
  - destruct (decide (j < o)).
    + by rewrite drop_insert_lt by lia.
    + rewrite drop_insert_ge, take_insert_ge by lia. done.
Qed.

(** A window grown by the cell behind it, once that cell is written. *)
Lemma window_extend l o n x :
  o + n < length l →
  take (S n) (drop o (<[o + n := x]> l)) = take n (drop o l) ++ [x].
Proof.
  intros Hn. rewrite window_insert, decide_True by lia.
  replace (o + n - o) with n by lia.
  destruct (lookup_lt_is_Some_2 (drop o l) n) as [y Hy]; [rewrite length_drop; lia|].
  rewrite (take_S_r _ _ y) by done.
  rewrite insert_app_r_alt by (rewrite length_take, length_drop; lia).
  rewrite length_take, length_drop. by replace (n - _) with 0 by lia.
Qed.

End window.

(** ** [append] *)

Section append.
Context {A : Type} (zero : A) (grow : nat → nat).
Implicit Types (h : list (list A)) (s t : slice) (x : A).

Lemma length_view h s : valid h s → length (view h s) = len s.
Proof. unfold valid, view. intros [? ?]. rewrite length_take, length_drop. lia. Qed.

(** A slice with no cell shows nothing, wherever it points. *)
Lemma view_no_cell h s : valid h s → cap s = 0 → view h s = [].
Proof. unfold valid, view. intros [? _] ?. by replace (len s) with 0 by lia. Qed.

Lemma valid_empty h : valid h empty_slice.
Proof. unfold valid. simpl. lia. Qed.

(** The arrays after a write in place. *)
Lemma backing_alter h i j x a :
  backing (alter (<[j := x]>) i h) a
  = if decide (a = i) then <[j := x]> (backing h a) else backing h a.
Proof.
  unfold backing. case_decide as Hi.
  - rewrite Hi, list_lookup_alter_eq. by destruct (h !! i).
  - by rewrite list_lookup_alter_ne.
Qed.

(** Allocation leaves what the slices show. *)
Lemma view_alloc h k t : valid h t → view (h ++ k) t = view h t.
Proof.
  unfold valid, view, backing. intros [Hlen Hcap].
  destruct (h !! array t) as [l|] eqn:Ht.
  - by rewrite (lookup_app_l_Some _ _ _ _ Ht).
  - simpl in Hcap. by replace (len t) with 0 by lia.
Qed.

(** So does a run that kept the arrays it found. *)
Lemma view_kept h h' t : take (length h) h' = h → valid h t → view h' t = view h t.
Proof. intros Hh Ht. rewrite <-(take_drop (length h) h'), Hh. by apply view_alloc. Qed.

Lemma go_append_len h s x : len (go_append zero grow h s x).2 = S (len s).
Proof. unfold go_append. by case_decide. Qed.

(** The result shows the cells of [s] and then [x]. *)
Lemma go_append_view h s x :
  valid h s → view (go_append zero grow h s x).1 (go_append zero grow h s x).2 = view h s ++ [x].
Proof.
  intros Hs. pose proof (length_view h s Hs) as Hlen. destruct Hs as [? ?].
  unfold go_append. case_decide; unfold view at 1; simpl.
  - rewrite backing_alter, decide_True by done. apply window_extend. lia.
  - unfold backing. simpl. rewrite lookup_app_r, Nat.sub_diag by done. simpl.
    rewrite drop_0, cons_middle, app_assoc.
    apply take_app_length'. rewrite length_app, Hlen. simpl. lia.
Qed.

(** The result is a slice of the new heap. *)
Lemma go_append_valid h s x :
  valid h s → valid (go_append zero grow h s x).1 (go_append zero grow h s x).2.
Proof.
  intros Hs. pose proof (length_view h s Hs) as Hlen. destruct Hs as [? ?].
  unfold go_append, valid. case_decide; simpl.
  - rewrite backing_alter, decide_True, length_insert by done. lia.
  - unfold backing. simpl. rewrite lookup_app_r, Nat.sub_diag by done. simpl.
    rewrite length_app, Hlen. simpl. rewrite length_replicate. lia.
Qed.

(** Every slice that was there still is one. *)
Lemma go_append_valid_other h s x t : valid h t → valid (go_append zero grow h s x).1 t.
Proof.
  intros [? Hcap]. unfold go_append, valid. split; [done|]. case_decide; simpl.
  - rewrite backing_alter. case_decide; by rewrite ?length_insert.
  - unfold backing in *. destruct (h !! array t) as [l|] eqn:Ht.
    + by rewrite (lookup_app_l_Some _ _ _ _ Ht).
    + simpl in Hcap. lia.
Qed.

(** [append] leaves what a slice shows, unless it writes in place a cell
    of its window. *)
Lemma go_append_other h s x t :
  valid h t → ¬ behind s t → view (go_append zero grow h s x).1 t = view h t.
Proof.
  intros Ht Hbehind. unfold go_append. case_decide; simpl; [|by apply view_alloc].
  unfold view, behind in *. rewrite backing_alter. case_decide; [|done].
  rewrite window_insert, decide_False; [done|lia].
Qed.

(** In particular what [s] itself shows. *)
Lemma go_append_self h s x : valid h s → view (go_append zero grow h s x).1 s = view h s.
Proof. intros Hs. apply go_append_other; [done|]. unfold behind. lia. Qed.

(** With room behind [s], a slice whose window holds the cell behind [s]
    shows [x] there afterwards. *)
Lemma go_append_clobbers h s x t :
  behind s t → view (go_append zero grow h s x).1 t = <[off s + len s - off t := x]> (view h t).
Proof.
  intros (Hroom & Harr & Hin). unfold go_append. rewrite decide_True by done. simpl.
  unfold view. by rewrite backing_alter, decide_True, window_insert, decide_True.
Qed.

(** [append] writes no array below [n] when [s] has no room or points at
    or above [n]. *)
Lemma go_append_take h s x n :
  n ≤ length h → (len s < cap s → n ≤ array s) →
  take n (go_append zero grow h s x).1 = take n h.
Proof.
  intros Hn Hs. unfold go_append. case_decide; simpl.
  - by rewrite take_alter_ge by auto.
  - by rewrite take_app_le.
Qed.

Lemma go_append_length h s x : length h ≤ length (go_append zero grow h s x).1.
Proof. unfold go_append. case_decide; simpl; rewrite ?length_alter, ?length_app; lia. Qed.

(** The result points at or above [n] when [s] did, or when it had no
    room. *)
Lemma go_append_array h s x n :
  n ≤ length h → (len s < cap s → n ≤ array s) →
  n ≤ array (go_append zero grow h s x).2.
Proof. intros Hn Hs. unfold go_append. case_decide; simpl; auto. Qed.

(** ** Slices a loop owns *)

(** [s] is a slice of [h] that has no room, or points to an array that
    was not there when the heap had [n] arrays: appending to it writes
    none of these. *)
Definition owned (n : nat) h s : Prop :=
  valid h s ∧ n ≤ length h ∧ (len s < cap s → n ≤ array s).

Lemma owned_empty h : owned (length h) h empty_slice.
Proof. split; [apply valid_empty|]. simpl. lia. Qed.

Lemma go_append_owned n h s x :
  owned n h s → owned n (go_append zero grow h s x).1 (go_append zero grow h s x).2.
Proof.
  intros (Hs & Hn & Harr). split; [by apply go_append_valid|]. split.
  - pose proof (go_append_length h s x). lia.
  - intros _. by apply go_append_array.
Qed.

Lemma go_append_owned_take n h s x :
  owned n h s → take n (go_append zero grow h s x).1 = take n h.
Proof. intros (_ & Hn & Harr). by apply go_append_take. Qed.

End append.

#[export] Hint Resolve valid_empty owned_empty go_append_valid go_append_owned : core.

(** ** The statements compute what [Client] says *)

Section statements_correct.
Context (grow : nat → nat).
Implicit Types (h : list (list string)) (m : memory) (s t : slice).

(** *** The user map *)

Lemma map_assign_last sa ma M u k v :
  map_assign (length M) k v (Memory sa ma (M ++ [u])) = Memory sa ma (M ++ [<[k := v]> u]).
Proof. unfold map_assign. simpl. by rewrite alter_app_r_alt, Nat.sub_diag by done. Qed.

(** The fill loop writes the map it is given, as [user_of_entry] does. *)
Lemma fill_user_spec Attributes entry sa ma M u :
  fill_user (length M) Attributes entry (Memory sa ma (M ++ [u]))
  = Memory sa ma
      (M ++ [foldl (λ user attr, <[attr := ldap.Entry.GetAttributeValue entry attr]> user)
               u (view sa Attributes)]).
Proof.
  unfold fill_user. simpl. generalize (view sa Attributes) as attrs.
  intros attrs. revert u. induction attrs as [|attr attrs IH]; intros u; simpl; [done|].
  by rewrite map_assign_last, IH.
Qed.

(** A user is a new map, filled as [user_of_entry] says; nothing else is
    written. *)
Lemma new_user_spec Attributes entry m :
  new_user Attributes entry m
  = (length (maps m),
     Memory (string_arrays m) (map_arrays m)
       (maps m ++ [user_of_entry (view (string_arrays m) Attributes) entry])).
Proof. unfold new_user, make_map, user_of_entry. simpl. by rewrite fill_user_spec. Qed.

(** *** The loops that append *)

Lemma groups_of_entries_snoc entries entry :
  groups_of_entries (entries ++ [entry])
  = groups_of_entries entries ++ [ldap.Entry.GetAttributeValue entry "cn"].
Proof. unfold groups_of_entries. by rewrite foldl_app. Qed.

Lemma users_of_entries_snoc attrs entries entry :
  users_of_entries attrs (entries ++ [entry])
  = users_of_entries attrs entries ++ [user_of_entry attrs entry].
Proof. unfold users_of_entries. by rewrite foldl_app. Qed.

Lemma length_users_of_entries attrs entries :
  length (users_of_entries attrs entries) = length entries.
Proof.
  induction entries as [|entry entries IH] using rev_ind; [done|].
  rewrite users_of_entries_snoc, !length_app, IH. done.
Qed.

(** The loop of [GetGroupsOfUser]: its slice shows the groups of
    [groups_of_entries], and it owns the array that holds them. *)
Lemma GetGroupsOfUser_groups_spec entries h :
  let r := GetGroupsOfUser_groups grow entries h in
  view r.1 r.2 = groups_of_entries entries
  ∧ owned (length h) r.1 r.2
  ∧ take (length h) r.1 = h.
Proof.
  induction entries as [|entry entries IH] using rev_ind; simpl.
  { split; [done|]. split; [auto|]. by rewrite firstn_all. }
  unfold GetGroupsOfUser_groups in *. rewrite foldl_app. simpl in *.
  destruct (foldl _ _ entries) as [h' groups]. simpl in *.
  destruct IH as (Hview & Howned & Htake).
  rewrite go_append_view, Hview, groups_of_entries_snoc by apply Howned.
  rewrite go_append_owned_take by done. auto.
Qed.

(** The loop of [FindUsers]: the maps it makes are those of
    [users_of_entries], one new map per entry in the order of the
    entries, its slice shows their references, and it writes no array and
    no map that was there. *)
Lemma FindUsers_users_spec Attributes entries m :
  let r := FindUsers_users grow Attributes entries m in
  string_arrays r.2 = string_arrays m
  ∧ maps r.2 = maps m ++ users_of_entries (view (string_arrays m) Attributes) entries
  ∧ view (map_arrays r.2) r.1 = Some <$> seq (length (maps m)) (length entries)
  ∧ owned (length (map_arrays m)) (map_arrays r.2) r.1
  ∧ take (length (map_arrays m)) (map_arrays r.2) = map_arrays m.
Proof.
  induction entries as [|entry entries IH] using rev_ind; simpl.
  { rewrite app_nil_r, firstn_all. auto 6. }
  unfold FindUsers_users in *. rewrite foldl_app. cbn [foldl] in *.
  destruct (foldl _ _ entries) as [users m']. cbn [fst snd] in *.
  destruct IH as (Hstrings & Hmaps & Hview & Howned & Htake).
  rewrite new_user_spec, (surjective_pairing (go_append _ _ _ _ _)). simpl.
  rewrite go_append_view, Hview, Hstrings, Hmaps by apply Howned.
  rewrite users_of_entries_snoc, go_append_owned_take by done.
  rewrite !length_app, length_users_of_entries. simpl.
  rewrite Nat.add_1_r, seq_S, fmap_snoc, app_assoc. auto 6.
Qed.

(** The maps behind consecutive references. *)
Lemma deref_seq sa ma M us :
  deref (Memory sa ma (M ++ us)) <$> (Some <$> seq (length M) (length us)) = us.
Proof.
  apply list_eq. intros i. rewrite !list_lookup_fmap.
  destruct (us !! i) as [u|] eqn:Hu.
  - rewrite lookup_seq_lt by (by eapply lookup_lt_Some). simpl. unfold deref. simpl.
    by rewrite lookup_app_r, Nat.add_comm, Nat.add_sub, Hu by lia.
  - by rewrite lookup_seq_ge by (by apply lookup_ge_None).
Qed.

(** *** [attributes := append(lc.Attributes, "dn")] *)

(** What every slice shows after the statement. *)
Lemma Authenticate_attributes_view h s t :
  valid h t →
  view (Authenticate_attributes grow h s).1 t
  = if decide (behind s t) then <[off s + len s - off t := "dn"]> (view h t) else view h t.
Proof.
  intros Ht. unfold Authenticate_attributes. case_decide.
  - by apply go_append_clobbers.
  - by apply go_append_other.
Qed.

(** A slice without room is safe: nothing a caller holds changes. *)
Lemma Authenticate_attributes_full h s t :
  cap s ≤ len s → valid h t → view (Authenticate_attributes grow h s).1 t = view h t.
Proof.
  intros Hs Ht. rewrite Authenticate_attributes_view by done.
  apply decide_False. unfold behind. lia.
Qed.

(** [t] shows the attributes of a request: those of the configured slice
    [s] and ["dn"], from where [s] starts when in the array of [s]. *)
Definition requested h s t : Prop :=
  valid h t ∧ view h t = view h s ++ ["dn"] ∧ (array t = array s → off t = off s).

(** The slice the statement builds is such a slice. *)
Lemma Authenticate_attributes_requested h s :
  valid h s →
  requested (Authenticate_attributes grow h s).1 s (Authenticate_attributes grow h s).2.
Proof.
  intros Hs. unfold requested, Authenticate_attributes.
  rewrite go_append_view, go_append_self by done.
  split; [by apply go_append_valid|]. split; [done|].
  destruct Hs as [_ Hcap]. unfold go_append, backing in *. case_decide; simpl; [done|].
  intros Harr. rewrite lookup_ge_None_2 in Hcap by lia. simpl in Hcap. lia.
Qed.

(** The statement leaves such a slice as it is: it writes ["dn"] where
    the slice has it, or no cell of the slice. *)
Lemma Authenticate_attributes_kept h s t :
  valid h s → requested h s t → requested (Authenticate_attributes grow h s).1 s t.
Proof.
  intros Hs (Ht & Hview & Hoff). pose proof (length_view h s Hs) as Hlen.
  unfold requested, Authenticate_attributes.
  rewrite go_append_self by done. split; [by apply go_append_valid_other|].
  split; [|done]. destruct (decide (behind s t)) as [Hb|Hb]; [|by rewrite go_append_other].
  rewrite go_append_clobbers, Hview by done. destruct Hb as (_ & Harr & _).
  rewrite (Hoff Harr), Nat.add_comm, Nat.add_sub, insert_app_r_alt by lia.
  by rewrite Hlen, Nat.sub_diag.
Qed.

(** The heap after [n] executions of the statement on the configured
    slice, and the slices they built. *)
Fixpoint Authenticate_attributes_calls (n : nat) h s : list (list string) * list slice :=
  match n with
  | 0 => (h, [])
  | S n =>
      let r := Authenticate_attributes grow (Authenticate_attributes_calls n h s).1 s in
      (r.1, r.2 :: (Authenticate_attributes_calls n h s).2)
  end.

(** The request a call built is not damaged by the calls that follow,
    however many: after [n] calls every one of the [n] slices shows the
    attributes and ["dn"], and the configured slice what it showed. *)
Lemma Authenticate_attributes_again n h s :
  valid h s →
  let r := Authenticate_attributes_calls n h s in
  valid r.1 s ∧ view r.1 s = view h s ∧ length r.2 = n
  ∧ Forall (λ t, view r.1 t = view h s ++ ["dn"]) r.2.
Proof.
  intros Hs. simpl.
  enough (valid (Authenticate_attributes_calls n h s).1 s
          ∧ view (Authenticate_attributes_calls n h s).1 s = view h s
          ∧ length (Authenticate_attributes_calls n h s).2 = n
          ∧ Forall (requested (Authenticate_attributes_calls n h s).1 s)
              (Authenticate_attributes_calls n h s).2) as (Hv & Hs' & Hn & Hts).
  { split; [done|]. split; [done|]. split; [done|]. eapply Forall_impl; [done|].
    intros t (_ & -> & _). by rewrite Hs'. }
  induction n as [|n (Hv & Hs' & Hn & Hts)]; simpl; [by auto|].
  split; [by apply go_append_valid_other|].
  split; [by unfold Authenticate_attributes; rewrite go_append_self|].
  split; [by rewrite Hn|]. constructor; [by apply Authenticate_attributes_requested|].
  eapply Forall_impl; [done|]. intros t Ht. by apply Authenticate_attributes_kept.
Qed.

End statements_correct.

(** ** What the statements promise *)

Section refinement.
Context `{Formatter} (grow : nat → nat).
Implicit Types (h : list (list string)) (m : memory) (s t : slice).

(** C10. [attributes := append(lc.Attributes, "dn")], on a heap where the
    slice [s] is [lc.Attributes]: the new slice shows the attributes the
    request of [Authenticate] carries in the model of [Client], the
    configured slice shows what it did, and any other slice [t] shows
    what it did unless [s] had room and the cell behind it is in the
    window of [t], which then reads ["dn"]. *)
Theorem Authenticate_attributes_spec h s t lc username :
  valid h s → view h s = Attributes lc → valid h t →
  let r := Authenticate_attributes grow h s in
  valid r.1 r.2
  ∧ view r.1 r.2 = ldap.SearchRequest.Attributes (authSearchRequest lc username)
  ∧ view r.1 s = Attributes lc
  ∧ view r.1 t
    = if decide (behind s t) then <[off s + len s - off t := "dn"]> (view h t) else view h t.
Proof.
  intros Hs Hlc Ht. simpl. rewrite <-Hlc.
  split; [by apply go_append_valid|]. split; [by apply go_append_view|].
  split; [by apply go_append_self|]. by apply Authenticate_attributes_view.
Qed.

(** The loop of [GetGroupsOfUser] over slices: the slice it returns
    shows the groups the model of [Client] computes, in the order of the
    entries, and what every slice that was there shows is unchanged. *)
Theorem GetGroupsOfUser_groups_refines entries h t :
  let r := GetGroupsOfUser_groups grow entries h in
  valid r.1 r.2
  ∧ view r.1 r.2 = groups_of_entries entries
  ∧ (valid h t → view r.1 t = view h t).
Proof.
  destruct (GetGroupsOfUser_groups_spec grow entries h) as (Hview & (Hvalid & _) & Htake).
  auto using view_kept.
Qed.

(** C12. The loop of [FindUsers] over slices and map references: the
    slice it returns shows the users the model of [Client] computes, in
    the order of the entries; no two of its references are the same map;
    the maps and the slices that were there are unchanged. *)
Theorem FindUsers_users_refines Attributes entries m t user :
  let r := FindUsers_users grow Attributes entries m in
  users_view r.2 r.1 = users_of_entries (view (string_arrays m) Attributes) entries
  ∧ NoDup (view (map_arrays r.2) r.1)
  ∧ string_arrays r.2 = string_arrays m
  ∧ (valid (map_arrays m) t → view (map_arrays r.2) t = view (map_arrays m) t)
  ∧ (user < length (maps m) → deref r.2 (Some user) = deref m (Some user)).
Proof.
  destruct (FindUsers_users_spec grow Attributes entries m)
    as (Hstrings & Hmaps & Hview & _ & Htake).
  simpl. unfold users_view. rewrite Hview. repeat split; [| |done|by auto using view_kept|].
  - destruct (FindUsers_users _ _ _ _).2 as [sa ma M]. simpl in *. rewrite Hmaps.
    rewrite <-(length_users_of_entries (view (string_arrays m) Attributes) entries).
    apply deref_seq.
  - apply (NoDup_fmap_2 Some), NoDup_seq.
  - intros Huser. unfold deref. simpl. by rewrite Hmaps, lookup_app_l.
Qed.

End refinement.

(** ** At concrete inputs *)

(** A caller's array of three attributes, and a client configured with a
    slice of the two first: [all := []string{"cn", "mail", "uid"}] and
    [Attributes: all[:2]]. *)
Definition caller_heap : list (list string) := [["cn"; "mail"; "uid"]].
Definition all_attributes : slice := Slice 0 0 3 3.
Definition configured : slice := Slice 0 0 2 3.

Ltac slice_compute := vm_compute; first [done | lia].

(** The caller's third attribute is overwritten by the first
    authentication. *)
Lemma Authenticate_attributes_spec_witness :
  view (Authenticate_attributes double caller_heap configured).1 all_attributes
  = ["cn"; "mail"; "dn"].
Proof.
  destruct (Authenticate_attributes_spec double caller_heap configured all_attributes
              fixtures.client "alice") as (_ & _ & _ & ->); slice_compute.
Defined.

(** The groups of two entries, appended to an empty slice: two arrays are
    allocated, and the caller's is untouched. *)
Lemma GetGroupsOfUser_groups_refines_witness :
  view (GetGroupsOfUser_groups double [fixtures.admins; fixtures.devs] caller_heap).1
       (GetGroupsOfUser_groups double [fixtures.admins; fixtures.devs] caller_heap).2
  = ["admins"; "devs"]
  ∧ view (GetGroupsOfUser_groups double [fixtures.admins; fixtures.devs] caller_heap).1
         all_attributes
    = ["cn"; "mail"; "uid"].
Proof.
  destruct (GetGroupsOfUser_groups_refines double [fixtures.admins; fixtures.devs]
              caller_heap all_attributes) as (_ & -> & ->); slice_compute.
Defined.

(** Two users, each with a map of its own. *)
Lemma FindUsers_users_refines_witness :
  users_view
    (FindUsers_users double configured [fixtures.alice; fixtures.carol1]
       (Memory caller_heap [] [])).2
    (FindUsers_users double configured [fixtures.alice; fixtures.carol1]
       (Memory caller_heap [] [])).1
  = [{["cn" := "Alice A"; "mail" := "alice@example.com"]}; {["cn" := "Carol"; "mail" := ""]}].
Proof.
  destruct (FindUsers_users_refines double configured [fixtures.alice; fixtures.carol1]
              (Memory caller_heap [] []) empty_slice 0) as (-> & _); slice_compute.
Defined.

(** Three authentications on that client: every request shows the two
    attributes and ["dn"], and one cell was written. *)
Example three_authentications :
  view (Authenticate_attributes_calls double 3 caller_heap configured).1
    <$> (Authenticate_attributes_calls double 3 caller_heap configured).2
  = replicate 3 ["cn"; "mail"; "dn"]
  ∧ (Authenticate_attributes_calls double 3 caller_heap configured).1
    = [["cn"; "mail"; "dn"]].
Proof. by vm_compute. Qed.

(** A client configured with all three: every authentication copies, and
    the caller's array stays as it is. *)
Example three_authentications_full :
  view (Authenticate_attributes_calls double 3 caller_heap all_attributes).1
    <$> (Authenticate_attributes_calls double 3 caller_heap all_attributes).2
  = replicate 3 ["cn"; "mail"; "uid"; "dn"]
  ∧ view (Authenticate_attributes_calls double 3 caller_heap all_attributes).1 all_attributes
    = ["cn"; "mail"; "uid"]
  ∧ length (Authenticate_attributes_calls double 3 caller_heap all_attributes).1 = 4.
Proof. by vm_compute. Qed.
