(* ===== verification/Logging.v ===== *)
(** * The log line

    [search_with_retry] logs its retry with
    [log.Printf("Retrying: [%s:%d] \n", searchRequest, retry)]: a format
    with two directives applied to a pointer to a request and a counter.
    This file gives [fmt.Sprintf] on the operands the program prints
    (strings, integers, booleans, slices and a pointer to a struct) with
    the verbs [%s], [%d] and [%v], shows that it extends [sprintf1] and
    agrees with [Sprintf_s_d], and computes the text of the log line: the
    request is printed field by field, its integers and its boolean as
    bad-verb reports, and the filter, with the user name the caller gave,
    as it is. *)

From stdpp Require Import base tactics option list strings pretty.
From Stdlib Require Import ZArith Ascii Lia.
From S2P Require Import Prelude GoFmt Ldap Sim Client Fixtures Session Retry Search Auth Safety.
From S2P Require Import Steps Pool Threads Conform.

(** ** Operands *)

(** An operand of [Sprintf], with the name of its type where the output
    shows it. *)
#[local] Unset Elimination Schemes.
Inductive value : Type :=
| VString (s : string)
| VInt (n : Z)
| VBool (b : bool)
| VSlice (type : string) (elems : list value)
| VStructPtr (type : string) (fields : list value).
#[local] Set Elimination Schemes.

Definition type_name (v : value) : string :=
  match v with
  | VString _ => "string"
  | VInt _ => "int"
  | VBool _ => "bool"
  | VSlice type _ => type
  | VStructPtr type _ => type
  end.

Definition fmt_bool (b : bool) : string := if b then "true" else "false".

(** What is written for an operand the verb does not apply to:
    [%!verb(type=value)]. *)
Definition bad_verb (verb : ascii) (type value : string) : string :=
  "%!" +:+ String verb ("(" +:+ type +:+ "=" +:+ value +:+ ")").

Definition is_verb (c verb : ascii) : bool := bool_decide (verb = c).

(** An operand under a verb, one of [s], [d] and [v].  Slices and structs
    are printed element by element under the same verb, between brackets
    and braces. *)
Fixpoint fmt_value (verb : ascii) (v : value) : string :=
  match v with
  | VString s => if is_verb "d" verb then bad_verb verb "string" s else s
  | VInt n => if is_verb "s" verb then bad_verb verb "int" (pretty n) else pretty n
  | VBool b => if is_verb "v" verb then fmt_bool b else bad_verb verb "bool" (fmt_bool b)
  | VSlice _ elems => "[" +:+ String.concat " " (fmt_value verb <$> elems) +:+ "]"
  | VStructPtr _ fields => "&{" +:+ String.concat " " (fmt_value verb <$> fields) +:+ "}"
  end.

(** The operands no directive consumed: [%!(EXTRA type=value, ...)]. *)
Definition extra_operands (args : list value) : string :=
  match args with
  | [] => ""
  | _ => "%!(EXTRA "
         +:+ String.concat ", " ((λ v, type_name v +:+ "=" +:+ fmt_value "v" v) <$> args)
         +:+ ")"
  end.

Definition known_verb (c : ascii) : bool := is_verb "s" c || is_verb "d" c || is_verb "v" c.

(** [fmt.Sprintf(f, args...)] on the rest [f] of a format and the
    operands [args] no directive has consumed yet.  [None]: the format
    has a directive outside the modelled ones (a flag, a width, another
    verb). *)
Fixpoint sprintf_from (f : string) (args : list value) : option string :=
  match f with
  | "" => Some (extra_operands args)
  | String c rest =>
      if is_percent c then
        match rest with
        | "" => Some ("%!(NOVERB)" +:+ extra_operands args)
        | String v rest' =>
            if is_percent v then String "%"%char <$> sprintf_from rest' args
            else if known_verb v then
              match args with
              | [] => String.app (missing_operand v) <$> sprintf_from rest' []
              | arg :: args' => String.app (fmt_value v arg) <$> sprintf_from rest' args'
              end
            else None
        end
      else String c <$> sprintf_from rest args
  end.

Definition sprintf (format : string) (args : list value) : option string :=
  sprintf_from format args.

(** ** The operands of the program *)








(** ** The formatter *)

Lemma is_verb_known c : is_verb c c = true.
Proof. by apply bool_decide_eq_true. Qed.








(** A string operand under a verb of [sprintf1]. *)
Lemma fmt_value_plain v arg : plain_verb v = true → fmt_value v (VString arg) = arg.
Proof.
  unfold plain_verb. simpl. unfold is_verb.
  intros [H|H]%orb_prop; apply bool_decide_eq_true in H; by subst.
Qed.

Lemma plain_verb_known v : plain_verb v = true → known_verb v = true.
Proof.
  unfold plain_verb, known_verb, is_verb.
  intros [H|H]%orb_prop; apply bool_decide_eq_true in H; by subst.
Qed.

Lemma extra_operands_string arg (used : bool) :
  extra_operands (if used then [] else [VString arg])
  = if used then "" else extra_operand arg.
Proof. by destruct used. Qed.

(** [sprintf] extends the formatter of the filters: where [sprintf1]
    speaks, [sprintf] on the one string operand says the same. *)
Lemma sprintf1_from_sprintf f arg used out :
  sprintf1_from f arg used = Some out →
  sprintf_from f (if used then [] else [VString arg]) = Some out.
Proof.
  remember (String.length f) as n eqn:Hn. revert f used out Hn.
  induction n as [n IH] using lt_wf_ind. intros [|c [|v f]] used out ->; simpl.
  - by rewrite extra_operands_string.
  - rewrite extra_operands_string. by destruct (is_percent c).
  - destruct (is_percent c) eqn:Hc; [destruct (is_percent v) eqn:Hv|].
    + intros (out' & Hout & ->)%fmap_Some.
      erewrite IH; [done| |done..]. simpl. lia.
    + destruct (plain_verb v) eqn:Hp; [|done]. rewrite (plain_verb_known v Hp).
      intros (out' & Hout & ->)%fmap_Some.
      eapply (IH (String.length f)) in Hout; [|simpl; lia|done]. simpl in Hout.
      destruct used; rewrite Hout; cbn -[fmt_value]; [done|]. by rewrite fmt_value_plain.
    + intros (out' & Hout & ->)%fmap_Some.
      change (sprintf1_from (String v f) arg used = Some out') in Hout.
      eapply (IH (String.length (String v f))) in Hout; [|simpl; lia|done].
      change (String c <$> sprintf_from (String v f) (if used then [] else [VString arg])
              = Some (String c out')).
      by rewrite Hout.
Qed.

Lemma sprintf1_sprintf format arg out :
  sprintf1 format arg = Some out → sprintf format [VString arg] = Some out.
Proof. apply (sprintf1_from_sprintf format arg false). Qed.

(** The address [Connect] dials is [sprintf] of its format. *)
Lemma sprintf_address host port :
  sprintf "%s:%d" [VString host; VInt port] = Some (Sprintf_s_d host port).
Proof. unfold sprintf, Sprintf_s_d. simpl. by rewrite app_nil_r_s. Qed.

(** ** The line *)










(** ** The log of a run *)

Section log.
Context `{Formatter}.



Context `{ldap.Backend W}.
Implicit Types (s : state W).


End log.

(** ** At concrete inputs *)

