(* ===== verification/Scoping.v ===== *)
(** * The sessions a client uses

    A client is given sessions in two ways: it finds one stored in
    [lc.Conn], or the library dials one for it.  [scoped] is the type of
    the traces in which every session that is upgraded, bound, searched or
    closed was given before.  The discipline [scoping] makes a thread keep
    the handles it loaded or dialled and use no other; every call keeps
    it, so under every interleaving the client works on its own sessions
    only, whatever handles exist in the world behind the library. *)

From stdpp Require Import base tactics option list strings gmap.
From Stdlib Require Import ZArith Lia.
From S2P Require Import Prelude GoFmt Ldap Sim Client Fixtures Session Retry Search Auth Safety.
From S2P Require Import Steps Pool Threads.

#[local] Set Warnings "-clear-no-such-hyp".

(** The session an event hands to the client. *)
Definition dialled (e : event) : list ldap.Conn :=
  match e with
  | EDial _ _ (inr l) | EDialTLS _ _ _ (inr l) => [l]
  | _ => []
  end.

(** The session an event works on. *)
Definition used (e : event) : list ldap.Conn :=
  match e with
  | EStartTLS l _ _ | EBind l _ _ _ | ESearch l _ _ | EClose l => [l]
  | _ => []
  end.

(** The sessions given by the end of a trace that started with [K]. *)
Definition given (K : list ldap.Conn) (tr : list event) : list ldap.Conn :=
  foldl (λ K e, dialled e ++ K) K tr.

(** Every event works on a session of [K] or on one dialled before it. *)
Fixpoint scoped (K : list ldap.Conn) (tr : list event) : Prop :=
  match tr with
  | [] => True
  | e :: tr => used e ⊆ K ∧ scoped (dialled e ++ K) tr
  end.

#[export] Instance scoped_dec K tr : Decision (scoped K tr).
Proof. revert K. induction tr; simpl; apply _. Defined.

(** The trace is scoped and the stored session was given. *)
Definition well_scoped {W} (K : list ldap.Conn) (s : state W) : Prop :=
  scoped K (trace s) ∧ ∀ c, Conn (lc s) = Some c → c ∈ given K (trace s).

(** A thread keeps the handles it loaded and dialled, and uses and stores
    no other. *)
Definition scoping : discipline :=
  {| ghost := list ldap.Conn;
     allowed K a :=
       match a with
       | ASetConn l | AStartTLS l _ | ABind l _ _ | ASearch l _ | AClose l => l ∈ K
       | _ => True
       end;
     next K a :=
       match a return answer a → option (list ldap.Conn) with
       | AGetConn => λ conn, Some (match conn with Some l => l :: K | None => K end)
       | ADial _ _ | ADialTLS _ _ _ => λ r, Some (match r with inr l => l :: K | inl _ => K end)
       | _ => λ _, Some K
       end |}.

(** ** Traces *)

Lemma scoped_app K t1 t2 : scoped K (t1 ++ t2) ↔ scoped K t1 ∧ scoped (given K t1) t2.
Proof. revert K. induction t1 as [|e t1 IH]; intros K; simpl; [|rewrite IH]; tauto. Qed.

Lemma given_snoc K tr e : given K (tr ++ [e]) = dialled e ++ given K tr.
Proof. unfold given. by rewrite foldl_app. Qed.

Lemma scoped_snoc K tr e : scoped K (tr ++ [e]) ↔ scoped K tr ∧ used e ⊆ given K tr.
Proof. rewrite scoped_app. simpl. tauto. Qed.

Lemma given_snoc_subseteq K tr e : given K tr ⊆ given K (tr ++ [e]).
Proof. rewrite given_snoc. set_solver. Qed.

(** ** Soundness *)

(** What a thread keeps was given. *)
Definition kept {W} (K0 K : list ldap.Conn) (s : state W) : Prop := K ⊆ given K0 (trace s).

Lemma do_action_given `{ldap.Backend W} K0 a (s : state W) :
  given K0 (trace s) ⊆ given K0 (trace (do_action a s).2).
Proof. destruct a; simpl; (done || apply given_snoc_subseteq). Qed.

Lemma scoping_concurrent `{ldap.Backend W} K0 :
  Concurrent scoping (kept (W:=W) K0) (well_scoped K0).
Proof.
  split; [|intros K K' a s HK _ _ _; unfold kept; by rewrite <-do_action_given].
  intros K a s HK [Hs Hc] Ha. unfold kept, well_scoped in *.
  destruct a; simpl in *; rewrite ?scoped_snoc, ?given_snoc; simpl;
    (split; [try (split; [done|]); set_solver|]); eexists; (split; [done|]).
  all: try destruct (Conn (lc s)); try destruct (_.1); set_solver.
Qed.

(** ** The calls of the client *)

(** The goals of the discipline: a handle is one of those kept. *)
Ltac handle_kept :=
  first
    [ progress cbn [allowed next scoping]
    | match goal with |- _ ∈ _ => by repeat constructor end ].

Section calls.
Context `{Formatter}.
Implicit Types (cfg : LDAPClient) (a : api_call).

Lemma api_steps_scoping cfg a :
  obeys (both cautious scoping) (λ _ _, True) (false, []) (api_steps cfg a).
Proof. destruct a; prog_unfold; prog_cases_with handle_kept. Qed.

Context `{ldap.Backend W}.
Implicit Types (s : state W) (calls : list api_call) (sched : list nat).


(** The same of a call that runs alone. *)
Lemma api_run_scoped a s s' K : api_run a s = Some s' → well_scoped K s → well_scoped K s'.
Proof.
  rewrite api_run_result, <-exec_api_steps. unfold ran. intros Hrun Hs.
  destruct (exec_obeys (both cautious scoping)
              (both_holds cautious scoping flag_holds (kept K))
              (both_shared (λ _, True) (well_scoped K)) (λ _ _, True) (false, [])
              (api_steps (lc s) a) s)
    as (r & g & Hr & _ & _ & _ & Hs');
    [apply both_concurrent; [apply cautious_concurrent|apply scoping_concurrent]
    |split; [done|unfold kept; set_solver]|done|apply api_steps_scoping|].
  destruct (exec (api_steps (lc s) a) s) as [r' s1]. by simplify_eq/=.
Qed.


End calls.

(** ** At concrete inputs *)


(** A trace that searches a session nobody gave is not scoped. *)
Example foreign_session_not_scoped :
  ¬ scoped [0] [ESearch 1 (userSearchRequest fixtures.client "alice") (inl ErrUserDoesNotExist)].
Proof. apply (bool_decide_unpack _). by vm_compute. Qed.
