(* ===== verification/Load.v ===== *)
(** * Load: what the callers of a client spend together

    [Budget] bounds what one call spends.  Here the calls of a pool are
    charged together: a body [affords] a budget when, whatever the
    answers, the accesses it still makes cost no more, and the budgets of
    the threads and what the trace was charged add up to what the pool
    started with.  So [n] calls that interleave in any way sleep [3 n]
    seconds at most in all and send [2 n] searches at most. *)

From stdpp Require Import base tactics option list strings gmap.
From Stdlib Require Import ZArith Lia.
From S2P Require Import Prelude GoFmt Ldap Sim Client Fixtures Session Retry Search Auth Safety.
From S2P Require Import Steps Pool Threads Provenance Budget.

#[local] Open Scope Z_scope.

(** The events a run added to the trace. *)
Definition added {W} (s s' : state W) : list event := drop (length (trace s)) (trace s').

(** The budgets of the threads, in all. *)
Definition budgets (bs : list Z) : Z := foldr Z.add 0 bs.

(** A body affords the budget [b]: every access it makes is charged
    something that is not negative and no more than is left. *)
Fixpoint affords {R} (charge : event → Z) (b : Z) (p : prog R) : Prop :=
  match p with
  | Ret _ | Panic => 0 ≤ b
  | Act a k =>
      0 ≤ b ∧ ∀ ans, 0 ≤ total charge (events_of a ans)
                     ∧ affords charge (b - total charge (events_of a ans)) (k ans)
  end.

Lemma budgets_insert bs i b b' :
  bs !! i = Some b → budgets (<[i := b']> bs) = budgets bs - b + b'.
Proof.
  revert i. induction bs as [|b0 bs IH]; intros [|i] Hi; simplify_eq/=; [lia|].
  rewrite (IH i) by done. lia.
Qed.

Lemma budgets_replicate (n : nat) b : budgets (replicate n b) = b * Z.of_nat n.
Proof. induction n as [|n IH]; simpl; lia. Qed.

Section pool.
Context `{ldap.Backend W} {R : Type} (charge : event → Z).
Implicit Types (s : state W) (ps : list (prog R)) (bs : list Z).

Lemma affords_nonneg b (p : prog R) : affords charge b p → 0 ≤ b.
Proof. destruct p; simpl; tauto. Qed.

Lemma affords_budgets bs ps : Forall2 (affords charge) bs ps → 0 ≤ budgets bs.
Proof.
  induction 1 as [|b p bs ps Hb _ IH]; simpl; [done|].
  apply affords_nonneg in Hb. lia.
Qed.

(** A step of the pool charges the trace what it takes from the budget
    of the thread that moves. *)
Lemma pool_step_affords i bs ps s :
  Forall2 (affords charge) bs ps →
  ∃ bs' t, trace (pool_step i (ps, s)).2 = trace s ++ t
           ∧ 0 ≤ total charge t
           ∧ total charge t + budgets bs' = budgets bs
           ∧ Forall2 (affords charge) bs' (pool_step i (ps, s)).1.
Proof.
  intros Hbs. destruct (pool_step_cases i ps s) as [->|(a & k & Hp & ->)].
  { exists bs, []. rewrite app_nil_r. simpl. by repeat split. }
  destruct (Forall2_lookup_r _ _ _ _ _ Hbs Hp) as (b & Hb & _ & Hk).
  destruct (Hk (do_action a s).1) as [Hcharge Hrest].
  exists (<[i := b - total charge (events_of a (do_action a s).1)]> bs),
    (events_of a (do_action a s).1). simpl.
  rewrite do_action_trace, (budgets_insert _ _ b) by done.
  repeat split; [done|lia|by apply Forall2_insert].
Qed.

(** However the threads interleave, the trace is charged no more than
    the budgets the threads afford. *)
Lemma run_schedule_affords sched bs ps s :
  Forall2 (affords charge) bs ps →
  ∃ t, trace (run_schedule sched (ps, s)).2 = trace s ++ t
       ∧ 0 ≤ total charge t ≤ budgets bs.
Proof.
  revert bs ps s. induction sched as [|i sched IH]; intros bs ps s Hbs.
  { exists []. rewrite app_nil_r. pose proof (affords_budgets bs ps Hbs). by simpl. }
  destruct (pool_step_affords i bs ps s Hbs) as (bs' & t & Ht & Hpos & Hsum & Hbs').
  rewrite run_schedule_cons. destruct (pool_step i (ps, s)) as [ps' s'].
  destruct (IH bs' ps' s' Hbs') as (t' & Ht' & Hcharge). simpl in *.
  exists (t ++ t'). rewrite Ht', Ht, <-app_assoc, total_app. split; [done|lia].
Qed.

End pool.

(** ** Budgets of bodies *)

Section logic.
Context (charge : event → Z).

Lemma affords_le {R} b b' (p : prog R) : b ≤ b' → affords charge b p → affords charge b' p.
Proof.
  revert b b'. induction p as [r| |a k IH]; intros b b' Hb; simpl; [lia..|].
  intros [Hpos Hk]. split; [lia|]. intros ans. destruct (Hk ans) as [Hc Hrest].
  split; [done|]. eapply IH; [|done]. lia.
Qed.

(** A body, then what follows it: the budgets add up. *)
Lemma affords_bind {A B} b1 b (p : prog A) (f : A → prog B) :
  affords charge b1 p → b1 ≤ b → (∀ r, affords charge (b - b1) (f r)) →
  affords charge b (p ≫= f).
Proof.
  revert b1 b. induction p as [r| |a k IH]; intros b1 b; simpl; intros Hp Hb Hf.
  - eapply affords_le, Hf. lia.
  - lia.
  - destruct Hp as [Hpos Hk]. split; [lia|]. intros ans. destruct (Hk ans) as [Hc Hrest].
    split; [done|]. eapply (IH _ _ _ Hrest); [lia|]. intros r.
    eapply affords_le, Hf. lia.
Qed.

(** What follows a body that is free, and a body that nothing charged
    follows. *)
Lemma affords_bind_free {A B} b (p : prog A) (f : A → prog B) :
  affords charge 0 p → 0 ≤ b → (∀ r, affords charge b (f r)) → affords charge b (p ≫= f).
Proof.
  intros Hp Hb Hf. apply (affords_bind 0); [done..|].
  intros r. by rewrite Z.sub_0_r.
Qed.

Lemma affords_bind_last {A B} b (p : prog A) (f : A → prog B) :
  affords charge b p → (∀ r, affords charge 0 (f r)) → affords charge b (p ≫= f).
Proof.
  intros Hp Hf. apply (affords_bind b); [done|lia|].
  intros r. by rewrite Z.sub_diag.
Qed.

Lemma affords_fmap {A B} b (p : prog A) (f : A → B) :
  affords charge b p → affords charge b (f <$> p).
Proof. intros Hp. by apply (affords_bind_last b p (λ x, Ret (f x))). Qed.

(** Every access has an answer. *)
#[export] Instance answer_inhabited a : Inhabited (answer a).
Proof.
  destruct a; simpl; try apply _; apply populate;
    [exact (inr 0%nat)..|exact (inr (ldap.SearchResult.mk []))].
Qed.

Lemma affords_act a b :
  (∀ ans, 0 ≤ total charge (events_of a ans) ≤ b) → affords charge b (act a).
Proof.
  intros Ha. simpl. pose proof (Ha inhabitant).
  split; [lia|]. intros ans. specialize (Ha ans). split; lia.
Qed.

End logic.

(** ** The calls of the client *)

Create HintDb afford.

(** Follow a body along its binds: what is free first, then the one part
    that is charged, then what is free again. *)
Ltac afford :=
  repeat first
    [ match goal with
      | |- affords _ _ (Ret _) => simpl; lia
      | |- affords _ _ Panic => simpl; lia
      | |- (_ ≤ _)%Z => lia
      end
    | solve [eauto with afford]
    | solve [eapply affords_le; [|eauto with afford]; lia]
    | apply affords_fmap
    | apply affords_bind_free; [solve [afford]|lia|intros ?]
    | apply affords_bind_last; [solve [afford]|intros ?]
    | prog_case ].

Section meter.
Context `{Formatter} (charge : event → Z) (one all : Z).
Context (Hfree : ∀ e, match e with ESearch _ _ _ | ESleep _ => True | _ => charge e = 0 end).
Context (Hone : ∀ l req r, 0 ≤ charge (ESearch l req r) ≤ one).
Context (Hall : ∀ req, affords charge all (search_steps req)).
Context (Hle : 0 ≤ one ≤ all).
Implicit Types (cfg : LDAPClient) (a : api_call).

(** The accesses that are free on the meter. *)
Lemma affords_free (a : action) :
  match a with ASearch _ _ | ASleep _ => False | _ => True end → affords charge 0 (act a).
Proof.
  intros Ha. apply affords_act. intros ans.
  destruct a; simpl in *; try done; try lia;
    match goal with |- context [charge ?e] => pose proof (Hfree e) as Hc; simpl in Hc; lia end.
Qed.

Lemma affords_search l req : affords charge one (act (ASearch l req)).
Proof. apply affords_act. intros r. simpl. pose proof (Hone l req r). lia. Qed.

#[local] Hint Resolve affords_search Hall : afford.
#[local] Hint Extern 1 (affords _ 0 (act _)) => by apply affords_free : afford.

Lemma load_Conn_affords : affords charge 0 load_Conn.
Proof. unfold load_Conn. afford. Qed.

#[local] Hint Resolve load_Conn_affords : afford.

Lemma Connect_steps_affords cfg : affords charge 0 (Connect_steps cfg).
Proof. unfold Connect_steps. afford. Qed.

Lemma Close_steps_affords : affords charge 0 Close_steps.
Proof. unfold Close_steps. afford. Qed.

#[local] Hint Resolve Connect_steps_affords Close_steps_affords : afford.

(** Every call affords what a search with its retry does. *)
Lemma api_steps_affords cfg a : affords charge all (api_steps cfg a).
Proof.
  destruct a; unfold api_steps, SearchUser_steps, Authenticate_steps, GetGroupsOfUser_steps,
    FindUsers_steps; afford.
Qed.

End meter.

(** ** The two meters *)

(** The goals of a budget along the accesses of a body: what an access
    is charged, and that the budget left is not negative. *)
Ltac afford_cases :=
  first
    [ progress cbn [affords events_of total foldr sleep_charge search_charge]
    | match goal with
      | |- (_ ≤ _)%Z => by vm_compute
      | |- _ ∧ _ => split
      | |- ∀ _, _ => intro
      end ].

(** A search with its retry sleeps three seconds at most and sends two
    searches at most. *)
Lemma search_steps_affords_sleep req : affords sleep_charge (3 * Second) (search_steps req).
Proof. prog_unfold. prog_cases_with afford_cases. Qed.

Lemma search_steps_affords_search req : affords search_charge 2 (search_steps req).
Proof. prog_unfold. prog_cases_with afford_cases. Qed.

Section calls.
Context `{Formatter}.
Implicit Types (cfg : LDAPClient) (a : api_call) (calls : list api_call).

(** Every call affords three seconds of sleep and two searches. *)
Lemma api_steps_affords_sleep cfg a : affords sleep_charge (3 * Second) (api_steps cfg a).
Proof.
  apply (api_steps_affords sleep_charge 0);
    [by intros []|done|apply search_steps_affords_sleep|by vm_compute].
Qed.

Lemma api_steps_affords_search cfg a : affords search_charge 2 (api_steps cfg a).
Proof.
  apply (api_steps_affords search_charge 1);
    [by intros []|by intros; simpl; lia|apply search_steps_affords_search|lia].
Qed.

Lemma api_pool_affords charge b cfg calls :
  (∀ a, affords charge b (api_steps cfg a)) →
  Forall2 (affords charge) (replicate (length calls) b) (api_pool cfg calls).
Proof.
  intros Hb. unfold api_pool. induction calls as [|a calls IH]; simpl; by constructor.
Qed.

Context `{ldap.Backend W}.
Implicit Types (s : state W) (sched : list nat).

(** C27. However the calls of [n] callers interleave and whatever the
    server answers, the events they add to the trace hold sleeps of
    [3 n] seconds at most in all and [2 n] searches at most: what the
    trace is charged is what the threads spent of their budgets. *)
Theorem interleaving_load cfg calls s sched :
  let s' := (run_schedule sched (api_pool cfg calls, s)).2 in
  trace s' = trace s ++ added s s'
  ∧ 0 ≤ total sleep_charge (added s s') ≤ 3 * Second * Z.of_nat (length calls)
  ∧ 0 ≤ total search_charge (added s s') ≤ 2 * Z.of_nat (length calls).
Proof.
  destruct (run_schedule_affords sleep_charge sched _ _ s
              (api_pool_affords _ _ cfg calls (api_steps_affords_sleep cfg)))
    as (t & Ht & Hsleep).
  destruct (run_schedule_affords search_charge sched _ _ s
              (api_pool_affords _ _ cfg calls (api_steps_affords_search cfg)))
    as (t' & Ht' & Hsearch).
  simpl. unfold added. rewrite Ht in Ht'. apply app_inv_head in Ht' as <-.
  rewrite Ht, drop_app_length. by rewrite budgets_replicate in Hsleep, Hsearch.
Qed.

End calls.

(** ** At concrete inputs *)

(** Two lookups on a server that refuses two searches, the first search
    of the one sent before the retry of the other: each is refused once,
    and the two budgets are spent to the last. *)
Example two_callers_spent :
  let s := fixtures.connected_on (fixtures.busy 2) in
  let s' := (run_schedule (replicate 3 0%nat ++ replicate 12 1%nat ++ replicate 9 0%nat)
               (api_pool fixtures.client [CallSearchUser "alice"; CallSearchUser "alice"], s)).2 in
  total sleep_charge (added s s') = 3 * Second * 2
  ∧ total search_charge (added s s') = 2 * 2.
Proof. by vm_compute. Qed.
