(* ===== verification/Appends.v ===== *)
(** * Callers that append to the configured slice at once

    [Authenticate] runs [append(lc.Attributes, "dn")] on a slice every
    caller of the client shares.  Here the statement is a thread that
    stops at every access to memory other threads can reach: with room
    behind the slice, the store of ["dn"] into the cell behind it;
    without, the load of every cell it copies, and the publication of the
    new array.  Run alone, a thread does what [go_append] does.  Under
    every interleaving the slice every caller gets shows the configured
    attributes and ["dn"], and the configured slice shows what it did:
    the stores of the callers hit one cell, which no caller loads, with
    one value.  They are a data race all the same ([append_race]). *)

From stdpp Require Import base tactics option list strings gmap.
From Stdlib Require Import Lia.
From S2P Require Import Prelude GoFmt Ldap Client Fixtures Slices.

Section appends.
Context (grow : nat → nat) (s : slice).

(** Where a caller stands in the statement: before the test of the
    capacity, copying (with the cells it has copied so far), or done
    with the slice it got. *)
Inductive append_thread : Type :=
| Start
| Copying (copied : list string)
| Done (r : slice).

(** The cell a thread is about to store to. *)
Definition next_store (t : append_thread) : option (nat * nat) :=
  match t with
  | Start => if decide (len s < cap s) then Some (array s, off s + len s) else None
  | _ => None
  end.

(** The cell a thread is about to load. *)
Definition next_load (t : append_thread) : option (nat * nat) :=
  match t with
  | Copying copied =>
      if decide (length copied < len s) then Some (array s, off s + length copied) else None
  | _ => None
  end.

(** One access of a thread. *)
Definition append_step (t : append_thread) (h : list (list string))
    : append_thread * list (list string) :=
  match t with
  | Start =>
      if decide (len s < cap s) then
        (Done (Slice (array s) (off s) (S (len s)) (cap s)),
         alter (<[off s + len s := "dn"]>) (array s) h)
      else (Copying [], h)
  | Copying copied =>
      if decide (length copied < len s) then
        (Copying (copied ++ [default "" (backing h (array s) !! (off s + length copied))]), h)
      else
        let newcap := S (len s) `max` grow (cap s) in
        (Done (Slice (length h) 0 (S (len s)) newcap),
         h ++ [copied ++ "dn" :: replicate (newcap - S (len s)) ""])
  | Done r => (Done r, h)
  end.

(** Thread [i] moves. *)
Definition appends_step (i : nat) (c : list append_thread * list (list string))
    : list append_thread * list (list string) :=
  match c.1 !! i with
  | Some t => (<[i := (append_step t c.2).1]> c.1, (append_step t c.2).2)
  | None => c
  end.

Definition run_appends (sched : list nat) (c : list append_thread * list (list string))
    : list append_thread * list (list string) :=
  foldl (λ c i, appends_step i c) c sched.

(** Two threads are about to store to one cell, or one to store to the
    cell the other is about to load. *)
Definition append_race (ts : list append_thread) : Prop :=
  ∃ i j t u cell, i ≠ j ∧ ts !! i = Some t ∧ ts !! j = Some u
    ∧ next_store t = Some cell ∧ (next_store u = Some cell ∨ next_load u = Some cell).

(** What is true of a thread on the heap [h], the heap at the start
    being [h0]: the cells it copied are those of the configured slice,
    and the slice it got shows the attributes requested. *)
Definition thread_ok (h0 h : list (list string)) (t : append_thread) : Prop :=
  match t with
  | Start => True
  | Copying copied => ¬ len s < cap s ∧ copied = take (length copied) (view h0 s)
  | Done r => requested h s r
  end.

Definition appends_ok (h0 : list (list string)) (c : list append_thread * list (list string))
    : Prop :=
  valid c.2 s ∧ view c.2 s = view h0 s ∧ Forall (thread_ok h0 c.2) c.1.

(** ** A step that completes is [go_append] *)

Lemma append_step_store h :
  len s < cap s →
  append_step Start h
  = (Done (Authenticate_attributes grow h s).2, (Authenticate_attributes grow h s).1).
Proof.
  intros Hroom. unfold append_step, Authenticate_attributes, go_append.
  by rewrite !decide_True.
Qed.

Lemma append_step_publish h :
  valid h s → ¬ len s < cap s →
  append_step (Copying (view h s)) h
  = (Done (Authenticate_attributes grow h s).2, (Authenticate_attributes grow h s).1).
Proof.
  intros Hs Hroom. unfold append_step, Authenticate_attributes, go_append.
  rewrite (length_view h s Hs), !decide_False by lia. done.
Qed.

(** A load of the copy reads the next cell of the configured slice. *)
Lemma append_step_load h copied :
  valid h s → length copied < len s → copied = take (length copied) (view h s) →
  ∃ v, append_step (Copying copied) h = (Copying (copied ++ [v]), h)
       ∧ copied ++ [v] = take (length (copied ++ [v])) (view h s).
Proof.
  intros Hs Hlen Hcopied. pose proof (length_view h s Hs) as Hview.
  destruct (lookup_lt_is_Some_2 (view h s) (length copied)) as [v Hv]; [lia|].
  exists v. unfold append_step. rewrite decide_True by done.
  assert (backing h (array s) !! (off s + length copied) = Some v) as ->.
  { unfold view in Hv. by rewrite lookup_take_lt, lookup_drop in Hv by lia. }
  split; [done|]. rewrite length_app. simpl.
  by rewrite Nat.add_1_r, (take_S_r _ _ v), <-Hcopied.
Qed.

(** ** Every interleaving *)

Lemma thread_ok_step h0 h t :
  valid h s → thread_ok h0 h t → thread_ok h0 (Authenticate_attributes grow h s).1 t.
Proof. destruct t; simpl; [done..|]. by apply Authenticate_attributes_kept. Qed.

(** A step of a thread keeps what is true of the threads. *)
Lemma appends_step_ok h0 i c : appends_ok h0 c → appends_ok h0 (appends_step i c).
Proof.
  destruct c as [ts h]. intros (Hs & Hview & Hts). unfold appends_step. simpl.
  destruct (ts !! i) as [t|] eqn:Ht; [|done].
  pose proof (proj1 (Forall_lookup _ _) Hts i t Ht) as Hok.
  assert (∀ t', thread_ok h0 (Authenticate_attributes grow h s).1 t' →
    appends_ok h0 (<[i := t']> ts, (Authenticate_attributes grow h s).1)) as Hcompletes.
  { intros t' Ht'. unfold Authenticate_attributes in *. split; [by apply go_append_valid_other|].
    split; [by simpl; rewrite go_append_self|]. apply Forall_insert; [|done].
    eapply Forall_impl; [done|]. intros u. by apply thread_ok_step. }
  destruct t as [|copied|r]; simpl in Hok.
  - destruct (decide (len s < cap s)) as [Hroom|Hroom].
    + rewrite append_step_store by done. simpl.
      by apply Hcompletes, Authenticate_attributes_requested.
    + unfold append_step. rewrite decide_False by done. simpl.
      split; [done|]. split; [done|]. by apply Forall_insert.
  - destruct Hok as [Hroom Hok]. rewrite <-Hview in Hok.
    destruct (decide (length copied < len s)) as [Hlen|Hlen].
    + destruct (append_step_load h copied) as (v & -> & Hv); [done..|]. simpl.
      split; [done|]. split; [done|]. apply Forall_insert; [done|]. simpl. by rewrite <-Hview.
    + pose proof (length_view h s Hs) as Hlength.
      rewrite (take_ge (view h s)) in Hok by lia. subst copied.
      rewrite append_step_publish by done. simpl.
      by apply Hcompletes, Authenticate_attributes_requested.
  - simpl. rewrite list_insert_id by done. done.
Qed.

Lemma run_appends_ok h0 sched c : appends_ok h0 c → appends_ok h0 (run_appends sched c).
Proof.
  revert c. induction sched as [|i sched IH]; intros c Hc; [done|].
  by apply IH, appends_step_ok.
Qed.

(** However the callers interleave, the configured slice shows what it
    did, and the slice every caller got shows the configured attributes
    and ["dn"]. *)
Theorem appends_interleaving h0 n sched i r :
  valid h0 s →
  view (run_appends sched (replicate n Start, h0)).2 s = view h0 s
  ∧ ((run_appends sched (replicate n Start, h0)).1 !! i = Some (Done r) →
     valid (run_appends sched (replicate n Start, h0)).2 r
     ∧ view (run_appends sched (replicate n Start, h0)).2 r = view h0 s ++ ["dn"]).
Proof.
  intros Hs.
  destruct (run_appends_ok h0 sched (replicate n Start, h0)) as (_ & Hview & Hts).
  { split; [done|]. split; [done|]. by apply Forall_replicate. }
  split; [done|]. intros Hr.
  destruct (proj1 (Forall_lookup _ _) Hts i _ Hr) as (Hvalid & Hrequested & _).
  by rewrite <-Hview.
Qed.

(** ** A caller alone *)

Lemma run_appends_cons i sched c :
  run_appends (i :: sched) c = run_appends sched (appends_step i c).
Proof. done. Qed.

Lemma run_appends_app sched1 sched2 c :
  run_appends (sched1 ++ sched2) c = run_appends sched2 (run_appends sched1 c).
Proof. apply foldl_app. Qed.

Lemma appends_step_single t h :
  appends_step 0 ([t], h) = ([(append_step t h).1], (append_step t h).2).
Proof. done. Qed.

Lemma run_appends_done k r h :
  run_appends (replicate k 0) ([Done r], h) = ([Done r], h).
Proof. induction k as [|k IH]; [done|]. by rewrite replicate_S, run_appends_cons. Qed.

Lemma run_appends_copying k j h :
  valid h s → j + k ≤ len s →
  run_appends (replicate k 0) ([Copying (take j (view h s))], h)
  = ([Copying (take (j + k) (view h s))], h).
Proof.
  intros Hs. pose proof (length_view h s Hs) as Hview.
  revert j. induction k as [|k IH]; intros j Hj; [by rewrite Nat.add_0_r|].
  rewrite replicate_S, run_appends_cons, appends_step_single.
  destruct (append_step_load h (take j (view h s))) as (v & -> & Hv);
    [done|rewrite length_take; lia|by rewrite length_take, Nat.min_l by lia|].
  rewrite length_app, length_take in Hv. simpl in Hv.
  replace (j `min` length (view h s) + 1) with (S j) in Hv by lia.
  cbn [fst snd]. rewrite Hv, IH by lia. by replace (S j + k) with (j + S k) by lia.
Qed.

(** Run alone, a caller does what [append] does, in [len(s) + 2]
    accesses at most. *)
Theorem append_alone h :
  valid h s →
  run_appends (replicate (len s + 2) 0) ([Start], h)
  = ([Done (Authenticate_attributes grow h s).2], (Authenticate_attributes grow h s).1).
Proof.
  intros Hs. replace (len s + 2) with (S (len s + 1)) by lia.
  rewrite replicate_S, run_appends_cons, appends_step_single.
  destruct (decide (len s < cap s)) as [Hroom|Hroom].
  - rewrite append_step_store by done. apply run_appends_done.
  - unfold append_step at 1 2. rewrite decide_False by done. cbn [fst snd].
    change (Copying []) with (Copying (take 0 (view h s))).
    rewrite replicate_add, run_appends_app, (run_appends_copying (len s) 0 h Hs) by lia.
    rewrite take_ge by (rewrite length_view; [lia|done]).
    change (replicate 1 0) with [0].
    by rewrite run_appends_cons, appends_step_single, append_step_publish.
Qed.

(** ** The race *)

(** With room behind the configured slice, two callers at the start of
    the statement are about to store to one cell. *)
Lemma append_race_room ts i j :
  len s < cap s → i ≠ j → ts !! i = Some Start → ts !! j = Some Start → append_race ts.
Proof.
  intros Hroom Hij Hi Hj. exists i, j, Start, Start, (array s, off s + len s).
  simpl. rewrite decide_True by done. auto 8.
Qed.

(** Without room no caller stores to memory another can reach. *)
Lemma append_race_free ts : ¬ len s < cap s → ¬ append_race ts.
Proof.
  intros Hroom (i & j & t & u & cell & _ & _ & _ & Ht & _).
  destruct t; simpl in Ht; [|done..]. by rewrite decide_False in Ht.
Qed.

End appends.

(** ** At concrete inputs *)

(** Two authentications at once on the client configured with two of the
    caller's three attributes: both are about to store to the third cell
    of the caller's array, and when both have, both requests show the
    two attributes and ["dn"]. *)
Example two_appends :
  append_race configured [Start; Start]
  ∧ run_appends double configured [0; 1] ([Start; Start], caller_heap)
    = ([Done (Slice 0 0 3 3); Done (Slice 0 0 3 3)], [["cn"; "mail"; "dn"]]).
Proof.
  split; [|by vm_compute].
  apply (append_race_room configured [Start; Start] 0 1); [simpl; lia|done..].
Qed.

(** Two authentications at once on the client configured with all three:
    each copies, load by load, and publishes an array of its own. *)
Example two_appends_full :
  run_appends double all_attributes [0; 1; 0; 1; 0; 1; 1; 0; 0; 1]
    ([Start; Start], caller_heap)
  = ([Done (Slice 1 0 4 6); Done (Slice 2 0 4 6)],
     [["cn"; "mail"; "uid"];
      ["cn"; "mail"; "uid"; "dn"; ""; ""];
      ["cn"; "mail"; "uid"; "dn"; ""; ""]]).
Proof. by vm_compute. Qed.
